(** * The graph labelling search task (vowpalwabbit/search_graph.cc)

    A shallow embedding of the task's hooks ([initialize], [setup],
    [run_bfs], [add_edge_features], [del_edge_features], [macro_f], [run])
    together with the properties of the task's specification.

    Conventions of the embedding:
    - [uint32_t] and [size_t] values are integers in [Z]; arithmetic that can
      wrap is written with [u32] and [u64];
    - [float] values are idealised as exact rationals ([Qc], rationals in
      lowest terms, so that equality of values is Leibniz equality);
      [macro_f] is given a second time with [float] read as IEEE 754
      binary32, to evaluate it with the rounding of the machine, and so are
      the first loop of [setup], [add_edge_features] and
      [del_edge_features] (module [Binary32]), for the properties that
      depend on the rounding;
    - [vector]s, [v_array]s and C arrays are lists, read with [load] and
      written with [store]; an access out of range is [Undefined];
    - a [throw exception()] is [Fatal] with the message written to [cerr]. *)

From Stdlib Require Import ZArith QArith Qcanon Lia String Ascii Permutation.
From Stdlib Require Import Floats.SpecFloat.
From stdpp Require Import base list.

#[local] Open Scope Z_scope.

Module GraphTask.

(** ** Outcomes of a hook *)

Inductive outcome (A : Type) : Type :=
| Done (a : A)          (* normal return *)
| Fatal (msg : string)  (* message on cerr, then throw exception() *)
| Undefined             (* an access outside an array: no defined behaviour *)
| OutOfFuel.            (* recursion budget of the embedding exhausted *)

Arguments Done {A} a.
Arguments Fatal {A} msg.
Arguments Undefined {A}.
Arguments OutOfFuel {A}.

#[global] Instance outcome_ret : MRet outcome := λ A a, Done a.

#[global] Instance outcome_bind : MBind outcome := λ A B f m,
  match m with
  | Done a => f a
  | Fatal msg => Fatal msg
  | Undefined => Undefined
  | OutOfFuel => OutOfFuel
  end.

Definition is_fatal {A} (m : outcome A) : Prop := ∃ msg, m = Fatal msg.

(** ** Machine integers and arrays *)

Definition u32 (z : Z) : Z := z mod 2 ^ 32.
Definition u64 (z : Z) : Z := z mod 2 ^ 64.

Definition size {A} (l : list A) : Z := Z.of_nat (length l).

Definition load {A} (l : list A) (i : Z) : outcome A :=
  if (0 <=? i) && (i <? size l)
  then match l !! Z.to_nat i with Some a => Done a | None => Undefined end
  else Undefined.

Definition store {A} (l : list A) (i : Z) (a : A) : outcome (list A) :=
  if (0 <=? i) && (i <? size l) then Done (<[Z.to_nat i := a]> l) else Undefined.

(** ** Data model *)

(** One cost pair of a cost-sensitive label; only [class_index] (a
    [uint32_t]) is read by the task. *)
Record wclass : Type := { class_index : Z }.

Record feature : Type := { x : Qc; weight_index : Z }.

(** The fields of [example] the task reads or writes.  [atomics] and
    [sum_feat_sq] are the per-namespace arrays, indexed by namespace. *)
Record example : Type := {
  costs : list wclass;          (* l.cs.costs *)
  indices : list Z;             (* active namespaces *)
  atomics : list (list feature);
  sum_feat_sq : list Qc;
  total_sum_feat_sq : Qc;
  num_features : Z
}.

Definition set_indices (v : list Z) (e : example) : example :=
  {| costs := costs e; indices := v; atomics := atomics e; sum_feat_sq := sum_feat_sq e; total_sum_feat_sq := total_sum_feat_sq e; num_features := num_features e |}.
Definition set_atomics (v : list (list feature)) (e : example) : example :=
  {| costs := costs e; indices := indices e; atomics := v; sum_feat_sq := sum_feat_sq e; total_sum_feat_sq := total_sum_feat_sq e; num_features := num_features e |}.
Definition set_sum_feat_sq (v : list Qc) (e : example) : example :=
  {| costs := costs e; indices := indices e; atomics := atomics e; sum_feat_sq := v; total_sum_feat_sq := total_sum_feat_sq e; num_features := num_features e |}.
Definition set_total_sum_feat_sq (v : Qc) (e : example) : example :=
  {| costs := costs e; indices := indices e; atomics := atomics e; sum_feat_sq := sum_feat_sq e; total_sum_feat_sq := v; num_features := num_features e |}.
Definition set_num_features (v : Z) (e : example) : example :=
  {| costs := costs e; indices := indices e; atomics := atomics e; sum_feat_sq := sum_feat_sq e; total_sum_feat_sq := total_sum_feat_sq e; num_features := v |}.

(** [struct task_data].  [cur_node] is the index in the episode of the
    example it points to; [weight_vector] is never read and is left out. *)
Record task_data : Type := {
  num_loops : Z;
  K : Z;
  use_structure : bool;
  separate_learners : bool;
  mask : Z;
  multiplier : Z;
  ss : Z;
  wpp : Z;
  N : Z;
  E : Z;
  adj : list (list Z);
  bfs : list Z;
  pred : list Z;
  cur_node : Z;
  neighbor_predictions : list Qc;
  confusion_matrix : list Z;
  true_counts : list Qc;
  true_counts_total : Qc
}.

Definition set_mask (v : Z) (D : task_data) : task_data :=
  {| num_loops := num_loops D; K := K D; use_structure := use_structure D; separate_learners := separate_learners D; mask := v; multiplier := multiplier D; ss := ss D; wpp := wpp D; N := N D; E := E D; adj := adj D; bfs := bfs D; pred := pred D; cur_node := cur_node D; neighbor_predictions := neighbor_predictions D; confusion_matrix := confusion_matrix D; true_counts := true_counts D; true_counts_total := true_counts_total D |}.
Definition set_multiplier (v : Z) (D : task_data) : task_data :=
  {| num_loops := num_loops D; K := K D; use_structure := use_structure D; separate_learners := separate_learners D; mask := mask D; multiplier := v; ss := ss D; wpp := wpp D; N := N D; E := E D; adj := adj D; bfs := bfs D; pred := pred D; cur_node := cur_node D; neighbor_predictions := neighbor_predictions D; confusion_matrix := confusion_matrix D; true_counts := true_counts D; true_counts_total := true_counts_total D |}.
Definition set_ss (v : Z) (D : task_data) : task_data :=
  {| num_loops := num_loops D; K := K D; use_structure := use_structure D; separate_learners := separate_learners D; mask := mask D; multiplier := multiplier D; ss := v; wpp := wpp D; N := N D; E := E D; adj := adj D; bfs := bfs D; pred := pred D; cur_node := cur_node D; neighbor_predictions := neighbor_predictions D; confusion_matrix := confusion_matrix D; true_counts := true_counts D; true_counts_total := true_counts_total D |}.
Definition set_wpp (v : Z) (D : task_data) : task_data :=
  {| num_loops := num_loops D; K := K D; use_structure := use_structure D; separate_learners := separate_learners D; mask := mask D; multiplier := multiplier D; ss := ss D; wpp := v; N := N D; E := E D; adj := adj D; bfs := bfs D; pred := pred D; cur_node := cur_node D; neighbor_predictions := neighbor_predictions D; confusion_matrix := confusion_matrix D; true_counts := true_counts D; true_counts_total := true_counts_total D |}.
Definition set_N (v : Z) (D : task_data) : task_data :=
  {| num_loops := num_loops D; K := K D; use_structure := use_structure D; separate_learners := separate_learners D; mask := mask D; multiplier := multiplier D; ss := ss D; wpp := wpp D; N := v; E := E D; adj := adj D; bfs := bfs D; pred := pred D; cur_node := cur_node D; neighbor_predictions := neighbor_predictions D; confusion_matrix := confusion_matrix D; true_counts := true_counts D; true_counts_total := true_counts_total D |}.
Definition set_E (v : Z) (D : task_data) : task_data :=
  {| num_loops := num_loops D; K := K D; use_structure := use_structure D; separate_learners := separate_learners D; mask := mask D; multiplier := multiplier D; ss := ss D; wpp := wpp D; N := N D; E := v; adj := adj D; bfs := bfs D; pred := pred D; cur_node := cur_node D; neighbor_predictions := neighbor_predictions D; confusion_matrix := confusion_matrix D; true_counts := true_counts D; true_counts_total := true_counts_total D |}.
Definition set_adj (v : list (list Z)) (D : task_data) : task_data :=
  {| num_loops := num_loops D; K := K D; use_structure := use_structure D; separate_learners := separate_learners D; mask := mask D; multiplier := multiplier D; ss := ss D; wpp := wpp D; N := N D; E := E D; adj := v; bfs := bfs D; pred := pred D; cur_node := cur_node D; neighbor_predictions := neighbor_predictions D; confusion_matrix := confusion_matrix D; true_counts := true_counts D; true_counts_total := true_counts_total D |}.
Definition set_bfs (v : list Z) (D : task_data) : task_data :=
  {| num_loops := num_loops D; K := K D; use_structure := use_structure D; separate_learners := separate_learners D; mask := mask D; multiplier := multiplier D; ss := ss D; wpp := wpp D; N := N D; E := E D; adj := adj D; bfs := v; pred := pred D; cur_node := cur_node D; neighbor_predictions := neighbor_predictions D; confusion_matrix := confusion_matrix D; true_counts := true_counts D; true_counts_total := true_counts_total D |}.
Definition set_pred (v : list Z) (D : task_data) : task_data :=
  {| num_loops := num_loops D; K := K D; use_structure := use_structure D; separate_learners := separate_learners D; mask := mask D; multiplier := multiplier D; ss := ss D; wpp := wpp D; N := N D; E := E D; adj := adj D; bfs := bfs D; pred := v; cur_node := cur_node D; neighbor_predictions := neighbor_predictions D; confusion_matrix := confusion_matrix D; true_counts := true_counts D; true_counts_total := true_counts_total D |}.
Definition set_cur_node (v : Z) (D : task_data) : task_data :=
  {| num_loops := num_loops D; K := K D; use_structure := use_structure D; separate_learners := separate_learners D; mask := mask D; multiplier := multiplier D; ss := ss D; wpp := wpp D; N := N D; E := E D; adj := adj D; bfs := bfs D; pred := pred D; cur_node := v; neighbor_predictions := neighbor_predictions D; confusion_matrix := confusion_matrix D; true_counts := true_counts D; true_counts_total := true_counts_total D |}.
Definition set_neighbor_predictions (v : list Qc) (D : task_data) : task_data :=
  {| num_loops := num_loops D; K := K D; use_structure := use_structure D; separate_learners := separate_learners D; mask := mask D; multiplier := multiplier D; ss := ss D; wpp := wpp D; N := N D; E := E D; adj := adj D; bfs := bfs D; pred := pred D; cur_node := cur_node D; neighbor_predictions := v; confusion_matrix := confusion_matrix D; true_counts := true_counts D; true_counts_total := true_counts_total D |}.
Definition set_confusion_matrix (v : list Z) (D : task_data) : task_data :=
  {| num_loops := num_loops D; K := K D; use_structure := use_structure D; separate_learners := separate_learners D; mask := mask D; multiplier := multiplier D; ss := ss D; wpp := wpp D; N := N D; E := E D; adj := adj D; bfs := bfs D; pred := pred D; cur_node := cur_node D; neighbor_predictions := neighbor_predictions D; confusion_matrix := v; true_counts := true_counts D; true_counts_total := true_counts_total D |}.
Definition set_true_counts (v : list Qc) (D : task_data) : task_data :=
  {| num_loops := num_loops D; K := K D; use_structure := use_structure D; separate_learners := separate_learners D; mask := mask D; multiplier := multiplier D; ss := ss D; wpp := wpp D; N := N D; E := E D; adj := adj D; bfs := bfs D; pred := pred D; cur_node := cur_node D; neighbor_predictions := neighbor_predictions D; confusion_matrix := confusion_matrix D; true_counts := v; true_counts_total := true_counts_total D |}.
Definition set_true_counts_total (v : Qc) (D : task_data) : task_data :=
  {| num_loops := num_loops D; K := K D; use_structure := use_structure D; separate_learners := separate_learners D; mask := mask D; multiplier := multiplier D; ss := ss D; wpp := wpp D; N := N D; E := E D; adj := adj D; bfs := bfs D; pred := pred D; cur_node := cur_node D; neighbor_predictions := neighbor_predictions D; confusion_matrix := confusion_matrix D; true_counts := true_counts D; true_counts_total := v |}.

(** The fields of the host's [vw] object the task reads.  An entry of
    [pairs] holds the two namespace characters of a [-q] option, each
    converted to [int] as the code converts them (the values of [i0] and
    [i1] in [add_edge_features]). *)
Record vw : Type := {
  weight_mask : Z;
  vw_wpp : Z;
  stride_shift : Z;
  pairs : list (Z * Z)
}.

(** ** [initialize] *)

(** The three program options: [vm.count(..)] and, for the first, its value. *)
Record options : Type := {
  search_graph_num_loops : option Z;
  search_graph_no_structure : bool;
  search_graph_separate_learners : bool
}.

(** [new task_data()] value-initialises the object: every scalar is zero,
    every vector empty. *)
Definition new_task_data : task_data :=
  {| num_loops := 0; K := 0; use_structure := false; separate_learners := false;
     mask := 0; multiplier := 0; ss := 0; wpp := 0; N := 0; E := 0;
     adj := []; bfs := []; pred := []; cur_node := 0;
     neighbor_predictions := []; confusion_matrix := [];
     true_counts := []; true_counts_total := Q2Qc 0 |}.

Definition calloc {A} (zero : A) (n : Z) : list A := replicate (Z.to_nat n) zero.

(** Returns the task data and the argument of [sch.set_num_learners] when
    it is called. *)
Definition initialize (vm : options) (num_actions : Z) : task_data * option Z :=
  let num_loops0 := match search_graph_num_loops vm with Some v => v | None => 2 end in
  let use_structure0 := negb (search_graph_no_structure vm) in
  let separate0 :=
    if search_graph_separate_learners vm then true else separate_learners new_task_data in
  let '(num_loops1, separate1) :=
    if num_loops0 <=? 1 then (1, false) else (num_loops0, separate0) in
  let K1 := num_actions in
  let D :=
    {| num_loops := num_loops1; K := K1; use_structure := use_structure0;
       separate_learners := separate1;
       mask := 0; multiplier := 0; ss := 0; wpp := 0; N := 0; E := 0;
       adj := []; bfs := []; pred := []; cur_node := 0;
       neighbor_predictions := calloc (Q2Qc 0) (u64 (K1 + 1));
       confusion_matrix := calloc 0 (u64 (u64 (K1 + 1) * u64 (K1 + 1)));
       true_counts := replicate (Z.to_nat (u64 (K1 + 1))) (Q2Qc 1);
       true_counts_total := Q2Qc (inject_Z (u64 (K1 + 1))) |} in
  (D, if separate1 then Some num_loops1 else None).

Definition example_is_test (l : list wclass) : bool := size l =? 0.

Definition example_is_edge (e : example) : bool := 1 <? size (costs e).

(** ** [run_bfs] *)

(** The pair of [D.bfs] and the local [touched]. *)
Definition bfs_state : Type := list Z * list bool.

(** Body of the innermost loop: [if (!touched[m]) { push_back(m); touched[m] = true; }]. *)
Definition touch (m : Z) (st : bfs_state) : outcome bfs_state :=
  t ← load st.2 m;
  if t : bool then Done st
  else touched ← store st.2 m true; Done (st.1 ++ [m], touched).

Fixpoint touch_costs (cs : list wclass) (st : bfs_state) : outcome bfs_state :=
  match cs with
  | [] => Done st
  | c :: cs' => st' ← touch (u32 (class_index c - 1)) st; touch_costs cs' st'
  end.

(** [for (size_t id : D.adj[n]) for (j ..) ..] *)
Fixpoint touch_edges (ec : list example) (ids : list Z) (st : bfs_state) : outcome bfs_state :=
  match ids with
  | [] => Done st
  | id :: ids' =>
      e ← load ec id;
      st' ← touch_costs (costs e) st;
      touch_edges ec ids' st'
  end.

(** [while (i < D.bfs.size()) { .. i++; }] *)
Fixpoint drain (fuel : nat) (adj0 : list (list Z)) (ec : list example)
    (i : Z) (st : bfs_state) : outcome (Z * bfs_state) :=
  match fuel with
  | O => OutOfFuel
  | S fuel' =>
      if i <? size st.1 then
        n ← load st.1 i;
        ids ← load adj0 n;
        st' ← touch_edges ec ids st;
        drain fuel' adj0 ec (i + 1) st'
      else Done (i, st)
  end.

(** [for (uint32_t n=0; n<D.N; n++) if (!touched[n]) { ..; break; }], the
    candidates [n] given as a list. *)
Fixpoint seed (ns : list Z) (st : bfs_state) : outcome bfs_state :=
  match ns with
  | [] => Done st
  | n :: ns' =>
      t ← load st.2 n;
      if t : bool then seed ns' st
      else touched ← store st.2 n true; Done (st.1 ++ [n], touched)
  end.

(** [while (D.bfs.size() < D.N) { .. }] *)
Fixpoint bfs_loop (fuel : nat) (Nn : Z) (adj0 : list (list Z)) (ec : list example)
    (i : Z) (st : bfs_state) : outcome bfs_state :=
  match fuel with
  | O => OutOfFuel
  | S fuel' =>
      if size st.1 <? Nn then
        '(i', st') ← drain (S (Z.to_nat Nn)) adj0 ec i st;
        st'' ← (if size st'.1 <? Nn then seed (seqZ 0 Nn) st' else Done st');
        bfs_loop fuel' Nn adj0 ec i' st''
      else Done st
  end.

Definition run_bfs (D : task_data) (ec : list example) : outcome task_data :=
  let touched := replicate (Z.to_nat (N D)) false in
  touched ← store touched 0 true;
  st ← bfs_loop (S (Z.to_nat (N D))) (N D) (adj D) ec 0 ([0], touched);
  Done (set_bfs st.1 D).

(** ** [setup] *)

(** First loop of [setup]: count nodes and edges, accumulate label priors. *)
Fixpoint count_records (ec : list example) (D : task_data) : outcome task_data :=
  match ec with
  | [] => Done D
  | e :: ec' =>
      if example_is_edge e then count_records ec' (set_E (u32 (E D + 1)) D)
      else if 0 <? E D then Fatal "error: got a node after getting edges!"
      else
        let D1 := set_N (u32 (N D + 1)) D in
        match costs e with
        | [] => count_records ec' D1
        | c :: _ =>
            t ← load (true_counts D1) (class_index c);
            tc ← store (true_counts D1) (class_index c) (t + Q2Qc 1)%Qc;
            count_records ec'
              (set_true_counts_total (true_counts_total D1 + Q2Qc 1)%Qc
                 (set_true_counts tc D1))
        end
  end.

(** [for (n ..) if (class_index > D.N) throw] *)
Fixpoint check_ids (Nn : Z) (cs : list wclass) : outcome unit :=
  match cs with
  | [] => Done ()
  | c :: cs' =>
      if Nn <? class_index c
      then Fatal "error: edge source points to too large of a node id"
      else check_ids Nn cs'
  end.

(** [for (n ..) { nn = class_index - 1; if (..) D.adj[nn].push_back(i); }] *)
Fixpoint link_ids (i : Z) (cs : list wclass) (adj0 : list (list Z)) : outcome (list (list Z)) :=
  match cs with
  | [] => Done adj0
  | c :: cs' =>
      let nn := u32 (class_index c - 1) in
      a ← load adj0 nn;
      adj1 ← (if (size a =? 0) || negb (bool_decide (last a = Some i))
               then store adj0 nn (a ++ [i]) else Done adj0);
      link_ids i cs' adj1
  end.

(** [for (size_t i=D.N; i<ec.size(); i++) { .. }], over the records from
    index [i] on. *)
Fixpoint link_edges (Nn : Z) (i : Z) (es : list example) (adj0 : list (list Z))
    : outcome (list (list Z)) :=
  match es with
  | [] => Done adj0
  | e :: es' =>
      _ ← check_ids Nn (costs e);
      adj1 ← link_ids i (costs e) adj0;
      link_edges Nn (i + 1) es' adj1
  end.

Definition setup (all : vw) (D : task_data) (ec : list example) : outcome task_data :=
  let D := set_mask (weight_mask all) D in
  let D := set_wpp (vw_wpp all) D in
  let D := set_ss (stride_shift all) D in
  let D := set_multiplier (u64 (Z.shiftl (wpp D) (ss D))) D in
  D ← count_records ec (set_E 0 (set_N 0 D));
  if (N D =? 0) && (0 <? E D)
  then Fatal "error: got edges without any nodes (perhaps ring_size is too small?)!"
  else
    let D := set_adj (replicate (Z.to_nat (N D)) []) D in
    adj1 ← link_edges (N D) (N D) (drop (Z.to_nat (N D)) ec) (adj D);
    D ← run_bfs (set_adj adj1 D) ec;
    Done (set_pred (replicate (Z.to_nat (N D)) (u64 (K D + 1))) D).

Definition takedown (D : task_data) : task_data :=
  set_adj [] (set_pred [] (set_bfs [] D)).

(** ** Feature augmentation: [add_edge_features] and [del_edge_features] *)

Fixpoint fold_outcome {St A} (f : St → A → outcome St) (s : St) (l : list A) : outcome St :=
  match l with
  | [] => Done s
  | a :: l' => s' ← f s a; fold_outcome f s' l'
  end.

(** Modelled from the spec: the feature-iteration primitive of the host
    ([GD::foreach_feature], declared in gd.h), which visits every (value,
    bucket) pair of the example's active features and hands it to the
    callback [T]. *)
Definition active_features (e : example) : outcome (list feature) :=
  fold_outcome (λ acc ns, fs ← load (atomics e) ns; Done (acc ++ fs)) [] (indices e).

Definition foreach_feature {St} (T : St → Qc → Z → outcome St) (e : example) (dat : St)
    : outcome St :=
  fs ← active_features e;
  fold_outcome (λ s f, T s (x f) (weight_index f)) dat fs.

(** [(size_t) v] for a [float] [v]: truncation towards zero. *)
Definition Qc_to_size_t (q : Qc) : Z := u64 (Z.quot (Qnum q) (Z.pos (Qden q))).

Definition Qc_of_Z (z : Z) : Qc := Q2Qc (inject_Z z).

Definition Qc_is_zero (q : Qc) : bool := Qc_eq_bool q (Q2Qc 0).

Definition Qc_leb (a b : Qc) : bool :=
  match (a ?= b)%Qc with Gt => false | _ => true end.

Definition Qc_ltb (a b : Qc) : bool :=
  match (a ?= b)%Qc with Lt => true | _ => false end.

(** The bucket of an injected feature:
    [(uint32_t)((fx2 + 348919043 * k) * D.multiplier) & (uint32_t)D.mask]. *)
Definition neighbor_bucket (D : task_data) (fx2 k : Z) : Z :=
  Z.land (u32 (u64 (u64 (fx2 + u64 (348919043 * k)) * multiplier D))) (u32 (mask D)).

Section Task.

(** The namespace that receives the injected features; the constant is
    declared in a header of the host. *)
Variable neighbor_namespace : Z.

(** [node->atomics[neighbor_namespace].push_back(f);
     node->sum_feat_sq[neighbor_namespace] += f.x * f.x;] *)
Definition push_feature (f : feature) (node : example) : outcome example :=
  a ← load (atomics node) neighbor_namespace;
  atomics' ← store (atomics node) neighbor_namespace (a ++ [f]);
  s ← load (sum_feat_sq node) neighbor_namespace;
  sum' ← store (sum_feat_sq node) neighbor_namespace (s + x f * x f)%Qc;
  Done (set_sum_feat_sq sum' (set_atomics atomics' node)).

(** The callbacks reach the node through [D.cur_node]; the episode [ec] is
    the store it points into. *)
Definition add_edge_features_group_fn (D : task_data) (ec : list example)
    (fv : Qc) (fx : Z) : outcome (list example) :=
  node ← load ec (cur_node D);
  if multiplier D =? 0 then Undefined
  else if negb (fx / multiplier D * multiplier D =? fx) then Fatal "eek"
  else
    let fx2 := u32 (fx / multiplier D) in
    node' ← fold_outcome (λ node k,
        np ← load (neighbor_predictions D) k;
        if Qc_is_zero np then Done node
        else
          let fv2 := (fv * np)%Qc in
          push_feature {| x := fv2; weight_index := neighbor_bucket D fx2 k |} node)
      node (seqZ 0 (K D + 1));
    store ec (cur_node D) node'.

Definition add_edge_features_single_fn (D : task_data) (ec : list example)
    (fv : Qc) (fx : Z) : outcome (list example) :=
  node ← load ec (cur_node D);
  if multiplier D =? 0 then Undefined
  else if negb (fx / multiplier D * multiplier D =? fx) then Fatal "eek"
  else
    let fx2 := u32 (fx / multiplier D) in
    np0 ← load (neighbor_predictions D) 0;
    let k := Qc_to_size_t np0 in
    node' ← push_feature {| x := fv; weight_index := neighbor_bucket D fx2 k |} node;
    store ec (cur_node D) node'.

(** The histogram of one edge: [neighbor_predictions], [pred_total], [last_pred]. *)
Definition histogram : Type := list Qc * Qc * Z.

(** [for (size_t k=0; k<D.K+1; k++) D.neighbor_predictions[k] = 0.;] *)
Definition clear_predictions (D : task_data) : outcome (list Qc) :=
  fold_outcome (λ np k, store np k (Q2Qc 0)) (neighbor_predictions D) (seqZ 0 (u64 (K D + 1))).

(** Body of the loop over the endpoints of an edge (structure in use). *)
Definition count_neighbor (D : task_data) (n : Z) (h : histogram) (c : wclass)
    : outcome histogram :=
  let '(np, pred_total, last_pred) := h in
  let m := u32 (class_index c - 1) in
  if m =? n then Done h
  else
    p ← load (pred D) m;
    v ← load np (u64 (p - 1));
    np' ← store np (u64 (p - 1)) (v + Q2Qc 1)%Qc;
    Done (np', (pred_total + Q2Qc 1)%Qc, u32 (u64 (p - 1))).

Definition edge_histogram (D : task_data) (n : Z) (edge : example) : outcome histogram :=
  np ← clear_predictions D;
  if use_structure D then
    fold_outcome (count_neighbor D n) (np, Q2Qc 0, 0) (costs edge)
  else
    v ← load np 0;
    np' ← store np 0 (v + Q2Qc 1)%Qc;
    Done (np', (Q2Qc 0 + Q2Qc 1)%Qc, 0).

(** Body of [for (size_t i : D.adj[n])]. *)
Definition add_edge (n : Z) (st : task_data * list example) (i : Z)
    : outcome (task_data * list example) :=
  let '(D, ec) := st in
  edge ← load ec i;
  '(np, pred_total, last_pred) ← edge_histogram D n edge;
  let D := set_neighbor_predictions np D in
  if Qc_is_zero pred_total then Done (D, ec)
  else if Qc_leb pred_total (Q2Qc 1) then
    np' ← store np 0 (Qc_of_Z last_pred);
    let D := set_neighbor_predictions np' D in
    ec' ← foreach_feature (add_edge_features_single_fn D) edge ec;
    Done (D, ec')
  else
    ec' ← foreach_feature (add_edge_features_group_fn D) edge ec;
    Done (D, ec').

(** Body of the loop over [all.pairs]. *)
Definition add_pair (node : example) (p : Z * Z) : outcome example :=
  let '(i0, i1) := p in
  if (i0 =? neighbor_namespace) || (i1 =? neighbor_namespace) then
    a0 ← load (atomics node) i0;
    a1 ← load (atomics node) i1;
    s0 ← load (sum_feat_sq node) i0;
    s1 ← load (sum_feat_sq node) i1;
    Done (set_total_sum_feat_sq (total_sum_feat_sq node + s0 * s1)%Qc
            (set_num_features (u64 (num_features node + u64 (size a0 * size a1))) node))
  else Done node.

Definition add_edge_features (all : vw) (D : task_data) (n : Z) (ec : list example)
    : outcome (task_data * list example) :=
  _ ← load ec n;
  let D := set_cur_node n D in
  ids ← load (adj D) n;
  '(D, ec) ← fold_outcome (add_edge n) (D, ec) ids;
  node ← load ec n;
  let node := set_indices (indices node ++ [neighbor_namespace]) node in
  s ← load (sum_feat_sq node) neighbor_namespace;
  let node := set_total_sum_feat_sq (total_sum_feat_sq node + s)%Qc node in
  a ← load (atomics node) neighbor_namespace;
  let node := set_num_features (u64 (num_features node + size a)) node in
  node ← fold_outcome add_pair node (pairs all);
  ec ← store ec n node;
  Done (D, ec).

Definition del_edge_features (n : Z) (ec : list example) : outcome (list example) :=
  node ← load ec n;
  if bool_decide (indices node = []) then Undefined
  else
    let node := set_indices (removelast (indices node)) node in
    s ← load (sum_feat_sq node) neighbor_namespace;
    let node := set_total_sum_feat_sq (total_sum_feat_sq node - s)%Qc node in
    a ← load (atomics node) neighbor_namespace;
    let node := set_num_features (u64 (num_features node - size a)) node in
    atomics' ← store (atomics node) neighbor_namespace [];
    let node := set_atomics atomics' node in
    sum' ← store (sum_feat_sq node) neighbor_namespace (Q2Qc 0);
    let node := set_sum_feat_sq sum' node in
    store ec n node.

(** ** The metric: [IDX] and [macro_f] *)

Definition IDX (D : task_data) (i j : Z) : Z := u64 (u64 (i * u64 (K D + 1)) + j).

(** Row and column sums of label [k]: the inner loop of [macro_f]. *)
Definition label_counts (D : task_data) (k : Z) : outcome (Qc * Qc) :=
  fold_outcome (λ '(trueC, predC) j,
      t ← load (confusion_matrix D) (IDX D k j);
      p ← load (confusion_matrix D) (IDX D j k);
      Done ((trueC + Qc_of_Z t)%Qc, (predC + Qc_of_Z p)%Qc))
    (Q2Qc 0, Q2Qc 0) (seqZ 1 (K D)).

(** Body of the outer loop of [macro_f] on [(total_f1, count_f1)]. *)
Definition macro_f_label (D : task_data) (acc : Qc * Qc) (k : Z) : outcome (Qc * Qc) :=
  let '(total_f1, count_f1) := acc in
  '(trueC, predC) ← label_counts D k;
  if Qc_is_zero trueC then Done acc
  else
    c ← load (confusion_matrix D) (IDX D k k);
    let correctC := Qc_of_Z c in
    let count_f1 := (count_f1 + Q2Qc 1)%Qc in
    if Qc_ltb (Q2Qc 0) correctC then
      let pre := (correctC / predC)%Qc in
      let rec := (correctC / trueC)%Qc in
      Done ((total_f1 + Qc_of_Z 2 * pre * rec / (pre + rec))%Qc, count_f1)
    else Done (total_f1, count_f1).

(** The result is [None] when the final division is [0 / 0], which in
    [float] arithmetic is not a number. *)
Definition macro_f (D : task_data) : outcome (option Qc) :=
  '(total_f1, count_f1) ← fold_outcome (macro_f_label D) (Q2Qc 0, Q2Qc 0) (seqZ 1 (K D));
  Done (if Qc_is_zero count_f1 then None else Some (total_f1 / count_f1)%Qc).

(** *** [macro_f] with [float] as binary32

    The same loops with every [float] operation rounded to nearest even in
    IEEE 754 binary32 (precision 24, maximal exponent 128); the final
    [0 / 0] is the not-a-number of the format. *)

(** [(float) v] for an integer [v]. *)
Definition binary32_of_Z (z : Z) : spec_float := binary_normalize 24 128 z 0 false.

Definition label_counts_binary32 (D : task_data) (k : Z) : outcome (spec_float * spec_float) :=
  fold_outcome (λ '(trueC, predC) j,
      t ← load (confusion_matrix D) (IDX D k j);
      p ← load (confusion_matrix D) (IDX D j k);
      Done (SFadd 24 128 trueC (binary32_of_Z t), SFadd 24 128 predC (binary32_of_Z p)))
    (S754_zero false, S754_zero false) (seqZ 1 (K D)).

Definition macro_f_label_binary32 (D : task_data) (acc : spec_float * spec_float) (k : Z)
    : outcome (spec_float * spec_float) :=
  let '(total_f1, count_f1) := acc in
  '(trueC, predC) ← label_counts_binary32 D k;
  if SFeqb trueC (S754_zero false) then Done acc
  else
    c ← load (confusion_matrix D) (IDX D k k);
    let correctC := binary32_of_Z c in
    let count_f1 := SFadd 24 128 count_f1 (binary32_of_Z 1) in
    if SFltb (S754_zero false) correctC then
      let pre := SFdiv 24 128 correctC predC in
      let rec := SFdiv 24 128 correctC trueC in
      Done (SFadd 24 128 total_f1
              (SFdiv 24 128 (SFmul 24 128 (SFmul 24 128 (binary32_of_Z 2) pre) rec)
                 (SFadd 24 128 pre rec)),
            count_f1)
    else Done (total_f1, count_f1).

Definition macro_f_binary32 (D : task_data) : outcome spec_float :=
  '(total_f1, count_f1) ←
    fold_outcome (macro_f_label_binary32 D) (S754_zero false, S754_zero false) (seqZ 1 (K D));
  Done (SFdiv 24 128 total_f1 count_f1).

(** The promotion of a [float] to [double]; it is exact. *)
Definition binary64_of_binary32 (f : spec_float) : spec_float :=
  match f with
  | S754_finite s m e => binary_normalize 53 1024 (if s then Z.neg m else Z.pos m) e false
  | _ => f
  end.

(** [1. - macro_f(D)]: the literal is a [double], so the subtraction is
    made in binary64. *)
Definition loss_binary64 (f : spec_float) : spec_float :=
  SFsub 53 1024 (binary_normalize 53 1024 1 0 false) (binary64_of_binary32 f).

(** ** [run] *)

(** What the task hands to one [Search::predictor]: its tag, its input, the
    learner selected (if any), the oracle label (if any) and the
    conditioning references, in the order they are added. *)
Record request : Type := {
  my_tag : Z;
  input : example;
  learner_id : option Z;
  oracle : option Z;
  condition_on : list (Z * ascii)
}.

Section Inference.

(** The search framework: its state, whether the next prediction needs the
    example ([sch.predictNeedsExample()]), and [P.predict()]. *)
Variable host : Type.
Variable predictNeedsExample : host → bool.
Variable predict : host → request → Z * host.
Variable all : vw.

(** [for (j ..) { m = class_index - 1; if (m == n) continue; P.add_condition(m+1, 'e'); }] *)
Definition add_conditions_of (n : Z) (e : example) : list (Z * ascii) :=
  flat_map (λ c,
      let m := u32 (class_index c - 1) in
      if m =? n then [] else [(u32 (m + 1), "e"%char)])
    (costs e).

(** The conditioning loop of [run]: [i] runs over [0 .. D.adj[n].size()-1]
    and the record read is [ec[i]]. *)
Definition add_conditioning (D : task_data) (n : Z) (ec : list example)
    : outcome (list (Z * ascii)) :=
  ids ← load (adj D) n;
  fold_outcome (λ acc i, e ← load ec i; Done (acc ++ add_conditions_of n e))
    [] (seqZ 0 (size ids)).

Definition to_int (z : Z) : Z := if z <? 2 ^ 31 then z else z - 2 ^ 32.

(** [for (int n_id = start; n_id != end; n_id += step) body] *)
Fixpoint for_n_id {St} (fuel : nat) (n_id stop step : Z)
    (body : St → Z → outcome St) (s : St) : outcome St :=
  match fuel with
  | O => OutOfFuel
  | S fuel' =>
      if n_id =? stop then Done s
      else s' ← body s n_id; for_n_id fuel' (n_id + step) stop step body s'
  end.

(** The state threaded through the passes: task data, episode, framework
    state, and the requests made so far (oldest first). *)
Definition run_state : Type := task_data * list example * host * list request.

(** The reads of the label priors for the (unused) example weight. *)
Definition read_priors (D : task_data) (k : Z) : outcome unit :=
  _ ← fold_outcome (λ _ k2, _ ← load (true_counts D) k2; Done ()) () (seqZ 1 (K D));
  _ ← load (true_counts D) k;
  Done ().

(** Body of the loop over [n_id]. *)
Definition predict_node (loop : Z) (st : run_state) (n_id : Z) : outcome run_state :=
  let '(D, ec, h, trace) := st in
  n ← load (bfs D) n_id;
  node ← load ec n;
  let k := match costs node with c :: _ => class_index c | [] => 0 end in
  let add_features := predictNeedsExample h in
  '(D, ec) ← (if add_features then add_edge_features all D n ec else Done (D, ec));
  node ← load ec n;
  _ ← (if 0 <? k then read_priors D k else Done ());
  conds ← add_conditioning D n ec;
  let P := {| my_tag := u32 (n + 1); input := node;
              learner_id := if separate_learners D then Some loop else None;
              oracle := if 0 <? k then Some k else None;
              condition_on := conds |} in
  let '(p, h') := predict h P in
  pred' ← store (pred D) n p;
  let D := set_pred pred' D in
  ec ← (if add_features then del_edge_features n ec else Done ec);
  Done (D, ec, h', trace ++ [P]).

(** One pass: forwards on even loops, inward on odd loops. *)
Definition run_pass (st : run_state) (loop : Z) : outcome run_state :=
  let Nn := N st.1.1.1 in
  let '(start, stop, step) :=
    if loop mod 2 =? 1 then (to_int (u32 (Nn - 1)), -1, -1) else (0, to_int Nn, 1) in
  for_n_id (S (Z.to_nat Nn)) start stop step (predict_node loop) st.

(** [for (size_t n=0; n<D.N; n++) D.pred[n] = D.K+1;] *)
Definition reset_pred (D : task_data) : outcome (list Z) :=
  fold_outcome (λ pr n, store pr n (u64 (K D + 1))) (pred D) (seqZ 0 (N D)).

(** The passes of [run]: the part of the function up to the metric. *)
Definition run_passes (D : task_data) (ec : list example) (h : host) : outcome run_state :=
  let K_squared := u64 (u64 (K D + 1) * u64 (K D + 1)) in
  cm ← fold_outcome (λ cm i, store cm i 0) (confusion_matrix D) (seqZ 0 K_squared);
  let D := set_confusion_matrix cm D in
  pred' ← reset_pred D;
  let D := set_pred pred' D in
  fold_outcome run_pass (D, ec, h, []) (seqZ 0 (num_loops D)).

(** [for (uint32_t n=0; n<D.N; n++) D.confusion_matrix[IDX(costs[0].class_index, D.pred[n])]++;] *)
Definition count_node (ec : list example) (D : task_data) (n : Z) : outcome task_data :=
  e ← load ec n;
  c ← load (costs e) 0;
  p ← load (pred D) n;
  let idx := IDX D (class_index c) p in
  v ← load (confusion_matrix D) idx;
  cm ← store (confusion_matrix D) idx (u32 (v + 1));
  Done (set_confusion_matrix cm D).

Definition update_confusion (D : task_data) (ec : list example) : outcome task_data :=
  fold_outcome (count_node ec) D (seqZ 0 (N D)).

(** The reported loss, [1. - macro_f(D)]; [None] when it is not a number. *)
Definition loss_of (f : option Qc) : option Qc :=
  match f with Some v => Some (Q2Qc 1 - v)%Qc | None => None end.

(** [run] returns the final state and the value handed to [sch.loss]; the
    labels written to [sch.output()] are the final [pred]. *)
Definition run (D : task_data) (ec : list example) (h : host)
    : outcome (run_state * option Qc) :=
  '(D, ec, h, trace) ← run_passes D ec h;
  D ← update_confusion D ec;
  f ← macro_f D;
  Done ((D, ec, h, trace), loss_of f).

(** Modelled from the spec: the per-episode hooks as the framework calls
    them, [setup] and then [run] on the same episode. *)
Definition episode (D : task_data) (ec : list example) (h : host)
    : outcome (run_state * option Qc) :=
  D' ← setup all D ec;
  run D' ec h.

End Inference.

End Task.

(** * Specification-level definitions *)

(** ** Episodes rejected by [setup] *)

Definition nodes_of (ec : list example) : list example :=
  filter (λ e, example_is_edge e = false) ec.
Definition edges_of (ec : list example) : list example :=
  filter (λ e, example_is_edge e = true) ec.
Definition node_after_edge (ec : list example) : Prop :=
  ∃ (i j : nat) e1 e2, (i < j)%nat ∧ ec !! i = Some e1 ∧ ec !! j = Some e2 ∧
    example_is_edge e1 = true ∧ example_is_edge e2 = false.
Definition edges_without_nodes (ec : list example) : Prop :=
  nodes_of ec = [] ∧ edges_of ec ≠ [].
Definition edge_id_too_large (ec : list example) : Prop :=
  ∃ e c, e ∈ edges_of ec ∧ c ∈ costs e ∧ size (nodes_of ec) < class_index c.

(** ** The graph and the traversal order *)

Definition endpoints_of (e : example) : list Z :=
  map (λ c, u32 (class_index c - 1)) (costs e).

(** [v] is another endpoint of a hyperedge incident to [u]. *)
Definition neighbor (adj0 : list (list Z)) (ec : list example) (u v : Z) : Prop :=
  v ≠ u ∧ ∃ ids id e,
    0 ≤ u ∧ adj0 !! Z.to_nat u = Some ids ∧ id ∈ ids ∧
    0 ≤ id ∧ ec !! Z.to_nat id = Some e ∧ v ∈ endpoints_of e.

(** The adjacency lists name records of the episode whose ids are node ids. *)
Definition wf_graph (Nn : Z) (adj0 : list (list Z)) (ec : list example) : Prop :=
  size adj0 = Nn ∧
  Forall (λ ids,
    Forall (λ id, 0 ≤ id ∧ ∃ e, ec !! Z.to_nat id = Some e ∧
                    Forall (λ c, 1 ≤ class_index c ≤ Nn) (costs e)) ids) adj0.

(** The node at position [q] of the order is a neighbor of the one at [p]. *)
Definition edge_at (adj0 : list (list Z)) (ec : list example) (o : list Z) (q p : nat) : Prop :=
    ∃ u v, o !! q = Some u ∧ o !! p = Some v ∧ neighbor adj0 ec u v.

(** [q] is the first position whose node has the node at [p] as a neighbor. *)
Definition first_parent (adj0 : list (list Z)) (ec : list example) (o : list Z) (p q : nat) : Prop :=
    (q < p)%nat ∧ edge_at adj0 ec o q p ∧ ∀ q0, (q0 < q)%nat → ¬ edge_at adj0 ec o q0 p.

(** Frontier exhausted: no node of [l] has a neighbor outside [l]. *)
Definition closed (adj0 : list (list Z)) (ec : list example) (l : list Z) : Prop :=
    ∀ u w, u ∈ l → neighbor adj0 ec u w → w ∈ l.

(** Every node after the first was reached from an earlier node, or was
      seeded: the nodes before it were closed and it was the lowest-indexed
      node not among them. *)
Definition expands (adj0 : list (list Z)) (ec : list example) (o : list Z) : Prop :=
    ∀ (p : nat) v, o !! p = Some v → (0 < p)%nat →
      (∃ u, u ∈ take p o ∧ neighbor adj0 ec u v) ∨
      (closed adj0 ec (take p o) ∧ ∀ w, 0 ≤ w < v → w ∈ take p o).

(** Breadth-first: nodes appear in the order of their first parents. *)
Definition breadth_first (adj0 : list (list Z)) (ec : list example) (o : list Z) : Prop :=
    ∀ p p' q q', (p < p')%nat → first_parent adj0 ec o p q → first_parent adj0 ec o p' q' → (q ≤ q')%nat.

(** The invariant of the traversal while position [i] is being expanded. *)
Record J (Nn : Z) (adj0 : list (list Z)) (ec : list example)
    (i : nat) (st : bfs_state) : Prop := {
  J_len : length st.2 = Z.to_nat Nn;
  J_nodup : NoDup st.1;
  J_touched : ∀ k : nat, st.2 !! k = Some true ↔ Z.of_nat k ∈ st.1;
  J_nonneg : ∀ m, m ∈ st.1 → 0 ≤ m;
  J_closed : ∀ (q : nat) u w, (q < i)%nat → st.1 !! q = Some u → neighbor adj0 ec u w → w ∈ st.1;
  J_exp : expands adj0 ec st.1;
  J_fifo : breadth_first adj0 ec st.1;
  J_par : ∀ p q, first_parent adj0 ec st.1 p q → (q ≤ i)%nat
}.

(** ** Injected features *)

(** The label buckets contributed to the histogram of an edge by the
    endpoints other than [n]. *)
Definition structure_contributions (D : task_data) (n : Z) (cs : list wclass) : list Z :=
  flat_map (λ c,
      let m := u32 (class_index c - 1) in
      if m =? n then []
      else match pred D !! Z.to_nat m with Some p => [u64 (p - 1)] | None => [] end)
    cs.

Definition contributions (D : task_data) (n : Z) (edge : example) : list Z :=
  if use_structure D then structure_contributions D n (costs edge) else [0].

Definition hist_count (l : list Z) (k : Z) : Z := size (filter (λ b, b = k) l).

(** The bucket of a feature stripped of its stride. *)
Definition base (D : task_data) (f : feature) : Z := u32 (weight_index f / multiplier D).


Definition single_rule (D : task_data) (k : Z) (f : feature) : feature :=
  {| x := x f; weight_index := neighbor_bucket D (base D f) k |}.

Definition group_rule (D : task_data) (l : list Z) (f : feature) : list feature :=
  flat_map (λ k,
      if hist_count l k =? 0 then []
      else [{| x := (x f * Qc_of_Z (hist_count l k))%Qc;
               weight_index := neighbor_bucket D (base D f) k |}])
    (seqZ 0 (K D + 1)).

(** What one edge injects, from the contributions [l] and the features [fs]
    of the edge. *)
Definition injected (D : task_data) (l : list Z) (fs : list feature) : list feature :=
  match l with
  | [] => []
  | [k] => map (single_rule D k) fs
  | _ => flat_map (group_rule D l) fs
  end.

Definition Qc_sum (l : list Qc) : Qc := foldr Qcplus (Q2Qc 0) l.

(** The node with the features [inj] appended to namespace [nn]. *)
Definition with_features (nn : Z) (inj : list feature) (node : example) : example :=
  set_sum_feat_sq
    (alter (λ s, foldl (λ s g, s + x g * x g)%Qc s inj) (Z.to_nat nn) (sum_feat_sq node))
    (set_atomics (alter (λ a, a ++ inj) (Z.to_nat nn) (atomics node)) node).

Definition aligned (D : task_data) (f : feature) : Prop :=
  weight_index f / multiplier D * multiplier D = weight_index f.

(** The group rule read off a histogram array. *)
Definition group_of_np (D : task_data) (np : list Qc) (f : feature) : list feature :=
  flat_map (λ k,
      match np !! Z.to_nat k with
      | Some v =>
          if Qc_is_zero v then []
          else [{| x := (x f * v)%Qc; weight_index := neighbor_bucket D (base D f) k |}]
      | None => []
      end)
    (seqZ 0 (K D + 1)).

(** The histogram array after counting the buckets [l]. *)
Definition bump (np : list Qc) (b : Z) : list Qc :=
  alter (λ v, v + Q2Qc 1)%Qc (Z.to_nat b) np.

(** The hypotheses under which the histogram of an edge is built without
    leaving the arrays: the scratch buffer has [K+1] cells and every other
    endpoint has a prediction in [1 .. K+1]. *)
Definition histogram_ok (D : task_data) (n : Z) (edge : example) : Prop :=
  size (neighbor_predictions D) = K D + 1 ∧ 0 ≤ K D ∧ K D + 1 < 2 ^ 32 ∧
  (use_structure D = true →
   Forall (λ c, u32 (class_index c - 1) ≠ n →
                ∃ p, pred D !! Z.to_nat (u32 (class_index c - 1)) = Some p ∧ 1 ≤ p ≤ K D + 1)
     (costs edge)).

(** A node whose per-namespace arrays have a cell for namespace [nn]. *)
Definition node_ok (nn : Z) (node : example) : Prop :=
  0 ≤ nn < size (atomics node) ∧ 0 ≤ nn < size (sum_feat_sq node).

(** What the edge record [id] injects into node [n]. *)
Definition edge_injection (D : task_data) (n : Z) (ec : list example) (id : Z) : list feature :=
  match ec !! Z.to_nat id with
  | Some edge =>
      match active_features edge with
      | Done fs => injected D (contributions D n edge) fs
      | _ => []
      end
  | None => []
  end.

(** The second half of [add_edge_features] on the node: the namespace is
    registered and the counters are updated. *)
Definition register_namespace (nn : Z) (all : vw) (node : example) : outcome example :=
  let node := set_indices (indices node ++ [nn]) node in
  s ← load (sum_feat_sq node) nn;
  let node := set_total_sum_feat_sq (total_sum_feat_sq node + s)%Qc node in
  a ← load (atomics node) nn;
  let node := set_num_features (u64 (num_features node + size a)) node in
  fold_outcome (add_pair nn) node (pairs all).

(** The episode accepted for augmenting node [n]: the node and its edges
    are in the episode, every edge is a record other than the node with
    aligned features, and the histogram of every edge stays in its array. *)
Definition augment_ok (nn : Z) (D : task_data) (ec : list example) (n : nat) : Prop :=
  multiplier D ≠ 0 ∧
  ∃ ids, adj D !! n = Some ids ∧
    Forall (λ id, 0 ≤ id ∧ Z.to_nat id ≠ n ∧
                  ∃ edge fs, ec !! Z.to_nat id = Some edge ∧
                    histogram_ok D (Z.of_nat n) edge ∧
                    active_features edge = Done fs ∧ Forall (aligned D) fs) ids.

(** Every configured pair that names namespace [nn] names cells of the
    node's per-namespace arrays. *)
Definition pairs_ok (nn : Z) (all : vw) (node : example) : Prop :=
  Forall (λ p, p.1 = nn ∨ p.2 = nn →
               (0 ≤ p.1 < size (atomics node) ∧ 0 ≤ p.1 < size (sum_feat_sq node)) ∧
               (0 ≤ p.2 < size (atomics node) ∧ 0 ≤ p.2 < size (sum_feat_sq node)))
    (pairs all).

(** No configured pair names namespace [nn]. *)
Definition no_pair_with (nn : Z) (all : vw) : Prop :=
  Forall (λ p, p.1 ≠ nn ∧ p.2 ≠ nn) (pairs all).

(** The node after [del_edge_features]. *)
Definition reverted (nn : Z) (node : example) : example :=
  {| costs := costs node;
     indices := removelast (indices node);
     atomics := <[Z.to_nat nn := []]> (atomics node);
     sum_feat_sq := <[Z.to_nat nn := Q2Qc 0]> (sum_feat_sq node);
     total_sum_feat_sq :=
       (total_sum_feat_sq node - default (Q2Qc 0) (sum_feat_sq node !! Z.to_nat nn))%Qc;
     num_features :=
       u64 (num_features node - size (default [] (atomics node !! Z.to_nat nn))) |}.

(** Two examples that differ at most in the two running counters. *)
Definition same_features (a b : example) : Prop :=
  costs b = costs a ∧ indices b = indices a ∧
  atomics b = atomics a ∧ sum_feat_sq b = sum_feat_sq a.

(** ** Macro-F1 *)

Definition Z_sum (l : list Z) : Z := foldr Z.add 0 l.

(** The cell [confusion[i][j]]. *)
Definition cell (D : task_data) (i j : Z) : Z :=
  default 0 (confusion_matrix D !! Z.to_nat (i * (K D + 1) + j)).

Definition trueC (D : task_data) (k : Z) : Z := Z_sum ((λ j, cell D k j) <$> seqZ 1 (K D)).
Definition predC (D : task_data) (k : Z) : Z := Z_sum ((λ j, cell D j k) <$> seqZ 1 (K D)).

(** The F1 score of label [k]; 0 when no node of that label was predicted
    correctly. *)
Definition f1 (D : task_data) (k : Z) : Qc :=
  if 0 <? cell D k k then
    let pre := (Qc_of_Z (cell D k k) / Qc_of_Z (predC D k))%Qc in
    let rec := (Qc_of_Z (cell D k k) / Qc_of_Z (trueC D k))%Qc in
    (Qc_of_Z 2 * pre * rec / (pre + rec))%Qc
  else Q2Qc 0.

(** The labels that occur as a true label. *)
Definition counted_labels (D : task_data) : list Z :=
  filter (λ k, trueC D k ≠ 0) (seqZ 1 (K D)).

(** Macro-F1 as the specification words it: the average of the F1 scores
    of the counted labels, undefined when there is none. *)
Definition macro_f_spec (D : task_data) : option Qc :=
  match counted_labels D with
  | [] => None
  | ks => Some (Qc_sum (f1 D <$> ks) / Qc_of_Z (size ks))%Qc
  end.

(** The confusion matrix has [(K+1)²] cells and its size fits a [size_t]. *)
Definition matrix_ok (D : task_data) : Prop :=
  0 ≤ K D ∧ (K D + 1) * (K D + 1) < 2 ^ 64 ∧
  size (confusion_matrix D) = (K D + 1) * (K D + 1).

Definition Qc_abs (q : Qc) : Qc := if Qc_ltb q (Q2Qc 0) then (- q)%Qc else q.

(** The rational a finite binary float stands for. *)
Definition Q_of_float (f : spec_float) : option Q :=
  match f with
  | S754_zero _ => Some 0%Q
  | S754_finite s m e => Some (inject_Z (if s then Z.neg m else Z.pos m) * (2 # 1) ^ e)%Q
  | _ => None
  end.

(** ** The passes of [run] *)

(** The order in which pass [loop] visits the nodes. *)
Definition pass_order (D : task_data) (loop : Z) : list Z :=
  if loop mod 2 =? 1 then reverse (bfs D) else bfs D.

(** The learner a request of pass [loop] is routed to. *)
Definition pass_learner (D : task_data) (loop : Z) : option Z :=
  if separate_learners D then Some loop else None.

(** The state of a task on which the passes of [run] leave no array and
    meet no misaligned feature. *)
Record run_ok (nn : Z) (all : vw) (D : task_data) (ec : list example) : Prop := {
  ok_N : 0 ≤ N D < 2 ^ 31;
  ok_K : 0 ≤ K D ∧ K D + 1 < 2 ^ 32;
  ok_size : N D ≤ size ec;
  ok_bfs : bfs D ≡ₚ seqZ 0 (N D);
  ok_adj : size (adj D) = N D;
  ok_edges :
    Forall (λ ids, size ids ≤ size ec ∧
      Forall (λ id, N D ≤ id ∧ ∃ edge fs,
                ec !! Z.to_nat id = Some edge ∧
                Forall (λ c, 1 ≤ class_index c ≤ N D) (costs edge) ∧
                active_features edge = Done fs ∧ Forall (aligned D) fs) ids) (adj D);
  ok_pred : size (pred D) = N D ∧ Forall (λ p, 1 ≤ p ≤ K D + 1) (pred D);
  ok_np : size (neighbor_predictions D) = K D + 1;
  ok_tc : K D < size (true_counts D);
  ok_mult : multiplier D ≠ 0;
  ok_nodes :
    Forall (λ node, node_ok nn node ∧ pairs_ok nn all node ∧
                    Forall (λ c, 0 ≤ class_index c < size (true_counts D)) (take 1 (costs node)))
      (take (Z.to_nat (N D)) ec)
}.

(** [D'] is [D] up to the predictions and the scratch fields. *)
Definition frame (D D' : task_data) : Prop :=
  ∃ p np c, D' = set_pred p (set_neighbor_predictions np (set_cur_node c D)).

(** The framework answers with a label of [1 .. Kk]. *)
Definition host_ok {host : Type} (predict : host → request → Z * host) (Kk : Z) : Prop :=
  ∀ h r, 1 ≤ (predict h r).1 ≤ Kk.

(** The shape of a node the invariant depends on. *)
Definition same_shape (a b : example) : Prop :=
  costs b = costs a ∧ size (atomics b) = size (atomics a) ∧
  size (sum_feat_sq b) = size (sum_feat_sq a).

(** The node at position [n_id] of the traversal order. *)
Definition node_at (D : task_data) (n_id : Z) : Z := default 0 (bfs D !! Z.to_nat n_id).

(** ** Concrete episodes *)

(** An example with the ids [cs] in its label and the features [fs] in
    namespace [ns]. *)
Definition make_example (cs : list Z) (ns : Z) (fs : list feature) : example :=
  {| costs := (λ c, {| class_index := c |}) <$> cs;
     indices := [ns];
     atomics := <[Z.to_nat ns := fs]> (replicate 256 []);
     sum_feat_sq :=
       <[Z.to_nat ns := foldl (λ s g, s + x g * x g)%Qc (Q2Qc 0) fs]> (replicate 256 (Q2Qc 0));
     total_sum_feat_sq := foldl (λ s g, s + x g * x g)%Qc (Q2Qc 0) fs;
     num_features := size fs |}.

Definition unit_feature (i : Z) : feature := {| x := Q2Qc 1; weight_index := i |}.

(** A task for [K0] labels with the default options. *)
Definition graph_task (K0 : Z) : task_data :=
  (initialize {| search_graph_num_loops := None;
                 search_graph_no_structure := false;
                 search_graph_separate_learners := false |} K0).1.

(** Two labeled nodes joined by one edge. *)
Definition pair_episode : list example :=
  [make_example [1] 110 [unit_feature 4];
   make_example [2] 110 [unit_feature 8];
   make_example [1; 2] 101 [unit_feature 12]].

(** A host with stride 4 and the quadratic pair of namespace 131 with 110. *)
Definition pair_vw : vw :=
  {| weight_mask := 2 ^ 18 - 1; vw_wpp := 1; stride_shift := 2; pairs := [(131, 110)] |}.

(** The state [setup] leaves for [pair_episode]. *)
Definition pair_task : task_data :=
  Eval vm_compute in
    match setup pair_vw (graph_task 2) pair_episode with Done D => D | _ => new_task_data end.

(** A framework that always asks for the example and always answers 1. *)
Definition const_predict (h : unit) (r : request) : Z * unit := (1, h).

(** The conditioning the specification asks for: the other endpoints of the
    edges listed in [adj[n]]. *)
Definition incident_conditioning (D : task_data) (n : Z) (ec : list example)
    : outcome (list (Z * ascii)) :=
  ids ← load (adj D) n;
  fold_outcome (λ acc id, e ← load ec id; Done (acc ++ add_conditions_of n e)) [] ids.

(** An episode of one node without a label. *)
Definition unlabeled_episode : list example := [make_example [] 110 [unit_feature 4]].

(** Five nodes, edges {0,1} and {2,3}, node 4 isolated. *)
Definition islands_episode : list example :=
  [make_example [1] 110 []; make_example [1] 110 []; make_example [2] 110 [];
   make_example [2] 110 []; make_example [1] 110 [];
   make_example [1; 2] 101 []; make_example [3; 4] 101 []].

Definition islands_task : task_data :=
  set_adj [[5]; [5]; [6]; [6]; []] (set_N 5 (graph_task 2)).

(** The confusion matrix of the macro-F1 example, for two labels: row 1 is
    [3 1], row 2 is [0 2]. *)
Definition f1_example_task : task_data :=
  set_confusion_matrix [0; 0; 0; 0; 3; 1; 0; 0; 2] (graph_task 2).

(** An edge of three nodes seen from node 0, the other two predicted 1 and 2. *)
Definition triple_episode : list example :=
  [make_example [1] 110 [unit_feature 4];
   make_example [2] 110 [unit_feature 8];
   make_example [1] 110 [unit_feature 4];
   make_example [1; 2; 3] 101 [unit_feature 12; {| x := Q2Qc 2; weight_index := 16 |}]].

Definition triple_task : task_data :=
  set_pred [3; 1; 2] (set_multiplier 4 (set_mask (2 ^ 18 - 1) (graph_task 2))).

(** One node and an edge naming ids 1 and 2. *)
Definition overshoot_episode : list example :=
  [make_example [1] 110 []; make_example [1; 2] 101 []].

(** The options of a single pass with per-pass learners requested. *)
Definition single_pass_options : options :=
  {| search_graph_num_loops := Some 1;
     search_graph_no_structure := false;
     search_graph_separate_learners := true |}.

Definition single_pass_task : task_data :=
  Eval vm_compute in
    match setup pair_vw (initialize single_pass_options 2).1 pair_episode with
    | Done D => D
    | _ => new_task_data
    end.

(** ** Definitions for the further properties *)

(** The adjacency lists after the ids [S] of the edge record [i] have been
    linked into [base]: the lists of the nodes of [S] end with [i]. *)
Definition linked (i : Z) (base : list (list Z)) (S : list Z) (adj1 : list (list Z)) : Prop :=
  length adj1 = length base ∧
  ∀ (n : nat) l, base !! n = Some l →
    adj1 !! n = Some (if bool_decide (Z.of_nat n ∈ S) then l ++ [i] else l).

(** A list of record positions in strictly increasing order. *)
Definition increasing (l : list Z) : Prop :=
  ∀ (a b : nat) x y, l !! a = Some x → l !! b = Some y → (a < b)%nat → x < y.

(** The adjacency lists over the edge records before position [i]: the
    list of node [n] holds, in increasing order, the positions of the edge
    records that name [n+1]. *)
Definition incidence (Nn : Z) (ec : list example) (i : Z) (adj1 : list (list Z)) : Prop :=
  size adj1 = Nn ∧
  ∀ (n : nat) ids, adj1 !! n = Some ids →
    increasing ids ∧
    ∀ id, id ∈ ids ↔ Nn ≤ id < i ∧ ∃ e, ec !! Z.to_nat id = Some e ∧ Z.of_nat n ∈ endpoints_of e.

(** The first four assignments of [setup]: the fields copied from the host. *)
Definition host_fields (all : vw) (D : task_data) : task_data :=
  let D := set_mask (weight_mask all) D in
  let D := set_wpp (vw_wpp all) D in
  let D := set_ss (stride_shift all) D in
  set_multiplier (u64 (Z.shiftl (wpp D) (ss D))) D.

(** The label [run] reads off a node: the class of its first cost pair, 0
    for a node without cost pairs. *)
Definition label_or_0 (e : example) : Z :=
  match costs e with c :: _ => class_index c | [] => 0 end.

(** A node whose neighbor namespace is empty and whose feature count is a
    [size_t]: the state of a node outside a prediction. *)
Definition clean_node (nn : Z) (node : example) : Prop :=
  atomics node !! Z.to_nat nn = Some [] ∧
  sum_feat_sq node !! Z.to_nat nn = Some (Q2Qc 0) ∧
  0 ≤ num_features node < 2 ^ 64.

(** Two examples that agree on every field but [total_sum_feat_sq], the
    field [del_edge_features] gives back by a floating-point subtraction. *)
Definition same_but_total (a b : example) : Prop :=
  costs b = costs a ∧ indices b = indices a ∧ atomics b = atomics a ∧
  sum_feat_sq b = sum_feat_sq a ∧ num_features b = num_features a.

(** The oracle [run] hands to the predictor of a node: its label, none for
    a node without a label (or with label 0). *)
Definition oracle_of (node : example) : option Z :=
  if 0 <? label_or_0 node then Some (label_or_0 node) else None.

(** A request made for one of the first [Nn] records of the episode [ec],
    its nodes: its tag is the node's id, its oracle the node's label and
    its input carries the node's label. *)
Definition request_for (Nn : Z) (ec : list example) (P : request) : Prop :=
  ∃ (n : nat) node, Z.of_nat n < Nn ∧ ec !! n = Some node ∧
    my_tag P = Z.of_nat n + 1 ∧
    oracle P = oracle_of node ∧ costs (input P) = costs node.

(** A request that conditions on other nodes only, each time with the
    tag character of an edge. *)
Definition conditions_on_others (P : request) : Prop :=
  Forall (λ tc : Z * ascii, tc.1 ≠ my_tag P ∧ 0 ≤ tc.1 < 2 ^ 32 ∧ tc.2 = "e"%char)
    (condition_on P).

(** The state [setup] leaves for [pair_episode] when per-pass learners
    are asked for and the number of passes is left at its default. *)
Definition separate_task : task_data :=
  Eval vm_compute in
    match setup pair_vw
            (initialize {| search_graph_num_loops := None; search_graph_no_structure := false;
                           search_graph_separate_learners := true |} 2).1 pair_episode with
    | Done D => D
    | _ => new_task_data
    end.

(** The number of nodes with label [i] and prediction [j]. *)
Definition hits (D : task_data) (ec : list example) (i j : Z) : Z :=
  size (filter (λ n, label_or_0 <$> ec !! Z.to_nat n = Some i ∧ pred D !! Z.to_nat n = Some j)
          (seqZ 0 (N D))).

(** An episode whose first [Nn] records carry a label in [lo .. Kk]. *)
Definition labeled_nodes (lo Kk Nn : Z) (ec : list example) : Prop :=
  Nn ≤ size ec ∧
  Forall (λ e, costs e ≠ [] ∧ lo ≤ label_or_0 e ≤ Kk) (take (Z.to_nat Nn) ec).

(** [w] can be reached from [u] along neighbors. *)
Inductive reachable (adj0 : list (list Z)) (ec : list example) (u : Z) : Z → Prop :=
| reach_here : reachable adj0 ec u u
| reach_step v w : reachable adj0 ec u v → neighbor adj0 ec v w → reachable adj0 ec u w.

(** [pair_episode] with an edge feature whose index is not a multiple of
    the stride 4. *)
Definition misaligned_episode : list example :=
  [make_example [1] 110 [unit_feature 4];
   make_example [2] 110 [unit_feature 8];
   make_example [1; 2] 101 [unit_feature 12; unit_feature 13]].

(** The buffers of a task for [K] labels, as [initialize] allocates them,
    and at least one pass. *)
Definition buffers_ok (D : task_data) : Prop :=
  0 ≤ K D ∧ K D + 1 < 2 ^ 32 ∧
  size (neighbor_predictions D) = K D + 1 ∧
  size (confusion_matrix D) = (K D + 1) * (K D + 1) ∧
  size (true_counts D) = K D + 1 ∧
  1 ≤ num_loops D.

(** An episode [run] can work on, for a host [all] and a task for [Kk]
    labels: nodes first and at least one of them; every node has the
    per-namespace arrays the neighbor namespace and the configured pairs
    index, and a label of at most [Kk] if it has one; every edge names ids
    in [1 .. N] and has features whose indices are multiples of the
    stride. *)
Definition episode_ok (nn : Z) (all : vw) (Kk : Z) (ec : list example) : Prop :=
  let m := u64 (Z.shiftl (vw_wpp all) (stride_shift all)) in
  size ec < 2 ^ 31 ∧ ¬ node_after_edge ec ∧ nodes_of ec ≠ [] ∧ m ≠ 0 ∧
  Forall (λ e, node_ok nn e ∧ pairs_ok nn all e ∧
               Forall (λ c, 0 ≤ class_index c ≤ Kk) (take 1 (costs e))) (nodes_of ec) ∧
  Forall (λ e, Forall (λ c, 1 ≤ class_index c ≤ size (nodes_of ec)) (costs e) ∧
               ∃ fs, active_features e = Done fs ∧
                     Forall (λ f, weight_index f / m * m = weight_index f) fs) (edges_of ec).

(** ** [setup]'s first loop and the augmentation with [float] as binary32

    The fields of type [float] are binary32 numbers here, and every
    operation on them rounds as the machine does.  The literals [0.] and
    [1.] are of type [double]: [v += 1.] adds in binary64 and rounds the
    sum to binary32, and a comparison with a literal is made in binary64.
    The integer fields and the control flow are those of the definitions
    above. *)

Module Binary32.

Definition zero : spec_float := S754_zero false.

(** The conversion of a [double] to [float]. *)
Definition of_double (f : spec_float) : spec_float :=
  match f with
  | S754_finite s m e => binary_normalize 24 128 (if s then Z.neg m else Z.pos m) e s
  | _ => f
  end.

(** [v += 1.] *)
Definition add_one (v : spec_float) : spec_float :=
  of_double (SFadd 53 1024 (binary64_of_binary32 v) (binary_normalize 53 1024 1 0 false)).

(** [v == 0.] and [v <= 1.] *)
Definition is_zero (v : spec_float) : bool :=
  SFeqb (binary64_of_binary32 v) (S754_zero false).
Definition le_one (v : spec_float) : bool :=
  SFleb (binary64_of_binary32 v) (binary_normalize 53 1024 1 0 false).

(** [(size_t) v]: the value truncated towards zero; the conversion has no
    defined result when the truncated value is not a [size_t]. *)
Definition to_size_t (v : spec_float) : outcome Z :=
  match v with
  | S754_zero _ => Done 0
  | S754_finite s m e =>
      let t := if 0 <=? e then Z.pos m * 2 ^ e else Z.pos m / 2 ^ (- e) in
      if s then (if t =? 0 then Done 0 else Undefined)
      else if t <? 2 ^ 64 then Done t else Undefined
  | _ => Undefined
  end.

Record feature : Type := { x : spec_float; weight_index : Z }.

Record example : Type := {
  costs : list wclass;
  indices : list Z;
  atomics : list (list feature);
  sum_feat_sq : list spec_float;
  total_sum_feat_sq : spec_float;
  num_features : Z
}.

Definition set_indices (v : list Z) (e : example) : example :=
  {| costs := costs e; indices := v; atomics := atomics e; sum_feat_sq := sum_feat_sq e; total_sum_feat_sq := total_sum_feat_sq e; num_features := num_features e |}.
Definition set_atomics (v : list (list feature)) (e : example) : example :=
  {| costs := costs e; indices := indices e; atomics := v; sum_feat_sq := sum_feat_sq e; total_sum_feat_sq := total_sum_feat_sq e; num_features := num_features e |}.
Definition set_sum_feat_sq (v : list spec_float) (e : example) : example :=
  {| costs := costs e; indices := indices e; atomics := atomics e; sum_feat_sq := v; total_sum_feat_sq := total_sum_feat_sq e; num_features := num_features e |}.
Definition set_total_sum_feat_sq (v : spec_float) (e : example) : example :=
  {| costs := costs e; indices := indices e; atomics := atomics e; sum_feat_sq := sum_feat_sq e; total_sum_feat_sq := v; num_features := num_features e |}.
Definition set_num_features (v : Z) (e : example) : example :=
  {| costs := costs e; indices := indices e; atomics := atomics e; sum_feat_sq := sum_feat_sq e; total_sum_feat_sq := total_sum_feat_sq e; num_features := v |}.

Record task_data : Type := {
  num_loops : Z;
  K : Z;
  use_structure : bool;
  separate_learners : bool;
  mask : Z;
  multiplier : Z;
  ss : Z;
  wpp : Z;
  N : Z;
  E : Z;
  adj : list (list Z);
  bfs : list Z;
  pred : list Z;
  cur_node : Z;
  neighbor_predictions : list spec_float;
  confusion_matrix : list Z;
  true_counts : list spec_float;
  true_counts_total : spec_float
}.

Definition set_N (v : Z) (D : task_data) : task_data :=
  {| num_loops := num_loops D; K := K D; use_structure := use_structure D; separate_learners := separate_learners D; mask := mask D; multiplier := multiplier D; ss := ss D; wpp := wpp D; N := v; E := E D; adj := adj D; bfs := bfs D; pred := pred D; cur_node := cur_node D; neighbor_predictions := neighbor_predictions D; confusion_matrix := confusion_matrix D; true_counts := true_counts D; true_counts_total := true_counts_total D |}.
Definition set_E (v : Z) (D : task_data) : task_data :=
  {| num_loops := num_loops D; K := K D; use_structure := use_structure D; separate_learners := separate_learners D; mask := mask D; multiplier := multiplier D; ss := ss D; wpp := wpp D; N := N D; E := v; adj := adj D; bfs := bfs D; pred := pred D; cur_node := cur_node D; neighbor_predictions := neighbor_predictions D; confusion_matrix := confusion_matrix D; true_counts := true_counts D; true_counts_total := true_counts_total D |}.
Definition set_cur_node (v : Z) (D : task_data) : task_data :=
  {| num_loops := num_loops D; K := K D; use_structure := use_structure D; separate_learners := separate_learners D; mask := mask D; multiplier := multiplier D; ss := ss D; wpp := wpp D; N := N D; E := E D; adj := adj D; bfs := bfs D; pred := pred D; cur_node := v; neighbor_predictions := neighbor_predictions D; confusion_matrix := confusion_matrix D; true_counts := true_counts D; true_counts_total := true_counts_total D |}.
Definition set_neighbor_predictions (v : list spec_float) (D : task_data) : task_data :=
  {| num_loops := num_loops D; K := K D; use_structure := use_structure D; separate_learners := separate_learners D; mask := mask D; multiplier := multiplier D; ss := ss D; wpp := wpp D; N := N D; E := E D; adj := adj D; bfs := bfs D; pred := pred D; cur_node := cur_node D; neighbor_predictions := v; confusion_matrix := confusion_matrix D; true_counts := true_counts D; true_counts_total := true_counts_total D |}.
Definition set_true_counts (v : list spec_float) (D : task_data) : task_data :=
  {| num_loops := num_loops D; K := K D; use_structure := use_structure D; separate_learners := separate_learners D; mask := mask D; multiplier := multiplier D; ss := ss D; wpp := wpp D; N := N D; E := E D; adj := adj D; bfs := bfs D; pred := pred D; cur_node := cur_node D; neighbor_predictions := neighbor_predictions D; confusion_matrix := confusion_matrix D; true_counts := v; true_counts_total := true_counts_total D |}.
Definition set_true_counts_total (v : spec_float) (D : task_data) : task_data :=
  {| num_loops := num_loops D; K := K D; use_structure := use_structure D; separate_learners := separate_learners D; mask := mask D; multiplier := multiplier D; ss := ss D; wpp := wpp D; N := N D; E := E D; adj := adj D; bfs := bfs D; pred := pred D; cur_node := cur_node D; neighbor_predictions := neighbor_predictions D; confusion_matrix := confusion_matrix D; true_counts := true_counts D; true_counts_total := v |}.

Definition example_is_edge (e : example) : bool := 1 <? size (costs e).

(** First loop of [setup]. *)
Fixpoint count_records (ec : list example) (D : task_data) : outcome task_data :=
  match ec with
  | [] => Done D
  | e :: ec' =>
      if example_is_edge e then count_records ec' (set_E (u32 (E D + 1)) D)
      else if 0 <? E D then Fatal "error: got a node after getting edges!"
      else
        let D1 := set_N (u32 (N D + 1)) D in
        match costs e with
        | [] => count_records ec' D1
        | c :: _ =>
            t ← load (true_counts D1) (class_index c);
            tc ← store (true_counts D1) (class_index c) (add_one t);
            count_records ec'
              (set_true_counts_total (add_one (true_counts_total D1))
                 (set_true_counts tc D1))
        end
  end.

Definition active_features (e : example) : outcome (list feature) :=
  fold_outcome (λ acc ns, fs ← load (atomics e) ns; Done (acc ++ fs)) [] (indices e).

Definition foreach_feature {St} (T : St → spec_float → Z → outcome St) (e : example) (dat : St)
    : outcome St :=
  fs ← active_features e;
  fold_outcome (λ s f, T s (x f) (weight_index f)) dat fs.

Definition neighbor_bucket (D : task_data) (fx2 k : Z) : Z :=
  Z.land (u32 (u64 (u64 (fx2 + u64 (348919043 * k)) * multiplier D))) (u32 (mask D)).

(** [(int)c] for a [char] [c]; whether [char] is signed is the choice of
    the compiler. *)
Definition int_of_char (char_is_signed : bool) (c : ascii) : Z :=
  let b := Z.of_N (N_of_ascii c) in
  if char_is_signed && (128 <=? b) then b - 256 else b.

(** [s[i]] for a [std::string]: the character at [i], the terminating
    zero at [i = s.size()], nothing defined beyond. *)
Definition char_at (s : string) (i : nat) : outcome ascii :=
  match String.get i s with
  | Some c => Done c
  | None => if bool_decide (i = String.length s) then Done Ascii.zero else Undefined
  end.

Section Task.

Variable neighbor_namespace : Z.
Variable char_is_signed : bool.

Definition push_feature (f : feature) (node : example) : outcome example :=
  a ← load (atomics node) neighbor_namespace;
  atomics' ← store (atomics node) neighbor_namespace (a ++ [f]);
  s ← load (sum_feat_sq node) neighbor_namespace;
  sum' ← store (sum_feat_sq node) neighbor_namespace (SFadd 24 128 s (SFmul 24 128 (x f) (x f)));
  Done (set_sum_feat_sq sum' (set_atomics atomics' node)).

Definition add_edge_features_group_fn (D : task_data) (ec : list example)
    (fv : spec_float) (fx : Z) : outcome (list example) :=
  node ← load ec (cur_node D);
  if multiplier D =? 0 then Undefined
  else if negb (fx / multiplier D * multiplier D =? fx) then Fatal "eek"
  else
    let fx2 := u32 (fx / multiplier D) in
    node' ← fold_outcome (λ node k,
        np ← load (neighbor_predictions D) k;
        if is_zero np then Done node
        else
          let fv2 := SFmul 24 128 fv np in
          push_feature {| x := fv2; weight_index := neighbor_bucket D fx2 k |} node)
      node (seqZ 0 (K D + 1));
    store ec (cur_node D) node'.

Definition add_edge_features_single_fn (D : task_data) (ec : list example)
    (fv : spec_float) (fx : Z) : outcome (list example) :=
  node ← load ec (cur_node D);
  if multiplier D =? 0 then Undefined
  else if negb (fx / multiplier D * multiplier D =? fx) then Fatal "eek"
  else
    let fx2 := u32 (fx / multiplier D) in
    np0 ← load (neighbor_predictions D) 0;
    k ← to_size_t np0;
    node' ← push_feature {| x := fv; weight_index := neighbor_bucket D fx2 k |} node;
    store ec (cur_node D) node'.

Definition histogram : Type := list spec_float * spec_float * Z.

Definition clear_predictions (D : task_data) : outcome (list spec_float) :=
  fold_outcome (λ np k, store np k zero) (neighbor_predictions D) (seqZ 0 (u64 (K D + 1))).

Definition count_neighbor (D : task_data) (n : Z) (h : histogram) (c : wclass)
    : outcome histogram :=
  let '(np, pred_total, last_pred) := h in
  let m := u32 (class_index c - 1) in
  if m =? n then Done h
  else
    p ← load (pred D) m;
    v ← load np (u64 (p - 1));
    np' ← store np (u64 (p - 1)) (add_one v);
    Done (np', add_one pred_total, u32 (u64 (p - 1))).

Definition edge_histogram (D : task_data) (n : Z) (edge : example) : outcome histogram :=
  np ← clear_predictions D;
  if use_structure D then
    fold_outcome (count_neighbor D n) (np, zero, 0) (costs edge)
  else
    v ← load np 0;
    np' ← store np 0 (add_one v);
    Done (np', add_one zero, 0).

Definition add_edge (n : Z) (st : task_data * list example) (i : Z)
    : outcome (task_data * list example) :=
  let '(D, ec) := st in
  edge ← load ec i;
  '(np, pred_total, last_pred) ← edge_histogram D n edge;
  let D := set_neighbor_predictions np D in
  if is_zero pred_total then Done (D, ec)
  else if le_one pred_total then
    np' ← store np 0 (binary32_of_Z last_pred);
    let D := set_neighbor_predictions np' D in
    ec' ← foreach_feature (add_edge_features_single_fn D) edge ec;
    Done (D, ec')
  else
    ec' ← foreach_feature (add_edge_features_group_fn D) edge ec;
    Done (D, ec').

(** Body of the loop over [all.pairs]; [p] is one [-q] string. *)
Definition add_pair (node : example) (p : string) : outcome example :=
  c0 ← char_at p 0;
  let i0 := int_of_char char_is_signed c0 in
  c1 ← char_at p 1;
  let i1 := int_of_char char_is_signed c1 in
  if (i0 =? neighbor_namespace) || (i1 =? neighbor_namespace) then
    a0 ← load (atomics node) i0;
    a1 ← load (atomics node) i1;
    s0 ← load (sum_feat_sq node) i0;
    s1 ← load (sum_feat_sq node) i1;
    Done (set_total_sum_feat_sq
            (SFadd 24 128 (total_sum_feat_sq node) (SFmul 24 128 s0 s1))
            (set_num_features (u64 (num_features node + u64 (size a0 * size a1))) node))
  else Done node.

Definition add_edge_features (pairs : list string) (D : task_data) (n : Z)
    (ec : list example) : outcome (task_data * list example) :=
  _ ← load ec n;
  let D := set_cur_node n D in
  ids ← load (adj D) n;
  '(D, ec) ← fold_outcome (add_edge n) (D, ec) ids;
  node ← load ec n;
  let node := set_indices (indices node ++ [neighbor_namespace]) node in
  s ← load (sum_feat_sq node) neighbor_namespace;
  let node := set_total_sum_feat_sq (SFadd 24 128 (total_sum_feat_sq node) s) node in
  a ← load (atomics node) neighbor_namespace;
  let node := set_num_features (u64 (num_features node + size a)) node in
  node ← fold_outcome add_pair node pairs;
  ec ← store ec n node;
  Done (D, ec).

Definition del_edge_features (n : Z) (ec : list example) : outcome (list example) :=
  node ← load ec n;
  if bool_decide (indices node = []) then Undefined
  else
    let node := set_indices (removelast (indices node)) node in
    s ← load (sum_feat_sq node) neighbor_namespace;
    let node := set_total_sum_feat_sq (SFsub 24 128 (total_sum_feat_sq node) s) node in
    a ← load (atomics node) neighbor_namespace;
    let node := set_num_features (u64 (num_features node - size a)) node in
    atomics' ← store (atomics node) neighbor_namespace [];
    let node := set_atomics atomics' node in
    sum' ← store (sum_feat_sq node) neighbor_namespace zero;
    let node := set_sum_feat_sq sum' node in
    store ec n node.

End Task.

(** *** Specification-level definitions *)

(** The node with the features [inj] appended to namespace [nn]. *)
Definition with_features (nn : Z) (inj : list feature) (node : example) : example :=
  set_sum_feat_sq
    (alter (λ s, foldl (λ s g, SFadd 24 128 s (SFmul 24 128 (x g) (x g))) s inj)
       (Z.to_nat nn) (sum_feat_sq node))
    (set_atomics (alter (λ a, a ++ inj) (Z.to_nat nn) (atomics node)) node).

Definition node_ok (nn : Z) (node : example) : Prop :=
  0 ≤ nn < size (atomics node) ∧ 0 ≤ nn < size (sum_feat_sq node).

Definition aligned (D : task_data) (f : feature) : Prop :=
  weight_index f / multiplier D * multiplier D = weight_index f.

(** The histogram of an edge is built inside the arrays, and the number of
    labels is one a [float] holds exactly. *)
Definition histogram_ok (D : task_data) (n : Z) (edge : example) : Prop :=
  size (neighbor_predictions D) = K D + 1 ∧ 0 ≤ K D < 2 ^ 24 ∧
  (use_structure D = true →
   Forall (λ c, u32 (class_index c - 1) ≠ n →
                ∃ p, pred D !! Z.to_nat (u32 (class_index c - 1)) = Some p ∧ 1 ≤ p ≤ K D + 1)
     (costs edge)).

(** A node outside a prediction: its neighbor namespace is empty. *)
Definition clean_node (nn : Z) (node : example) : Prop :=
  atomics node !! Z.to_nat nn = Some [] ∧
  sum_feat_sq node !! Z.to_nat nn = Some zero ∧
  0 ≤ num_features node < 2 ^ 64.

(** No configured pair names namespace [nn]. *)
Definition no_pair_names (nn : Z) (char_is_signed : bool) (pairs : list string) : Prop :=
  Forall (λ p, ∃ c0 c1, char_at p 0 = Done c0 ∧ char_at p 1 = Done c1 ∧
                 int_of_char char_is_signed c0 ≠ nn ∧ int_of_char char_is_signed c1 ≠ nn)
    pairs.

(** The records of an episode that are nodes with the label [k], and
    those that are nodes with a label. *)
Definition label_of (e : example) : option Z :=
  match costs e with [c] => Some (class_index c) | _ => None end.
Definition labeled_as (k : Z) (ec : list example) : nat :=
  length (filter (λ e, label_of e = Some k) ec).
Definition labeled (ec : list example) : nat :=
  length (filter (λ e, label_of e ≠ None) ec).

(** *** Concrete episodes *)

Definition make_example (cs : list Z) (ns : Z) (fs : list feature) : example :=
  let sq := foldl (λ s g, SFadd 24 128 s (SFmul 24 128 (x g) (x g))) zero fs in
  {| costs := (λ c, {| class_index := c |}) <$> cs;
     indices := [ns];
     atomics := <[Z.to_nat ns := fs]> (replicate 256 []);
     sum_feat_sq := <[Z.to_nat ns := sq]> (replicate 256 zero);
     total_sum_feat_sq := sq;
     num_features := size fs |}.

(** Two nodes joined by one edge; the one feature of node 0 has the value
    4096, so that its sum of squares is [2^24]. *)
Definition rounding_episode : list example :=
  [make_example [1] 110 [{| x := binary32_of_Z 4096; weight_index := 4 |}];
   make_example [2] 110 [{| x := binary32_of_Z 1; weight_index := 8 |}];
   make_example [1; 2] 101 [{| x := binary32_of_Z 1; weight_index := 12 |}]].

(** The state of the task for [rounding_episode] at the start of [run]:
    two labels, stride 4, every prediction at the sentinel. *)
Definition rounding_task : task_data :=
  {| num_loops := 2; K := 2; use_structure := true; separate_learners := false;
     mask := 2 ^ 18 - 1; multiplier := 4; ss := 2; wpp := 1;
     N := 2; E := 1; adj := [[2]; [2]]; bfs := [0; 1]; pred := [3; 3]; cur_node := 0;
     neighbor_predictions := replicate 3 zero;
     confusion_matrix := replicate 9 0;
     true_counts := replicate 3 (binary32_of_Z 1);
     true_counts_total := binary32_of_Z 3 |}.

(** The edge of three nodes of [triple_episode], seen from node 0. *)
Definition triple_episode : list example :=
  [make_example [1] 110 [{| x := binary32_of_Z 1; weight_index := 4 |}];
   make_example [2] 110 [{| x := binary32_of_Z 1; weight_index := 8 |}];
   make_example [1] 110 [{| x := binary32_of_Z 1; weight_index := 4 |}];
   make_example [1; 2; 3] 101
     [{| x := binary32_of_Z 1; weight_index := 12 |};
      {| x := binary32_of_Z 2; weight_index := 16 |}]].

Definition triple_task : task_data :=
  {| num_loops := 2; K := 2; use_structure := true; separate_learners := false;
     mask := 2 ^ 18 - 1; multiplier := 4; ss := 0; wpp := 0;
     N := 0; E := 0; adj := []; bfs := []; pred := [3; 1; 2]; cur_node := 0;
     neighbor_predictions := replicate 3 zero;
     confusion_matrix := replicate 9 0;
     true_counts := replicate 3 (binary32_of_Z 1);
     true_counts_total := binary32_of_Z 3 |}.

End Binary32.

(** * Basic facts *)

Lemma bind_Done {A B} (m : outcome A) (f : A → outcome B) b :
  m ≫= f = Done b ↔ ∃ a, m = Done a ∧ f a = Done b.
Proof.
  destruct m; simpl; split; try (intros [a0 [? ?]]); try discriminate; eauto.
  congruence.
Qed.

Lemma bind_fatal {A B} (m : outcome A) (f : A → outcome B) :
  is_fatal (m ≫= f) ↔ is_fatal m ∨ ∃ a, m = Done a ∧ is_fatal (f a).
Proof.
  unfold is_fatal. destruct m; simpl; split.
  - intros H. right. eauto.
  - intros [[msg H]|[a0 [[= <-] H]]]; [discriminate|done].
  - eauto.
  - eauto.
  - intros [? ?]; discriminate.
  - intros [[? ?]|[? [? ?]]]; discriminate.
  - intros [? ?]; discriminate.
  - intros [[? ?]|[? [? ?]]]; discriminate.
Qed.

Lemma bind_Undefined {A B} (m : outcome A) (f : A → outcome B) :
  m ≫= f = Undefined ↔ m = Undefined ∨ ∃ a, m = Done a ∧ f a = Undefined.
Proof.
  destruct m; simpl; split; try (intros [?|[? [? ?]]]); try discriminate; eauto.
  congruence.
Qed.

Lemma load_Done {A} (l : list A) i a :
  load l i = Done a ↔ 0 ≤ i ∧ l !! Z.to_nat i = Some a.
Proof.
  unfold load, size. destruct (0 <=? i) eqn:H0; simpl.
  - destruct (i <? Z.of_nat (length l)) eqn:H1.
    + destruct (l !! Z.to_nat i) eqn:Hl.
      * split; [intros [= <-]; split; [lia|done]|intros [_ [= <-]]; done].
      * split; [discriminate|intros [_ ?]; discriminate].
    + split; [discriminate|]. intros [_ Hl]. apply lookup_lt_Some in Hl. lia.
  - split; [discriminate|]. lia.
Qed.

Lemma load_in_range {A} (l : list A) i :
  0 ≤ i < size l → ∃ a, load l i = Done a ∧ l !! Z.to_nat i = Some a.
Proof.
  intros Hi. unfold load, size in *.
  destruct (lookup_lt_is_Some_2 l (Z.to_nat i)) as [a Ha]; [lia|].
  exists a. rewrite Ha. split; [|done].
  replace (0 <=? i) with true by lia. replace (i <? Z.of_nat (length l)) with true by lia. done.
Qed.

Lemma load_out_of_range {A} (l : list A) i :
  ¬ (0 ≤ i < size l) → load l i = Undefined.
Proof.
  intros Hi. unfold load.
  destruct (0 <=? i) eqn:H0; destruct (i <? size l) eqn:H1; simpl; try done. lia.
Qed.

Lemma load_cases {A} (l : list A) i :
  (∃ a, load l i = Done a) ∨ load l i = Undefined.
Proof.
  unfold load. destruct (_ && _); [|by right].
  destruct (l !! Z.to_nat i); eauto.
Qed.

Lemma store_Done {A} (l : list A) i a l' :
  store l i a = Done l' ↔ 0 ≤ i < size l ∧ l' = <[Z.to_nat i := a]> l.
Proof.
  unfold store. destruct (0 <=? i) eqn:H0; destruct (i <? size l) eqn:H1; simpl;
    split; try discriminate; try (intros [? ?]; lia).
  - intros [= <-]. split; [lia|done].
  - intros [_ ->]. done.
Qed.

Lemma store_in_range {A} (l : list A) i a :
  0 ≤ i < size l → store l i a = Done (<[Z.to_nat i := a]> l).
Proof. intros. apply store_Done. done. Qed.

Lemma store_out_of_range {A} (l : list A) i a :
  ¬ (0 ≤ i < size l) → store l i a = Undefined.
Proof.
  intros Hi. unfold store.
  destruct (0 <=? i) eqn:H0; destruct (i <? size l) eqn:H1; simpl; try done. lia.
Qed.

Lemma size_app {A} (l1 l2 : list A) : size (l1 ++ l2) = size l1 + size l2.
Proof. unfold size. rewrite length_app. lia. Qed.

Lemma size_nonneg {A} (l : list A) : 0 ≤ size l.
Proof. unfold size. lia. Qed.

Lemma u32_small z : 0 ≤ z < 2 ^ 32 → u32 z = z.
Proof. intros. unfold u32. by apply Z.mod_small. Qed.

Lemma u64_small z : 0 ≤ z < 2 ^ 64 → u64 z = z.
Proof. intros. unfold u64. by apply Z.mod_small. Qed.

Lemma initialize_single vm num_actions v :
  search_graph_num_loops vm = Some v → v ≤ 1 →
  num_loops (initialize vm num_actions).1 = 1 ∧
  separate_learners (initialize vm num_actions).1 = false ∧
  (initialize vm num_actions).2 = None.
Proof.
  intros Hv Hle. unfold initialize. rewrite Hv.
  replace (v <=? 1) with true by lia. simpl. done.
Qed.

(** The fields [count_records] leaves alone. *)
Lemma count_records_frame ec : ∀ D D',
  count_records ec D = Done D' →
  K D' = K D ∧ adj D' = adj D ∧ multiplier D' = multiplier D ∧ mask D' = mask D
  ∧ num_loops D' = num_loops D ∧ separate_learners D' = separate_learners D
  ∧ use_structure D' = use_structure D
  ∧ neighbor_predictions D' = neighbor_predictions D
  ∧ confusion_matrix D' = confusion_matrix D.
Proof.
  induction ec as [|e ec IH]; intros D D' H; simpl in H.
  - by injection H as <-.
  - destruct (example_is_edge e).
    + apply IH in H. simpl in H. done.
    + destruct (0 <? E D); [discriminate|].
      destruct (costs e) as [|c cs].
      * apply IH in H. simpl in H. done.
      * apply bind_Done in H as [t [_ H]]. apply bind_Done in H as [tc [_ H]].
        apply IH in H. simpl in H. done.
Qed.

Lemma count_records_edges ec : ∀ D,
  Forall (λ e, example_is_edge e = true) ec → size ec + E D < 2 ^ 32 → 0 ≤ E D →
  count_records ec D = Done (set_E (E D + size ec) D).
Proof.
  induction ec as [|e ec IH]; intros D Hall HE HE0; simpl.
  - unfold size; simpl. rewrite Z.add_0_r. by destruct D.
  - inversion Hall as [|? ? He Hall']; subst. rewrite He.
    unfold size in *. simpl length in *.
    rewrite IH; simpl; try done.
    + rewrite u32_small by lia. unfold set_E; simpl. f_equal. f_equal. lia.
    + rewrite u32_small by lia. lia.
    + rewrite u32_small by lia. lia.
Qed.

(** The scan of an episode whose nodes all come first. *)
Lemma count_records_sorted nodes edges : ∀ D,
  Forall (λ e, example_is_edge e = false) nodes →
  Forall (λ e, example_is_edge e = true) edges →
  E D = 0 → 0 ≤ N D → N D + size nodes + size edges < 2 ^ 32 →
  count_records (nodes ++ edges) D = Undefined ∨
  ∃ D', count_records (nodes ++ edges) D = Done D' ∧
        N D' = N D + size nodes ∧ E D' = size edges.
Proof.
  induction nodes as [|e nodes IH]; intros D Hn He HE HN Hsz; simpl.
  - right. rewrite count_records_edges; try done.
    + eexists; split; [done|]. simpl. unfold size; simpl. lia.
    + unfold size in *; simpl in *; lia.
    + lia.
  - inversion Hn as [|? ? Hne Hn']; subst. rewrite Hne. rewrite HE. simpl.
    unfold size in Hsz; simpl length in Hsz.
    assert (Hu : u32 (N D + 1) = N D + 1) by (apply u32_small; lia).
    destruct (costs e) as [|c cs].
    + destruct (IH (set_N (u32 (N D + 1)) D)) as [HU|[D' [HD [HN' HE']]]]; simpl; try done; try lia.
      { rewrite Hu. unfold size. lia. }
      * by left.
      * right. exists D'. split; [done|]. simpl in HN'. unfold size in *. simpl. lia.
    + destruct (load_cases (true_counts D) (class_index c)) as [[t Ht]|Ht]; rewrite Ht; simpl; [|by left].
      destruct (store (true_counts D) (class_index c) (t + Q2Qc 1)%Qc) as [tc| | |] eqn:Hst; simpl;
        try (apply store_Done in Hst); try (by left).
      2:{ unfold store in Hst. destruct (_ && _); discriminate. }
      2:{ unfold store in Hst. destruct (_ && _); discriminate. }
      match goal with |- context [count_records _ ?D1] => destruct (IH D1) as [HU|[D' [HD [HN' HE']]]] end;
        simpl; try done; try lia.
      { rewrite Hu. unfold size. lia. }
      * by left.
      * right. exists D'. split; [done|]. simpl in HN'. unfold size in *. simpl. lia.
Qed.

Lemma count_records_not_sorted ec : ∀ D,
  node_after_edge ec ∨ (0 < E D ∧ ∃ e, e ∈ ec ∧ example_is_edge e = false) →
  0 ≤ E D → E D + size ec < 2 ^ 32 →
  count_records ec D = Undefined ∨ is_fatal (count_records ec D).
Proof.
  induction ec as [|e ec IH]; intros D H HE Hsz.
  - destruct H as [(i & j & e1 & e2 & _ & H & _)|[_ (e & H & _)]].
    + rewrite lookup_nil in H. discriminate.
    + by apply elem_of_nil in H.
  - simpl. unfold size in Hsz; simpl length in Hsz.
    destruct (example_is_edge e) eqn:He.
    + apply IH; simpl.
      * right. split; [rewrite u32_small by lia; lia|].
        destruct H as [(i & j & e1 & e2 & Hij & Hi & Hj & H1 & H2)|[_ (e' & Hin & He')]].
        -- exists e2. split; [|done]. destruct j as [|j]; [lia|]. simpl in Hj.
           by eapply list_elem_of_lookup_2.
        -- exists e'. split; [|done]. apply elem_of_cons in Hin as [->|Hin]; [congruence|done].
      * rewrite u32_small by lia; lia.
      * rewrite u32_small by lia. unfold size. lia.
    + destruct (0 <? E D) eqn:HE0; [right; eexists; done|].
      assert (E D = 0) as HE00 by lia.
      assert (Hnae : node_after_edge ec).
      { destruct H as [(i & j & e1 & e2 & Hij & Hi & Hj & H1 & H2)|[? _]]; [|lia].
        destruct i as [|i]; simpl in Hi; [congruence|].
        destruct j as [|j]; [lia|]. simpl in Hj.
        exists i, j, e1, e2. repeat split; try done. lia. }
      destruct (costs e) as [|c cs].
      * apply IH; simpl; [by left|lia|unfold size; lia].
      * destruct (load_cases (true_counts D) (class_index c)) as [[t Ht]|Ht]; simpl; rewrite Ht; simpl; [|by left].
        destruct (store (true_counts D) (class_index c) (t + Q2Qc 1)%Qc) as [tc| | |] eqn:Hst; simpl;
          try (by left).
        2:{ unfold store in Hst. destruct (_ && _); discriminate. }
        2:{ unfold store in Hst. destruct (_ && _); discriminate. }
        apply IH; simpl; [by left|lia|unfold size; lia].
Qed.

Lemma bind_not_fatal {A B} (m : outcome A) (f : A → outcome B) :
  ¬ is_fatal m → (∀ a, ¬ is_fatal (f a)) → ¬ is_fatal (m ≫= f).
Proof. intros Hm Hf [H|[a [_ H]]]%bind_fatal; [done|by eapply Hf]. Qed.

Lemma Done_not_fatal {A} (a : A) : ¬ is_fatal (Done a).
Proof. intros [? ?]; discriminate. Qed.

Lemma Undefined_not_fatal {A} : ¬ is_fatal (@Undefined A).
Proof. intros [? ?]; discriminate. Qed.

Lemma OutOfFuel_not_fatal {A} : ¬ is_fatal (@OutOfFuel A).
Proof. intros [? ?]; discriminate. Qed.

Lemma load_not_fatal {A} (l : list A) i : ¬ is_fatal (load l i).
Proof. destruct (load_cases l i) as [[a ->]| ->]; intros [? ?]; discriminate. Qed.

Lemma store_not_fatal {A} (l : list A) i a : ¬ is_fatal (store l i a).
Proof. unfold store. destruct (_ && _); intros [? ?]; discriminate. Qed.

Create HintDb nofatal.
#[local] Hint Resolve Done_not_fatal Undefined_not_fatal OutOfFuel_not_fatal
  load_not_fatal store_not_fatal : nofatal.

Ltac not_fatal :=
  repeat first
    [ apply bind_not_fatal; [|intros ?]
    | progress auto with nofatal
    | match goal with |- ¬ is_fatal (if ?b then _ else _) => destruct b end
    | match goal with |- ¬ is_fatal (let '(_, _) := ?p in _) => destruct p end ].

Lemma touch_not_fatal m st : ¬ is_fatal (touch m st).
Proof. unfold touch. not_fatal. Qed.
#[local] Hint Resolve touch_not_fatal : nofatal.

Lemma touch_costs_not_fatal cs : ∀ st, ¬ is_fatal (touch_costs cs st).
Proof.
  induction cs as [|c cs IH]; intros st; simpl; not_fatal.
Qed.
#[local] Hint Resolve touch_costs_not_fatal : nofatal.

Lemma touch_edges_not_fatal ec ids : ∀ st, ¬ is_fatal (touch_edges ec ids st).
Proof.
  induction ids as [|id ids IH]; intros st; simpl; not_fatal.
Qed.
#[local] Hint Resolve touch_edges_not_fatal : nofatal.

Lemma drain_not_fatal fuel adj0 ec : ∀ i st, ¬ is_fatal (drain fuel adj0 ec i st).
Proof.
  induction fuel as [|fuel IH]; intros i st; simpl; not_fatal.
Qed.
#[local] Hint Resolve drain_not_fatal : nofatal.

Lemma seed_not_fatal ns : ∀ st, ¬ is_fatal (seed ns st).
Proof. induction ns as [|n ns IH]; intros st; simpl; not_fatal. Qed.
#[local] Hint Resolve seed_not_fatal : nofatal.

Lemma bfs_loop_not_fatal fuel Nn adj0 ec : ∀ i st, ¬ is_fatal (bfs_loop fuel Nn adj0 ec i st).
Proof.
  induction fuel as [|fuel IH]; intros i st; simpl; not_fatal.
Qed.
#[local] Hint Resolve bfs_loop_not_fatal : nofatal.

Lemma run_bfs_not_fatal D ec : ¬ is_fatal (run_bfs D ec).
Proof. unfold run_bfs. not_fatal. Qed.

Lemma check_ids_Done Nn cs :
  check_ids Nn cs = Done () ↔ Forall (λ c, class_index c ≤ Nn) cs.
Proof.
  induction cs as [|c cs IH]; simpl.
  - split; [constructor|done].
  - destruct (Nn <? class_index c) eqn:Hc.
    + split; [discriminate|]. inversion 1; subst. lia.
    + rewrite IH. split; [constructor; [lia|done]|by inversion 1].
Qed.

Lemma check_ids_cases Nn cs : check_ids Nn cs = Done () ∨ is_fatal (check_ids Nn cs).
Proof.
  induction cs as [|c cs IH]; simpl; [by left|].
  destruct (Nn <? class_index c); [right; by eexists|done].
Qed.

Lemma link_ids_not_fatal i cs : ∀ adj0, ¬ is_fatal (link_ids i cs adj0).
Proof. induction cs as [|c cs IH]; intros adj0; simpl; not_fatal. Qed.
#[local] Hint Resolve link_ids_not_fatal : nofatal.

Lemma link_ids_size i cs : ∀ adj0 adj1,
  link_ids i cs adj0 = Done adj1 → size adj1 = size adj0.
Proof.
  induction cs as [|c cs IH]; intros adj0 adj1 H; simpl in H.
  - by injection H as <-.
  - apply bind_Done in H as [a [_ H]]. apply bind_Done in H as [adj' [Hs H]].
    apply IH in H. rewrite H. destruct (_ || _).
    + apply store_Done in Hs as [_ ->]. unfold size. by rewrite length_insert.
    + by injection Hs as <-.
Qed.

(** With every id validated, linking an edge stays in bounds exactly when
    no id is 0. *)
Lemma link_ids_Done Nn i cs : ∀ adj0,
  size adj0 = Nn → Nn < 2 ^ 32 →
  Forall (λ c, 0 ≤ class_index c ≤ Nn) cs →
  (Forall (λ c, 1 ≤ class_index c) cs → ∃ adj1, link_ids i cs adj0 = Done adj1) ∧
  (¬ Forall (λ c, 1 ≤ class_index c) cs → link_ids i cs adj0 = Undefined).
Proof.
  induction cs as [|c cs IH]; intros adj0 Hsz HN Hall.
  - split; [by eexists|]. intros H. destruct H. constructor.
  - inversion Hall as [|? ? Hc Hall']; subst. simpl.
    destruct (decide (class_index c = 0)) as [H0|H0].
    + rewrite H0. replace (u32 (0 - 1)) with (2 ^ 32 - 1) by done.
      rewrite load_out_of_range by lia. simpl.
      split; [|done]. inversion 1; subst. lia.
    + rewrite u32_small by lia.
      destruct (load_in_range adj0 (class_index c - 1)) as [a [Ha _]]; [lia|].
      rewrite Ha. simpl.
      assert (∃ adj', (if (size a =? 0) || negb (bool_decide (last a = Some i))
                then store adj0 (class_index c - 1) (a ++ [i]) else Done adj0) = Done adj'
              ∧ size adj' = size adj0) as [adj' [-> Hsz']].
      { destruct (_ || _); [|by eexists].
        rewrite store_in_range by lia. eexists; split; [done|].
        unfold size. by rewrite length_insert. }
      simpl. destruct (IH adj') as [IH1 IH2]; try done; try lia.
      split.
      * inversion 1; subst. by apply IH1.
      * intros Hn. apply IH2. intros Hf. apply Hn. constructor; [lia|done].
Qed.

Lemma link_edges_not_fatal Nn es : ∀ i adj0,
  Forall (λ e, Forall (λ c, class_index c ≤ Nn) (costs e)) es →
  ¬ is_fatal (link_edges Nn i es adj0).
Proof.
  induction es as [|e es IH]; intros i adj0 Hall; simpl; [not_fatal|].
  inversion Hall as [|? ? He Hall']; subst.
  apply check_ids_Done in He. rewrite He. simpl.
  apply bind_not_fatal; [apply link_ids_not_fatal|]. intros a. by apply IH.
Qed.

Lemma nodes_of_cons e ec :
  nodes_of (e :: ec) = if example_is_edge e then nodes_of ec else e :: nodes_of ec.
Proof.
  unfold nodes_of. rewrite filter_cons. destruct (example_is_edge e); by case_decide.
Qed.

Lemma edges_of_cons e ec :
  edges_of (e :: ec) = if example_is_edge e then e :: edges_of ec else edges_of ec.
Proof.
  unfold edges_of. rewrite filter_cons. destruct (example_is_edge e); by case_decide.
Qed.

Lemma nodes_of_Forall ec : Forall (λ e, example_is_edge e = false) (nodes_of ec).
Proof. apply Forall_forall. intros e [H _]%list_elem_of_filter. done. Qed.

Lemma edges_of_Forall ec : Forall (λ e, example_is_edge e = true) (edges_of ec).
Proof. apply Forall_forall. intros e [H _]%list_elem_of_filter. done. Qed.

Lemma records_layout ec : node_after_edge ec ∨ ec = nodes_of ec ++ edges_of ec.
Proof.
  induction ec as [|e ec IH]; [by right|].
  destruct IH as [(i & j & e1 & e2 & Hij & Hi & Hj & H1 & H2)|IH].
  { left. exists (S i), (S j), e1, e2. repeat split; try done. lia. }
  rewrite nodes_of_cons, edges_of_cons. destruct (example_is_edge e) eqn:He.
  - destruct (nodes_of ec) as [|e' ns] eqn:Hn.
    + right. simpl in *. by f_equal.
    + left. assert (e' ∈ ec) as [j Hj]%list_elem_of_lookup_1.
      { eapply (list_elem_of_filter (λ e, example_is_edge e = false)).
        fold (nodes_of ec). rewrite Hn. by left. }
      exists 0%nat, (S j), e, e'. repeat split; try done; [lia|].
      pose proof (nodes_of_Forall ec) as Hf. rewrite Hn in Hf. by inversion Hf.
  - right. simpl. by f_equal.
Qed.

Lemma layout_not_node_after_edge nodes edges :
  Forall (λ e, example_is_edge e = false) nodes →
  Forall (λ e, example_is_edge e = true) edges →
  ¬ node_after_edge (nodes ++ edges).
Proof.
  intros Hn He (i & j & e1 & e2 & Hij & Hi & Hj & H1 & H2).
  destruct (decide (i < length nodes)%nat) as [Hlt|Hge].
  - rewrite lookup_app_l in Hi by done.
    rewrite Forall_lookup in Hn. specialize (Hn _ _ Hi). simpl in Hn. congruence.
  - rewrite lookup_app_r in Hj by lia.
    rewrite Forall_lookup in He. specialize (He _ _ Hj). simpl in He. congruence.
Qed.

Lemma edge_id_too_large_iff ec :
  edge_id_too_large ec ↔
  ¬ Forall (λ e, Forall (λ c, class_index c ≤ size (nodes_of ec)) (costs e)) (edges_of ec).
Proof.
  unfold edge_id_too_large. split.
  - intros (e & c & He & Hc & Hlt) Hall.
    rewrite Forall_forall in Hall. specialize (Hall _ He).
    rewrite Forall_forall in Hall. specialize (Hall _ Hc). simpl in Hall. lia.
  - intros Hn. apply not_Forall_Exists in Hn; [|apply _].
    apply Exists_exists in Hn as (e & He & Hn).
    apply not_Forall_Exists in Hn; [|apply _].
    apply Exists_exists in Hn as (c & Hc & Hn).
    exists e, c. simpl in Hn. repeat split; try done. lia.
Qed.

(** The first loop of [setup] leaves no array when every node label indexes
    the label priors: it returns or stops with an error. *)
Lemma count_records_defined ec : ∀ D sz,
  size (true_counts D) = sz →
  Forall (λ e, Forall (λ c, 0 ≤ class_index c < sz) (take 1 (costs e))) (nodes_of ec) →
  (∃ D', count_records ec D = Done D') ∨ is_fatal (count_records ec D).
Proof.
  induction ec as [|e ec IH]; intros D sz Htc Hlab; simpl; [left; by eexists|].
  rewrite nodes_of_cons in Hlab. destruct (example_is_edge e) eqn:He.
  - by apply (IH _ sz).
  - destruct (0 <? E D); [right; by eexists|].
    inversion Hlab as [|? ? Hl Hlab']; subst.
    destruct (costs e) as [|c cs]; [by apply (IH _ (size (true_counts D)))|].
    simpl in Hl. inversion Hl as [|? ? Hc _]; subst.
    destruct (load_in_range (true_counts D) (class_index c)) as (t & Ht & _); [done|].
    rewrite Ht. cbn [mbind outcome_bind].
    rewrite store_in_range by done. cbn [mbind outcome_bind].
    apply (IH _ (size (true_counts D))); [|done].
    simpl. unfold size. by rewrite length_insert.
Qed.

(** With every id at least 1, the first edge that names an id above [Nn]
    stops the adjacency construction with the error. *)
Lemma link_edges_fatal Nn es : ∀ i adj0,
  size adj0 = Nn → Nn < 2 ^ 32 →
  Forall (λ e, Forall (λ c, 1 ≤ class_index c) (costs e)) es →
  ¬ Forall (λ e, Forall (λ c, class_index c ≤ Nn) (costs e)) es →
  is_fatal (link_edges Nn i es adj0).
Proof.
  induction es as [|e es IH]; intros i adj0 Hsz HN Hpos Hall; simpl.
  - destruct Hall. constructor.
  - inversion Hpos as [|? ? Hpe Hpos']; subst.
    destruct (check_ids_cases (size adj0) (costs e)) as [He|[msg He]]; rewrite He; simpl.
    2:{ by eexists. }
    apply check_ids_Done in He.
    destruct (link_ids_Done (size adj0) i (costs e) adj0) as [Hdone _]; try done.
    { rewrite Forall_forall in He, Hpe |- *. intros c Hc.
      specialize (He c Hc). specialize (Hpe c Hc). simpl in *. lia. }
    destruct (Hdone Hpe) as [adj1 Hl]. rewrite Hl. cbn [mbind outcome_bind].
    pose proof (link_ids_size _ _ _ _ Hl) as Hsz1. rewrite <- Hsz1 in *.
    apply IH; try done. intros Hf. apply Hall. by constructor.
Qed.

Lemma setup_fatal_iff_aux all D ec :
  size ec < 2 ^ 32 →
  Forall (λ e, Forall (λ c, 0 ≤ class_index c < size (true_counts D)) (take 1 (costs e)))
    (nodes_of ec) →
  Forall (λ e, Forall (λ c, 1 ≤ class_index c) (costs e)) (edges_of ec) →
  (is_fatal (setup all D ec) ↔
   node_after_edge ec ∨ edges_without_nodes ec ∨ edge_id_too_large ec).
Proof.
  intros Hsz Hlab Hpos. unfold setup in *.
  set (D1 := set_E 0 (set_N 0 _)) in *.
  destruct (count_records_defined ec D1 (size (true_counts D))) as [[D2 HD]|HF]; [done..| |].
  2:{ split; [|intros _; by apply bind_fatal; left].
      intros _. left. destruct (records_layout ec) as [Hnae|Hlay]; [done|].
      destruct (count_records_sorted (nodes_of ec) (edges_of ec) D1) as [HU|(D2 & HD & _)];
        try apply nodes_of_Forall; try apply edges_of_Forall; try (unfold D1; simpl; lia).
      - assert (size ec = size (nodes_of ec) + size (edges_of ec)).
        { rewrite <- size_app. by rewrite <- Hlay. }
        unfold D1; simpl; lia.
      - rewrite <- Hlay in HU. rewrite HU in HF. by destruct HF.
      - rewrite <- Hlay in HD. rewrite HD in HF. by destruct HF. }
  destruct (records_layout ec) as [Hnae|Hlay].
  { destruct (count_records_not_sorted ec D1) as [HU|[msg HF]];
      try (unfold D1; simpl; lia); [by left|..]; congruence. }
  pose proof (nodes_of_Forall ec) as Hnodes. pose proof (edges_of_Forall ec) as Hedges.
  assert (Hsplit : size ec = size (nodes_of ec) + size (edges_of ec)).
  { rewrite <- size_app. by rewrite <- Hlay. }
  pose proof (size_nonneg (nodes_of ec)). pose proof (size_nonneg (edges_of ec)).
  assert (Hnot : ¬ node_after_edge ec).
  { rewrite Hlay. by apply layout_not_node_after_edge. }
  destruct (count_records_sorted (nodes_of ec) (edges_of ec) D1) as [HU|(D2' & HD' & HN & HE)];
    try done; try (unfold D1; simpl; lia).
  { rewrite <- Hlay in HU. congruence. }
  rewrite <- Hlay in HD'. rewrite HD in HD'. injection HD' as <-.
  rewrite HD in *. simpl in *.
  rewrite HN, HE in *. rewrite Z.add_0_l in *.
  destruct ((size (nodes_of ec) =? 0) && (0 <? size (edges_of ec))) eqn:Hchk.
  { apply andb_true_iff in Hchk as [Hc1 Hc2].
    split; [|by eexists]. intros _. right; left. split.
    - apply length_zero_iff_nil. apply Z.eqb_eq in Hc1. unfold size in Hc1. lia.
    - intros Hnil. apply Z.ltb_lt in Hc2. rewrite Hnil in Hc2. unfold size in Hc2. simpl in Hc2. lia. }
  assert (Hnw : ¬ edges_without_nodes ec).
  { intros [Hn0 He0]. apply andb_false_iff in Hchk. rewrite Hn0 in Hchk.
    destruct (edges_of ec); [done|]. unfold size in Hchk. simpl in Hchk.
    destruct Hchk as [Hc|Hc]; [discriminate|]. apply Z.ltb_ge in Hc. lia. }
  assert (Hdrop : drop (Z.to_nat (size (nodes_of ec))) ec = edges_of ec).
  { unfold size. rewrite Nat2Z.id.
    transitivity (drop (length (nodes_of ec)) (nodes_of ec ++ edges_of ec));
      [by rewrite <- Hlay|by rewrite drop_app_length]. }
  rewrite Hdrop in *.
  set (adj0 := replicate _ _) in *.
  destruct (decide (Forall (λ e, Forall (λ c, class_index c ≤ size (nodes_of ec)) (costs e)) (edges_of ec)))
    as [Hall|Hall].
  - split.
    + intros Hf. exfalso. revert Hf. apply bind_not_fatal; [by apply link_edges_not_fatal|].
      intros a. apply bind_not_fatal; [apply run_bfs_not_fatal|]. intros; apply Done_not_fatal.
    + intros [?|[?|Hl%edge_id_too_large_iff]]; done.
  - split.
    + intros _. right; right. by apply edge_id_too_large_iff.
    + intros _. apply bind_fatal. left.
      apply link_edges_fatal; try done; [|lia].
      unfold adj0, size. rewrite length_replicate. lia.
Qed.

(** * Integer-valued rationals *)

Lemma Qc_of_Z_this z : this (Qc_of_Z z) = inject_Z z.
Proof.
  unfold Qc_of_Z, Q2Qc. simpl. apply Qred_identity. simpl. apply Z.gcd_1_r.
Qed.
Lemma Qc_of_Z_add a b : Qc_of_Z (a + b) = (Qc_of_Z a + Qc_of_Z b)%Qc.
Proof.
  apply Qc_is_canon. unfold Qcplus. rewrite !Qc_of_Z_this. 
  unfold Q2Qc. simpl this. rewrite Qred_correct. rewrite inject_Z_plus. reflexivity.
Qed.

Lemma Qc_of_Z_inj a b : Qc_of_Z a = Qc_of_Z b → a = b.
Proof.
  intros H. apply (f_equal this) in H. rewrite !Qc_of_Z_this in H.
  unfold inject_Z in H. congruence.
Qed.

Lemma Qc_is_zero_of_Z z : Qc_is_zero (Qc_of_Z z) = (z =? 0).
Proof.
  unfold Qc_is_zero. destruct (z =? 0) eqn:Hz.
  - apply Z.eqb_eq in Hz. subst. done.
  - apply Z.eqb_neq in Hz. destruct (Qc_eq_bool _ _) eqn:Hq; [|done].
    apply Qc_eq_bool_correct in Hq. apply (Qc_of_Z_inj z 0) in Hq. done.
Qed.

Lemma Qc_leb_of_Z a b : Qc_leb (Qc_of_Z a) (Qc_of_Z b) = (a <=? b).
Proof.
  unfold Qc_leb, Qccompare. rewrite !Qc_of_Z_this.
  unfold Qcompare, inject_Z. simpl. rewrite !Z.mul_1_r.
  unfold Z.leb. done.
Qed.

Lemma Qc_ltb_of_Z a b : Qc_ltb (Qc_of_Z a) (Qc_of_Z b) = (a <? b).
Proof.
  unfold Qc_ltb, Qccompare. rewrite !Qc_of_Z_this.
  unfold Qcompare, inject_Z. simpl. rewrite !Z.mul_1_r.
  unfold Z.ltb. done.
Qed.

Lemma Qc_to_size_t_of_Z z : Qc_to_size_t (Qc_of_Z z) = u64 z.
Proof.
  unfold Qc_to_size_t. rewrite Qc_of_Z_this. simpl. by rewrite Z.quot_1_r.
Qed.

(** * The traversal *)

Lemma wf_graph_elem Nn adj0 ec ids id :
  wf_graph Nn adj0 ec → ids ∈ adj0 → id ∈ ids →
  0 ≤ id ∧ ∃ e, ec !! Z.to_nat id = Some e ∧ Forall (λ c, 1 ≤ class_index c ≤ Nn) (costs e).
Proof.
  intros [_ Hw] Hids Hid. rewrite Forall_forall in Hw. specialize (Hw _ Hids).
  rewrite Forall_forall in Hw. by apply Hw.
Qed.

Section BfsProof.
Variables (Nn : Z) (adj0 : list (list Z)) (ec : list example).
Hypothesis HNn : 0 ≤ Nn.

#[local] Abbreviation nbr := (neighbor adj0 ec).
#[local] Abbreviation edg := (edge_at adj0 ec).
#[local] Abbreviation fpar := (first_parent adj0 ec).

Lemma edge_at_app o l q p :
  (q < length o)%nat → (p < length o)%nat → edg (o ++ l) q p ↔ edg o q p.
Proof.
  intros Hq Hp. unfold edge_at.
  by rewrite !lookup_app_l by done.
Qed.

Lemma first_parent_app o l p q :
  (p < length o)%nat → fpar (o ++ l) p q ↔ fpar o p q.
Proof.
  intros Hp. unfold first_parent. split; intros (Hq & He & Hmin).
  - split; [done|]. split; [by apply edge_at_app in He; try lia|].
    intros q0 Hq0 H0. apply (Hmin q0 Hq0). apply edge_at_app; try lia. done.
  - split; [done|]. split; [by apply edge_at_app; try lia|].
    intros q0 Hq0 H0. apply (Hmin q0 Hq0). apply edge_at_app in H0; try lia. done.
Qed.

Lemma first_parent_lt o p q : fpar o p q → (p < length o)%nat.
Proof. intros (_ & (u & v & _ & Hp & _) & _). by apply lookup_lt_Some in Hp. Qed.

Lemma J_range i st m : J Nn adj0 ec i st → m ∈ st.1 → 0 ≤ m < Nn.
Proof.
  intros HJ Hm. pose proof (J_nonneg _ _ _ _ _ HJ _ Hm) as H0. split; [done|].
  replace m with (Z.of_nat (Z.to_nat m)) in Hm by lia.
  apply (J_touched _ _ _ _ _ HJ) in Hm. apply lookup_lt_Some in Hm.
  rewrite (J_len _ _ _ _ _ HJ) in Hm. lia.
Qed.

Lemma J_length i st : J Nn adj0 ec i st → size st.1 ≤ Nn.
Proof.
  intros HJ. unfold size.
  assert (st.1 ⊆+ seqZ 0 Nn) as Hsub.
  { apply NoDup_submseteq; [apply (J_nodup _ _ _ _ _ HJ)|].
    intros m Hm. apply elem_of_seqZ. pose proof (J_range _ _ _ HJ Hm). lia. }
  apply submseteq_length in Hsub. rewrite length_seqZ in Hsub. lia.
Qed.

Lemma touch_spec i st n m :
  J Nn adj0 ec i st → st.1 !! i = Some n → (m = n ∨ nbr n m) → 0 ≤ m < Nn →
  ∃ st', touch m st = Done st' ∧ J Nn adj0 ec i st' ∧ m ∈ st'.1 ∧ ∃ l, st'.1 = st.1 ++ l.
Proof.
  intros HJ Hn Hm Hr. destruct st as [o t].
  pose proof HJ as [Hlen Hnd Htc Hnn Hcl Hexp Hfifo Hpar]. simpl in *.
  unfold touch. simpl.
  destruct (load_in_range t m) as [b [Hb Hbl]].
  { unfold size. rewrite Hlen. lia. }
  rewrite Hb. simpl. destruct b.
  { exists (o, t). split; [done|]. split; [done|]. simpl. split; [|by exists []; rewrite app_nil_r].
    apply Htc in Hbl. by rewrite Z2Nat.id in Hbl by lia. }
  assert (Hnotin : m ∉ o).
  { intros Hin. replace m with (Z.of_nat (Z.to_nat m)) in Hin by lia.
    apply Htc in Hin. congruence. }
  assert (Hno : n ∈ o) by (by eapply list_elem_of_lookup_2).
  assert (Hnb : nbr n m).
  { destruct Hm as [->|Hm]; [done|done]. }
  assert (Hi : (i < length o)%nat) by (by eapply lookup_lt_Some).
  rewrite store_in_range by (unfold size; rewrite Hlen; lia).
  simpl. eexists. split; [done|]. simpl. split; [|split; [apply elem_of_app; right; by apply list_elem_of_singleton|by eexists]].
  constructor; simpl.
  - rewrite length_insert. apply Hlen.
  - apply NoDup_app. split; [apply Hnd|]. split; [|apply NoDup_singleton].
    intros y Hy Hy'. apply list_elem_of_singleton in Hy'. by subst.
  - intros k. destruct (decide (k = Z.to_nat m)) as [->|Hk].
    + rewrite list_lookup_insert_eq by (rewrite Hlen; lia).
      rewrite Z2Nat.id by lia. split; [intros _; apply elem_of_app; right; by apply list_elem_of_singleton|done].
    + rewrite list_lookup_insert_ne by done.
      rewrite Htc. rewrite elem_of_app, list_elem_of_singleton.
      split; [by left|]. intros [H|H]; [done|]. lia.
  - intros y [Hy|Hy%list_elem_of_singleton]%elem_of_app; [by apply Hnn|lia].
  - intros q u w Hq Hu Hw. rewrite lookup_app_l in Hu by lia.
    apply elem_of_app. left. by eapply Hcl.
  - intros p v Hp Hp0. destruct (decide (p < length o)%nat) as [Hlt|Hge].
    + rewrite lookup_app_l in Hp by done. rewrite take_app_le by lia.
      by apply Hexp.
    + assert (p = length o) as ->.
      { apply lookup_lt_Some in Hp. rewrite length_app in Hp. simpl in Hp. lia. }
      rewrite lookup_app_r in Hp by lia. rewrite Nat.sub_diag in Hp. simpl in Hp.
      injection Hp as <-. left. exists n. split; [|done].
      rewrite take_app_length. done.
  - intros p p' q q' Hpp Hfp Hfp'.
    pose proof (first_parent_lt _ _ _ Hfp') as Hp'. rewrite length_app in Hp'. simpl in Hp'.
    rewrite first_parent_app in Hfp by lia.
    destruct (decide (p' < length o)%nat) as [Hlt|Hge].
    + rewrite first_parent_app in Hfp' by done. by apply (Hfifo p p' q q').
    + assert (p' = length o) as -> by lia.
      pose proof (Hpar _ _ Hfp) as Hqi.
      destruct (decide (q' < i)%nat) as [Hq'|Hq']; [|lia].
      exfalso. destruct Hfp' as (_ & (u & v & Hu & Hv & Huv) & _).
      rewrite lookup_app_r in Hv by lia. rewrite Nat.sub_diag in Hv. simpl in Hv.
      injection Hv as <-. rewrite lookup_app_l in Hu by lia.
      apply Hnotin. by eapply Hcl.
  - intros p q Hfp.
    pose proof (first_parent_lt _ _ _ Hfp) as Hp. rewrite length_app in Hp. simpl in Hp.
    destruct (decide (p < length o)%nat) as [Hlt|Hge].
    + rewrite first_parent_app in Hfp by done. by apply Hpar in Hfp.
    + assert (p = length o) as -> by lia.
      destruct (decide (q ≤ i)%nat) as [|Hq]; [done|]. exfalso.
      destruct Hfp as (_ & _ & Hmin). apply (Hmin i); [lia|].
      exists n, m. rewrite lookup_app_l by done.
      rewrite lookup_app_r by lia. rewrite Nat.sub_diag. done.
Qed.

Hypothesis Hwf : wf_graph Nn adj0 ec.
Hypothesis HN32 : Nn < 2 ^ 32.

Lemma wf_endpoints ids id e m :
  ids ∈ adj0 → id ∈ ids → ec !! Z.to_nat id = Some e → m ∈ endpoints_of e →
  0 ≤ m < Nn.
Proof.
  intros Hids Hid He Hm.
  destruct (wf_graph_elem _ _ _ _ _ Hwf Hids Hid) as [_ (e' & He' & Hall)].
  assert (e' = e) as -> by congruence.
  unfold endpoints_of in Hm. apply list_elem_of_fmap in Hm as (c & -> & Hc).
  rewrite Forall_forall in Hall. specialize (Hall _ Hc). simpl in Hall.
  rewrite u32_small by lia. lia.
Qed.

Lemma touch_costs_spec i n cs : ∀ st,
  J Nn adj0 ec i st → st.1 !! i = Some n →
  (∀ c, c ∈ cs → (u32 (class_index c - 1) = n ∨ nbr n (u32 (class_index c - 1)))
                 ∧ 0 ≤ u32 (class_index c - 1) < Nn) →
  ∃ st', touch_costs cs st = Done st' ∧ J Nn adj0 ec i st' ∧
         (∀ c, c ∈ cs → u32 (class_index c - 1) ∈ st'.1) ∧ ∃ l, st'.1 = st.1 ++ l.
Proof.
  induction cs as [|c cs IH]; intros st HJ Hn Hcs; simpl.
  - exists st. split; [done|]. split; [done|].
    split; [intros ? H; by apply elem_of_nil in H|]. exists []. by rewrite app_nil_r.
  - destruct (Hcs c) as [Hc1 Hc2]; [by left|].
    destruct (touch_spec i st n _ HJ Hn Hc1 Hc2) as (st1 & -> & HJ1 & Hin1 & l1 & Hl1).
    simpl.
    destruct (IH st1) as (st2 & -> & HJ2 & Hin2 & l2 & Hl2); try done.
    { rewrite Hl1. apply lookup_app_l_Some. done. }
    { intros c' Hc'. apply Hcs. by right. }
    exists st2. split; [done|]. split; [done|]. split.
    + intros c' [->|Hc']%elem_of_cons; [|by apply Hin2].
      rewrite Hl2. apply elem_of_app. by left.
    + exists (l1 ++ l2). rewrite Hl2, Hl1. by rewrite app_assoc.
Qed.

Lemma touch_edges_spec i n ids0 ids : ∀ st,
  J Nn adj0 ec i st → st.1 !! i = Some n → 0 ≤ n →
  adj0 !! Z.to_nat n = Some ids0 → (∀ id, id ∈ ids → id ∈ ids0) →
  ∃ st', touch_edges ec ids st = Done st' ∧ J Nn adj0 ec i st' ∧
         (∀ id e m, id ∈ ids → ec !! Z.to_nat id = Some e → m ∈ endpoints_of e → m ∈ st'.1) ∧
         ∃ l, st'.1 = st.1 ++ l.
Proof.
  intros st HJ Hn Hn0 Hadj Hsub. revert st HJ Hn.
  assert (Hids0 : ids0 ∈ adj0) by (by eapply list_elem_of_lookup_2).
  induction ids as [|id ids IH]; intros st HJ Hn; simpl.
  - exists st. split; [done|]. split; [done|].
    split; [intros ? ? ? H; by apply elem_of_nil in H|]. exists []. by rewrite app_nil_r.
  - assert (Hid0 : id ∈ ids0) by (apply Hsub; by left).
    destruct (wf_graph_elem _ _ _ _ _ Hwf Hids0 Hid0) as [Hidn (e & He & Hall)].
    assert (load ec id = Done e) as -> by (by apply load_Done).
    simpl.
    destruct (touch_costs_spec i n (costs e) st HJ Hn) as (st1 & -> & HJ1 & Hin1 & l1 & Hl1).
    { intros c Hc.
      assert (Hm : u32 (class_index c - 1) ∈ endpoints_of e).
      { unfold endpoints_of. apply list_elem_of_fmap. by exists c. }
      split; [|by eapply wf_endpoints].
      destruct (decide (u32 (class_index c - 1) = n)) as [|Hne]; [by left|right].
      split; [done|]. exists ids0, id, e. done. }
    simpl.
    destruct IH with (st := st1) as (st2 & -> & HJ2 & Hin2 & l2 & Hl2); try done.
    { intros id' Hid'. apply Hsub. by right. }
    { rewrite Hl1. by apply lookup_app_l_Some. }
    exists st2. split; [done|]. split; [done|]. split.
    + intros id' e' m [->|Hid']%elem_of_cons He' Hm; [|by eapply Hin2].
      assert (e' = e) as -> by congruence.
      unfold endpoints_of in Hm. apply list_elem_of_fmap in Hm as (c & -> & Hc).
      rewrite Hl2. apply elem_of_app. left. by apply Hin1.
    + exists (l1 ++ l2). rewrite Hl2, Hl1. by rewrite app_assoc.
Qed.

(** Expanding the node at position [i]. *)
Lemma expand_spec i n st :
  J Nn adj0 ec i st → st.1 !! i = Some n →
  ∃ ids st', load adj0 n = Done ids ∧ touch_edges ec ids st = Done st' ∧
             J Nn adj0 ec (S i) st' ∧ ∃ l, st'.1 = st.1 ++ l.
Proof.
  intros HJ Hn.
  assert (Hr : 0 ≤ n < Nn) by (eapply J_range; [done|by eapply list_elem_of_lookup_2]).
  destruct (load_in_range adj0 n) as (ids & Hload & Hids).
  { destruct Hwf as [-> _]. done. }
  destruct (touch_edges_spec i n ids ids st) as (st' & Ht & HJ' & Hin & l & Hl); try done; [lia|].
  exists ids, st'. split; [done|]. split; [done|]. split; [|by exists l].
  constructor; try apply HJ'.
  - intros q u w Hq Hu Hw. destruct (decide (q < i)%nat) as [Hlt|Hge].
    + by eapply (J_closed _ _ _ _ _ HJ').
    + assert (q = i) as -> by lia.
      assert (u = n) as ->.
      { rewrite Hl in Hu. rewrite lookup_app_l in Hu by (by eapply lookup_lt_Some). congruence. }
      destruct Hw as (_ & ids' & id & e & _ & Hids' & Hid & Hid0 & He & Hm).
      assert (ids' = ids) as -> by congruence.
      by eapply Hin.
  - intros p q Hfp. apply (J_par _ _ _ _ _ HJ') in Hfp. lia.
Qed.

Lemma drain_spec fuel : ∀ (i : nat) st,
  J Nn adj0 ec i st → (i ≤ length st.1)%nat → (Z.to_nat Nn - i < fuel)%nat →
  ∃ st', drain fuel adj0 ec (Z.of_nat i) st = Done (size st'.1, st') ∧
         J Nn adj0 ec (length st'.1) st' ∧ ∃ l, st'.1 = st.1 ++ l.
Proof.
  induction fuel as [|fuel IH]; intros i st HJ Hi Hfuel; [lia|].
  simpl. unfold size. destruct (Z.of_nat i <? Z.of_nat (length st.1)) eqn:Hlt.
  - apply Z.ltb_lt in Hlt.
    destruct (lookup_lt_is_Some_2 st.1 i) as [n Hn]; [lia|].
    assert (load st.1 (Z.of_nat i) = Done n) as ->.
    { apply load_Done. rewrite Nat2Z.id. split; [lia|done]. }
    simpl.
    destruct (expand_spec i n st HJ Hn) as (ids & st1 & Hld & Hte & HJ1 & l1 & Hl1).
    rewrite Hld. simpl. rewrite Hte. simpl.
    pose proof (J_length _ _ HJ) as Hlen. unfold size in Hlen.
    destruct (IH (S i) st1) as (st2 & Hd & HJ2 & l2 & Hl2); try done.
    { rewrite Hl1, length_app. lia. }
    { lia. }
    replace (Z.of_nat i + 1) with (Z.of_nat (S i)) by lia. rewrite Hd.
    exists st2. split; [done|]. split; [done|].
    exists (l1 ++ l2). rewrite Hl2, Hl1. by rewrite app_assoc.
  - apply Z.ltb_ge in Hlt. assert (i = length st.1) as Hi' by lia.
    exists st. rewrite <- Hi'. split; [done|]. split; [done|].
    exists []. by rewrite app_nil_r.
Qed.

Lemma seed_scan (k : nat) : ∀ a st i,
  J Nn adj0 ec i st → 0 ≤ a → a + Z.of_nat k ≤ Nn → (∀ w, 0 ≤ w < a → w ∈ st.1) →
  (∃ v, (a ≤ v < a + Z.of_nat k) ∧ (v ∉ st.1) ∧ (∀ w, 0 ≤ w < v → w ∈ st.1) ∧
        seed (seqZ a (Z.of_nat k)) st = Done (st.1 ++ [v], <[Z.to_nat v := true]> st.2))
  ∨ ((∀ w, 0 ≤ w < a + Z.of_nat k → w ∈ st.1) ∧ seed (seqZ a (Z.of_nat k)) st = Done st).
Proof.
  induction k as [|k IH]; intros a st i HJ Ha Hk Hlow.
  - right. split; [intros w Hw; apply Hlow; lia|done].
  - rewrite seqZ_cons by lia. simpl seed.
    replace (Z.pred (Z.of_nat (S k))) with (Z.of_nat k) by lia.
    destruct (load_in_range st.2 a) as [b [Hb Hbl]].
    { unfold size. rewrite (J_len _ _ _ _ _ HJ). lia. }
    rewrite Hb. simpl. destruct b.
    + apply (J_touched _ _ _ _ _ HJ) in Hbl. rewrite Z2Nat.id in Hbl by lia.
      destruct (IH (Z.succ a) st i) as [(v & Hv & Hnv & Hlv & Hs)|[Hall Hs]]; try done; try lia.
      { intros w Hw. destruct (decide (w = a)) as [->|]; [done|apply Hlow; lia]. }
      * left. exists v. split; [lia|done].
      * right. split; [|done]. intros w Hw. apply Hall. lia.
    + left. exists a. split; [lia|]. split.
      { intros Hin. replace a with (Z.of_nat (Z.to_nat a)) in Hin by lia.
        apply (J_touched _ _ _ _ _ HJ) in Hin. congruence. }
      split; [done|].
      rewrite store_in_range by (unfold size; rewrite (J_len _ _ _ _ _ HJ); lia). done.
Qed.

Lemma seed_spec st :
  J Nn adj0 ec (length st.1) st → size st.1 < Nn →
  ∃ v st', seed (seqZ 0 Nn) st = Done st' ∧ st'.1 = st.1 ++ [v] ∧ J Nn adj0 ec (length st.1) st'.
Proof.
  intros HJ Hlt. destruct st as [o t].
  pose proof HJ as [Hlen Hnd Htc Hnn Hcl Hexp Hfifo Hpar]. simpl in *.
  destruct (seed_scan (Z.to_nat Nn) 0 (o, t) _ HJ) as [(v & Hv & Hnv & Hlv & Hs)|[Hall _]];
    try lia.
  2:{ exfalso. simpl in Hall.
      assert (seqZ 0 Nn ⊆+ o) as Hsub.
      { apply NoDup_submseteq; [apply NoDup_seqZ|].
        intros w Hw%elem_of_seqZ. apply Hall. lia. }
      apply submseteq_length in Hsub. rewrite length_seqZ in Hsub. unfold size in Hlt. lia. }
  simpl in *. rewrite Z2Nat.id in Hs by lia.
  exists v. eexists. split; [done|]. split; [done|].
  assert (Hclosed : closed adj0 ec o).
  { intros u w [q Hq]%list_elem_of_lookup_1 Hw.
    apply (Hcl q u w); [by eapply lookup_lt_Some|done..]. }
  constructor; simpl.
  - rewrite length_insert. apply Hlen.
  - apply NoDup_app. split; [apply Hnd|]. split; [|apply NoDup_singleton].
    intros y Hy Hy'. apply list_elem_of_singleton in Hy'. by subst.
  - intros k. destruct (decide (k = Z.to_nat v)) as [->|Hk].
    + rewrite list_lookup_insert_eq by (rewrite Hlen; lia).
      rewrite Z2Nat.id by lia.
      split; [intros _; apply elem_of_app; right; by apply list_elem_of_singleton|done].
    + rewrite list_lookup_insert_ne by done.
      rewrite Htc. rewrite elem_of_app, list_elem_of_singleton.
      split; [by left|]. intros [H|H]; [done|]. lia.
  - intros y [Hy|Hy%list_elem_of_singleton]%elem_of_app; [by apply Hnn|lia].
  - intros q u w Hq Hu Hw. rewrite lookup_app_l in Hu by lia.
    apply elem_of_app. left. by eapply Hcl.
  - intros p w Hp Hp0. destruct (decide (p < length o)%nat) as [Hl|Hge].
    + rewrite lookup_app_l in Hp by done. rewrite take_app_le by lia.
      by apply Hexp.
    + assert (p = length o) as ->.
      { apply lookup_lt_Some in Hp. rewrite length_app in Hp. simpl in Hp. lia. }
      rewrite lookup_app_r in Hp by lia. rewrite Nat.sub_diag in Hp. simpl in Hp.
      injection Hp as <-. right. rewrite take_app_length. done.
  - intros p p' q q' Hpp Hfp Hfp'.
    pose proof (first_parent_lt _ _ _ Hfp') as Hp'. rewrite length_app in Hp'. simpl in Hp'.
    rewrite first_parent_app in Hfp by lia.
    destruct (decide (p' < length o)%nat) as [Hl|Hge].
    + rewrite first_parent_app in Hfp' by done. by apply (Hfifo p p' q q').
    + assert (p' = length o) as -> by lia.
      exfalso. destruct Hfp' as (Hq' & (u & w & Hu & Hw & Huw) & _).
      rewrite lookup_app_r in Hw by lia. rewrite Nat.sub_diag in Hw. simpl in Hw.
      injection Hw as <-. rewrite lookup_app_l in Hu by lia.
      apply Hnv. apply (Hclosed u); [by eapply list_elem_of_lookup_2|done].
  - intros p q Hfp.
    pose proof (first_parent_lt _ _ _ Hfp) as Hp. rewrite length_app in Hp. simpl in Hp.
    destruct (decide (p < length o)%nat) as [Hl|Hge].
    + rewrite first_parent_app in Hfp by done. by apply Hpar in Hfp.
    + assert (p = length o) as -> by lia. destruct Hfp as (Hq & _). lia.
Qed.

Lemma bfs_loop_S fuel i st :
  bfs_loop (S fuel) Nn adj0 ec i st =
  if size st.1 <? Nn then
    '(i', st') ← drain (S (Z.to_nat Nn)) adj0 ec i st;
    st'' ← (if size st'.1 <? Nn then seed (seqZ 0 Nn) st' else Done st');
    bfs_loop fuel Nn adj0 ec i' st''
  else Done st.
Proof. reflexivity. Qed.

Lemma bfs_loop_spec fuel : ∀ (i : nat) st,
  J Nn adj0 ec i st → (i ≤ length st.1)%nat → (Z.to_nat Nn - length st.1 < fuel)%nat →
  ∃ st' j, bfs_loop fuel Nn adj0 ec (Z.of_nat i) st = Done st' ∧
           J Nn adj0 ec j st' ∧ Nn ≤ size st'.1 ∧ ∃ l, st'.1 = st.1 ++ l.
Proof.
  induction fuel as [|fuel IH]; intros i st HJ Hi Hfuel; [lia|].
  rewrite bfs_loop_S. destruct (size st.1 <? Nn) eqn:Hlt.
  - apply Z.ltb_lt in Hlt.
    destruct (drain_spec (S (Z.to_nat Nn)) i st HJ Hi) as (st1 & Hd & HJ1 & l1 & Hl1); [lia|].
    rewrite Hd. cbn [mbind outcome_bind].
    assert (∃ st2 l2, (if size st1.1 <? Nn then seed (seqZ 0 Nn) st1 else Done st1) = Done st2
              ∧ J Nn adj0 ec (length st1.1) st2 ∧ st2.1 = st1.1 ++ l2
              ∧ (Z.to_nat Nn - length st2.1 < fuel)%nat) as (st2 & l2 & -> & HJ2 & Hl2 & Hf2).
    { unfold size in *. destruct (Z.of_nat (length st1.1) <? Nn) eqn:Hlt1.
      - apply Z.ltb_lt in Hlt1.
        destruct (seed_spec st1 HJ1) as (v & st2 & Hs & Hv & HJ2); [done|].
        exists st2, [v]. split; [done|]. split; [done|]. split; [done|].
        rewrite Hv, length_app. simpl. rewrite Hl1, length_app. lia.
      - apply Z.ltb_ge in Hlt1. exists st1, []. split; [done|]. split; [done|].
        split; [by rewrite app_nil_r|]. lia. }
    cbn [mbind outcome_bind]. unfold size.
    destruct (IH (length st1.1) st2 HJ2) as (st3 & j & Hb & HJ3 & Hge & l3 & Hl3); try done.
    { rewrite Hl2, length_app. lia. }
    rewrite Hb. exists st3, j. split; [done|]. split; [done|]. split; [done|].
    exists (l1 ++ l2 ++ l3). rewrite Hl3, Hl2, Hl1. by rewrite !app_assoc.
  - apply Z.ltb_ge in Hlt. exists st, i. split; [done|]. split; [done|]. split; [done|].
    exists []. by rewrite app_nil_r.
Qed.
End BfsProof.

(** Initial state of the traversal and the result of [run_bfs]. *)
Lemma run_bfs_spec (D : task_data) (ec : list example) :
  wf_graph (N D) (adj D) ec → 1 ≤ N D < 2 ^ 32 →
  ∃ o, run_bfs D ec = Done (set_bfs o D) ∧
       o ≡ₚ seqZ 0 (N D) ∧ o !! 0%nat = Some 0 ∧
       expands (adj D) ec o ∧ breadth_first (adj D) ec o.
Proof.
  intros Hwf HN. unfold run_bfs.
  assert (Hlen : length (replicate (Z.to_nat (N D)) false) = Z.to_nat (N D))
    by apply length_replicate.
  rewrite store_in_range by (unfold size; rewrite Hlen; lia). cbn [mbind outcome_bind].
  set (t0 := <[_ := true]> _).
  assert (HJ0 : J (N D) (adj D) ec 0 ([0], t0)).
  { constructor; simpl.
    - unfold t0. by rewrite length_insert.
    - apply NoDup_singleton.
    - intros k. unfold t0. destruct (decide (k = 0%nat)) as [->|Hk].
      + rewrite list_lookup_insert_eq by (rewrite Hlen; lia).
        split; [intros _; by apply list_elem_of_singleton|done].
      + rewrite list_lookup_insert_ne by done. rewrite list_elem_of_singleton.
        split; [|lia]. intros H. apply lookup_replicate in H as [? _]. done.
    - intros m ->%list_elem_of_singleton. done.
    - intros q u w Hq. lia.
    - intros p v Hp Hp0. apply lookup_lt_Some in Hp. simpl in Hp. lia.
    - intros p p' q q' Hpp _ Hfp'. apply first_parent_lt in Hfp'. simpl in Hfp'. lia.
    - intros p q Hfp. pose proof (first_parent_lt _ _ _ _ _ Hfp) as Hp.
      destruct Hfp as (Hq & _). simpl in Hp. lia. }
  destruct (bfs_loop_spec (N D) (adj D) ec ltac:(lia) Hwf ltac:(lia) (S (Z.to_nat (N D))) 0 ([0], t0) HJ0)
    as (st & j & Hb & HJ1 & Hge & l & Hl); [simpl; lia..|].
  change (Z.of_nat 0) with 0 in Hb. rewrite Hb. cbn [mbind outcome_bind].
  exists st.1. split; [done|].
  pose proof HJ1 as Hle. apply J_length in Hle.
  split; [|split; [by rewrite Hl|split; apply HJ1]].
  apply submseteq_length_Permutation.
  - apply NoDup_submseteq; [apply HJ1|].
    intros m Hm. apply elem_of_seqZ. pose proof Hm as Hr. eapply J_range in Hr; [|done]. lia.
  - rewrite length_seqZ. unfold size in *. lia.
  - lia.
Qed.

(** ** The graph built by [setup] *)

(** What linking one edge adds to the adjacency lists: nothing but its own id. *)
Lemma link_ids_adds i cs : ∀ adj0 adj1,
  link_ids i cs adj0 = Done adj1 →
  ∀ (n : nat) ids, adj1 !! n = Some ids →
    ∃ ids0, adj0 !! n = Some ids0 ∧ ∀ id, id ∈ ids → id ∈ ids0 ∨ id = i.
Proof.
  induction cs as [|c cs IH]; intros adj0 adj1 H n ids Hn; simpl in H.
  - injection H as <-. exists ids. split; [done|]. by left.
  - apply bind_Done in H as (a & Ha & H). apply bind_Done in H as (adj' & Hs & H).
    destruct (IH _ _ H n ids Hn) as (ids' & Hn' & Hin).
    destruct (_ || _).
    + apply store_Done in Hs as [Hr ->]. apply load_Done in Ha as [_ Ha].
      destruct (decide (n = Z.to_nat (u32 (class_index c - 1)))) as [->|Hne].
      * rewrite list_lookup_insert_eq in Hn' by (by eapply lookup_lt_Some).
        injection Hn' as <-. exists a. split; [done|].
        intros id [Hid|Hid]%Hin; [|by right].
        apply elem_of_app in Hid as [Hid|Hid%list_elem_of_singleton]; [by left|by right].
      * rewrite list_lookup_insert_ne in Hn' by done. by exists ids'.
    + injection Hs as <-. by exists ids'.
Qed.

Lemma link_edges_graph Nn ec : ∀ es pre i adj0 adj1,
  ec = pre ++ es → i = size pre →
  link_edges Nn i es adj0 = Done adj1 →
  0 ≤ Nn < 2 ^ 32 →
  Forall (λ e, Forall (λ c, 0 ≤ class_index c) (costs e)) es →
  wf_graph Nn adj0 ec → wf_graph Nn adj1 ec.
Proof.
  induction es as [|e es IH]; intros pre i adj0 adj1 Hec Hi H HN Hty Hwf; simpl in H.
  - by injection H as <-.
  - inversion Hty as [|? ? Hce Hty']; subst.
    apply bind_Done in H as ([] & Hchk & H). apply bind_Done in H as (adj' & Hl & H).
    apply check_ids_Done in Hchk.
    assert (Hr : Forall (λ c, 0 ≤ class_index c ≤ Nn) (costs e)).
    { rewrite Forall_forall in Hchk, Hce |- *. intros c Hc.
      specialize (Hchk c Hc). specialize (Hce c Hc). simpl in *. lia. }
    destruct Hwf as [Hsz Hwf].
    destruct (link_ids_Done Nn (size pre) (costs e) adj0 Hsz ltac:(lia) Hr) as [_ Hundef].
    assert (Hpos : Forall (λ c, 1 ≤ class_index c) (costs e)).
    { destruct (decide (Forall (λ c, 1 ≤ class_index c) (costs e))) as [|Hn]; [done|].
      rewrite (Hundef Hn) in Hl. discriminate. }
    eapply (IH (pre ++ [e]) (size pre + 1) adj' adj1); try done.
    + by rewrite <- app_assoc.
    + rewrite size_app. done.
    + split; [by rewrite (link_ids_size _ _ _ _ Hl)|].
      apply Forall_forall. intros ids [n Hn]%list_elem_of_lookup_1.
      destruct (link_ids_adds _ _ _ _ Hl n ids Hn) as (ids0 & Hn0 & Hin).
      apply Forall_forall. intros id [Hid| ->]%Hin.
      * rewrite Forall_forall in Hwf. specialize (Hwf ids0 (list_elem_of_lookup_2 _ _ _ Hn0)).
        rewrite Forall_forall in Hwf. by apply Hwf.
      * split; [apply size_nonneg|]. exists e. split.
        -- unfold size. rewrite Nat2Z.id. rewrite lookup_app_r by done.
           by rewrite Nat.sub_diag.
        -- rewrite Forall_forall in Hr, Hpos |- *. intros c Hc.
           specialize (Hr c Hc). specialize (Hpos c Hc). simpl in *. lia.
Qed.

(** The state [setup] returns: the number of nodes, an adjacency that names
    edges of the episode with ids in [1 .. N], the traversal order and the
    predictions at the sentinel. *)
Lemma setup_graph all D0 ec D :
  setup all D0 ec = Done D → size ec < 2 ^ 32 →
  Forall (λ e, Forall (λ c, 0 ≤ class_index c) (costs e)) (edges_of ec) →
  N D = size (nodes_of ec) ∧ 1 ≤ N D < 2 ^ 32 ∧
  wf_graph (N D) (adj D) ec ∧
  bfs D ≡ₚ seqZ 0 (N D) ∧ bfs D !! 0%nat = Some 0 ∧
  expands (adj D) ec (bfs D) ∧ breadth_first (adj D) ec (bfs D) ∧
  pred D = replicate (Z.to_nat (N D)) (u64 (K D + 1)).
Proof.
  intros H Hsz Hty. unfold setup in H.
  set (D1 := set_E 0 (set_N 0 _)) in *.
  apply bind_Done in H as (D2 & Hc & H).
  destruct (_ && _); [discriminate|].
  apply bind_Done in H as (adj1 & Hl & H). apply bind_Done in H as (D3 & Hb & H).
  injection H as <-. simpl in *.
  assert (Hlay : ec = nodes_of ec ++ edges_of ec).
  { destruct (records_layout ec) as [Hnae|Hlay]; [|done].
    destruct (count_records_not_sorted ec D1) as [HU|[msg HF]];
      try (unfold D1; simpl; lia); [by left|..]; congruence. }
  pose proof (size_nonneg (nodes_of ec)). pose proof (size_nonneg (edges_of ec)).
  assert (Hsplit : size ec = size (nodes_of ec) + size (edges_of ec)).
  { rewrite <- size_app. by rewrite <- Hlay. }
  assert (HN : N D2 = size (nodes_of ec)).
  { destruct (count_records_sorted (nodes_of ec) (edges_of ec) D1) as [HU|(D' & HD & HN & _)];
      try apply nodes_of_Forall; try apply edges_of_Forall; try (unfold D1; simpl; lia).
    - rewrite <- Hlay in HU. congruence.
    - rewrite <- Hlay in HD. rewrite Hc in HD. injection HD as <-. rewrite HN. done. }
  assert (Hdrop : drop (Z.to_nat (N D2)) ec = edges_of ec).
  { rewrite HN. unfold size. rewrite Nat2Z.id.
    transitivity (drop (length (nodes_of ec)) (nodes_of ec ++ edges_of ec));
      [by rewrite <- Hlay|by rewrite drop_app_length]. }
  rewrite Hdrop in Hl.
  assert (Hwf : wf_graph (N D2) adj1 ec).
  { apply (link_edges_graph (N D2) ec (edges_of ec) (nodes_of ec) (N D2)
             (replicate (Z.to_nat (N D2)) []) adj1); try done; try lia.
    split; [unfold size; rewrite length_replicate; lia|].
      apply Forall_forall. intros ids [-> _]%elem_of_replicate. constructor. }
  assert (HN1 : 1 ≤ N D2).
  { unfold run_bfs in Hb. apply bind_Done in Hb as (t & Ht & _). simpl in Ht.
    apply store_Done in Ht as [Hr _]. unfold size in Hr. rewrite length_replicate in Hr. lia. }
  match type of Hb with
  | run_bfs ?D' _ = _ =>
      destruct (run_bfs_spec D' ec) as (o & Ho & Hperm & Hfst & Hexp & Hbf); simpl; [done|lia|]
  end.
  rewrite Hb in Ho. injection Ho as ->. simpl.
  split; [done|]. split; [lia|]. done.
Qed.

Lemma count_records_total nodes edges : ∀ D sz,
  Forall (λ e, example_is_edge e = false) nodes →
  Forall (λ e, example_is_edge e = true) edges →
  E D = 0 → 0 ≤ N D → N D + size nodes + size edges < 2 ^ 32 →
  size (true_counts D) = sz →
  Forall (λ e, Forall (λ c, 0 ≤ class_index c < sz) (take 1 (costs e))) nodes →
  ∃ D', count_records (nodes ++ edges) D = Done D'.
Proof.
  induction nodes as [|e nodes IH]; intros D sz Hn He HE HN Hsz Htc Hlab; simpl.
  - rewrite count_records_edges; [by eexists|done| |lia].
    unfold size in *; simpl in *; lia.
  - inversion Hn as [|? ? Hne Hn']; subst. inversion Hlab as [|? ? Hl Hlab']; subst.
    rewrite Hne, HE. simpl.
    unfold size in Hsz; simpl length in Hsz.
    assert (Hu : u32 (N D + 1) = N D + 1) by (apply u32_small; lia).
    destruct (costs e) as [|c cs].
    + apply (IH _ (size (true_counts D))); simpl; try done; try lia.
      rewrite Hu. unfold size. lia.
    + simpl in Hl. inversion Hl as [|? ? Hc _]; subst.
      destruct (load_in_range (true_counts D) (class_index c)) as (t & Ht & _); [done|].
      rewrite Ht. cbn [mbind outcome_bind].
      rewrite store_in_range by done. cbn [mbind outcome_bind].
      apply (IH _ (size (true_counts D))); simpl; try done; try lia.
      * rewrite Hu. unfold size. lia.
      * unfold size. by rewrite length_insert.
Qed.

Lemma link_edges_total Nn es : ∀ i adj0,
  size adj0 = Nn → Nn < 2 ^ 32 →
  Forall (λ e, Forall (λ c, 1 ≤ class_index c ≤ Nn) (costs e)) es →
  ∃ adj1, link_edges Nn i es adj0 = Done adj1.
Proof.
  induction es as [|e es IH]; intros i adj0 Hsz HN Hall; simpl; [by eexists|].
  inversion Hall as [|? ? He Hall']; subst.
  assert (Hchk : check_ids (size adj0) (costs e) = Done ()).
  { apply check_ids_Done. eapply Forall_impl; [exact He|]. simpl. lia. }
  rewrite Hchk. cbn [mbind outcome_bind].
  destruct (link_ids_Done (size adj0) i (costs e) adj0) as [Hdone _]; try done.
  { eapply Forall_impl; [exact He|]. simpl. lia. }
  destruct Hdone as [adj1 Hl]. { eapply Forall_impl; [exact He|]. simpl. lia. }
  rewrite Hl. cbn [mbind outcome_bind].
  pose proof (link_ids_size _ _ _ _ Hl) as Hsz1. rewrite <- Hsz1 in *.
  by apply IH.
Qed.

(** [setup] returns on every episode whose nodes come first, that has a
    node, whose node labels index the label priors and whose edges name
    ids in [1 .. N]. *)
Lemma setup_total all D0 ec :
  size ec < 2 ^ 32 → ¬ node_after_edge ec → nodes_of ec ≠ [] →
  Forall (λ e, Forall (λ c, 0 ≤ class_index c < size (true_counts D0)) (take 1 (costs e)))
    (nodes_of ec) →
  Forall (λ e, Forall (λ c, 1 ≤ class_index c ≤ size (nodes_of ec)) (costs e)) (edges_of ec) →
  ∃ D, setup all D0 ec = Done D.
Proof.
  intros Hsz Hnae Hnodes Hlab Hids.
  destruct (records_layout ec) as [|Hlay]; [done|].
  pose proof (size_nonneg (nodes_of ec)). pose proof (size_nonneg (edges_of ec)).
  assert (Hsplit : size ec = size (nodes_of ec) + size (edges_of ec)).
  { rewrite <- size_app. by rewrite <- Hlay. }
  assert (Hpos : 1 ≤ size (nodes_of ec)).
  { destruct (nodes_of ec); [done|]. unfold size. simpl. lia. }
  unfold setup. set (D1 := set_E 0 (set_N 0 _)).
  destruct (count_records_total (nodes_of ec) (edges_of ec) D1 (size (true_counts D0)))
    as [D2 Hc]; try apply nodes_of_Forall; try apply edges_of_Forall;
    try done; try (unfold D1; simpl; lia).
  assert (HN : N D2 = size (nodes_of ec)).
  { destruct (count_records_sorted (nodes_of ec) (edges_of ec) D1) as [HU|(D' & HD & HN & _)];
      try apply nodes_of_Forall; try apply edges_of_Forall; try (unfold D1; simpl; lia).
    - congruence.
    - rewrite Hc in HD. injection HD as <-. rewrite HN. done. }
  rewrite <- Hlay in Hc. rewrite Hc. cbn [mbind outcome_bind]. simpl.
  rewrite HN. replace (size (nodes_of ec) =? 0) with false by lia. cbn [andb].
  assert (Hdrop : drop (Z.to_nat (size (nodes_of ec))) ec = edges_of ec).
  { unfold size. rewrite Nat2Z.id.
    transitivity (drop (length (nodes_of ec)) (nodes_of ec ++ edges_of ec));
      [by rewrite <- Hlay|by rewrite drop_app_length]. }
  rewrite Hdrop.
  set (adj0 := replicate _ _).
  assert (Hsz0 : size adj0 = size (nodes_of ec)).
  { unfold adj0, size. rewrite length_replicate. lia. }
  destruct (link_edges_total (size (nodes_of ec)) (edges_of ec) (size (nodes_of ec)) adj0)
    as [adj1 Hl]; try done; try lia.
  rewrite Hl. cbn [mbind outcome_bind].
  match goal with
  | |- ∃ _, (run_bfs ?D' _ ≫= _) = _ =>
      destruct (run_bfs_spec D' ec) as (o & Ho & _); simpl
  end.
  - rewrite HN.
    apply (link_edges_graph (size (nodes_of ec)) ec (edges_of ec) (nodes_of ec)
             (size (nodes_of ec)) adj0 adj1); try done; try lia.
    + eapply Forall_impl; [exact Hids|]. intros e He. simpl in He.
      eapply Forall_impl; [exact He|]. simpl. lia.
    + split; [done|].
      apply Forall_forall. intros ids [-> _]%elem_of_replicate. constructor.
  - lia.
  - rewrite Ho. cbn [mbind outcome_bind]. by eexists.
Qed.

(** * Augmentation *)

Lemma fold_outcome_app {S A} (f : S → A → outcome S) l1 l2 s :
  fold_outcome f s (l1 ++ l2) = (s' ← fold_outcome f s l1; fold_outcome f s' l2).
Proof.
  revert s. induction l1 as [|a l1 IH]; intros s; simpl; [done|].
  destruct (f s a); simpl; try done.
Qed.

Lemma fold_outcome_inv {S A} (P : S → Prop) (f : S → A → outcome S) l :
  ∀ s s', P s → (∀ s a s', P s → a ∈ l → f s a = Done s' → P s') →
  fold_outcome f s l = Done s' → P s'.
Proof.
  induction l as [|a l IH]; intros s s' Hs Hf H; simpl in H.
  - by injection H as <-.
  - apply bind_Done in H as (s1 & H1 & H2).
    eapply (IH s1); [..|done].
    + eapply Hf; [done|by left|done].
    + intros ? ? ? ? ?. eapply Hf; [done|by right|done..].
Qed.

(** A fold whose steps succeed on states satisfying an invariant succeeds. *)
Lemma fold_outcome_total {S A} (P : S → Prop) (f : S → A → outcome S) l :
  ∀ s, P s → (∀ s a, P s → a ∈ l → ∃ s', f s a = Done s' ∧ P s') →
  ∃ s', fold_outcome f s l = Done s' ∧ P s'.
Proof.
  induction l as [|a l IH]; intros s Hs Hf; simpl.
  - by exists s.
  - destruct (Hf s a Hs) as (s1 & -> & Hs1); [by left|]. simpl.
    apply IH; [done|]. intros ? ? ? ?. apply Hf; [done|by right].
Qed.

Lemma with_features_nil nn node : with_features nn [] node = node.
Proof.
  unfold with_features. simpl.
  rewrite list_alter_id by done.
  rewrite list_alter_id by (intros; by rewrite app_nil_r).
  by destruct node.
Qed.

Lemma with_features_app nn i1 i2 node :
  with_features nn i2 (with_features nn i1 node) = with_features nn (i1 ++ i2) node.
Proof.
  unfold with_features, set_sum_feat_sq, set_atomics. simpl. f_equal.
  - rewrite list_alter_alter_eq. apply list_alter_ext; [|done].
    intros a ? . simpl. by rewrite app_assoc.
  - rewrite list_alter_alter_eq. apply list_alter_ext; [|done].
    intros a ?. simpl. by rewrite foldl_app.
Qed.

Lemma with_features_shape nn inj node :
  costs (with_features nn inj node) = costs node ∧
  indices (with_features nn inj node) = indices node ∧
  size (atomics (with_features nn inj node)) = size (atomics node) ∧
  size (sum_feat_sq (with_features nn inj node)) = size (sum_feat_sq node) ∧
  total_sum_feat_sq (with_features nn inj node) = total_sum_feat_sq node ∧
  num_features (with_features nn inj node) = num_features node.
Proof.
  unfold with_features, size. simpl. rewrite !length_alter. done.
Qed.

(** Filling a range of an array. *)
Lemma fill_spec {A} (v : A) (k : nat) : ∀ (a : nat) l,
  (a + k ≤ length l)%nat →
  ∃ r, fold_outcome (λ l i, store l i v) l (seqZ (Z.of_nat a) (Z.of_nat k)) = Done r ∧
       length r = length l ∧
       ∀ j, r !! j = if decide (a ≤ j < a + k)%nat then Some v else l !! j.
Proof.
  induction k as [|k IH]; intros a l Hk.
  - exists l. split; [done|]. split; [done|]. intros j. case_decide; [lia|done].
  - rewrite seqZ_cons by lia. simpl.
    rewrite store_in_range by (unfold size; lia). simpl.
    replace (Z.pred (Z.of_nat (S k))) with (Z.of_nat k) by lia.
    replace (Z.succ (Z.of_nat a)) with (Z.of_nat (S a)) by lia.
    destruct (IH (S a) (<[Z.to_nat (Z.of_nat a) := v]> l)) as (r & -> & Hlen & Hr).
    { rewrite length_insert. lia. }
    exists r. split; [done|]. rewrite length_insert in Hlen. split; [done|].
    intros j. rewrite Hr. rewrite Nat2Z.id.
    destruct (decide (j = a)) as [->|Hj].
    + rewrite list_lookup_insert_eq by lia. repeat case_decide; try done; lia.
    + rewrite list_lookup_insert_ne by done. repeat case_decide; try done; lia.
Qed.

Lemma clear_predictions_spec D :
  size (neighbor_predictions D) = K D + 1 → 0 ≤ K D → K D + 1 < 2 ^ 64 →
  clear_predictions D = Done (replicate (Z.to_nat (K D + 1)) (Q2Qc 0)).
Proof.
  intros Hsz HK HK64. unfold clear_predictions. rewrite u64_small by lia.
  destruct (fill_spec (Q2Qc 0) (Z.to_nat (K D + 1)) 0 (neighbor_predictions D))
    as (r & Hr & Hlen & Hlk); [unfold size in Hsz; lia|].
  change (Z.of_nat 0) with 0 in Hr. rewrite Z2Nat.id in Hr by lia. rewrite Hr.
  f_equal. apply list_eq. intros j. rewrite Hlk. case_decide as Hj.
  - symmetry. apply lookup_replicate. split; [done|lia].
  - rewrite !lookup_ge_None_2; [done|rewrite length_replicate; lia|unfold size in Hsz; lia].
Qed.

Lemma bump_length np b : length (bump np b) = length np.
Proof. apply length_alter. Qed.

Lemma foldl_bump_length l : ∀ np, length (foldl bump np l) = length np.
Proof.
  induction l as [|b l IH]; intros np; simpl; [done|]. by rewrite IH, bump_length.
Qed.

Lemma hist_count_cons b l k :
  hist_count (b :: l) k = (if decide (b = k) then 1 else 0) + hist_count l k.
Proof.
  unfold hist_count, size. rewrite filter_cons. case_decide; simpl; lia.
Qed.

Lemma hist_count_nonneg l k : 0 ≤ hist_count l k.
Proof. apply size_nonneg. Qed.

Lemma foldl_bump_lookup l : ∀ np (k : nat),
  Forall (λ b, 0 ≤ b) l →
  foldl bump np l !! k = (λ v, v + Qc_of_Z (hist_count l (Z.of_nat k)))%Qc <$> np !! k.
Proof.
  induction l as [|b l IH]; intros np k Hl; simpl.
  - destruct (np !! k) as [v|]; simpl; [|done]. f_equal.
    change (Qc_of_Z (hist_count [] (Z.of_nat k))) with (Q2Qc 0). ring.
  - inversion Hl as [|? ? Hb Hl']; subst. rewrite IH by done.
    rewrite hist_count_cons. unfold bump.
    destruct (decide (Z.to_nat b = k)) as [<-|Hk].
    + rewrite list_lookup_alter_eq. destruct (np !! Z.to_nat b) as [v|]; simpl; [|done].
      f_equal. rewrite Z2Nat.id by done. rewrite decide_True by done.
      rewrite Qc_of_Z_add. change (Qc_of_Z 1) with (Q2Qc 1). ring.
    + rewrite list_lookup_alter_ne by done. destruct (np !! k) as [v|]; simpl; [|done].
      f_equal. rewrite decide_False by lia. done.
Qed.

Lemma structure_contributions_cons D n c cs :
  structure_contributions D n (c :: cs) =
  (let m := u32 (class_index c - 1) in
   if m =? n then []
   else match pred D !! Z.to_nat m with Some p => [u64 (p - 1)] | None => [] end)
  ++ structure_contributions D n cs.
Proof. done. Qed.

(** The loop over the endpoints of an edge builds the histogram of the
    contributions. *)
Lemma count_neighbors_spec D n cs : ∀ np total lastp,
  (∀ c, c ∈ cs → u32 (class_index c - 1) ≠ n →
     0 ≤ u32 (class_index c - 1) ∧
     ∃ p, pred D !! Z.to_nat (u32 (class_index c - 1)) = Some p ∧ 0 ≤ u64 (p - 1) < size np) →
  fold_outcome (count_neighbor D n) (np, total, lastp) cs =
  Done (foldl bump np (structure_contributions D n cs),
        (total + Qc_of_Z (size (structure_contributions D n cs)))%Qc,
        match last (structure_contributions D n cs) with
        | Some b => u32 b | None => lastp end).
Proof.
  induction cs as [|c cs IH]; intros np total lastp Hcs.
  - simpl. do 3 f_equal. change (Qc_of_Z (size [])) with (Q2Qc 0). ring.
  - rewrite structure_contributions_cons. simpl fold_outcome. unfold count_neighbor at 1.
    cbn zeta. destruct (u32 (class_index c - 1) =? n) eqn:Hm.
    + simpl. rewrite IH; [done|]. intros c' Hc'. apply Hcs. by right.
    + destruct (Hcs c) as (Hm0 & p & Hp & Hr); [by left|lia|].
      assert (load (pred D) (u32 (class_index c - 1)) = Done p) as -> by (by apply load_Done).
      rewrite Hp. cbn [mbind outcome_bind].
      destruct (load_in_range np (u64 (p - 1)) Hr) as (v & -> & Hv). cbn [mbind outcome_bind].
      rewrite store_in_range by done. cbn [mbind outcome_bind].
      assert (Hb : <[Z.to_nat (u64 (p - 1)) := (v + Q2Qc 1)%Qc]> np = bump np (u64 (p - 1))).
      { unfold bump. apply list_eq. intros j.
        destruct (decide (j = Z.to_nat (u64 (p - 1)))) as [->|Hj].
        - rewrite list_lookup_alter_eq, Hv. simpl.
          rewrite list_lookup_insert_eq; [done|]. by eapply lookup_lt_Some.
        - by rewrite list_lookup_alter_ne, list_lookup_insert_ne. }
      rewrite Hb. rewrite IH.
      2:{ intros c' Hc' Hne. destruct (Hcs c') as (? & p' & ? & ?); [by right|done|].
          split; [done|]. exists p'. split; [done|]. unfold size in *. by rewrite bump_length. }
      simpl. f_equal. f_equal; [f_equal|].
      * unfold size. simpl length. rewrite Nat2Z.inj_succ, <- Z.add_1_l.
        rewrite Qc_of_Z_add. change (Qc_of_Z 1) with (Q2Qc 1). ring.
      * rewrite last_cons. by destruct (last (structure_contributions D n cs)).
Qed.

Lemma Qc_sum_cons a l : Qc_sum (a :: l) = (a + Qc_sum l)%Qc.
Proof. done. Qed.




Section Augment.
Variable nn : Z.

Lemma node_ok_with_features inj node : node_ok nn node → node_ok nn (with_features nn inj node).
Proof.
  unfold node_ok.
  pose proof (with_features_shape nn inj node) as (_ & _ & -> & -> & _). done.
Qed.

Lemma push_feature_spec f node :
  node_ok nn node → push_feature nn f node = Done (with_features nn [f] node).
Proof.
  intros [Ha Hs]. unfold push_feature.
  destruct (load_in_range (atomics node) nn Ha) as (a & -> & Hal). simpl.
  rewrite store_in_range by done. simpl.
  destruct (load_in_range (sum_feat_sq node) nn Hs) as (s & -> & Hsl). simpl.
  rewrite store_in_range by done. simpl.
  unfold with_features. simpl. do 2 f_equal.
  - symmetry. apply list_eq. intros j. destruct (decide (j = Z.to_nat nn)) as [->|Hj].
    + rewrite list_lookup_alter_eq, Hsl. simpl.
      rewrite list_lookup_insert_eq; [done|]. by eapply lookup_lt_Some.
    + by rewrite list_lookup_alter_ne, list_lookup_insert_ne.
  - f_equal. symmetry. apply list_eq. intros j. destruct (decide (j = Z.to_nat nn)) as [->|Hj].
    + rewrite list_lookup_alter_eq, Hal. simpl.
      rewrite list_lookup_insert_eq; [done|]. by eapply lookup_lt_Some.
    + by rewrite list_lookup_alter_ne, list_lookup_insert_ne.
Qed.

Lemma fold_push {A} (g : A → list feature) (step : example → A → outcome example) l :
  (∀ node a, a ∈ l → node_ok nn node → step node a = Done (with_features nn (g a) node)) →
  ∀ node, node_ok nn node →
  fold_outcome step node l = Done (with_features nn (flat_map g l) node).
Proof.
  induction l as [|a l IH]; intros Hstep node Hok; simpl.
  - by rewrite with_features_nil.
  - rewrite Hstep by (done || by left). simpl.
    rewrite IH; [|intros; apply Hstep; [by right|done]|by apply node_ok_with_features].
    by rewrite with_features_app.
Qed.

Lemma fold_push_store {A} (g : A → list feature)
    (step : list example → A → outcome (list example)) l (n : nat) :
  (∀ ec node a, a ∈ l → ec !! n = Some node → node_ok nn node →
     step ec a = Done (<[n := with_features nn (g a) node]> ec)) →
  ∀ ec node, ec !! n = Some node → node_ok nn node →
  fold_outcome step ec l = Done (<[n := with_features nn (flat_map g l) node]> ec).
Proof.
  induction l as [|a l IH]; intros Hstep ec node Hn Hok; simpl.
  - rewrite with_features_nil. by rewrite list_insert_id.
  - rewrite (Hstep ec node) by (done || by left). simpl.
    rewrite (IH (λ ec node a Ha, Hstep ec node a (list_elem_of_further _ _ _ Ha)) _
               (with_features nn (g a) node)).
    + by rewrite list_insert_insert_eq, with_features_app.
    + apply list_lookup_insert_eq. by eapply lookup_lt_Some.
    + by apply node_ok_with_features.
Qed.

Lemma single_fn_spec D ec (n : nat) node f q :
  cur_node D = Z.of_nat n → ec !! n = Some node → node_ok nn node →
  multiplier D ≠ 0 → aligned D f → neighbor_predictions D !! 0%nat = Some q →
  add_edge_features_single_fn nn D ec (x f) (weight_index f) =
  Done (<[n := with_features nn [single_rule D (Qc_to_size_t q) f] node]> ec).
Proof.
  intros Hcur Hn Hok Hm Hal Hq. unfold add_edge_features_single_fn.
  assert (load ec (cur_node D) = Done node) as ->.
  { apply load_Done. rewrite Hcur, Nat2Z.id. split; [lia|done]. }
  simpl. replace (multiplier D =? 0) with false by lia.
  unfold aligned in Hal. rewrite Hal, Z.eqb_refl. simpl.
  assert (load (neighbor_predictions D) 0 = Done q) as -> by (by apply load_Done).
  simpl. rewrite push_feature_spec by done. simpl.
  rewrite store_in_range.
  - by rewrite Hcur, Nat2Z.id.
  - apply lookup_lt_Some in Hn. unfold size. lia.
Qed.

Lemma group_fn_spec D ec (n : nat) node f :
  cur_node D = Z.of_nat n → ec !! n = Some node → node_ok nn node →
  multiplier D ≠ 0 → aligned D f →
  size (neighbor_predictions D) = K D + 1 →
  add_edge_features_group_fn nn D ec (x f) (weight_index f) =
  Done (<[n := with_features nn (group_of_np D (neighbor_predictions D) f) node]> ec).
Proof.
  intros Hcur Hn Hok Hm Hal Hsz. unfold add_edge_features_group_fn.
  assert (load ec (cur_node D) = Done node) as ->.
  { apply load_Done. rewrite Hcur, Nat2Z.id. split; [lia|done]. }
  simpl. replace (multiplier D =? 0) with false by lia.
  unfold aligned in Hal. rewrite Hal, Z.eqb_refl. simpl.
  erewrite (fold_push (λ k,
      match neighbor_predictions D !! Z.to_nat k with
      | Some v =>
          if Qc_is_zero v then []
          else [{| x := (x f * v)%Qc; weight_index := neighbor_bucket D (base D f) k |}]
      | None => []
      end)); [| |done].
  - simpl. rewrite store_in_range.
    + by rewrite Hcur, Nat2Z.id.
    + apply lookup_lt_Some in Hn. unfold size. lia.
  - intros node' k Hk%elem_of_seqZ Hok'.
    destruct (load_in_range (neighbor_predictions D) k) as (v & -> & ->); [lia|].
    simpl. destruct (Qc_is_zero v).
    + by rewrite with_features_nil.
    + by apply push_feature_spec.
Qed.

(** [foreach_feature] with a callback that injects [g f] for the feature [f]. *)
Lemma foreach_feature_spec (T : list example → Qc → Z → outcome (list example))
    (g : feature → list feature) edge fs ec (n : nat) node :
  active_features edge = Done fs →
  (∀ ec node f, f ∈ fs → ec !! n = Some node → node_ok nn node →
     T ec (x f) (weight_index f) = Done (<[n := with_features nn (g f) node]> ec)) →
  ec !! n = Some node → node_ok nn node →
  foreach_feature T edge ec = Done (<[n := with_features nn (flat_map g fs) node]> ec).
Proof.
  intros Hfs HT Hn Hok. unfold foreach_feature. rewrite Hfs. simpl.
  by apply (fold_push_store g (λ s f, T s (x f) (weight_index f))).
Qed.

Lemma flat_map_ext_elem {A B} (f g : A → list B) l :
  (∀ a, a ∈ l → f a = g a) → flat_map f l = flat_map g l.
Proof.
  induction l as [|a l IH]; intros H; simpl; [done|].
  rewrite H by (by left). rewrite IH; [done|]. intros. apply H. by right.
Qed.

Lemma flat_map_singleton {A B} (f : A → B) l : flat_map (λ a, [f a]) l = map f l.
Proof. induction l as [|a l IH]; simpl; [done|]. by rewrite IH. Qed.

Lemma u32_nonneg z : 0 ≤ u32 z.
Proof. unfold u32. apply Z.mod_pos_bound. lia. Qed.

Lemma contributions_range D n edge :
  histogram_ok D n edge → Forall (λ b, 0 ≤ b < K D + 1) (contributions D n edge).
Proof.
  intros (Hsz & HK & HK32 & Hp). unfold contributions.
  destruct (use_structure D); [|constructor; [lia|constructor]].
  specialize (Hp eq_refl). unfold structure_contributions.
  apply Forall_forall. intros b Hb. apply list_elem_of_In, in_flat_map in Hb as (c & Hc & Hb).
  apply list_elem_of_In in Hc. rewrite Forall_forall in Hp. specialize (Hp c Hc). simpl in *.
  destruct (u32 (class_index c - 1) =? n) eqn:Hm; [by destruct Hb|].
  destruct Hp as (p & Hp & Hr); [lia|]. rewrite Hp in Hb.
  destruct Hb as [<-|[]]. rewrite u64_small by lia. lia.
Qed.

Lemma edge_histogram_spec D n edge :
  histogram_ok D n edge →
  edge_histogram D n edge =
  Done (foldl bump (replicate (Z.to_nat (K D + 1)) (Q2Qc 0)) (contributions D n edge),
        Qc_of_Z (size (contributions D n edge)),
        match last (contributions D n edge) with Some b => u32 b | None => 0 end).
Proof.
  intros Hok. pose proof (contributions_range D n edge Hok) as Hrange.
  destruct Hok as (Hsz & HK & HK32 & Hp).
  unfold edge_histogram, contributions in *.
  rewrite clear_predictions_spec by (done || lia). cbn [mbind outcome_bind].
  destruct (use_structure D).
  - specialize (Hp eq_refl). rewrite count_neighbors_spec.
    + do 3 f_equal. ring.
    + intros c Hc Hne. split; [apply u32_nonneg|].
      rewrite Forall_forall in Hp. destruct (Hp c Hc Hne) as (p & Hpl & Hpr).
      exists p. split; [done|]. rewrite u64_small by lia.
      unfold size. rewrite length_replicate. lia.
  - set (zeros := replicate _ _).
    destruct (load_in_range zeros 0) as (v & -> & Hv).
    { unfold size, zeros. rewrite length_replicate. lia. }
    cbn [mbind outcome_bind]. rewrite store_in_range
      by (unfold size, zeros; rewrite length_replicate; lia).
    cbn [mbind outcome_bind].
    assert (Hb : <[Z.to_nat 0 := (v + Q2Qc 1)%Qc]> zeros = foldl bump zeros [0]).
    { simpl. unfold bump. change (Z.to_nat 0) with 0%nat in *.
      apply list_eq. intros j. destruct (decide (j = 0%nat)) as [->|Hj].
      * rewrite list_lookup_alter_eq. rewrite Hv. simpl.
        rewrite list_lookup_insert_eq; [done|]. by eapply lookup_lt_Some.
      * by rewrite list_lookup_alter_ne, list_lookup_insert_ne. }
    rewrite Hb.
    assert (Ht : (Q2Qc 0 + Q2Qc 1)%Qc = Qc_of_Z (size [0])) by (apply Qc_is_canon; reflexivity).
    rewrite Ht. done.
Qed.

Lemma histogram_lookup D l (k : Z) :
  Forall (λ b, 0 ≤ b) l → 0 ≤ k < K D + 1 →
  foldl bump (replicate (Z.to_nat (K D + 1)) (Q2Qc 0)) l !! Z.to_nat k
  = Some (Qc_of_Z (hist_count l k)).
Proof.
  intros Hl Hk. rewrite foldl_bump_lookup by done.
  rewrite (proj2 (lookup_replicate _ _ _ _)) by (split; [done|lia]). simpl.
  rewrite Z2Nat.id by lia. f_equal. ring.
Qed.

Lemma group_of_np_histogram D l f :
  Forall (λ b, 0 ≤ b) l →
  group_of_np D (foldl bump (replicate (Z.to_nat (K D + 1)) (Q2Qc 0)) l) f = group_rule D l f.
Proof.
  intros Hl. unfold group_of_np, group_rule. apply flat_map_ext_elem.
  intros k Hk%elem_of_seqZ. rewrite histogram_lookup by (done || lia).
  by rewrite Qc_is_zero_of_Z.
Qed.

(** What [add_edge] does to the node being augmented. *)
Lemma add_edge_spec D ec (n : nat) node i edge fs :
  cur_node D = Z.of_nat n → ec !! n = Some node → node_ok nn node →
  load ec i = Done edge → histogram_ok D (Z.of_nat n) edge →
  active_features edge = Done fs → Forall (aligned D) fs → multiplier D ≠ 0 →
  ∃ np, add_edge nn (Z.of_nat n) (D, ec) i =
          Done (set_neighbor_predictions np D,
                <[n := with_features nn (injected D (contributions D (Z.of_nat n) edge) fs) node]> ec)
        ∧ size np = K D + 1.
Proof.
  intros Hcur Hn Hnode Hedge Hok Hfs Hal Hm.
  pose proof (contributions_range D _ edge Hok) as Hrange.
  pose proof Hok as (Hsz & HK & HK32 & _).
  unfold add_edge. rewrite Hedge. cbn [mbind outcome_bind].
  rewrite edge_histogram_spec by done. cbn [mbind outcome_bind].
  set (l := contributions D (Z.of_nat n) edge) in *.
  set (np := foldl bump _ l).
  assert (Hnp : size np = K D + 1).
  { unfold size, np. rewrite foldl_bump_length, length_replicate. lia. }
  rewrite Qc_is_zero_of_Z.
  change (Q2Qc 1) with (Qc_of_Z 1). rewrite Qc_leb_of_Z.
  destruct l as [|b [|b' l']] eqn:Hl.
  - exists np. split; [|done]. simpl. rewrite with_features_nil.
    by rewrite list_insert_id.
  - inversion Hrange as [|? ? Hb _]; subst.
    change (size [b] =? 0) with false. change (size [b] <=? 1) with true.
    cbv iota. simpl last. cbv iota.
    rewrite store_in_range by lia. cbn [mbind outcome_bind].
    set (np' := <[_ := _]> np).
    erewrite (foreach_feature_spec (add_edge_features_single_fn nn (set_neighbor_predictions np' D))
                (λ f, [single_rule D b f])); try done.
    + cbn [mbind outcome_bind]. exists np'. split.
      * simpl. by rewrite flat_map_singleton.
      * unfold np', size. rewrite length_insert. apply Hnp.
    + intros ec' node' f Hf Hn' Hok'.
      rewrite (single_fn_spec _ ec' n node' f (Qc_of_Z (u32 b))); try done.
      * rewrite Qc_to_size_t_of_Z. rewrite u32_small, u64_small by lia. done.
      * rewrite Forall_forall in Hal. by apply Hal.
      * simpl. unfold np'. change (Z.to_nat 0) with 0%nat.
        apply list_lookup_insert_eq. unfold size in Hnp. lia.
  - assert (2 ≤ size (b :: b' :: l')) by (unfold size; simpl; lia).
    replace (size (b :: b' :: l') =? 0) with false by lia.
    replace (size (b :: b' :: l') <=? 1) with false by lia.
    erewrite (foreach_feature_spec (add_edge_features_group_fn nn (set_neighbor_predictions np D))
                (group_rule D (b :: b' :: l'))); try done.
    + cbn [mbind outcome_bind]. exists np. done.
    + intros ec' node' f Hf Hn' Hok'.
      rewrite (group_fn_spec _ ec' n node' f); try done.
      * change (neighbor_predictions (set_neighbor_predictions np D)) with np.
        change (group_of_np (set_neighbor_predictions np D) np f) with (group_of_np D np f).
        unfold np. rewrite group_of_np_histogram; [done|].
        eapply Forall_impl; [apply Hrange|]. simpl. lia.
      * rewrite Forall_forall in Hal. by apply Hal.
Qed.



Lemma histogram_ok_scratch D np c n edge :
  histogram_ok D n edge → size np = K D + 1 →
  histogram_ok (set_neighbor_predictions np (set_cur_node c D)) n edge.
Proof. intros (_ & HK & HK32 & Hp) Hnp. split; [done|]. split; [done|]. split; done. Qed.

Lemma add_edges_spec D ec (n : nat) node ids : ∀ np inj,
  ec !! n = Some node → node_ok nn node → multiplier D ≠ 0 →
  size np = K D + 1 →
  Forall (λ id, 0 ≤ id ∧ Z.to_nat id ≠ n ∧
                ∃ edge fs, ec !! Z.to_nat id = Some edge ∧
                  histogram_ok D (Z.of_nat n) edge ∧
                  active_features edge = Done fs ∧ Forall (aligned D) fs) ids →
  ∃ np', fold_outcome (add_edge nn (Z.of_nat n))
           (set_neighbor_predictions np (set_cur_node (Z.of_nat n) D),
            <[n := with_features nn inj node]> ec) ids
         = Done (set_neighbor_predictions np' (set_cur_node (Z.of_nat n) D),
                 <[n := with_features nn
                         (inj ++ flat_map (edge_injection D (Z.of_nat n) ec) ids) node]> ec)
         ∧ size np' = K D + 1.
Proof.
  induction ids as [|id ids IH]; intros np inj Hn Hok Hm Hnp Hids.
  - exists np. simpl. by rewrite app_nil_r.
  - inversion Hids as [|? ? (Hid0 & Hidn & edge & fs & Hedge & Hh & Hfs & Hal) Hids']; subst.
    cbn [fold_outcome].
    set (Dj := set_neighbor_predictions np (set_cur_node (Z.of_nat n) D)).
    set (ecj := <[n := with_features nn inj node]> ec).
    destruct (add_edge_spec Dj ecj n (with_features nn inj node) id edge fs)
      as (np1 & Hstep & Hnp1); try done.
    + apply list_lookup_insert_eq. by eapply lookup_lt_Some.
    + by apply node_ok_with_features.
    + apply load_Done. split; [done|]. unfold ecj. by rewrite list_lookup_insert_ne.
    + by apply histogram_ok_scratch.
    + rewrite Hstep. cbn [mbind outcome_bind].
      unfold ecj. rewrite list_insert_insert_eq, with_features_app.
      change (set_neighbor_predictions np1 Dj)
        with (set_neighbor_predictions np1 (set_cur_node (Z.of_nat n) D)).
      destruct (IH np1 (inj ++ injected Dj (contributions Dj (Z.of_nat n) edge) fs))
        as (np2 & Hfold & Hnp2); try done.
      exists np2. split; [|done]. rewrite Hfold. do 4 f_equal.
      rewrite <- app_assoc. f_equal. cbn [flat_map]. f_equal.
      unfold edge_injection. rewrite Hedge, Hfs. done.
Qed.

Lemma set_scratch_id D :
  set_neighbor_predictions (neighbor_predictions D) (set_cur_node (cur_node D) D) = D.
Proof. by destruct D. Qed.

(** [add_edge_features] injects the features of every incident edge into
    the node and then registers the namespace. *)
Lemma add_edge_features_spec all D ec (n : nat) node ids :
  ec !! n = Some node → node_ok nn node → multiplier D ≠ 0 →
  size (neighbor_predictions D) = K D + 1 →
  adj D !! n = Some ids →
  Forall (λ id, 0 ≤ id ∧ Z.to_nat id ≠ n ∧
                ∃ edge fs, ec !! Z.to_nat id = Some edge ∧
                  histogram_ok D (Z.of_nat n) edge ∧
                  active_features edge = Done fs ∧ Forall (aligned D) fs) ids →
  ∃ np, size np = K D + 1 ∧
    add_edge_features nn all D (Z.of_nat n) ec =
    (node' ← register_namespace nn all
               (with_features nn (flat_map (edge_injection D (Z.of_nat n) ec) ids) node);
     Done (set_neighbor_predictions np (set_cur_node (Z.of_nat n) D), <[n := node']> ec)).
Proof.
  intros Hn Hok Hm Hnp Hadj Hids. unfold add_edge_features.
  assert (load ec (Z.of_nat n) = Done node) as Hload.
  { apply load_Done. rewrite Nat2Z.id. split; [lia|done]. }
  rewrite Hload. cbn [mbind outcome_bind].
  assert (load (adj (set_cur_node (Z.of_nat n) D)) (Z.of_nat n) = Done ids) as ->.
  { apply load_Done. rewrite Nat2Z.id. split; [lia|done]. }
  cbn [mbind outcome_bind].
  destruct (add_edges_spec D ec n node ids (neighbor_predictions D) []) as (np & Hfold & Hnp');
    try done.
  rewrite with_features_nil, list_insert_id in Hfold by done.
  assert (Hd : set_neighbor_predictions (neighbor_predictions D) (set_cur_node (Z.of_nat n) D)
               = set_cur_node (Z.of_nat n) D) by (by destruct D).
  rewrite Hd in Hfold. rewrite Hfold. cbn [mbind outcome_bind app].
  exists np. split; [done|].
  set (node1 := with_features nn _ node).
  assert (load (<[n := node1]> ec) (Z.of_nat n) = Done node1) as ->.
  { apply load_Done. rewrite Nat2Z.id. split; [lia|].
    apply list_lookup_insert_eq. by eapply lookup_lt_Some. }
  cbn [mbind outcome_bind]. unfold register_namespace.
  destruct (load _ nn) as [s0| | |]; cbn [mbind outcome_bind]; try done.
  destruct (load _ nn) as [a0| | |]; cbn [mbind outcome_bind]; try done.
  match goal with |- context [fold_outcome (add_pair nn) ?a ?b] =>
    destruct (fold_outcome (add_pair nn) a b) as [node2| | |] end;
    cbn [mbind outcome_bind]; try done.
  rewrite store_in_range.
  - cbn [mbind outcome_bind]. rewrite Nat2Z.id. by rewrite list_insert_insert_eq.
  - unfold size. rewrite length_insert. apply lookup_lt_Some in Hn. lia.
Qed.

Lemma add_pair_eq node i0 i1 :
  add_pair nn node (i0, i1) =
  if (i0 =? nn) || (i1 =? nn) then
    a0 ← load (atomics node) i0;
    a1 ← load (atomics node) i1;
    s0 ← load (sum_feat_sq node) i0;
    s1 ← load (sum_feat_sq node) i1;
    Done (set_total_sum_feat_sq (total_sum_feat_sq node + s0 * s1)%Qc
            (set_num_features (u64 (num_features node + u64 (size a0 * size a1))) node))
  else Done node.
Proof. done. Qed.

Lemma add_pairs_spec all node0 : ∀ node,
  pairs_ok nn all node0 → same_features node0 node →
  ∃ node', fold_outcome (add_pair nn) node (pairs all) = Done node' ∧
           same_features node0 node' ∧
           (no_pair_with nn all → node' = node).
Proof.
  unfold pairs_ok, no_pair_with. induction (pairs all) as [|[i0 i1] ps IH]; intros node Hps Hsame.
  - exists node. done.
  - inversion Hps as [|? ? Hp Hps']; subst. simpl in Hp. cbn [fold_outcome].
    destruct Hsame as (Hc & Hi & Ha & Hs).
    destruct ((i0 =? nn) || (i1 =? nn)) eqn:Hmatch.
    + destruct Hp as ((Ha0 & Hs0) & (Ha1 & Hs1)).
      { apply orb_true_iff in Hmatch as [?|?]; [left|right]; lia. }
      rewrite add_pair_eq, Hmatch. rewrite Ha, Hs.
      destruct (load_in_range (atomics node0) i0 Ha0) as (a0 & -> & _).
      destruct (load_in_range (atomics node0) i1 Ha1) as (a1 & -> & _).
      destruct (load_in_range (sum_feat_sq node0) i0 Hs0) as (s0 & -> & _).
      destruct (load_in_range (sum_feat_sq node0) i1 Hs1) as (s1 & -> & _).
      cbn [mbind outcome_bind].
      match goal with |- context [fold_outcome _ ?nd ps] =>
        destruct (IH nd) as (node' & Hf & Hsame' & _) end; [done|done|].
      exists node'. split; [done|]. split; [done|].
      intros Hno. inversion Hno as [|? ? [H0 H1] _]; subst. simpl in *.
      apply orb_true_iff in Hmatch as [?|?]; lia.
    + rewrite add_pair_eq, Hmatch. cbn [mbind outcome_bind].
      destruct (IH node) as (node' & Hf & Hsame' & Hno'); [done|done|].
      exists node'. split; [done|]. split; [done|].
      intros Hno. apply Hno'. by inversion Hno.
Qed.

Lemma register_namespace_spec all node :
  node_ok nn node → pairs_ok nn all node →
  ∃ node', register_namespace nn all node = Done node' ∧
    costs node' = costs node ∧ indices node' = indices node ++ [nn] ∧
    atomics node' = atomics node ∧ sum_feat_sq node' = sum_feat_sq node ∧
    (no_pair_with nn all →
     total_sum_feat_sq node' =
       (total_sum_feat_sq node + default (Q2Qc 0) (sum_feat_sq node !! Z.to_nat nn))%Qc ∧
     num_features node' =
       u64 (num_features node + size (default [] (atomics node !! Z.to_nat nn)))).
Proof.
  intros [Ha Hs] Hps. unfold register_namespace.
  destruct (load_in_range (sum_feat_sq node) nn Hs) as (s0 & Hls & Hs0).
  destruct (load_in_range (atomics node) nn Ha) as (a0 & Hla & Ha0).
  cbn [sum_feat_sq atomics set_indices set_total_sum_feat_sq].
  rewrite Hls. cbn [mbind outcome_bind]. rewrite Hla. cbn [mbind outcome_bind].
  match goal with |- context [fold_outcome _ ?nd _] =>
    destruct (add_pairs_spec all (set_indices (indices node ++ [nn]) node) nd)
      as (node' & Hf & (Hc & Hi & Hat & Hss) & Hno) end; [done|done|].
  exists node'. split; [done|]. split; [done|]. split; [done|]. split; [done|]. split; [done|].
  intros Hnp. rewrite (Hno Hnp). simpl. rewrite Hs0, Ha0. done.
Qed.

Lemma del_edge_features_spec ec (n : nat) node :
  ec !! n = Some node → node_ok nn node → indices node ≠ [] →
  del_edge_features nn (Z.of_nat n) ec = Done (<[n := reverted nn node]> ec).
Proof.
  intros Hn [Ha Hs] Hind. unfold del_edge_features.
  assert (load ec (Z.of_nat n) = Done node) as ->.
  { apply load_Done. rewrite Nat2Z.id. split; [lia|done]. }
  cbn [mbind outcome_bind]. rewrite bool_decide_eq_false_2 by done.
  cbn [sum_feat_sq atomics set_indices set_total_sum_feat_sq set_num_features set_atomics].
  destruct (load_in_range (sum_feat_sq node) nn Hs) as (s0 & -> & Hs0).
  destruct (load_in_range (atomics node) nn Ha) as (a0 & -> & Ha0).
  cbn [mbind outcome_bind]. rewrite !store_in_range by done.
  cbn [mbind outcome_bind]. rewrite store_in_range.
  - rewrite Nat2Z.id. unfold reverted. rewrite Hs0, Ha0. done.
  - apply lookup_lt_Some in Hn. unfold size. lia.
Qed.

(** In exact arithmetic, augmenting and reverting a node whose neighbor
    namespace is empty, when no configured pair names that namespace, gives
    the episode back; with the rounding of the machine the total sum of
    squares is given back up to rounding only
    ([Binary32Facts.augment_revert32]). *)
Lemma augment_revert_without_pairs all D ec (n : nat) node ids :
  ec !! n = Some node → node_ok nn node → multiplier D ≠ 0 →
  size (neighbor_predictions D) = K D + 1 →
  adj D !! n = Some ids →
  Forall (λ id, 0 ≤ id ∧ Z.to_nat id ≠ n ∧
                ∃ edge fs, ec !! Z.to_nat id = Some edge ∧
                  histogram_ok D (Z.of_nat n) edge ∧
                  active_features edge = Done fs ∧ Forall (aligned D) fs) ids →
  no_pair_with nn all →
  atomics node !! Z.to_nat nn = Some [] →
  sum_feat_sq node !! Z.to_nat nn = Some (Q2Qc 0) →
  0 ≤ num_features node < 2 ^ 64 →
  ∃ D' ec', add_edge_features nn all D (Z.of_nat n) ec = Done (D', ec') ∧
            del_edge_features nn (Z.of_nat n) ec' = Done ec.
Proof.
  intros Hn Hok Hm Hnp Hadj Hids Hno Hempty Hzero Hnf.
  destruct (add_edge_features_spec all D ec n node ids) as (np & _ & Hadd); try done.
  set (inj := flat_map _ ids) in Hadd.
  pose proof (with_features_shape nn inj node) as (Hc1 & Hi1 & Ha1 & Hs1 & Ht1 & Hf1).
  destruct (register_namespace_spec all (with_features nn inj node))
    as (node2 & Hreg & Hc2 & Hi2 & Ha2 & Hs2 & Hcnt).
  { by apply node_ok_with_features. }
  { unfold pairs_ok. rewrite Ha1, Hs1. eapply Forall_impl; [apply Hno|].
    intros p [? ?] [?|?]; done. }
  destruct (Hcnt Hno) as [Ht2 Hf2].
  rewrite Hreg in Hadd. cbn [mbind outcome_bind] in Hadd.
  eexists _, _. split; [exact Hadd|].
  rewrite (del_edge_features_spec _ n node2).
  - rewrite list_insert_insert_eq. f_equal.
    apply list_insert_id. rewrite Hn. f_equal.
    unfold reverted. rewrite Hc2, Hi2, Ha2, Hs2, Ht2, Hf2, Hc1, Hi1, Ht1, Hf1.
    rewrite removelast_last.
    assert (Hat : atomics (with_features nn inj node) !! Z.to_nat nn = Some inj).
    { unfold with_features. simpl. rewrite list_lookup_alter_eq, Hempty. done. }
    rewrite Hat. simpl default.
    assert (<[Z.to_nat nn := []]> (atomics (with_features nn inj node)) = atomics node) as ->.
    { unfold with_features. simpl. apply list_eq. intros j.
      destruct (decide (j = Z.to_nat nn)) as [->|Hj].
      - rewrite list_lookup_insert_eq; [done|]. rewrite length_alter. by eapply lookup_lt_Some.
      - by rewrite list_lookup_insert_ne, list_lookup_alter_ne. }
    assert (<[Z.to_nat nn := Q2Qc 0]> (sum_feat_sq (with_features nn inj node)) = sum_feat_sq node)
      as ->.
    { unfold with_features. simpl. apply list_eq. intros j.
      destruct (decide (j = Z.to_nat nn)) as [->|Hj].
      - rewrite list_lookup_insert_eq; [done|]. rewrite length_alter. by eapply lookup_lt_Some.
      - by rewrite list_lookup_insert_ne, list_lookup_alter_ne. }
    destruct (sum_feat_sq (with_features nn inj node) !! Z.to_nat nn) as [sq|]; simpl default.
    + destruct node; simpl in *. f_equal; [ring|].
      unfold u64. rewrite Zminus_mod_idemp_l.
      replace (num_features0 + size inj - size inj) with num_features0 by lia.
      symmetry. by apply Z.mod_small.
    + destruct node; simpl in *. f_equal; [ring|].
      unfold u64. rewrite Zminus_mod_idemp_l.
      replace (num_features0 + size inj - size inj) with num_features0 by lia.
      symmetry. by apply Z.mod_small.
  - apply list_lookup_insert_eq. by eapply lookup_lt_Some.
  - split; [rewrite Ha2, Ha1|rewrite Hs2, Hs1]; apply Hok.
  - rewrite Hi2. by destruct (indices (with_features nn inj node)).
Qed.
End Augment.

(** * The metric *)

Lemma IDX_small D i j :
  matrix_ok D → 0 ≤ i ≤ K D → 0 ≤ j ≤ K D →
  IDX D i j = i * (K D + 1) + j ∧ 0 ≤ i * (K D + 1) + j < size (confusion_matrix D).
Proof.
  intros (HK & H64 & Hsz) Hi Hj. unfold IDX.
  assert (0 ≤ i * (K D + 1) + j < (K D + 1) * (K D + 1)) by nia.
  rewrite (u64_small (K D + 1)) by nia.
  rewrite (u64_small (i * _)) by nia.
  rewrite u64_small by nia. split; [done|]. rewrite Hsz. done.
Qed.

Lemma load_cell D i j :
  matrix_ok D → 0 ≤ i ≤ K D → 0 ≤ j ≤ K D →
  load (confusion_matrix D) (IDX D i j) = Done (cell D i j).
Proof.
  intros Hok Hi Hj. destruct (IDX_small D i j Hok Hi Hj) as [-> Hr].
  destruct (load_in_range _ _ Hr) as (v & -> & Hv). unfold cell. by rewrite Hv.
Qed.

Lemma label_counts_spec D k :
  matrix_ok D → 1 ≤ k ≤ K D →
  label_counts D k = Done (Qc_of_Z (trueC D k), Qc_of_Z (predC D k)).
Proof.
  intros Hok Hk. unfold label_counts, trueC, predC.
  assert (Hgen : ∀ js t p, Forall (λ j, 1 ≤ j ≤ K D) js →
    fold_outcome (λ '(trueC, predC) j,
        t ← load (confusion_matrix D) (IDX D k j);
        p ← load (confusion_matrix D) (IDX D j k);
        Done ((trueC + Qc_of_Z t)%Qc, (predC + Qc_of_Z p)%Qc)) (Qc_of_Z t, Qc_of_Z p) js
    = Done (Qc_of_Z (t + Z_sum ((λ j, cell D k j) <$> js)),
            Qc_of_Z (p + Z_sum ((λ j, cell D j k) <$> js)))).
  { induction js as [|j js IH]; intros t p Hjs.
    - simpl. by rewrite !Z.add_0_r.
    - inversion Hjs as [|? ? Hj Hjs']; subst. cbn [fold_outcome].
      rewrite !load_cell by (done || lia). cbn [mbind outcome_bind].
      rewrite <- !Qc_of_Z_add. rewrite IH by done.
      rewrite !fmap_cons. unfold Z_sum. simpl foldr. do 3 f_equal; lia. }
  specialize (Hgen (seqZ 1 (K D)) 0 0). rewrite !Z.add_0_l in Hgen. apply Hgen.
  apply Forall_forall. intros j Hj%elem_of_seqZ. lia.
Qed.

Lemma macro_f_label_spec D total count k :
  matrix_ok D → 1 ≤ k ≤ K D →
  macro_f_label D (total, count) k =
  Done (if trueC D k =? 0 then (total, count)
        else ((total + f1 D k)%Qc, (count + Q2Qc 1)%Qc)).
Proof.
  intros Hok Hk. unfold macro_f_label.
  rewrite label_counts_spec by done. cbn [mbind outcome_bind].
  rewrite Qc_is_zero_of_Z. destruct (trueC D k =? 0); [done|].
  rewrite load_cell by (done || lia). cbn [mbind outcome_bind].
  change (Q2Qc 0) with (Qc_of_Z 0) at 1. rewrite Qc_ltb_of_Z. unfold f1.
  destruct (0 <? cell D k k); [done|]. do 3 f_equal. ring.
Qed.

Lemma macro_f_fold D ks : ∀ total count,
  matrix_ok D → Forall (λ k, 1 ≤ k ≤ K D) ks →
  fold_outcome (macro_f_label D) (total, count) ks =
  Done ((total + Qc_sum (f1 D <$> filter (λ k, trueC D k ≠ 0%Z) ks))%Qc,
        (count + Qc_of_Z (size (filter (λ k, trueC D k ≠ 0%Z) ks)))%Qc).
Proof.
  induction ks as [|k ks IH]; intros total count Hok Hks.
  - cbn [fold_outcome]. rewrite filter_nil.
    change (Qc_sum (f1 D <$> [])) with (Q2Qc 0). change (Qc_of_Z (size [])) with (Q2Qc 0).
    f_equal. f_equal; ring.
  - inversion Hks as [|? ? Hk Hks']; subst. cbn [fold_outcome].
    rewrite macro_f_label_spec by done. cbn [mbind outcome_bind].
    rewrite filter_cons. destruct (trueC D k =? 0) eqn:Ht.
    + apply Z.eqb_eq in Ht. rewrite decide_False by lia. by apply IH.
    + apply Z.eqb_neq in Ht. rewrite decide_True by done. rewrite IH by done.
      rewrite fmap_cons, Qc_sum_cons. unfold size. simpl length.
      rewrite Nat2Z.inj_succ, <- Z.add_1_l, Qc_of_Z_add. change (Qc_of_Z 1) with (Q2Qc 1).
      f_equal. f_equal; ring.
Qed.

Lemma macro_f_refines D : matrix_ok D → macro_f D = Done (macro_f_spec D).
Proof.
  intros Hok. unfold macro_f, macro_f_spec, counted_labels.
  rewrite macro_f_fold; [|done|].
  2:{ apply Forall_forall. intros k Hk%elem_of_seqZ. lia. }
  cbn [mbind outcome_bind]. f_equal.
  set (ks := filter _ _).
  assert ((Q2Qc 0 + Qc_of_Z (size ks))%Qc = Qc_of_Z (size ks)) as -> by ring.
  assert ((Q2Qc 0 + Qc_sum (f1 D <$> ks))%Qc = Qc_sum (f1 D <$> ks)) as -> by ring.
  rewrite Qc_is_zero_of_Z. clearbody ks. destruct ks as [|k ks']; [done|].
  rewrite (proj2 (Z.eqb_neq _ 0)); [done|]. unfold size. simpl length. lia.
Qed.

(** * The inference loop *)

Lemma frame_refl D : frame D D.
Proof. exists (pred D), (neighbor_predictions D), (cur_node D). by destruct D. Qed.

Lemma frame_trans D1 D2 D3 : frame D1 D2 → frame D2 D3 → frame D1 D3.
Proof. intros (p & np & c & ->) (p' & np' & c' & ->). by exists p', np', c'. Qed.

Lemma frame_fields D D' :
  frame D D' →
  bfs D' = bfs D ∧ N D' = N D ∧ K D' = K D ∧ adj D' = adj D ∧
  separate_learners D' = separate_learners D ∧ num_loops D' = num_loops D ∧
  use_structure D' = use_structure D ∧ multiplier D' = multiplier D ∧
  mask D' = mask D ∧ true_counts D' = true_counts D ∧
  confusion_matrix D' = confusion_matrix D.
Proof. intros (p & np & c & ->). done. Qed.

Lemma for_n_id_up {St} (body : St → Z → outcome St) (k : nat) : ∀ fuel i s,
  (k < fuel)%nat →
  for_n_id fuel i (i + Z.of_nat k) 1 body s = fold_outcome body s (seqZ i (Z.of_nat k)).
Proof.
  induction k as [|k IH]; intros fuel i s Hf; (destruct fuel as [|fuel]; [lia|]).
  - simpl. rewrite Z.add_0_r, Z.eqb_refl. done.
  - cbn [for_n_id]. rewrite (proj2 (Z.eqb_neq _ _)) by lia.
    rewrite seqZ_cons by lia. cbn [fold_outcome].
    destruct (body s i) as [s'| | |]; cbn [mbind outcome_bind]; try done.
    replace (i + Z.of_nat (S k)) with ((i + 1) + Z.of_nat k) by lia.
    rewrite IH by lia. do 2 f_equal; lia.
Qed.

Lemma for_n_id_down {St} (body : St → Z → outcome St) (k : nat) : ∀ fuel s,
  (k < fuel)%nat →
  for_n_id fuel (Z.of_nat k - 1) (-1) (-1) body s
  = fold_outcome body s (reverse (seqZ 0 (Z.of_nat k))).
Proof.
  induction k as [|k IH]; intros fuel s Hf; (destruct fuel as [|fuel]; [lia|]).
  - simpl. done.
  - cbn [for_n_id]. rewrite (proj2 (Z.eqb_neq _ _)) by lia.
    rewrite seqZ_S, reverse_snoc. cbn [fold_outcome]. rewrite Z.add_0_l.
    replace (Z.of_nat (S k) - 1) with (Z.of_nat k) by lia.
    destruct (body s (Z.of_nat k)) as [s'| | |]; cbn [mbind outcome_bind]; try done.
    replace (Z.of_nat k + -1) with (Z.of_nat k - 1) by lia.
    by rewrite IH by lia.
Qed.

Section RunProof.
Variable nn : Z.
Variable host : Type.
Variable predictNeedsExample : host → bool.
Variable predict : host → request → Z * host.
Variable all : vw.

(** One pass is a fold of [predict_node] over the positions of the order. *)
Lemma run_pass_fold (st : run_state host) loop :
  0 ≤ N st.1.1.1 < 2 ^ 31 →
  run_pass nn host predictNeedsExample predict all st loop =
  fold_outcome (predict_node nn host predictNeedsExample predict all loop) st
    (if loop mod 2 =? 1 then reverse (seqZ 0 (N st.1.1.1)) else seqZ 0 (N st.1.1.1)).
Proof.
  intros HN. unfold run_pass. set (Nn := N st.1.1.1) in *.
  destruct (loop mod 2 =? 1).
  - assert (to_int (u32 (Nn - 1)) = Nn - 1) as ->.
    { unfold to_int, u32. destruct (decide (Nn = 0)) as [->|?]; [done|].
      rewrite Z.mod_small by lia. rewrite (proj2 (Z.ltb_lt _ _)) by lia. done. }
    rewrite <- (Z2Nat.id Nn) by lia. apply for_n_id_down. lia.
  - assert (to_int Nn = Nn) as ->.
    { unfold to_int. rewrite (proj2 (Z.ltb_lt _ _)) by lia. done. }
    rewrite <- (Z2Nat.id Nn) at 2 3 by lia.
    replace (Z.of_nat (Z.to_nat Nn)) with (0 + Z.of_nat (Z.to_nat Nn)) at 1 by lia.
    apply for_n_id_up. lia.
Qed.

Lemma run_ok_node D ec (n : nat) :
  run_ok nn all D ec → Z.of_nat n < N D →
  ∃ node, ec !! n = Some node ∧ node_ok nn node ∧ pairs_ok nn all node ∧
          Forall (λ c, 0 ≤ class_index c < size (true_counts D)) (take 1 (costs node)).
Proof.
  intros Hok Hn. pose proof (ok_size _ _ _ _ Hok) as Hsz. unfold size in Hsz.
  destruct (lookup_lt_is_Some_2 ec n) as [node Hnode]; [lia|].
  exists node. split; [done|].
  pose proof (ok_nodes _ _ _ _ Hok) as Hnodes. rewrite Forall_lookup in Hnodes.
  apply (Hnodes n). rewrite lookup_take_lt by lia. done.
Qed.

Lemma run_ok_update D ec (n : nat) node node' p np c :
  run_ok nn all D ec → Z.of_nat n < N D → ec !! n = Some node → same_shape node node' →
  size p = N D → Forall (λ v, 1 ≤ v ≤ K D + 1) p → size np = K D + 1 →
  run_ok nn all (set_pred p (set_neighbor_predictions np (set_cur_node c D))) (<[n := node']> ec).
Proof.
  intros Hok Hn Hnode (Hc & Ha & Hs) Hp Hpr Hnp.
  destruct Hok as [HN HK Hsz Hbfs Hadj Hedges Hpred Hnp0 Htc Hm Hnodes].
  constructor; simpl; try done.
  - unfold size. by rewrite length_insert.
  - eapply Forall_impl; [apply Hedges|]. intros ids [Hdeg Hids]. split.
    { unfold size in *. by rewrite length_insert. }
    eapply Forall_impl; [apply Hids|]. intros id (Hid & edge & fs & He & Hcs & Hfs & Hal).
    split; [done|]. exists edge, fs. split; [|done].
    rewrite list_lookup_insert_ne by lia. done.
  - rewrite take_insert_lt by lia. apply Forall_insert; [done|].
    rewrite Forall_lookup in Hnodes. specialize (Hnodes n node).
    rewrite lookup_take_lt in Hnodes by lia. destruct (Hnodes Hnode) as ([? ?] & Hps & Hl).
    split; [split; lia|]. split.
    + unfold pairs_ok in *. by rewrite Ha, Hs.
    + by rewrite Hc.
Qed.

Lemma run_ok_histogram D ec (n : nat) edge :
  run_ok nn all D ec → Forall (λ c, 1 ≤ class_index c ≤ N D) (costs edge) →
  histogram_ok D (Z.of_nat n) edge.
Proof.
  intros Hok Hcs. pose proof (ok_K _ _ _ _ Hok) as [HK HK32].
  pose proof (ok_pred _ _ _ _ Hok) as [Hpsz Hpr]. pose proof (ok_N _ _ _ _ Hok) as HN.
  split; [apply Hok|]. split; [done|]. split; [done|]. intros _.
  eapply Forall_impl; [apply Hcs|]. intros c Hc _. simpl in Hc.
  rewrite u32_small by lia.
  destruct (lookup_lt_is_Some_2 (pred D) (Z.to_nat (class_index c - 1))) as [p Hp].
  { unfold size in Hpsz. lia. }
  exists p. split; [done|]. rewrite Forall_lookup in Hpr. by apply (Hpr _ _ Hp).
Qed.

Lemma augment_total D ec (n : nat) node :
  run_ok nn all D ec → Z.of_nat n < N D → ec !! n = Some node →
  ∃ np node', add_edge_features nn all D (Z.of_nat n) ec
              = Done (set_neighbor_predictions np (set_cur_node (Z.of_nat n) D),
                      <[n := node']> ec)
    ∧ size np = K D + 1 ∧ same_shape node node' ∧ indices node' ≠ [].
Proof.
  intros Hok Hn Hnode.
  destruct (run_ok_node D ec n Hok Hn) as (node0 & Hnode0 & Hnok & Hps & _).
  assert (node0 = node) as -> by congruence.
  destruct (lookup_lt_is_Some_2 (adj D) n) as [ids Hids].
  { pose proof (ok_adj _ _ _ _ Hok) as Ha. unfold size in Ha. lia. }
  destruct (add_edge_features_spec nn all D ec n node ids) as (np & Hnp & Hadd); try done;
    try apply Hok.
  { pose proof (ok_edges _ _ _ _ Hok) as He. rewrite Forall_lookup in He.
    destruct (He _ _ Hids) as [_ He']. eapply Forall_impl; [apply He'|].
    intros id (Hid & edge & fs & Hedge & Hcs & Hfs & Hal). simpl.
    pose proof (ok_N _ _ _ _ Hok). split; [lia|]. split; [lia|].
    exists edge, fs. split; [done|]. split; [by eapply run_ok_histogram|done]. }
  set (inj := flat_map _ ids) in Hadd.
  pose proof (with_features_shape nn inj node) as (Hc1 & Hi1 & Ha1 & Hs1 & _).
  destruct (register_namespace_spec nn all (with_features nn inj node))
    as (node2 & Hreg & Hc2 & Hi2 & Ha2 & Hs2 & _).
  { by apply node_ok_with_features. }
  { unfold pairs_ok. by rewrite Ha1, Hs1. }
  rewrite Hreg in Hadd. exists np, node2. split; [done|]. split; [done|].
  split; [split; [congruence|split; congruence]|].
  rewrite Hi2. by destruct (indices (with_features nn inj node)).
Qed.

Lemma read_priors_total D k :
  0 ≤ K D < size (true_counts D) → 0 ≤ k < size (true_counts D) →
  read_priors D k = Done ().
Proof.
  intros HK Hk. unfold read_priors.
  destruct (fold_outcome_total (λ _ : (), True)
    (λ (_ : ()) k2, _ ← load (true_counts D) k2; Done ()) (seqZ 1 (K D)) () I)
    as ([] & -> & _).
  { intros [] k2 _ Hk2%elem_of_seqZ.
    destruct (load_in_range (true_counts D) k2) as (v & -> & _); [lia|]. by exists (). }
  cbn [mbind outcome_bind].
  destruct (load_in_range (true_counts D) k Hk) as (v & -> & _). done.
Qed.

Lemma add_conditioning_total D ec (n : nat) ids :
  adj D !! n = Some ids → size ids ≤ size ec →
  ∃ conds, add_conditioning D (Z.of_nat n) ec = Done conds.
Proof.
  intros Hids Hdeg. unfold add_conditioning.
  assert (load (adj D) (Z.of_nat n) = Done ids) as ->.
  { apply load_Done. rewrite Nat2Z.id. split; [lia|done]. }
  cbn [mbind outcome_bind].
  destruct (fold_outcome_total (λ _ : list (Z * ascii), True)
    (λ acc i, e ← load ec i; Done (acc ++ add_conditions_of (Z.of_nat n) e))
    (seqZ 0 (size ids)) [] I) as (conds & -> & _); [|by exists conds].
  intros acc i _ Hi%elem_of_seqZ.
  destruct (load_in_range ec i) as (e & -> & _); [lia|]. by eexists.
Qed.

Lemma node_at_frame D D' n_id : frame D D' → node_at D' n_id = node_at D n_id.
Proof. intros (p & np & c & ->). done. Qed.

Lemma pass_learner_frame D D' loop : frame D D' → pass_learner D' loop = pass_learner D loop.
Proof. intros (p & np & c & ->). done. Qed.

Lemma bfs_node D ec n_id :
  run_ok nn all D ec → 0 ≤ n_id < N D →
  ∃ n : nat, bfs D !! Z.to_nat n_id = Some (Z.of_nat n) ∧ Z.of_nat n < N D.
Proof.
  intros Hok Hi. pose proof (ok_bfs _ _ _ _ Hok) as Hperm.
  destruct (lookup_lt_is_Some_2 (bfs D) (Z.to_nat n_id)) as [m Hm].
  { rewrite Hperm, length_seqZ. lia. }
  assert (m ∈ seqZ 0 (N D)) as Hin%elem_of_seqZ.
  { rewrite <- Hperm. by eapply list_elem_of_lookup_2. }
  exists (Z.to_nat m). rewrite Z2Nat.id by lia. split; [done|lia].
Qed.

(** One prediction: the request made and the state it leaves. *)
Lemma predict_node_spec loop D ec h trace n_id :
  run_ok nn all D ec → host_ok predict (K D) → 0 ≤ n_id < N D →
  ∃ D' ec' h' P,
    predict_node nn host predictNeedsExample predict all loop (D, ec, h, trace) n_id
    = Done (D', ec', h', trace ++ [P]) ∧
    run_ok nn all D' ec' ∧ frame D D' ∧
    my_tag P = node_at D n_id + 1 ∧ learner_id P = pass_learner D loop.
Proof.
  intros Hok Hhost Hi.
  destruct (bfs_node D ec n_id Hok Hi) as (n & Hbfs & Hn).
  destruct (run_ok_node D ec n Hok Hn) as (node & Hnode & Hnok & Hps & Hlab).
  pose proof (ok_N _ _ _ _ Hok) as HN. pose proof (ok_K _ _ _ _ Hok) as [HK HK32].
  pose proof (ok_pred _ _ _ _ Hok) as [Hpsz Hpr].
  unfold predict_node.
  assert (load (bfs D) n_id = Done (Z.of_nat n)) as -> by (apply load_Done; split; [lia|done]).
  cbn [mbind outcome_bind].
  assert (load ec (Z.of_nat n) = Done node) as ->.
  { apply load_Done. rewrite Nat2Z.id. split; [lia|done]. }
  cbn [mbind outcome_bind].
  set (k := match costs node with c :: _ => class_index c | [] => 0 end).
  assert (Hk : (0 <? k) = true → 0 ≤ k < size (true_counts D)).
  { intros Hk0. unfold k in *. destruct (costs node) as [|c cs]; [done|].
    simpl in Hlab. by inversion Hlab. }
  (* the state after the optional augmentation *)
  assert (∃ np c node1,
    (if predictNeedsExample h then add_edge_features nn all D (Z.of_nat n) ec else Done (D, ec))
    = Done (set_neighbor_predictions np (set_cur_node c D), <[n := node1]> ec)
    ∧ size np = K D + 1 ∧ same_shape node node1
    ∧ (predictNeedsExample h = true → indices node1 ≠ []))
    as (np & c & node1 & -> & Hnp & Hshape & Hind).
  { destruct (predictNeedsExample h).
    - destruct (augment_total D ec n node Hok Hn Hnode) as (np & node1 & -> & ? & ? & ?).
      by exists np, (Z.of_nat n), node1.
    - exists (neighbor_predictions D), (cur_node D), node.
      rewrite list_insert_id by done. split; [by destruct D|].
      split; [apply Hok|]. split; [done|]. discriminate. }
  cbn [mbind outcome_bind].
  set (D1 := set_neighbor_predictions np (set_cur_node c D)).
  set (ec1 := <[n := node1]> ec).
  assert (Hok1 : run_ok nn all D1 ec1).
  { pose proof (run_ok_update D ec n node node1 (pred D) np c Hok Hn Hnode Hshape Hpsz Hpr Hnp)
      as Hu. by destruct D. }
  assert (Hnode1 : ec1 !! n = Some node1).
  { apply list_lookup_insert_eq. by eapply lookup_lt_Some. }
  assert (load ec1 (Z.of_nat n) = Done node1) as ->.
  { apply load_Done. rewrite Nat2Z.id. split; [lia|done]. }
  cbn [mbind outcome_bind].
  assert ((if 0 <? k then read_priors D1 k else Done ()) = Done ()) as ->.
  { destruct (0 <? k) eqn:Hk0; [|done]. apply read_priors_total.
    - pose proof (ok_tc _ _ _ _ Hok). simpl. lia.
    - by apply Hk. }
  cbn [mbind outcome_bind].
  destruct (lookup_lt_is_Some_2 (adj D) n) as [ids Hids].
  { pose proof (ok_adj _ _ _ _ Hok) as Ha. unfold size in Ha. lia. }
  destruct (add_conditioning_total D1 ec1 n ids) as (conds & ->); [done|..].
  { pose proof (ok_edges _ _ _ _ Hok1) as He. rewrite Forall_lookup in He.
    by destruct (He n ids Hids). }
  cbn [mbind outcome_bind].
  set (P := {| my_tag := u32 (Z.of_nat n + 1); input := node1;
               learner_id := if separate_learners D1 then Some loop else None;
               oracle := if 0 <? k then Some k else None; condition_on := conds |}).
  pose proof (Hhost h P) as Hp. destruct (predict h P) as [p h']. simpl in Hp.
  rewrite store_in_range by (simpl; lia). cbn [mbind outcome_bind].
  set (pred' := <[Z.to_nat (Z.of_nat n) := p]> (pred D1)).
  (* the state after the optional reversal *)
  assert (∃ node2,
    (if predictNeedsExample h then del_edge_features nn (Z.of_nat n) ec1 else Done ec1)
    = Done (<[n := node2]> ec) ∧ same_shape node node2) as (node2 & -> & Hshape2).
  { destruct (predictNeedsExample h).
    - rewrite (del_edge_features_spec nn ec1 n node1); try done.
      + exists (reverted nn node1). unfold ec1. rewrite list_insert_insert_eq.
        split; [done|]. destruct Hshape as (Hc & Ha & Hs).
        unfold same_shape, reverted, size in *. simpl. rewrite !length_insert. done.
      + destruct Hshape as (Hc & Ha & Hs). unfold node_ok in *. by rewrite Ha, Hs.
      + by apply Hind.
    - by exists node1. }
  cbn [mbind outcome_bind].
  exists (set_pred pred' D1), (<[n := node2]> ec), h', P.
  split; [done|]. split; [|split; [|split]].
  - apply (run_ok_update D ec n node node2 pred' np c); try done.
    + unfold pred', size. rewrite length_insert. apply Hpsz.
    + unfold pred'. apply Forall_insert; [done|]. lia.
  - by exists pred', np, c.
  - simpl. unfold node_at. rewrite Hbfs. simpl. apply u32_small. lia.
  - done.
Qed.

Lemma pass_fold_spec loop n_ids : ∀ D ec h trace,
  run_ok nn all D ec → host_ok predict (K D) → Forall (λ i, 0 ≤ i < N D) n_ids →
  ∃ D' ec' h' Ps,
    fold_outcome (predict_node nn host predictNeedsExample predict all loop)
      (D, ec, h, trace) n_ids
    = Done (D', ec', h', trace ++ Ps) ∧
    run_ok nn all D' ec' ∧ frame D D' ∧
    my_tag <$> Ps = (λ i, node_at D i + 1) <$> n_ids ∧
    Forall (λ P, learner_id P = pass_learner D loop) Ps.
Proof.
  induction n_ids as [|i n_ids IH]; intros D ec h trace Hok Hhost Hids.
  - exists D, ec, h, []. rewrite app_nil_r. split; [done|]. split; [done|].
    split; [apply frame_refl|]. split; [done|constructor].
  - inversion Hids as [|? ? Hi Hids']; subst. cbn [fold_outcome].
    destruct (predict_node_spec loop D ec h trace i Hok Hhost Hi)
      as (D1 & ec1 & h1 & P & -> & Hok1 & Hfr1 & Htag & Hlid).
    cbn [mbind outcome_bind].
    pose proof (frame_fields D D1 Hfr1) as (Hb & HNe & HKe & _).
    destruct (IH D1 ec1 h1 (trace ++ [P])) as (D2 & ec2 & h2 & Ps & -> & Hok2 & Hfr2 & Htags & Hlids).
    { done. }
    { by rewrite HKe. }
    { by rewrite HNe. }
    exists D2, ec2, h2, (P :: Ps). rewrite <- app_assoc. split; [done|]. split; [done|].
    split; [by eapply frame_trans|]. split.
    + rewrite !fmap_cons, Htag, Htags. f_equal. apply list_fmap_ext.
      intros ? j _. by rewrite (node_at_frame D D1).
    + constructor; [done|]. eapply Forall_impl; [apply Hlids|].
      intros Q HQ. simpl in HQ. by rewrite (pass_learner_frame D D1) in HQ.
Qed.

Lemma node_at_seqZ D :
  (λ i, node_at D i + 1) <$> seqZ 0 (size (bfs D)) = (λ n, n + 1) <$> bfs D.
Proof.
  apply list_eq. intros j. rewrite !list_lookup_fmap.
  destruct (decide (j < length (bfs D))%nat) as [Hj|Hj].
  - rewrite lookup_seqZ_lt by (unfold size; lia). simpl.
    unfold node_at. rewrite Z.add_0_l, Nat2Z.id.
    destruct (lookup_lt_is_Some_2 (bfs D) j Hj) as [m ->]. done.
  - rewrite lookup_seqZ_ge by (unfold size; lia).
    by rewrite lookup_ge_None_2 by lia.
Qed.

Lemma run_pass_spec loop D ec h trace :
  run_ok nn all D ec → host_ok predict (K D) →
  ∃ D' ec' h' Ps,
    run_pass nn host predictNeedsExample predict all (D, ec, h, trace) loop
    = Done (D', ec', h', trace ++ Ps) ∧
    run_ok nn all D' ec' ∧ frame D D' ∧
    my_tag <$> Ps = (λ n, n + 1) <$> pass_order D loop ∧
    Forall (λ P, learner_id P = pass_learner D loop) Ps.
Proof.
  intros Hok Hhost. pose proof (ok_N _ _ _ _ Hok) as HN.
  rewrite run_pass_fold by done. simpl fst.
  assert (Hlen : size (bfs D) = N D).
  { unfold size. rewrite (ok_bfs _ _ _ _ Hok), length_seqZ. lia. }
  destruct (pass_fold_spec loop
    (if loop mod 2 =? 1 then reverse (seqZ 0 (N D)) else seqZ 0 (N D)) D ec h trace Hok Hhost)
    as (D' & ec' & h' & Ps & Hf & Hok' & Hfr & Htags & Hlids).
  { apply Forall_forall. intros i Hi.
    destruct (loop mod 2 =? 1); [rewrite elem_of_reverse in Hi|];
      apply elem_of_seqZ in Hi; lia. }
  exists D', ec', h', Ps. split; [done|]. split; [done|]. split; [done|]. split; [|done].
  rewrite Htags. unfold pass_order. rewrite <- Hlen. destruct (loop mod 2 =? 1).
  - by rewrite !fmap_reverse, node_at_seqZ.
  - apply node_at_seqZ.
Qed.

Lemma passes_fold_spec loops : ∀ D ec h trace,
  run_ok nn all D ec → host_ok predict (K D) →
  ∃ D' ec' h' Ps,
    fold_outcome (run_pass nn host predictNeedsExample predict all) (D, ec, h, trace) loops
    = Done (D', ec', h', trace ++ Ps) ∧
    run_ok nn all D' ec' ∧ frame D D' ∧
    my_tag <$> Ps = flat_map (λ loop, (λ n, n + 1) <$> pass_order D loop) loops ∧
    learner_id <$> Ps
      = flat_map (λ loop, replicate (length (bfs D)) (pass_learner D loop)) loops.
Proof.
  induction loops as [|loop loops IH]; intros D ec h trace Hok Hhost.
  - exists D, ec, h, []. rewrite app_nil_r. split; [done|]. split; [done|].
    split; [apply frame_refl|]. done.
  - cbn [fold_outcome].
    destruct (run_pass_spec loop D ec h trace Hok Hhost)
      as (D1 & ec1 & h1 & Ps1 & -> & Hok1 & Hfr1 & Htag1 & Hlid1).
    cbn [mbind outcome_bind].
    pose proof (frame_fields D D1 Hfr1) as (Hb & HNe & HKe & _).
    destruct (IH D1 ec1 h1 (trace ++ Ps1)) as (D2 & ec2 & h2 & Ps2 & -> & Hok2 & Hfr2 & Htag2 & Hlid2).
    { done. }
    { by rewrite HKe. }
    exists D2, ec2, h2, (Ps1 ++ Ps2). rewrite <- app_assoc. split; [done|]. split; [done|].
    split; [by eapply frame_trans|]. split.
    + rewrite fmap_app, Htag1, Htag2. cbn [flat_map]. f_equal.
      apply flat_map_ext_elem. intros l _. unfold pass_order. by rewrite Hb.
    + rewrite fmap_app, Hlid2. cbn [flat_map]. f_equal.
      * assert (Hl : length Ps1 = length (bfs D)).
        { rewrite <- (length_fmap my_tag), Htag1, length_fmap. unfold pass_order.
          destruct (loop mod 2 =? 1); [apply length_reverse|done]. }
        rewrite <- Hl. clear -Hlid1. induction Hlid1 as [|P Ps HP _ IHP]; [done|].
        simpl. rewrite HP. by f_equal.
      * apply flat_map_ext_elem. intros l _. rewrite Hb.
        by rewrite (pass_learner_frame D D1).
Qed.

(** The passes of [run] on a well-formed task. *)
Lemma run_passes_spec D ec h :
  run_ok nn all D ec → host_ok predict (K D) →
  size (confusion_matrix D) = (K D + 1) * (K D + 1) →
  ∃ cm, size cm = (K D + 1) * (K D + 1) ∧
    let D0 := set_pred (replicate (Z.to_nat (N D)) (K D + 1)) (set_confusion_matrix cm D) in
    run_passes nn host predictNeedsExample predict all D ec h
    = fold_outcome (run_pass nn host predictNeedsExample predict all) (D0, ec, h, [])
        (seqZ 0 (num_loops D)) ∧
    ∃ D' ec' h' trace,
      run_passes nn host predictNeedsExample predict all D ec h = Done (D', ec', h', trace) ∧
      run_ok nn all D' ec' ∧ frame D0 D' ∧
      my_tag <$> trace
        = flat_map (λ loop, (λ n, n + 1) <$> pass_order D loop) (seqZ 0 (num_loops D)) ∧
      learner_id <$> trace
        = flat_map (λ loop, replicate (length (bfs D)) (pass_learner D loop))
            (seqZ 0 (num_loops D)).
Proof.
  intros Hok Hhost Hcm. pose proof (ok_N _ _ _ _ Hok) as HN.
  pose proof (ok_K _ _ _ _ Hok) as [HK HK32]. pose proof (ok_pred _ _ _ _ Hok) as [Hpsz Hpr].
  unfold run_passes.
  rewrite !(u64_small (K D + 1)) by lia. rewrite u64_small by nia.
  destruct (fill_spec 0 (Z.to_nat ((K D + 1) * (K D + 1))) 0 (confusion_matrix D))
    as (cm & Hfill & Hcmlen & _); [unfold size in Hcm; lia|].
  change (Z.of_nat 0) with 0 in Hfill. rewrite Z2Nat.id in Hfill by nia.
  rewrite Hfill. cbn [mbind outcome_bind].
  unfold reset_pred. cbn [pred K N set_confusion_matrix].
  rewrite u64_small by lia.
  destruct (fill_spec (K D + 1) (Z.to_nat (N D)) 0 (pred D))
    as (pr & Hreset & Hprlen & Hprl); [unfold size in Hpsz; lia|].
  change (Z.of_nat 0) with 0 in Hreset. rewrite Z2Nat.id in Hreset by lia.
  rewrite Hreset. cbn [mbind outcome_bind].
  assert (pr = replicate (Z.to_nat (N D)) (K D + 1)) as ->.
  { apply list_eq. intros j. rewrite Hprl. case_decide as Hj.
    - symmetry. apply lookup_replicate. split; [done|lia].
    - rewrite !lookup_ge_None_2; [done|rewrite length_replicate; lia|unfold size in Hpsz; lia]. }
  exists cm. split; [unfold size; rewrite Hcmlen; apply Hcm|].
  cbn zeta. split; [done|].
  set (D0 := set_pred _ (set_confusion_matrix cm D)).
  assert (Hok0 : run_ok nn all D0 ec).
  { destruct Hok. constructor; simpl; try done. split.
    - unfold size. rewrite length_replicate. lia.
    - apply Forall_replicate. lia. }
  destruct (passes_fold_spec (seqZ 0 (num_loops D)) D0 ec h [] Hok0 Hhost)
    as (D' & ec' & h' & trace & Hf & Hok' & Hfr & Htags & Hlids).
  exists D', ec', h', trace. done.
Qed.
End RunProof.

(** * Integers in binary32 *)

Lemma digits2_pos_lower m : 2 ^ (Z.pos (digits2_pos m) - 1) ≤ Z.pos m.
Proof.
  induction m as [m IH|m IH|]; simpl digits2_pos; [| |done].
  - rewrite Pos2Z.inj_succ. replace (Z.succ (Z.pos (digits2_pos m)) - 1)
      with (Z.succ (Z.pos (digits2_pos m) - 1)) by lia.
    rewrite Z.pow_succ_r by lia. lia.
  - rewrite Pos2Z.inj_succ. replace (Z.succ (Z.pos (digits2_pos m)) - 1)
      with (Z.succ (Z.pos (digits2_pos m) - 1)) by lia.
    rewrite Z.pow_succ_r by lia. lia.
Qed.

Lemma digits2_pos_iter m p :
  digits2_pos (Pos.iter xO m p) = (digits2_pos m + p)%positive.
Proof.
  induction p as [|p IH] using Pos.peano_ind.
  - simpl. lia.
  - rewrite Pos.iter_succ. simpl. rewrite IH. lia.
Qed.

Lemma Zpos_iter m p : Z.pos (Pos.iter xO m p) = Z.pos m * 2 ^ Z.pos p.
Proof.
  induction p as [|p IH] using Pos.peano_ind.
  - simpl. lia.
  - rewrite Pos.iter_succ, Pos2Z.inj_xO, IH, Pos2Z.inj_succ, Z.pow_succ_r by lia. lia.
Qed.

(** A mantissa of 24 bits with an exponent in range is a binary32 number
    as it stands. *)
Lemma binary_round_aux_exact m e :
  Z.pos (digits2_pos m) = 24 → -149 ≤ e ≤ 104 →
  binary_round_aux 24 128 false (Z.pos m) e loc_Exact = S754_finite false m e.
Proof.
  intros Hd He. unfold binary_round_aux.
  assert (Hs : ∀ l, shr_fexp 24 128 (Z.pos m) e l = (shr_record_of_loc (Z.pos m) l, e)).
  { intros l. unfold shr_fexp, Zdigits2, fexp, emin. rewrite Hd.
    replace (Z.max (24 + e - 24) (3 - 128 - 24) - e) with 0 by lia. reflexivity. }
  rewrite Hs. simpl. rewrite Hs. simpl.
  rewrite (proj2 (Z.leb_le e (128 - 24))) by lia. done.
Qed.

(** [(float)] of an integer below [2^24] is exact: the conversion back
    gives the integer. *)
Lemma to_size_t_of_Z z :
  0 ≤ z < 2 ^ 24 → Binary32.to_size_t (binary32_of_Z z) = Done z.
Proof.
  intros Hz. unfold binary32_of_Z, binary_normalize.
  destruct z as [|m|m]; [done| |lia].
  pose proof (digits2_pos_lower m) as Hlow.
  assert (Hd : Z.pos (digits2_pos m) ≤ 24).
  { destruct (decide (Z.pos (digits2_pos m) ≤ 24)) as [|Hgt]; [done|].
    assert (2 ^ 24 ≤ 2 ^ (Z.pos (digits2_pos m) - 1)) by (apply Z.pow_le_mono_r; lia). lia. }
  unfold binary_round, shl_align, fexp, emin.
  replace (Z.max (Z.pos (digits2_pos m) + 0 - 24) (3 - 128 - 24))
    with (Z.pos (digits2_pos m) - 24) by lia.
  destruct (Z.pos (digits2_pos m) - 24 - 0) as [|p|p] eqn:Hp; [|lia|].
  - rewrite binary_round_aux_exact by lia. unfold Binary32.to_size_t. simpl.
    rewrite Z.mul_1_r. rewrite (proj2 (Z.ltb_lt _ _)) by lia. done.
  - rewrite binary_round_aux_exact.
    + unfold Binary32.to_size_t.
      rewrite (proj2 (Z.leb_gt _ _)) by lia.
      replace (- (Z.pos (digits2_pos m) - 24)) with (Z.pos p) by lia.
      rewrite Zpos_iter, Z.div_mul by lia.
      rewrite (proj2 (Z.ltb_lt _ _)) by lia. done.
    + rewrite digits2_pos_iter. lia.
    + lia.
Qed.

(** * The augmentation in binary32 *)

Module Binary32Facts.
Import Binary32.

Lemma with_features32_nil nn node : with_features nn [] node = node.
Proof.
  unfold with_features. simpl.
  rewrite list_alter_id by done.
  rewrite list_alter_id by (intros; by rewrite app_nil_r).
  by destruct node.
Qed.

Lemma with_features32_app nn i1 i2 node :
  with_features nn i2 (with_features nn i1 node) = with_features nn (i1 ++ i2) node.
Proof.
  unfold with_features, set_sum_feat_sq, set_atomics. simpl. f_equal.
  - rewrite list_alter_alter_eq. apply list_alter_ext; [|done].
    intros a ? . simpl. by rewrite app_assoc.
  - rewrite list_alter_alter_eq. apply list_alter_ext; [|done].
    intros a ?. simpl. by rewrite foldl_app.
Qed.

Lemma node_ok32_with_features nn inj node :
  node_ok nn node → node_ok nn (with_features nn inj node).
Proof. unfold node_ok, with_features, size. simpl. by rewrite !length_alter. Qed.

Section Augment32.
Variable nn : Z.
Variable char_is_signed : bool.

Lemma push_feature32_spec f node :
  node_ok nn node → push_feature nn f node = Done (with_features nn [f] node).
Proof.
  intros [Ha Hs]. unfold push_feature.
  destruct (load_in_range (atomics node) nn Ha) as (a & -> & Hal). simpl.
  rewrite store_in_range by done. simpl.
  destruct (load_in_range (sum_feat_sq node) nn Hs) as (s & -> & Hsl). simpl.
  rewrite store_in_range by done. simpl.
  unfold with_features. simpl. do 2 f_equal.
  - symmetry. apply list_eq. intros j. destruct (decide (j = Z.to_nat nn)) as [->|Hj].
    + rewrite list_lookup_alter_eq, Hsl. simpl.
      rewrite list_lookup_insert_eq; [done|]. by eapply lookup_lt_Some.
    + by rewrite list_lookup_alter_ne, list_lookup_insert_ne.
  - f_equal. symmetry. apply list_eq. intros j. destruct (decide (j = Z.to_nat nn)) as [->|Hj].
    + rewrite list_lookup_alter_eq, Hal. simpl.
      rewrite list_lookup_insert_eq; [done|]. by eapply lookup_lt_Some.
    + by rewrite list_lookup_alter_ne, list_lookup_insert_ne.
Qed.

(** A fold whose steps append features to the neighbor namespace of the
    node at [n] appends features to it. *)
Lemma fold_appends {A} (step : list example → A → outcome (list example)) l (n : nat) :
  (∀ ec node a, a ∈ l → ec !! n = Some node → node_ok nn node →
     ∃ inj, step ec a = Done (<[n := with_features nn inj node]> ec)) →
  ∀ ec node, ec !! n = Some node → node_ok nn node →
  ∃ inj, fold_outcome step ec l = Done (<[n := with_features nn inj node]> ec).
Proof.
  induction l as [|a l IH]; intros Hstep ec node Hn Hok; simpl.
  - exists []. rewrite with_features32_nil. by rewrite list_insert_id.
  - destruct (Hstep ec node a) as (i1 & ->); [by left|done..|]. simpl.
    destruct (IH (λ ec node a Ha, Hstep ec node a (list_elem_of_further _ _ _ Ha))
                (<[n := with_features nn i1 node]> ec) (with_features nn i1 node))
      as (i2 & ->).
    + apply list_lookup_insert_eq. by eapply lookup_lt_Some.
    + by apply node_ok32_with_features.
    + exists (i1 ++ i2). by rewrite list_insert_insert_eq, with_features32_app.
Qed.

Lemma single_fn32_spec D ec (n : nat) node f q k :
  cur_node D = Z.of_nat n → ec !! n = Some node → node_ok nn node →
  multiplier D ≠ 0 → aligned D f → neighbor_predictions D !! 0%nat = Some q →
  to_size_t q = Done k →
  ∃ inj, add_edge_features_single_fn nn D ec (x f) (weight_index f) =
         Done (<[n := with_features nn inj node]> ec).
Proof.
  intros Hcur Hn Hok Hm Hal Hq Hk. unfold add_edge_features_single_fn.
  assert (load ec (cur_node D) = Done node) as ->.
  { apply load_Done. rewrite Hcur, Nat2Z.id. split; [lia|done]. }
  simpl. rewrite (proj2 (Z.eqb_neq _ _)) by done.
  unfold aligned in Hal. rewrite Hal, Z.eqb_refl. simpl.
  assert (load (neighbor_predictions D) 0 = Done q) as -> by (by apply load_Done).
  simpl. rewrite Hk. simpl. rewrite push_feature32_spec by done. simpl.
  eexists. rewrite store_in_range.
  - by rewrite Hcur, Nat2Z.id.
  - apply lookup_lt_Some in Hn. unfold size. lia.
Qed.

Lemma group_fn32_spec D ec (n : nat) node f :
  cur_node D = Z.of_nat n → ec !! n = Some node → node_ok nn node →
  multiplier D ≠ 0 → aligned D f →
  size (neighbor_predictions D) = K D + 1 →
  ∃ inj, add_edge_features_group_fn nn D ec (x f) (weight_index f) =
         Done (<[n := with_features nn inj node]> ec).
Proof.
  intros Hcur Hn Hok Hm Hal Hsz. unfold add_edge_features_group_fn.
  assert (load ec (cur_node D) = Done node) as ->.
  { apply load_Done. rewrite Hcur, Nat2Z.id. split; [lia|done]. }
  simpl. rewrite (proj2 (Z.eqb_neq _ _)) by done.
  unfold aligned in Hal. rewrite Hal, Z.eqb_refl. simpl.
  match goal with
  | |- ∃ _, (fold_outcome ?step node ?l ≫= _) = _ =>
      destruct (fold_outcome_total
                  (λ node', node_ok nn node' ∧ ∃ inj, node' = with_features nn inj node)
                  step l node) as (node' & -> & _ & inj & ->)
  end.
  - split; [done|]. exists []. by rewrite with_features32_nil.
  - intros node' k [Hok' (inj & ->)] Hk%elem_of_seqZ.
    destruct (load_in_range (neighbor_predictions D) k) as (v & -> & _); [lia|].
    simpl. destruct (is_zero v).
    + eexists. split; [done|]. split; [done|]. by exists inj.
    + rewrite push_feature32_spec by done. eexists. split; [done|].
      split; [by apply node_ok32_with_features|].
      eexists. by rewrite with_features32_app.
  - simpl. exists inj. rewrite store_in_range.
    + by rewrite Hcur, Nat2Z.id.
    + apply lookup_lt_Some in Hn. unfold size. lia.
Qed.

Lemma foreach_feature32_spec (T : list example → spec_float → Z → outcome (list example))
    edge fs ec (n : nat) node :
  active_features edge = Done fs →
  (∀ ec node f, f ∈ fs → ec !! n = Some node → node_ok nn node →
     ∃ inj, T ec (x f) (weight_index f) = Done (<[n := with_features nn inj node]> ec)) →
  ec !! n = Some node → node_ok nn node →
  ∃ inj, foreach_feature T edge ec = Done (<[n := with_features nn inj node]> ec).
Proof.
  intros Hfs HT Hn Hok. unfold foreach_feature. rewrite Hfs. simpl.
  by apply (fold_appends (λ s f, T s (x f) (weight_index f))).
Qed.

(** The histogram of an edge is built without leaving the arrays, and the
    label bucket it ends with is one of [0 .. K]. *)
Lemma edge_histogram32_total D n edge :
  histogram_ok D n edge →
  ∃ np total lastp, edge_histogram D n edge = Done (np, total, lastp) ∧
    size np = K D + 1 ∧ 0 ≤ lastp ≤ K D.
Proof.
  intros (Hsz & HK & Hcs). unfold edge_histogram, clear_predictions.
  rewrite u64_small by lia.
  destruct (fill_spec zero (Z.to_nat (K D + 1)) 0 (neighbor_predictions D))
    as (r & Hr & Hlen & _); [unfold size in Hsz; lia|].
  change (Z.of_nat 0) with 0 in Hr. rewrite Z2Nat.id in Hr by lia. rewrite Hr.
  cbn [mbind outcome_bind].
  assert (Hrsz : size r = K D + 1) by (unfold size in *; lia).
  destruct (use_structure D) eqn:Hus.
  - destruct (fold_outcome_total (λ h : histogram, size h.1.1 = K D + 1 ∧ 0 ≤ h.2 ≤ K D)
                (count_neighbor D n) (costs edge) (r, zero, 0))
      as ([[np total] lastp] & Hf & Hnp & Hl); [simpl; lia| |by exists np, total, lastp].
    intros [[np total] lastp] c [Hnp Hl] Hc. simpl in Hnp, Hl. unfold count_neighbor.
    destruct (u32 (class_index c - 1) =? n) eqn:Hm; [by eexists|].
    specialize (Hcs eq_refl). rewrite Forall_forall in Hcs.
    destruct (Hcs c Hc) as (p & Hp & Hpr); [lia|].
    assert (load (pred D) (u32 (class_index c - 1)) = Done p) as ->.
    { apply load_Done. split; [apply Z.mod_pos_bound; lia|done]. }
    cbn [mbind outcome_bind]. rewrite u64_small by lia.
    destruct (load_in_range np (p - 1)) as (v & -> & _); [lia|].
    cbn [mbind outcome_bind]. rewrite store_in_range by lia. cbn [mbind outcome_bind].
    eexists. split; [done|]. simpl. unfold size in *. rewrite length_insert.
    rewrite u32_small by lia. lia.
  - destruct (load_in_range r 0) as (v & -> & _); [lia|].
    cbn [mbind outcome_bind]. rewrite store_in_range by lia. cbn [mbind outcome_bind].
    eexists _, _, _. split; [done|]. unfold size in *. rewrite length_insert. lia.
Qed.

(** One incident edge: the node receives features in its neighbor
    namespace and nothing else changes in the episode. *)
Lemma add_edge32_frame D ec (n : nat) node i edge fs :
  cur_node D = Z.of_nat n → ec !! n = Some node → node_ok nn node →
  load ec i = Done edge → histogram_ok D (Z.of_nat n) edge →
  active_features edge = Done fs → Forall (aligned D) fs → multiplier D ≠ 0 →
  ∃ np inj, add_edge nn (Z.of_nat n) (D, ec) i
            = Done (set_neighbor_predictions np D, <[n := with_features nn inj node]> ec) ∧
            size np = K D + 1.
Proof.
  intros Hcur Hn Hok Hedge Hh Hfs Hal Hm. unfold add_edge. rewrite Hedge.
  cbn [mbind outcome_bind].
  destruct (edge_histogram32_total D (Z.of_nat n) edge Hh) as (np & total & lastp & -> & Hnp & Hl).
  cbn [mbind outcome_bind]. destruct Hh as (_ & HK & _).
  destruct (is_zero total).
  { exists np, []. rewrite with_features32_nil, list_insert_id by done. done. }
  destruct (le_one total).
  - rewrite store_in_range by lia. cbn [mbind outcome_bind].
    set (D' := set_neighbor_predictions _ (set_neighbor_predictions np D)).
    destruct (foreach_feature32_spec (add_edge_features_single_fn nn D') edge fs ec n node)
      as (inj & ->); try done.
    + intros ec' node' f Hf Hn' Hok'.
      apply (single_fn32_spec D' ec' n node' f (binary32_of_Z lastp) lastp); try done.
      * rewrite Forall_forall in Hal. by apply Hal.
      * unfold D'. simpl. apply list_lookup_insert_eq. unfold size in Hnp. lia.
      * apply to_size_t_of_Z. lia.
    + cbn [mbind outcome_bind]. eexists _, inj. split; [by destruct D|].
      unfold size in *. rewrite length_insert. done.
  - set (D' := set_neighbor_predictions np D).
    destruct (foreach_feature32_spec (add_edge_features_group_fn nn D') edge fs ec n node)
      as (inj & ->); try done.
    + intros ec' node' f Hf Hn' Hok'.
      apply (group_fn32_spec D' ec' n node' f); try done.
      rewrite Forall_forall in Hal. by apply Hal.
    + cbn [mbind outcome_bind]. by exists np, inj.
Qed.

(** The incident edges of a node, one after the other. *)
Lemma add_edges32_frame D ec (n : nat) node ids :
  cur_node D = Z.of_nat n → ec !! n = Some node → node_ok nn node → multiplier D ≠ 0 →
  Forall (λ id, 0 ≤ id ∧ Z.to_nat id ≠ n ∧
                ∃ edge fs, ec !! Z.to_nat id = Some edge ∧
                  histogram_ok D (Z.of_nat n) edge ∧
                  active_features edge = Done fs ∧ Forall (aligned D) fs) ids →
  ∃ np inj, fold_outcome (add_edge nn (Z.of_nat n)) (D, ec) ids
            = Done (set_neighbor_predictions np D, <[n := with_features nn inj node]> ec).
Proof.
  intros Hcur Hn Hok Hm Hids.
  destruct (fold_outcome_total
              (λ st : task_data * list example, ∃ np inj,
                 st = (set_neighbor_predictions np D, <[n := with_features nn inj node]> ec)
                 ∧ size np = size (neighbor_predictions D))
              (add_edge nn (Z.of_nat n)) ids (D, ec)) as (st & Hf & np & inj & -> & _).
  - exists (neighbor_predictions D), [].
    rewrite with_features32_nil, list_insert_id by done. split; [by destruct D|done].
  - intros st id (np & inj & -> & Hnp) Hid.
    rewrite Forall_forall in Hids.
    destruct (Hids id Hid) as (Hid0 & Hne & edge & fs & Hedge & (Hsz & HK & Hcs) & Hfs & Hal).
    destruct (add_edge32_frame (set_neighbor_predictions np D)
                (<[n := with_features nn inj node]> ec) n (with_features nn inj node)
                id edge fs) as (np' & inj' & Hadd & Hnp'); try done.
    + apply list_lookup_insert_eq. by eapply lookup_lt_Some.
    + by apply node_ok32_with_features.
    + apply load_Done. split; [done|]. by rewrite list_lookup_insert_ne.
    + split; [simpl; lia|]. done.
    + rewrite Hadd. eexists. split; [done|]. exists np', (inj ++ inj').
      rewrite list_insert_insert_eq, with_features32_app. simpl in Hnp'.
      split; [by destruct D|lia].
  - by exists np, inj.
Qed.

Lemma add_pair32_none node p c0 c1 :
  char_at p 0 = Done c0 → char_at p 1 = Done c1 →
  int_of_char char_is_signed c0 ≠ nn → int_of_char char_is_signed c1 ≠ nn →
  add_pair nn char_is_signed node p = Done node.
Proof.
  intros H0 H1 Hn0 Hn1. unfold add_pair. rewrite H0. cbn [mbind outcome_bind]. rewrite H1.
  cbn [mbind outcome_bind].
  rewrite (proj2 (Z.eqb_neq _ _)) by done. rewrite (proj2 (Z.eqb_neq _ _)) by done. done.
Qed.

Lemma add_pairs32_none node pairs :
  no_pair_names nn char_is_signed pairs →
  fold_outcome (add_pair nn char_is_signed) node pairs = Done node.
Proof.
  induction 1 as [|p pairs (c0 & c1 & H0 & H1 & Hn0 & Hn1) _ IH]; [done|].
  cbn [fold_outcome]. by rewrite (add_pair32_none node p c0 c1).
Qed.

(** Augmentation followed by reversal, in binary32: the node is given
    back in every field but the total sum of squares, which has had the
    sum [s] of the neighbor namespace added and then subtracted. *)
Lemma augment_revert32 pairs D ec (n : nat) node ids :
  ec !! n = Some node → node_ok nn node → multiplier D ≠ 0 →
  adj D !! n = Some ids →
  Forall (λ id, 0 ≤ id ∧ Z.to_nat id ≠ n ∧
                ∃ edge fs, ec !! Z.to_nat id = Some edge ∧
                  histogram_ok D (Z.of_nat n) edge ∧
                  active_features edge = Done fs ∧ Forall (aligned D) fs) ids →
  no_pair_names nn char_is_signed pairs → clean_node nn node →
  ∃ np ec' node' s,
    add_edge_features nn char_is_signed pairs D (Z.of_nat n) ec
    = Done (set_neighbor_predictions np (set_cur_node (Z.of_nat n) D), ec') ∧
    ec' !! n = Some node' ∧ sum_feat_sq node' !! Z.to_nat nn = Some s ∧
    del_edge_features nn (Z.of_nat n) ec'
    = Done (<[n := set_total_sum_feat_sq
                     (SFsub 24 128 (SFadd 24 128 (total_sum_feat_sq node) s) s) node]> ec).
Proof.
  intros Hn Hok Hm Hids Hall Hno (Hempty & Hzero & Hnf).
  pose proof Hok as [Ha Hs].
  unfold add_edge_features.
  assert (Hload : ∀ (ec0 : list example) e, ec0 !! n = Some e → load ec0 (Z.of_nat n) = Done e).
  { intros ec0 e He. apply load_Done. rewrite Nat2Z.id. split; [lia|done]. }
  rewrite (Hload ec node Hn). cbn [mbind outcome_bind].
  assert (load (adj (set_cur_node (Z.of_nat n) D)) (Z.of_nat n) = Done ids) as ->.
  { apply load_Done. rewrite Nat2Z.id. split; [lia|done]. }
  cbn [mbind outcome_bind].
  destruct (add_edges32_frame (set_cur_node (Z.of_nat n) D) ec n node ids)
    as (np & inj & ->); try done.
  cbn [mbind outcome_bind].
  assert (Hok1 : node_ok nn (with_features nn inj node)) by (by apply node_ok32_with_features).
  destruct Hok1 as [Ha1 Hs1].
  set (s := foldl (λ s g, SFadd 24 128 s (SFmul 24 128 (x g) (x g))) zero inj).
  assert (Hs1l : sum_feat_sq (with_features nn inj node) !! Z.to_nat nn = Some s).
  { unfold with_features. simpl. by rewrite list_lookup_alter_eq, Hzero. }
  assert (Ha1l : atomics (with_features nn inj node) !! Z.to_nat nn = Some inj).
  { unfold with_features. simpl. by rewrite list_lookup_alter_eq, Hempty. }
  assert (Hnode1 : with_features nn inj node
                   = {| costs := costs node; indices := indices node;
                        atomics := <[Z.to_nat nn := inj]> (atomics node);
                        sum_feat_sq := <[Z.to_nat nn := s]> (sum_feat_sq node);
                        total_sum_feat_sq := total_sum_feat_sq node;
                        num_features := num_features node |}).
  { unfold with_features, set_sum_feat_sq, set_atomics. simpl. f_equal.
    - apply list_eq. intros j. destruct (decide (j = Z.to_nat nn)) as [->|Hj].
      + rewrite list_lookup_alter_eq, Hempty.
        rewrite list_lookup_insert_eq by (by eapply lookup_lt_Some). done.
      + by rewrite list_lookup_insert_ne, list_lookup_alter_ne.
    - apply list_eq. intros j. destruct (decide (j = Z.to_nat nn)) as [->|Hj].
      + rewrite list_lookup_alter_eq, Hzero.
        rewrite list_lookup_insert_eq by (by eapply lookup_lt_Some). done.
      + by rewrite list_lookup_insert_ne, list_lookup_alter_ne. }
  remember (with_features nn inj node) as node1 eqn:Hn1. clear Hn1.
  assert (Hlen : (n < length ec)%nat) by (by eapply lookup_lt_Some).
  rewrite (Hload _ node1) by (by apply list_lookup_insert_eq).
  cbn [mbind outcome_bind].
  cbn [sum_feat_sq atomics set_num_features set_total_sum_feat_sq set_indices set_atomics
       total_sum_feat_sq num_features].
  assert (load (sum_feat_sq node1) nn = Done s) as -> by (apply load_Done; split; [lia|done]).
  cbn [mbind outcome_bind].
  cbn [sum_feat_sq atomics set_num_features set_total_sum_feat_sq set_indices set_atomics
       total_sum_feat_sq num_features].
  assert (load (atomics node1) nn = Done inj) as -> by (apply load_Done; split; [lia|done]).
  cbn [mbind outcome_bind].
  rewrite add_pairs32_none by done. cbn [mbind outcome_bind].
  rewrite store_in_range by (unfold size; rewrite length_insert; lia).
  cbn [mbind outcome_bind]. rewrite Nat2Z.id, list_insert_insert_eq.
  eexists np, _, _, s. split; [done|].
  split; [by apply list_lookup_insert_eq|]. split; [done|].
  unfold del_edge_features.
  rewrite (Hload _ _ (list_lookup_insert_eq _ _ _ Hlen)). cbn [mbind outcome_bind].
  cbn [indices set_num_features set_total_sum_feat_sq set_indices].
  rewrite bool_decide_eq_false_2 by (by destruct (indices node1)).
  rewrite removelast_last.
  cbn [sum_feat_sq atomics set_num_features set_total_sum_feat_sq set_indices
       total_sum_feat_sq num_features].
  assert (load (sum_feat_sq node1) nn = Done s) as -> by (apply load_Done; split; [lia|done]).
  cbn [mbind outcome_bind].
  assert (load (atomics node1) nn = Done inj) as -> by (apply load_Done; split; [lia|done]).
  cbn [mbind outcome_bind].
  cbn [sum_feat_sq atomics set_num_features set_total_sum_feat_sq set_indices set_atomics
       total_sum_feat_sq num_features].
  rewrite store_in_range by done. cbn [mbind outcome_bind].
  cbn [sum_feat_sq atomics set_num_features set_total_sum_feat_sq set_indices set_atomics
       total_sum_feat_sq num_features].
  rewrite store_in_range by done. cbn [mbind outcome_bind].
  rewrite store_in_range by (unfold size; rewrite length_insert; lia).
  rewrite Nat2Z.id, list_insert_insert_eq. do 2 f_equal.
  unfold set_sum_feat_sq, set_atomics, set_num_features, set_total_sum_feat_sq, set_indices.
  rewrite Hnode1. simpl.
  rewrite !list_insert_insert_eq.
  rewrite (list_insert_id (atomics node)) by done.
  rewrite (list_insert_id (sum_feat_sq node)) by done.
  destruct node as [cs ind at0 sq tot nf]. simpl in *. f_equal.
  unfold u64. rewrite Zminus_mod_idemp_l.
  replace (nf + size inj - size inj) with nf by lia. by apply Z.mod_small.
Qed.

End Augment32.
Lemma int_of_char_signed c : -128 ≤ int_of_char true c ≤ 127.
Proof.
  unfold int_of_char. pose proof (N_ascii_bounded c) as Hc. simpl andb.
  destruct (128 <=? Z.of_N (N_of_ascii c)) eqn:Hb; lia.
Qed.

(** Where [char] is signed, no pair names a namespace above 127. *)
Lemma signed_char_no_pair_names nn pairs :
  127 < nn → Forall (λ p, p ≠ EmptyString) pairs → no_pair_names nn true pairs.
Proof.
  intros Hnn Hall. unfold no_pair_names. eapply Forall_impl; [exact Hall|].
  intros [|c0 p] Hp; [done|].
  assert (∃ c1, char_at (String c0 p) 1 = Done c1) as [c1 H1].
  { destruct p as [|c1 p]; by eexists. }
  exists c0, c1. split; [done|]. split; [done|].
  pose proof (int_of_char_signed c0). pose proof (int_of_char_signed c1). lia.
Qed.

(** * The label priors in binary32 *)

Lemma labeled32_cons e ec :
  labeled (e :: ec) = if bool_decide (label_of e ≠ None) then S (labeled ec) else labeled ec.
Proof. unfold labeled. rewrite filter_cons. by case_bool_decide; case_decide. Qed.

Lemma labeled_as32_cons k e ec :
  labeled_as k (e :: ec)
  = if bool_decide (label_of e = Some k) then S (labeled_as k ec) else labeled_as k ec.
Proof. unfold labeled_as. rewrite filter_cons. by case_bool_decide; case_decide. Qed.

(** The first loop of [setup] adds [1.] to the prior of the label of every
    labeled node, and to the total once per labeled node, one addition
    after the other. *)
Lemma count_records32_priors ec : ∀ D D',
  count_records ec D = Done D' →
  true_counts_total D' = Nat.iter (labeled ec) add_one (true_counts_total D) ∧
  ∀ (k : nat) v, true_counts D !! k = Some v →
    true_counts D' !! k = Some (Nat.iter (labeled_as (Z.of_nat k) ec) add_one v).
Proof.
  induction ec as [|e ec IH]; intros D D' H; simpl in H.
  - injection H as <-. done.
  - rewrite labeled32_cons. unfold example_is_edge in H.
    destruct (1 <? size (costs e)) eqn:He.
    + apply IH in H as [Ht Hk]. simpl in Ht, Hk.
      assert (Hl : label_of e = None).
      { unfold label_of.
        destruct (costs e) as [|c [|c' cs]]; try done;
          apply Z.ltb_lt in He; unfold size in He; simpl length in He; lia. }
      rewrite Hl. rewrite bool_decide_eq_false_2 by (by intros []).
      split; [done|]. intros k v Hv. rewrite labeled_as32_cons, Hl.
      rewrite bool_decide_eq_false_2 by done. by apply Hk.
    + destruct (0 <? E D); [discriminate|].
      destruct (costs e) as [|c cs] eqn:Hcs.
      * apply IH in H as [Ht Hk]. simpl in Ht, Hk.
        assert (Hl : label_of e = None) by (unfold label_of; by rewrite Hcs).
        rewrite Hl. rewrite bool_decide_eq_false_2 by (by intros []).
        split; [done|]. intros k v Hv. rewrite labeled_as32_cons, Hl.
        rewrite bool_decide_eq_false_2 by done. by apply Hk.
      * assert (cs = []) as ->.
        { destruct cs; [done|]. apply Z.ltb_ge in He. unfold size in He.
          simpl length in He. lia. }
        assert (Hl : label_of e = Some (class_index c)) by (unfold label_of; by rewrite Hcs).
        apply bind_Done in H as (t & Hload & H). apply bind_Done in H as (tc & Hst & H).
        apply load_Done in Hload as [Hc0 Hload]. apply store_Done in Hst as [_ ->].
        apply IH in H as [Ht Hk]. simpl in Ht, Hk, Hload.
        rewrite Hl. rewrite bool_decide_eq_true_2 by done.
        split; [by rewrite Nat.iter_succ_r|].
        intros k v Hv. rewrite labeled_as32_cons, Hl.
        destruct (decide (k = Z.to_nat (class_index c))) as [->|Hne].
        -- rewrite Z2Nat.id by done. rewrite bool_decide_eq_true_2 by done.
           rewrite Nat.iter_succ_r.
           specialize (Hk (Z.to_nat (class_index c)) (add_one v)).
           rewrite Z2Nat.id in Hk by done. apply Hk.
           rewrite list_lookup_insert_eq by (by eapply lookup_lt_Some). congruence.
        -- rewrite bool_decide_eq_false_2 by (intros [= Heq]; lia).
           apply Hk. by rewrite list_lookup_insert_ne.
Qed.

(** A prior that has reached [2^24] stays there. *)
Lemma add_one_saturates n :
  Nat.iter n add_one (binary32_of_Z 16777216) = binary32_of_Z 16777216.
Proof. induction n as [|n IH]; [done|]. rewrite Nat.iter_succ, IH. vm_compute. reflexivity. Qed.

End Binary32Facts.

(** * Evaluation on concrete episodes *)

Lemma pair_task_setup : setup pair_vw (graph_task 2) pair_episode = Done pair_task.
Proof. vm_compute. reflexivity. Qed.

(** Discharges a well-formedness condition on a concrete input: the
    condition is taken apart and its closed atoms are evaluated. *)
Ltac evaluated :=
  repeat match goal with
         | |- True => exact I
         | H : _ = _ |- False => vm_compute in H; discriminate H
         | |- Forall _ [] => apply Forall_nil
         | |- Forall _ (_ :: _) => apply Forall_cons_2
         | |- Forall _ ?l => let l' := eval vm_compute in l in progress change l with l'
         | |- _ ∧ _ => split
         | |- ∃ _, _ => eexists
         | |- _ → _ => intros
         | |- ?a ≡ₚ ?b =>
             let a' := eval vm_compute in a in
             let b' := eval vm_compute in b in
             change (a' ≡ₚ b'); reflexivity
         | |- _ = _ => first [reflexivity | vm_compute; reflexivity]
         | |- _ => progress hnf
         end.

Lemma run_bfs_frame D ec D' : run_bfs D ec = Done D' → ∃ o, D' = set_bfs o D.
Proof.
  unfold run_bfs. intros H. apply bind_Done in H as (t & _ & H).
  apply bind_Done in H as (st & _ & H). injection H as <-. by eexists.
Qed.

Lemma setup_frame all D0 ec D :
  setup all D0 ec = Done D →
  separate_learners D = separate_learners D0 ∧ num_loops D = num_loops D0 ∧
  K D = K D0 ∧ confusion_matrix D = confusion_matrix D0.
Proof.
  unfold setup. intros H. apply bind_Done in H as (D1 & Hc & H).
  apply count_records_frame in Hc. simpl in Hc.
  destruct Hc as (HK & _ & _ & _ & Hnl & Hsl & _ & _ & Hcm).
  destruct (_ && _); [discriminate|].
  apply bind_Done in H as (adj1 & _ & H). apply bind_Done in H as (D2 & Hb & H).
  apply run_bfs_frame in Hb as (o & ->). injection H as <-. simpl. done.
Qed.

Lemma initialize_buffers vm num_actions :
  K (initialize vm num_actions).1 = num_actions ∧
  confusion_matrix (initialize vm num_actions).1
  = calloc 0 (u64 (u64 (num_actions + 1) * u64 (num_actions + 1))) ∧
  neighbor_predictions (initialize vm num_actions).1 = calloc (Q2Qc 0) (u64 (num_actions + 1)).
Proof.
  unfold initialize. destruct (search_graph_num_loops vm) as [v|];
    destruct (_ <=? 1); done.
Qed.

(** * The claims *)

(** C1 (amended).  With [float] as binary32, for a node whose neighbor
    namespace is empty and with no configured pair naming that namespace,
    [add_edge_features] followed by [del_edge_features] gives the episode
    back with the node restored bit for bit in its features, its
    per-namespace sums of squares, its feature count and its active
    namespaces; the total sum of squares is left at [(t + s) - s], both
    operations rounded, where [t] is its value before and [s] the sum of
    squares the augmentation gave the neighbor namespace. *)
Theorem augment_revert_up_to_rounding (nn : Z) (char_is_signed : bool) (pairs : list string)
    (D : Binary32.task_data) (ec : list Binary32.example) (n : nat)
    (node : Binary32.example) (ids : list Z) :
  ec !! n = Some node → Binary32.node_ok nn node → Binary32.multiplier D ≠ 0 →
  Binary32.adj D !! n = Some ids →
  Forall (λ id, 0 ≤ id ∧ Z.to_nat id ≠ n ∧
                ∃ edge fs, ec !! Z.to_nat id = Some edge ∧
                  Binary32.histogram_ok D (Z.of_nat n) edge ∧
                  Binary32.active_features edge = Done fs ∧
                  Forall (Binary32.aligned D) fs) ids →
  Binary32.no_pair_names nn char_is_signed pairs → Binary32.clean_node nn node →
  ∃ np ec' node' s,
    Binary32.add_edge_features nn char_is_signed pairs D (Z.of_nat n) ec
    = Done (Binary32.set_neighbor_predictions np (Binary32.set_cur_node (Z.of_nat n) D), ec') ∧
    ec' !! n = Some node' ∧ Binary32.sum_feat_sq node' !! Z.to_nat nn = Some s ∧
    Binary32.del_edge_features nn (Z.of_nat n) ec'
    = Done (<[n := Binary32.set_total_sum_feat_sq
                     (SFsub 24 128 (SFadd 24 128 (Binary32.total_sum_feat_sq node) s) s)
                     node]> ec).
Proof. apply Binary32Facts.augment_revert32. Qed.

Lemma augment_revert_up_to_rounding_witness :
  ∃ np ec' node' s,
    Binary32.add_edge_features 131 true ["ab"%string] Binary32.rounding_task 0
      Binary32.rounding_episode
    = Done (Binary32.set_neighbor_predictions np
              (Binary32.set_cur_node 0 Binary32.rounding_task), ec') ∧
    ec' !! 0%nat = Some node' ∧ Binary32.sum_feat_sq node' !! 131%nat = Some s ∧
    Binary32.del_edge_features 131 0 ec'
    = Done (<[0%nat := Binary32.set_total_sum_feat_sq
                (SFsub 24 128
                   (SFadd 24 128
                      (Binary32.total_sum_feat_sq
                         (Binary32.make_example [1] 110
                            [{| Binary32.x := binary32_of_Z 4096;
                                Binary32.weight_index := 4 |}])) s) s)
                (Binary32.make_example [1] 110
                   [{| Binary32.x := binary32_of_Z 4096; Binary32.weight_index := 4 |}])]>
              Binary32.rounding_episode).
Proof.
  apply (augment_revert_up_to_rounding 131 true ["ab"%string] Binary32.rounding_task
           Binary32.rounding_episode 0
           (Binary32.make_example [1] 110
              [{| Binary32.x := binary32_of_Z 4096; Binary32.weight_index := 4 |}]) [2]);
    evaluated.
Defined.

(** C1 (the claim fails).  On [rounding_episode], whose node 0 has the
    total sum of squares [2^24], the augmentation gives the neighbor
    namespace of node 0 one feature of value 1; [2^24 + 1] rounds to [2^24]
    and the reversal leaves the total at [2^24 - 1]: the node is not given
    back bit for bit. *)
Lemma augment_revert_not_bit_exact :
  ∃ D' ec' ec'',
    Binary32.add_edge_features 131 true [] Binary32.rounding_task 0 Binary32.rounding_episode
    = Done (D', ec') ∧
    Binary32.del_edge_features 131 0 ec' = Done ec'' ∧
    Binary32.total_sum_feat_sq <$> Binary32.rounding_episode !! 0%nat
    = Some (S754_finite false 8388608 1) ∧
    Binary32.total_sum_feat_sq <$> ec'' !! 0%nat = Some (S754_finite false 16777215 0) ∧
    ec'' ≠ Binary32.rounding_episode.
Proof.
  eexists _, _, _. split; [vm_compute; reflexivity|]. split; [vm_compute; reflexivity|].
  split; [vm_compute; reflexivity|]. split; [vm_compute; reflexivity|].
  intros H. apply (f_equal (λ l, Binary32.total_sum_feat_sq <$> l !! 0%nat)) in H.
  vm_compute in H. discriminate H.
Qed.

(** C2 (the code departs from the claim).  For node 0 of [pair_episode],
    whose only incident edge has node 1 as its other endpoint, the
    conditioning loop of [run] adds no reference at all, where the edges of
    [adj[0]] give one reference to node 1 (tag 2): the loop reads the
    records at positions [0 .. |adj[n]|-1], not the edges listed in
    [adj[n]]. *)
Theorem conditioning_reads_positions_not_edges :
  adj pair_task !! 0%nat = Some [2] ∧
  add_conditioning pair_task 0 pair_episode = Done [] ∧
  incident_conditioning pair_task 0 pair_episode = Done [(2, "e"%char)].
Proof. vm_compute. done. Qed.

(** C3 (the code departs from the claim).  On [pair_episode], whose nodes
    carry the labels 1 and 2 and are both predicted 1, [run] counts every
    node once, in the cells [confusion[1][1]] and [confusion[2][1]].  On an
    episode of one unlabeled node the passes of [run] complete, and the
    metric loop then reads [costs[0]] of a label without cost pairs: [run]
    has no defined result, where the claim asks that the node be skipped. *)
Theorem unlabeled_node_is_counted :
  match run 131 unit (λ _, true) const_predict pair_vw pair_task pair_episode () with
  | Done ((D', _, _, _), _) =>
      pred D' = [1; 1] ∧ confusion_matrix D' = [0; 0; 0; 0; 1; 0; 0; 1; 0]
  | _ => False
  end ∧
  match setup pair_vw (graph_task 2) unlabeled_episode with
  | Done D =>
      match run_passes 131 unit (λ _, true) const_predict pair_vw D unlabeled_episode () with
      | Done (D', ec', _, trace) =>
          my_tag <$> trace = [1; 1] ∧ update_confusion D' ec' = Undefined
      | _ => False
      end ∧
      run 131 unit (λ _, true) const_predict pair_vw D unlabeled_episode () = Undefined
  | _ => False
  end.
Proof. vm_compute. done. Qed.

(** C4.  On a graph with [N ≥ 1] nodes whose adjacency lists name edges
    with ids in [1 .. N], [run_bfs] returns an order that is a permutation
    of [0 .. N-1], starts at node 0, in which every later node is either a
    neighbor (another endpoint of an incident hyperedge) of an earlier node
    or, the earlier nodes being closed under neighbors, the lowest-indexed
    node not yet in the order, and in which nodes appear in the order of
    their first parents (breadth-first). *)
Theorem run_bfs_traversal (D : task_data) (ec : list example) :
  wf_graph (N D) (adj D) ec → 1 ≤ N D < 2 ^ 32 →
  ∃ o, run_bfs D ec = Done (set_bfs o D) ∧
       o ≡ₚ seqZ 0 (N D) ∧ o !! 0%nat = Some 0 ∧
       expands (adj D) ec o ∧ breadth_first (adj D) ec o.
Proof. apply run_bfs_spec. Qed.

Lemma run_bfs_traversal_witness :
  wf_graph (N islands_task) (adj islands_task) islands_episode ∧
  1 ≤ N islands_task < 2 ^ 32 ∧
  ∃ o, run_bfs islands_task islands_episode = Done (set_bfs o islands_task) ∧
       o ≡ₚ seqZ 0 (N islands_task) ∧ o !! 0%nat = Some 0 ∧
       expands (adj islands_task) islands_episode o ∧
       breadth_first (adj islands_task) islands_episode o.
Proof.
  assert (Hwf : wf_graph (N islands_task) (adj islands_task) islands_episode) by evaluated.
  assert (HN : 1 ≤ N islands_task < 2 ^ 32) by evaluated.
  split; [exact Hwf|]. split; [exact HN|].
  exact (run_bfs_traversal islands_task islands_episode Hwf HN).
Defined.



(** C6.  [macro_f] returns the average, over the labels [k] of [1 .. K]
    whose row sum [trueC] is not zero, of the per-label F1 score, where a
    label with [confusion[k][k] = 0] adds 0 and any other label adds
    [2 * pre * rec / (pre + rec)] with [pre = confusion[k][k] / predC] and
    [rec = confusion[k][k] / trueC]; on the matrix with rows [3 1] and
    [0 2] the loss [1 - macro_f] is [6/35], which is within [1e-3] of
    [0.1714].  With the rounding of the machine (binary32, the loss in
    binary64) the macro-F1 of that matrix is [13901122 * 2^-24] and the
    loss is within [1e-3] of [0.1714] as well. *)
Theorem macro_f_average (D : task_data) :
  matrix_ok D →
  macro_f D = Done (macro_f_spec D) ∧
  (K D = 2 → confusion_matrix D = [0; 0; 0; 0; 3; 1; 0; 0; 2] →
   macro_f D = Done (Some (Q2Qc (29 # 35))) ∧
   loss_of (Some (Q2Qc (29 # 35))) = Some (Q2Qc (6 # 35)) ∧
   Qc_leb (Qc_abs (Q2Qc (6 # 35) - Q2Qc (1714 # 10000))) (Q2Qc (1 # 1000)) = true ∧
   macro_f_binary32 D = Done (S754_finite false 13901122 (-24)) ∧
   ∃ l, Q_of_float (loss_binary64 (S754_finite false 13901122 (-24))) = Some l ∧
        Qc_leb (Qc_abs (Q2Qc l - Q2Qc (1714 # 10000))) (Q2Qc (1 # 1000)) = true).
Proof.
  intros Hok. split; [by apply macro_f_refines|].
  intros HK Hcm. rewrite macro_f_refines by done.
  split; [|split; [|split; [|split]]].
  - unfold macro_f_spec, counted_labels, f1, trueC, predC, cell. rewrite HK, Hcm.
    assert (Hv : ∀ a b : Qc, this a = this b → Done (Some a) = Done (Some b) :> outcome (option Qc)).
    { intros a b Hab. assert (a = b) as -> by (apply Qc_is_canon; by rewrite Hab). done. }
    vm_compute. apply Hv. reflexivity.
  - unfold loss_of. f_equal; apply Qc_is_canon; reflexivity.
  - reflexivity.
  - unfold macro_f_binary32, macro_f_label_binary32, label_counts_binary32, IDX.
    rewrite HK, Hcm. vm_compute. reflexivity.
  - eexists. split; vm_compute; reflexivity.
Qed.

Lemma macro_f_average_witness :
  matrix_ok f1_example_task ∧
  macro_f f1_example_task = Done (Some (Q2Qc (29 # 35))).
Proof.
  assert (Hok : matrix_ok f1_example_task) by evaluated.
  split; [exact Hok|].
  exact (proj1 (proj2 (macro_f_average f1_example_task Hok) eq_refl eq_refl)).
Defined.

(** C7.  On a well-formed task, [run] first resets every [pred[n]] to the
    sentinel [K+1], then runs [num_loops] passes, every one of which
    completes; pass [loop] asks for the predictions of the nodes in the
    order [bfs] when [loop] is even and in the reverse of [bfs] when it is
    odd (the tag of node [n] is [n+1]); as [bfs] is a permutation of
    [0 .. N-1], a pass predicts every node exactly once. *)
Theorem run_passes_schedule (nn : Z) (host : Type) (predictNeedsExample : host → bool)
    (predict : host → request → Z * host) (all : vw)
    (D : task_data) (ec : list example) (h : host) :
  run_ok nn all D ec → host_ok predict (K D) →
  size (confusion_matrix D) = (K D + 1) * (K D + 1) →
  ∃ cm D' ec' h' trace,
    run_passes nn host predictNeedsExample predict all D ec h
    = fold_outcome (run_pass nn host predictNeedsExample predict all)
        (set_pred (replicate (Z.to_nat (N D)) (K D + 1)) (set_confusion_matrix cm D), ec, h, [])
        (seqZ 0 (num_loops D)) ∧
    run_passes nn host predictNeedsExample predict all D ec h = Done (D', ec', h', trace) ∧
    my_tag <$> trace
    = flat_map (λ loop, (λ n, n + 1) <$> (if loop mod 2 =? 1 then reverse (bfs D) else bfs D))
        (seqZ 0 (num_loops D)) ∧
    (∀ loop, (if loop mod 2 =? 1 then reverse (bfs D) else bfs D) ≡ₚ seqZ 0 (N D)).
Proof.
  intros Hok Hhost Hcm.
  destruct (run_passes_spec nn host predictNeedsExample predict all D ec h Hok Hhost Hcm)
    as (cm & _ & Hfold & D' & ec' & h' & trace & Hrun & _ & _ & Htags & _).
  exists cm, D', ec', h', trace. split; [exact Hfold|]. split; [exact Hrun|].
  split; [exact Htags|]. intros loop. pose proof (ok_bfs _ _ _ _ Hok) as Hperm.
  destruct (loop mod 2 =? 1); [by rewrite reverse_Permutation|done].
Qed.

Lemma pair_task_run_ok : run_ok 131 pair_vw pair_task pair_episode.
Proof. constructor; evaluated. Defined.

Lemma const_predict_ok : host_ok const_predict 2.
Proof. intros h r. evaluated. Defined.

Lemma run_passes_schedule_witness :
  ∃ D' ec' h' trace,
    run_passes 131 unit (λ _, true) const_predict pair_vw pair_task pair_episode ()
    = Done (D', ec', h', trace) ∧
    my_tag <$> trace
    = flat_map (λ loop, (λ n, n + 1) <$>
                  (if loop mod 2 =? 1 then reverse (bfs pair_task) else bfs pair_task))
        (seqZ 0 (num_loops pair_task)).
Proof.
  destruct (run_passes_schedule 131 unit (λ _, true) const_predict pair_vw
              pair_task pair_episode () pair_task_run_ok const_predict_ok eq_refl)
    as (cm & D' & ec' & h' & trace & _ & Hrun & Htags & _).
  exists D', ec', h', trace. split; [exact Hrun|exact Htags].
Defined.

(** C8.  On an episode whose node labels index the label priors and whose
    edges name ids of at least 1, the conditions under which [setup] reads
    and writes inside its arrays, [setup] ends in a fatal error, and so
    returns no adjacency, order or predictions, exactly when a node record
    follows an edge record, or there are edges but no node, or an edge names
    an id above the number [N] of nodes; in particular it does for an edge
    naming [N+1], and the episode then ends with that error before [run]. *)
Theorem setup_fatal_iff (all : vw) (D : task_data) (ec : list example) :
  size ec < 2 ^ 32 →
  Forall (λ e, Forall (λ c, 0 ≤ class_index c < size (true_counts D)) (take 1 (costs e)))
    (nodes_of ec) →
  Forall (λ e, Forall (λ c, 1 ≤ class_index c) (costs e)) (edges_of ec) →
  (is_fatal (setup all D ec) ↔
   node_after_edge ec ∨ edges_without_nodes ec ∨ edge_id_too_large ec) ∧
  ((∃ e c, e ∈ edges_of ec ∧ c ∈ costs e ∧ class_index c = size (nodes_of ec) + 1) →
   is_fatal (setup all D ec)) ∧
  (∀ msg nn host predictNeedsExample predict (h : host),
     setup all D ec = Fatal msg →
     episode nn host predictNeedsExample predict all D ec h = Fatal msg).
Proof.
  intros Hsz Hlab Hpos. pose proof (setup_fatal_iff_aux all D ec Hsz Hlab Hpos) as Hiff.
  split; [exact Hiff|]. split.
  - intros (e & c & He & Hc & Hid). apply Hiff. right; right.
    exists e, c. split; [done|]. split; [done|]. lia.
  - intros msg nn host pne predict h Hf. unfold episode. by rewrite Hf.
Qed.

Lemma setup_fatal_iff_witness :
  size overshoot_episode < 2 ^ 32 ∧
  Forall (λ e, Forall (λ c, 0 ≤ class_index c < size (true_counts (graph_task 2)))
                 (take 1 (costs e))) (nodes_of overshoot_episode) ∧
  Forall (λ e, Forall (λ c, 1 ≤ class_index c) (costs e)) (edges_of overshoot_episode) ∧
  is_fatal (setup pair_vw (graph_task 2) overshoot_episode).
Proof.
  assert (Hsz : size overshoot_episode < 2 ^ 32) by evaluated.
  assert (Hlab : Forall (λ e, Forall (λ c, 0 ≤ class_index c < size (true_counts (graph_task 2)))
                                (take 1 (costs e))) (nodes_of overshoot_episode)) by evaluated.
  assert (Hpos : Forall (λ e, Forall (λ c, 1 ≤ class_index c) (costs e))
                   (edges_of overshoot_episode)) by evaluated.
  split; [exact Hsz|]. split; [exact Hlab|]. split; [exact Hpos|].
  apply (proj1 (proj2 (setup_fatal_iff pair_vw (graph_task 2) overshoot_episode Hsz Hlab Hpos))).
  exists (make_example [1; 2] 101 []), {| class_index := 2 |}.
  split; [apply list_elem_of_filter; split; [reflexivity|]; apply list_elem_of_further, list_elem_of_here|].
  split; [apply list_elem_of_further, list_elem_of_here|reflexivity].
Defined.

(** C9.  The validation of the ids of an edge passes exactly when no id
    exceeds [N]; an id 0 passes it.  For validated ids the adjacency
    construction stays inside [adj] exactly when every id is at least 1:
    for an id 0 it computes the index [0 - 1 = 2^32 - 1], which is outside
    [adj] whatever [N] is, and no check precedes that access. *)
Theorem edge_ids_checked_only_from_above (Nn i : Z) (cs : list wclass) (adj0 : list (list Z)) :
  size adj0 = Nn → Nn < 2 ^ 32 → Forall (λ c, 0 ≤ class_index c < 2 ^ 32) cs →
  (check_ids Nn cs = Done () ↔ Forall (λ c, class_index c ≤ Nn) cs) ∧
  (check_ids Nn cs = Done () →
   ((∃ adj1, link_ids i cs adj0 = Done adj1) ↔ Forall (λ c, 1 ≤ class_index c) cs) ∧
   (Exists (λ c, class_index c = 0) cs → link_ids i cs adj0 = Undefined)) ∧
  u32 (0 - 1) = 2 ^ 32 - 1 ∧ load adj0 (u32 (0 - 1)) = Undefined.
Proof.
  intros Hsz HN Hu. split; [apply check_ids_Done|]. split.
  - intros Hchk%check_ids_Done.
    assert (Hr : Forall (λ c, 0 ≤ class_index c ≤ Nn) cs).
    { apply Forall_forall. intros c Hc. rewrite Forall_forall in Hchk, Hu.
      specialize (Hchk c Hc). specialize (Hu c Hc). simpl in *. lia. }
    destruct (link_ids_Done Nn i cs adj0 Hsz HN Hr) as [Hdone Hundef]. split.
    + split; [|exact Hdone]. intros [adj1 Hl].
      destruct (decide (Forall (λ c, 1 ≤ class_index c) cs)) as [|Hn]; [done|].
      rewrite (Hundef Hn) in Hl. discriminate.
    + intros Hex. apply Hundef. intros Hall. apply Exists_exists in Hex as (c & Hc & H0).
      rewrite Forall_forall in Hall. specialize (Hall c Hc). simpl in Hall. lia.
  - split; [reflexivity|]. apply load_out_of_range.
    change (u32 (0 - 1)) with (2 ^ 32 - 1). lia.
Qed.

Lemma edge_ids_checked_only_from_above_witness :
  check_ids 2 [{| class_index := 1 |}; {| class_index := 0 |}] = Done () ∧
  link_ids 2 [{| class_index := 1 |}; {| class_index := 0 |}] [[]; []] = Undefined.
Proof.
  destruct (edge_ids_checked_only_from_above 2 2
              [{| class_index := 1 |}; {| class_index := 0 |}] [[]; []])
    as (Hchk & Hlink & _); [evaluated..|].
  assert (Hc : check_ids 2 [{| class_index := 1 |}; {| class_index := 0 |}] = Done ()) by reflexivity.
  split; [exact Hc|]. apply (proj2 (Hlink Hc)).
  apply Exists_cons_tl, Exists_cons_hd. reflexivity.
Defined.

(** C10.  When the number of passes asked for is 0 or 1, [initialize] sets
    [num_loops] to 1 and [separate_learners] to false, whatever the
    per-pass-learner option says, and does not call [set_num_learners];
    [setup] keeps both fields, and in the single pass of [run] no request
    selects a learner: every prediction goes to the one default model. *)
Theorem single_pass_shares_learner (nn : Z) (host : Type) (predictNeedsExample : host → bool)
    (predict : host → request → Z * host) (all : vw)
    (vm : options) (num_actions v : Z) (ec : list example) (D : task_data) (h : host) :
  search_graph_num_loops vm = Some v → v = 0 ∨ v = 1 →
  setup all (initialize vm num_actions).1 ec = Done D →
  run_ok nn all D ec → host_ok predict (K D) →
  (num_loops (initialize vm num_actions).1 = 1 ∧
   separate_learners (initialize vm num_actions).1 = false ∧
   (initialize vm num_actions).2 = None) ∧
  (num_loops D = 1 ∧ separate_learners D = false) ∧
  ∃ D' ec' h' trace,
    run_passes nn host predictNeedsExample predict all D ec h = Done (D', ec', h', trace) ∧
    my_tag <$> trace = (λ n, n + 1) <$> bfs D ∧
    Forall (λ r, learner_id r = None) trace.
Proof.
  intros Hv Hv01 Hsetup Hok Hhost.
  destruct (initialize_single vm num_actions v Hv) as (Hnl & Hsl & Hset); [lia|].
  destruct (setup_frame _ _ _ _ Hsetup) as (Hsl' & Hnl' & HK' & Hcm').
  rewrite Hnl in Hnl'. rewrite Hsl in Hsl'.
  split; [done|]. split; [done|].
  pose proof (ok_K _ _ _ _ Hok) as [HK HK32].
  assert (Hcm : size (confusion_matrix D) = (K D + 1) * (K D + 1)).
  { destruct (initialize_buffers vm num_actions) as (HKi & Hcmi & _).
    rewrite Hcm', Hcmi. rewrite HKi in HK'. rewrite <- HK'.
    unfold calloc, size. rewrite length_replicate.
    rewrite !(u64_small (K D + 1)) by lia. rewrite u64_small by nia. nia. }
  destruct (run_passes_spec nn host predictNeedsExample predict all D ec h Hok Hhost Hcm)
    as (cm & _ & _ & D' & ec' & h' & trace & Hrun & _ & _ & Htags & Hlids).
  exists D', ec', h', trace. split; [exact Hrun|].
  rewrite Hnl' in Htags, Hlids. change (seqZ 0 1) with [0] in *. cbn [flat_map] in *.
  rewrite app_nil_r in Htags, Hlids. split; [exact Htags|].
  unfold pass_learner in Hlids. rewrite Hsl' in Hlids.
  apply Forall_forall. intros r [j Hr]%list_elem_of_lookup_1.
  assert (Hj : (learner_id <$> trace) !! j = Some (learner_id r)) by (by rewrite list_lookup_fmap, Hr).
  rewrite Hlids in Hj. by apply lookup_replicate in Hj as [-> _].
Qed.

Lemma single_pass_task_run_ok : run_ok 131 pair_vw single_pass_task pair_episode.
Proof. constructor; evaluated. Defined.

Lemma single_pass_shares_learner_witness :
  ∃ D' ec' h' trace,
    run_passes 131 unit (λ _, true) const_predict pair_vw single_pass_task pair_episode ()
    = Done (D', ec', h', trace) ∧
    my_tag <$> trace = (λ n, n + 1) <$> bfs single_pass_task ∧
    Forall (λ r, learner_id r = None) trace.
Proof.
  assert (Hsetup : setup pair_vw (initialize single_pass_options 2).1 pair_episode
                   = Done single_pass_task) by (vm_compute; reflexivity).
  exact (proj2 (proj2 (single_pass_shares_learner 131 unit (λ _, true) const_predict pair_vw
           single_pass_options 2 1 pair_episode single_pass_task ()
           eq_refl (or_intror eq_refl) Hsetup single_pass_task_run_ok const_predict_ok))).
Defined.

(** * Further properties of the task *)

(** ** The adjacency lists built by [setup] *)

Lemma last_snoc_ne (l : list Z) i : Forall (λ id, id < i) l → last l ≠ Some i.
Proof.
  intros Hl Hlast. apply last_Some in Hlast as [l' ->].
  apply Forall_app in Hl as [_ Hl]. inversion Hl; subst. lia.
Qed.

Lemma snoc_member (S : list Z) nn m :
  nn ∈ S ∨ m ≠ nn → bool_decide (m ∈ S ++ [nn]) = bool_decide (m ∈ S).
Proof.
  intros H. apply bool_decide_ext. rewrite elem_of_app, list_elem_of_singleton.
  split; [|by left]. intros [?| ->]; [done|]. by destruct H.
Qed.

Lemma link_ids_linked i base cs : ∀ S adj0 adj1,
  Forall (Forall (λ id, id < i)) base →
  linked i base S adj0 → link_ids i cs adj0 = Done adj1 →
  linked i base (S ++ map (λ c, u32 (class_index c - 1)) cs) adj1.
Proof.
  induction cs as [|c cs IH]; intros S adj0 adj1 Hbase Hlk H; simpl in H.
  - injection H as <-. simpl. by rewrite app_nil_r.
  - apply bind_Done in H as (a & Ha & H). apply bind_Done in H as (adj' & Hs & H).
    simpl. set (nn := u32 (class_index c - 1)) in *.
    replace (S ++ nn :: map (λ c0, u32 (class_index c0 - 1)) cs)
      with ((S ++ [nn]) ++ map (λ c0, u32 (class_index c0 - 1)) cs) by (by rewrite <- app_assoc).
    apply (IH _ adj'); [done| |done].
    apply load_Done in Ha as [Hnn Ha]. destruct Hlk as [Hlen Hlk].
    destruct (lookup_lt_is_Some_2 base (Z.to_nat nn)) as [l Hl].
    { rewrite <- Hlen. by eapply lookup_lt_Some. }
    pose proof (Hlk _ _ Hl) as Ha'. rewrite Z2Nat.id in Ha' by done. rewrite Ha in Ha'.
    injection Ha' as ->.
    assert (Hlt : Forall (λ id, id < i) l).
    { rewrite Forall_lookup in Hbase. by apply (Hbase _ _ Hl). }
    case_bool_decide as HS.
    + (* already linked: the last entry is [i] *)
      assert (adj' = adj0) as ->.
      { rewrite last_snoc in Hs. rewrite bool_decide_eq_true_2 in Hs by done.
        unfold size in Hs. rewrite length_app in Hs. simpl in Hs.
        rewrite (proj2 (Z.eqb_neq _ _)) in Hs by lia.
        simpl in Hs. by injection Hs as <-. }
      split; [done|]. intros n l0 Hl0. rewrite (Hlk _ _ Hl0).
      rewrite (snoc_member S nn (Z.of_nat n)) by (by left). done.
    + assert (adj' = <[Z.to_nat nn := l ++ [i]]> adj0) as ->.
      { rewrite bool_decide_eq_false_2 in Hs by (by apply last_snoc_ne).
        rewrite orb_true_r in Hs. by apply store_Done in Hs as [_ ->]. }
      split; [by rewrite length_insert|]. intros n l0 Hl0.
      destruct (decide (n = Z.to_nat nn)) as [->|Hne].
      * rewrite list_lookup_insert_eq by (by eapply lookup_lt_Some).
        rewrite Hl in Hl0. injection Hl0 as <-.
        rewrite bool_decide_eq_true_2; [done|]. apply elem_of_app. right.
        apply list_elem_of_singleton. lia.
      * rewrite list_lookup_insert_ne by done. rewrite (Hlk _ _ Hl0).
        rewrite (snoc_member S nn (Z.of_nat n)) by (right; lia). done.
Qed.

Lemma increasing_snoc l i : increasing l → Forall (λ id, id < i) l → increasing (l ++ [i]).
Proof.
  intros Hinc Hlt a b x y Ha Hb Hab.
  assert (Hbl : (b < length (l ++ [i]))%nat) by (by eapply lookup_lt_Some).
  rewrite length_app in Hbl. simpl in Hbl.
  rewrite lookup_app_l in Ha by lia.
  destruct (decide (b < length l)%nat) as [Hb'|Hb'].
  - rewrite lookup_app_l in Hb by done. by eapply Hinc.
  - rewrite lookup_app_r in Hb by lia.
    replace (b - length l)%nat with 0%nat in Hb by lia. injection Hb as <-.
    rewrite Forall_lookup in Hlt. by apply (Hlt _ _ Ha).
Qed.

Lemma link_edges_incidence Nn ec : ∀ es pre i adj0 adj1,
  ec = pre ++ es → i = size pre → Nn ≤ i →
  link_edges Nn i es adj0 = Done adj1 →
  incidence Nn ec i adj0 → incidence Nn ec (size ec) adj1.
Proof.
  induction es as [|e es IH]; intros pre i adj0 adj1 Hec Hi HN H Hinc; simpl in H.
  - injection H as <-. subst. rewrite app_nil_r in *. done.
  - apply bind_Done in H as ([] & _ & H). apply bind_Done in H as (adj' & Hl & H).
    assert (Hi0 : 0 ≤ i) by (subst i; apply size_nonneg).
    assert (He : ec !! Z.to_nat i = Some e).
    { subst. unfold size. rewrite Nat2Z.id, lookup_app_r by done. by rewrite Nat.sub_diag. }
    apply (IH (pre ++ [e]) (i + 1) adj' adj1); try done.
    + by rewrite <- app_assoc.
    + rewrite size_app. subst i. done.
    + lia.
    + destruct Hinc as [Hsz Hinc].
      assert (Hbase : Forall (Forall (λ id, id < i)) adj0).
      { apply Forall_lookup. intros n ids Hn. apply Forall_forall. intros id Hid.
        destruct (Hinc _ _ Hn) as [_ Hmem]. apply Hmem in Hid. lia. }
      destruct (link_ids_linked i adj0 (costs e) [] adj0 adj' Hbase) as [Hlen Hlk]; [|done|].
      { split; [done|]. intros n l Hn. rewrite bool_decide_eq_false_2; [done|apply not_elem_of_nil]. }
      rewrite app_nil_l in Hlk. fold (endpoints_of e) in Hlk.
      split; [unfold size in *; lia|]. intros n ids' Hn'.
      destruct (lookup_lt_is_Some_2 adj0 n) as [l Hn].
      { rewrite <- Hlen. by eapply lookup_lt_Some. }
      rewrite (Hlk _ _ Hn) in Hn'. injection Hn' as <-.
      destruct (Hinc _ _ Hn) as [Hsorted Hmem].
      assert (Hlt : Forall (λ id, id < i) l).
      { rewrite Forall_lookup in Hbase. by apply (Hbase _ _ Hn). }
      case_bool_decide as Hin.
      * split; [by apply increasing_snoc|]. intros id.
        rewrite elem_of_app, list_elem_of_singleton, Hmem. split.
        -- intros [(Hr & e' & He' & Hin')| ->]; [split; [lia|by exists e']|].
           split; [lia|by exists e].
        -- intros (Hr & e' & He' & Hin'). destruct (decide (id = i)) as [->|Hne]; [by right|].
           left. split; [lia|by exists e'].
      * split; [done|]. intros id. rewrite Hmem. split.
        -- intros (Hr & e' & He' & Hin'). split; [lia|by exists e'].
        -- intros (Hr & e' & He' & Hin'). destruct (decide (id = i)) as [->|Hne].
           ++ rewrite He in He'. injection He' as <-. done.
           ++ split; [lia|by exists e'].
Qed.

(** The steps of a [setup] that returns. *)
Lemma setup_inv all D0 ec D :
  setup all D0 ec = Done D → size ec < 2 ^ 32 →
  ∃ D2 adj1 o,
    count_records ec (set_E 0 (set_N 0 (host_fields all D0))) = Done D2 ∧
    ec = nodes_of ec ++ edges_of ec ∧
    N D2 = size (nodes_of ec) ∧ E D2 = size (edges_of ec) ∧
    link_edges (N D2) (N D2) (edges_of ec) (replicate (Z.to_nat (N D2)) []) = Done adj1 ∧
    run_bfs (set_adj adj1 D2) ec = Done (set_bfs o (set_adj adj1 D2)) ∧
    D = set_pred (replicate (Z.to_nat (N D2)) (u64 (K D2 + 1))) (set_bfs o (set_adj adj1 D2)).
Proof.
  intros H Hsz. unfold setup in H. fold (host_fields all D0) in H.
  set (D1 := set_E 0 (set_N 0 _)) in *.
  apply bind_Done in H as (D2 & Hc & H).
  destruct (_ && _); [discriminate|].
  apply bind_Done in H as (adj1 & Hl & H). apply bind_Done in H as (D3 & Hb & H).
  injection H as <-. simpl in *.
  assert (Hlay : ec = nodes_of ec ++ edges_of ec).
  { destruct (records_layout ec) as [Hnae|Hlay]; [|done].
    destruct (count_records_not_sorted ec D1) as [HU|[msg HF]];
      try (unfold D1; simpl; lia); [by left|..]; congruence. }
  pose proof (size_nonneg (nodes_of ec)). pose proof (size_nonneg (edges_of ec)).
  assert (Hsplit : size ec = size (nodes_of ec) + size (edges_of ec)).
  { rewrite <- size_app. by rewrite <- Hlay. }
  assert (HNE : N D2 = size (nodes_of ec) ∧ E D2 = size (edges_of ec)).
  { destruct (count_records_sorted (nodes_of ec) (edges_of ec) D1) as [HU|(D' & HD & HN & HE)];
      try apply nodes_of_Forall; try apply edges_of_Forall; try (unfold D1; simpl; lia).
    - rewrite <- Hlay in HU. congruence.
    - rewrite <- Hlay in HD. rewrite Hc in HD. injection HD as <-. rewrite HN. done. }
  destruct HNE as [HN HE].
  assert (Hdrop : drop (Z.to_nat (N D2)) ec = edges_of ec).
  { rewrite HN. unfold size. rewrite Nat2Z.id.
    transitivity (drop (length (nodes_of ec)) (nodes_of ec ++ edges_of ec));
      [by rewrite <- Hlay|by rewrite drop_app_length]. }
  rewrite Hdrop in Hl.
  pose proof (run_bfs_frame _ _ _ Hb) as (o & ->).
  exists D2, adj1, o. split; [done|]. split; [done|]. split; [done|]. split; [done|].
  split; [done|]. split; [exact Hb|]. simpl. by destruct D2.
Qed.

Lemma setup_incidence all D0 ec D :
  setup all D0 ec = Done D → size ec < 2 ^ 32 → incidence (N D) ec (size ec) (adj D).
Proof.
  intros H Hsz.
  destruct (setup_inv all D0 ec D H Hsz) as (D2 & adj1 & o & _ & Hlay & HN & _ & Hl & _ & ->).
  simpl.
  apply (link_edges_incidence (N D2) ec (edges_of ec) (nodes_of ec) (N D2)
           (replicate (Z.to_nat (N D2)) []) adj1); try done.
  pose proof (size_nonneg (nodes_of ec)).
  split; [unfold size; rewrite length_replicate; lia|].
  intros n ids [-> _]%lookup_replicate. split.
  - intros a b x y Ha. by rewrite lookup_nil in Ha.
  - intros id. rewrite elem_of_nil. split; [done|]. lia.
Qed.

(** ** The label priors *)

(** X3.  The first loop of [setup] adds [1.] to [true_counts[label]] once
    for every node with a label and to [true_counts_total] once per such
    node, one rounded addition after the other, and resets neither; a
    prior that has reached [2^24] stays there, however many nodes follow. *)
Theorem count_records_accumulates_priors (ec : list Binary32.example)
    (D D' : Binary32.task_data) :
  Binary32.count_records ec D = Done D' →
  Binary32.true_counts_total D'
  = Nat.iter (Binary32.labeled ec) Binary32.add_one (Binary32.true_counts_total D) ∧
  (∀ (k : nat) v, Binary32.true_counts D !! k = Some v →
     Binary32.true_counts D' !! k
     = Some (Nat.iter (Binary32.labeled_as (Z.of_nat k) ec) Binary32.add_one v)) ∧
  (∀ n, Nat.iter n Binary32.add_one (binary32_of_Z 16777216) = binary32_of_Z 16777216).
Proof.
  intros H. apply Binary32Facts.count_records32_priors in H as [Ht Hk].
  split; [done|]. split; [done|]. apply Binary32Facts.add_one_saturates.
Qed.

Lemma count_records_accumulates_priors_witness :
  ∃ D', Binary32.count_records Binary32.rounding_episode
          (Binary32.set_E 0 (Binary32.set_N 0 Binary32.rounding_task)) = Done D' ∧
    Binary32.true_counts_total D' = binary32_of_Z 5 ∧
    Binary32.true_counts D' = [binary32_of_Z 1; binary32_of_Z 2; binary32_of_Z 2].
Proof.
  assert (H : ∃ D', Binary32.count_records Binary32.rounding_episode
                      (Binary32.set_E 0 (Binary32.set_N 0 Binary32.rounding_task)) = Done D')
    by (eexists; vm_compute; reflexivity).
  destruct H as [D' HD]. exists D'. split; [exact HD|].
  destruct (count_records_accumulates_priors _ _ _ HD) as (Ht & Hk & _).
  split; [rewrite Ht; vm_compute; reflexivity|].
  pose proof (Hk 0%nat _ eq_refl) as H0. pose proof (Hk 1%nat _ eq_refl) as H1.
  pose proof (Hk 2%nat _ eq_refl) as H2.
  assert (Hlen : length (Binary32.true_counts D') = 3%nat).
  { vm_compute in HD. injection HD as <-. reflexivity. }
  destruct (Binary32.true_counts D') as [|a [|b [|c [|d l]]]]; try discriminate Hlen.
  simpl in H0, H1, H2. injection H0 as ->. injection H1 as ->. injection H2 as ->.
  vm_compute. reflexivity.
Defined.

(** ** What [setup] returns *)

(** X1.  [setup] returns on every episode of fewer than [2^32] records in
    which no node follows an edge, that has at least one node, whose node
    labels index the table of label priors and whose edges name ids in
    [1 .. N].  The state it returns counts the nodes and the edges, holds a
    traversal order that is a permutation of [0 .. N-1], has every
    prediction at the sentinel [K+1], and carries the mask and the stride
    of the host. *)
Theorem setup_returns (all : vw) (D0 : task_data) (ec : list example) :
  size ec < 2 ^ 32 → ¬ node_after_edge ec → nodes_of ec ≠ [] →
  Forall (λ e, Forall (λ c, 0 ≤ class_index c < size (true_counts D0)) (take 1 (costs e)))
    (nodes_of ec) →
  Forall (λ e, Forall (λ c, 1 ≤ class_index c ≤ size (nodes_of ec)) (costs e)) (edges_of ec) →
  ∃ D, setup all D0 ec = Done D ∧
       N D = size (nodes_of ec) ∧ E D = size (edges_of ec) ∧
       size (adj D) = N D ∧ bfs D ≡ₚ seqZ 0 (N D) ∧
       pred D = replicate (Z.to_nat (N D)) (u64 (K D0 + 1)) ∧
       mask D = weight_mask all ∧
       multiplier D = u64 (Z.shiftl (vw_wpp all) (stride_shift all)).
Proof.
  intros Hsz Hnae Hnodes Hlab Hids.
  destruct (setup_total all D0 ec Hsz Hnae Hnodes Hlab Hids) as [D HD].
  exists D. split; [done|].
  destruct (setup_graph all D0 ec D HD Hsz) as (HN & _ & [Hadj _] & Hperm & _ & _ & _ & Hpred).
  { eapply Forall_impl; [exact Hids|]. intros e He. simpl in He.
    eapply Forall_impl; [exact He|]. simpl. lia. }
  destruct (setup_frame _ _ _ _ HD) as (_ & _ & HK & _).
  destruct (setup_inv all D0 ec D HD Hsz) as (D2 & adj1 & o & Hc & _ & _ & HE & _ & _ & ->).
  apply count_records_frame in Hc as (_ & _ & Hmult & Hmask & _). simpl in *.
  split; [done|]. split; [done|]. split; [done|]. split; [done|].
  split; [by rewrite HK|]. done.
Qed.

Lemma setup_returns_witness :
  ∃ D, setup pair_vw (graph_task 2) pair_episode = Done D ∧ N D = 2 ∧ E D = 1.
Proof.
  assert (Hnae : ¬ node_after_edge pair_episode).
  { change pair_episode with (take 2 pair_episode ++ drop 2 pair_episode).
    apply layout_not_node_after_edge; evaluated. }
  destruct (setup_returns pair_vw (graph_task 2) pair_episode) as (D & HD & HN & HE & _);
    [first [exact Hnae|evaluated]..|].
  exists D. split; [exact HD|]. split; [exact HN|exact HE].
Defined.

(** X2.  In the state a [setup] returns, [adj] has one list per node, and
    the list of node [n] holds exactly the positions of the edge records
    that name [n+1], each once and in increasing order, also when an edge
    names the same node several times. *)
Theorem setup_adjacency (all : vw) (D0 : task_data) (ec : list example) (D : task_data) :
  setup all D0 ec = Done D → size ec < 2 ^ 32 →
  size (adj D) = N D ∧
  ∀ (n : nat) ids, adj D !! n = Some ids →
    increasing ids ∧
    ∀ id, id ∈ ids ↔
      N D ≤ id < size ec ∧ ∃ e, ec !! Z.to_nat id = Some e ∧ Z.of_nat n ∈ endpoints_of e.
Proof. intros H Hsz. exact (setup_incidence all D0 ec D H Hsz). Qed.

Lemma setup_adjacency_witness :
  adj pair_task = [[2]; [2]] ∧
  ∀ id, id ∈ [2] ↔
    N pair_task ≤ id < size pair_episode ∧
    ∃ e, pair_episode !! Z.to_nat id = Some e ∧ Z.of_nat 1 ∈ endpoints_of e.
Proof.
  split; [reflexivity|].
  exact (proj2 (proj2 (setup_adjacency pair_vw (graph_task 2) pair_episode pair_task
                         pair_task_setup ltac:(evaluated)) 1%nat [2] eq_refl)).
Defined.

(** X4.  [setup] does not return on an episode without node records: on
    the empty episode it marks node 0 as touched in an empty array, which
    has no defined behaviour, and on an episode of edges only it stops with
    the error for edges without nodes. *)
Theorem setup_needs_a_node (all : vw) (D0 : task_data) (ec : list example) :
  nodes_of ec = [] → size ec < 2 ^ 32 →
  setup all D0 ec =
  match ec with
  | [] => Undefined
  | _ => Fatal "error: got edges without any nodes (perhaps ring_size is too small?)!"
  end.
Proof.
  intros Hn Hsz. destruct ec as [|e ec']; [done|].
  set (ec := e :: ec') in *.
  assert (Hall : Forall (λ e, example_is_edge e = true) ec).
  { destruct (records_layout ec) as [(i & j & e1 & e2 & _ & _ & Hj & _ & He2)|Hlay].
    - assert (e2 ∈ nodes_of ec) as Hin.
      { apply list_elem_of_filter. split; [done|]. by eapply list_elem_of_lookup_2. }
      rewrite Hn in Hin. by apply elem_of_nil in Hin.
    - rewrite Hn in Hlay. rewrite Hlay. apply edges_of_Forall. }
  unfold setup. fold (host_fields all D0).
  rewrite count_records_edges; [|done|simpl; lia|simpl; lia].
  cbn [mbind outcome_bind].
  match goal with |- (if ?c then _ else _) = _ => assert (c = true) as -> end; [|done].
  simpl. apply Z.ltb_lt. unfold size, ec. simpl. lia.
Qed.

Lemma setup_needs_a_node_witness :
  setup pair_vw (graph_task 2) [make_example [1; 2] 101 []] =
  Fatal "error: got edges without any nodes (perhaps ring_size is too small?)!".
Proof.
  exact (setup_needs_a_node pair_vw (graph_task 2) [make_example [1; 2] 101 []]
           eq_refl ltac:(evaluated)).
Defined.

(** ** The effect of one prediction *)

Section RunEffect.
Variable nn : Z.
Variable host : Type.
Variable predictNeedsExample : host → bool.
Variable predict : host → request → Z * host.
Variable all : vw.

(** One prediction, in full: the node visited, the request made and the
    state left. *)
Lemma predict_node_effect loop D ec h trace n_id :
  run_ok nn all D ec → host_ok predict (K D) → 0 ≤ n_id < N D →
  ∃ (n : nat) node node1 np c conds,
    bfs D !! Z.to_nat n_id = Some (Z.of_nat n) ∧ Z.of_nat n < N D ∧ ec !! n = Some node ∧
    (if predictNeedsExample h then add_edge_features nn all D (Z.of_nat n) ec else Done (D, ec))
      = Done (set_neighbor_predictions np (set_cur_node c D), <[n := node1]> ec) ∧
    same_shape node node1 ∧
    add_conditioning (set_neighbor_predictions np (set_cur_node c D)) (Z.of_nat n)
      (<[n := node1]> ec) = Done conds ∧
    let node2 := if predictNeedsExample h then reverted nn node1 else node1 in
    (if predictNeedsExample h then del_edge_features nn (Z.of_nat n) (<[n := node1]> ec)
     else Done (<[n := node1]> ec)) = Done (<[n := node2]> ec) ∧
    same_shape node node2 ∧
    let P := {| my_tag := Z.of_nat n + 1; input := node1;
                learner_id := pass_learner D loop;
                oracle := if 0 <? label_or_0 node then Some (label_or_0 node) else None;
                condition_on := conds |} in
    1 ≤ (predict h P).1 ≤ K D ∧
    predict_node nn host predictNeedsExample predict all loop (D, ec, h, trace) n_id
    = Done (set_pred (<[n := (predict h P).1]> (pred D))
              (set_neighbor_predictions np (set_cur_node c D)),
            <[n := node2]> ec, (predict h P).2, trace ++ [P]).
Proof.
  intros Hok Hhost Hi.
  destruct (bfs_node nn all D ec n_id Hok Hi) as (n & Hbfs & Hn).
  destruct (run_ok_node nn all D ec n Hok Hn) as (node & Hnode & Hnok & Hps & Hlab).
  pose proof (ok_N _ _ _ _ Hok) as HN. pose proof (ok_K _ _ _ _ Hok) as [HK HK32].
  pose proof (ok_pred _ _ _ _ Hok) as [Hpsz Hpr].
  unfold predict_node.
  assert (load (bfs D) n_id = Done (Z.of_nat n)) as -> by (apply load_Done; split; [lia|done]).
  cbn [mbind outcome_bind].
  assert (load ec (Z.of_nat n) = Done node) as ->.
  { apply load_Done. rewrite Nat2Z.id. split; [lia|done]. }
  cbn [mbind outcome_bind]. fold (label_or_0 node).
  set (k := label_or_0 node).
  assert (Hk : (0 <? k) = true → 0 ≤ k < size (true_counts D)).
  { intros Hk0. unfold k, label_or_0 in *. destruct (costs node) as [|c0 cs]; [done|].
    simpl in Hlab. by inversion Hlab. }
  assert (∃ np c node1,
    (if predictNeedsExample h then add_edge_features nn all D (Z.of_nat n) ec else Done (D, ec))
    = Done (set_neighbor_predictions np (set_cur_node c D), <[n := node1]> ec)
    ∧ size np = K D + 1 ∧ same_shape node node1
    ∧ (predictNeedsExample h = true → indices node1 ≠ []))
    as (np & c & node1 & Haug & Hnp & Hshape & Hind).
  { destruct (predictNeedsExample h).
    - destruct (augment_total nn all D ec n node Hok Hn Hnode) as (np & node1 & -> & ? & ? & ?).
      by exists np, (Z.of_nat n), node1.
    - exists (neighbor_predictions D), (cur_node D), node.
      rewrite list_insert_id by done. split; [by destruct D|].
      split; [apply Hok|]. split; [done|]. discriminate. }
  rewrite Haug. cbn [mbind outcome_bind].
  set (D1 := set_neighbor_predictions np (set_cur_node c D)) in *.
  set (ec1 := <[n := node1]> ec) in *.
  assert (Hok1 : run_ok nn all D1 ec1).
  { pose proof (run_ok_update nn all D ec n node node1 (pred D) np c Hok Hn Hnode Hshape Hpsz Hpr Hnp)
      as Hu. by destruct D. }
  assert (Hnode1 : ec1 !! n = Some node1).
  { apply list_lookup_insert_eq. by eapply lookup_lt_Some. }
  assert (load ec1 (Z.of_nat n) = Done node1) as ->.
  { apply load_Done. rewrite Nat2Z.id. split; [lia|done]. }
  cbn [mbind outcome_bind].
  assert ((if 0 <? k then read_priors D1 k else Done ()) = Done ()) as ->.
  { destruct (0 <? k) eqn:Hk0; [|done]. apply read_priors_total.
    - pose proof (ok_tc _ _ _ _ Hok). simpl. lia.
    - by apply Hk. }
  cbn [mbind outcome_bind].
  destruct (lookup_lt_is_Some_2 (adj D) n) as [ids Hids].
  { pose proof (ok_adj _ _ _ _ Hok) as Ha. unfold size in Ha. lia. }
  destruct (add_conditioning_total D1 ec1 n ids) as (conds & Hconds); [done|..].
  { pose proof (ok_edges _ _ _ _ Hok1) as He. rewrite Forall_lookup in He.
    by destruct (He n ids Hids). }
  rewrite Hconds. cbn [mbind outcome_bind].
  rewrite (u32_small (Z.of_nat n + 1)) by lia.
  change (if separate_learners D1 then Some loop else None) with (pass_learner D loop).
  set (P := {| my_tag := Z.of_nat n + 1; input := node1;
               learner_id := pass_learner D loop;
               oracle := if 0 <? k then Some k else None; condition_on := conds |}).
  pose proof (Hhost h P) as Hp. destruct (predict h P) as [p h'] eqn:HP. simpl in Hp.
  rewrite store_in_range by (simpl; lia). cbn [mbind outcome_bind].
  set (node2 := if predictNeedsExample h then reverted nn node1 else node1).
  assert ((if predictNeedsExample h then del_edge_features nn (Z.of_nat n) ec1 else Done ec1)
          = Done (<[n := node2]> ec) ∧ same_shape node node2) as (Hdel & Hshape2).
  { unfold node2. destruct (predictNeedsExample h); [|done].
    rewrite (del_edge_features_spec nn ec1 n node1); try done.
    - unfold ec1. rewrite list_insert_insert_eq.
      split; [done|]. destruct Hshape as (Hc & Ha & Hs).
      unfold same_shape, reverted, size in *. simpl. rewrite !length_insert. done.
    - destruct Hshape as (Hc & Ha & Hs). unfold node_ok in *. by rewrite Ha, Hs.
    - by apply Hind. }
  rewrite Hdel. cbn [mbind outcome_bind].
  exists n, node, node1, np, c, conds.
  split; [done|]. split; [done|]. split; [done|]. split; [done|]. split; [done|].
  split; [done|]. cbn zeta. split; [done|]. split; [done|].
  subst P k. rewrite HP. simpl.
  split; [done|]. by rewrite Nat2Z.id.
Qed.

(** A property of the run state kept by every prediction is kept by the
    passes of [run]. *)
Lemma fold_predict_invariant (Inv : run_state host → Prop) loop :
  (∀ loop D ec h trace n_id st',
     run_ok nn all D ec → host_ok predict (K D) → 0 ≤ n_id < N D →
     Inv (D, ec, h, trace) →
     predict_node nn host predictNeedsExample predict all loop (D, ec, h, trace) n_id = Done st' →
     Inv st') →
  ∀ n_ids D ec h trace st',
    run_ok nn all D ec → host_ok predict (K D) → Forall (λ i, 0 ≤ i < N D) n_ids →
    Inv (D, ec, h, trace) →
    fold_outcome (predict_node nn host predictNeedsExample predict all loop)
      (D, ec, h, trace) n_ids = Done st' →
    Inv st'.
Proof.
  intros Hstep. induction n_ids as [|i n_ids IH]; intros D ec h trace st' Hok Hhost Hids HI H.
  - injection H as <-. done.
  - inversion Hids as [|? ? Hi Hids']; subst. cbn [fold_outcome] in H.
    destruct (predict_node_spec nn host predictNeedsExample predict all loop D ec h trace i
                Hok Hhost Hi) as (D1 & ec1 & h1 & P & HP & Hok1 & Hfr1 & _).
    rewrite HP in H. cbn [mbind outcome_bind] in H.
    pose proof (frame_fields D D1 Hfr1) as (Hb & HNe & HKe & _).
    apply (IH D1 ec1 h1 (trace ++ [P])); try done.
    + by rewrite HKe.
    + by rewrite HNe.
    + by apply (Hstep loop D ec h trace i).
Qed.

Lemma passes_invariant (Inv : run_state host → Prop) :
  (∀ loop D ec h trace n_id st',
     run_ok nn all D ec → host_ok predict (K D) → 0 ≤ n_id < N D →
     Inv (D, ec, h, trace) →
     predict_node nn host predictNeedsExample predict all loop (D, ec, h, trace) n_id = Done st' →
     Inv st') →
  ∀ loops D ec h trace st',
    run_ok nn all D ec → host_ok predict (K D) →
    Inv (D, ec, h, trace) →
    fold_outcome (run_pass nn host predictNeedsExample predict all) (D, ec, h, trace) loops
    = Done st' →
    Inv st'.
Proof.
  intros Hstep. induction loops as [|loop loops IH]; intros D ec h trace st' Hok Hhost HI H.
  - injection H as <-. done.
  - cbn [fold_outcome] in H.
    destruct (run_pass_spec nn host predictNeedsExample predict all loop D ec h trace Hok Hhost)
      as (D1 & ec1 & h1 & Ps & HP & Hok1 & Hfr1 & _).
    rewrite HP in H. cbn [mbind outcome_bind] in H.
    pose proof (frame_fields D D1 Hfr1) as (Hb & HNe & HKe & _).
    apply (IH D1 ec1 h1 (trace ++ Ps)); try done; [by rewrite HKe|].
    pose proof (ok_N _ _ _ _ Hok) as HN.
    rewrite run_pass_fold in HP by done. simpl fst in HP.
    eapply (fold_predict_invariant Inv loop Hstep); [exact Hok|exact Hhost| |exact HI|exact HP].
    apply Forall_forall. intros i Hin.
    destruct (loop mod 2 =? 1); [rewrite elem_of_reverse in Hin|];
      apply elem_of_seqZ in Hin; lia.
Qed.

(** The state in which the passes of [run] start. *)
Lemma run_passes_start D ec h :
  run_ok nn all D ec → size (confusion_matrix D) = (K D + 1) * (K D + 1) →
  ∃ cm, cm = replicate (Z.to_nat ((K D + 1) * (K D + 1))) 0 ∧
    let D0 := set_pred (replicate (Z.to_nat (N D)) (K D + 1)) (set_confusion_matrix cm D) in
    run_ok nn all D0 ec ∧
    run_passes nn host predictNeedsExample predict all D ec h
    = fold_outcome (run_pass nn host predictNeedsExample predict all) (D0, ec, h, [])
        (seqZ 0 (num_loops D)).
Proof.
  intros Hok Hcm.
  pose proof (ok_N _ _ _ _ Hok) as HN.
  pose proof (ok_K _ _ _ _ Hok) as [HK HK32]. pose proof (ok_pred _ _ _ _ Hok) as [Hpsz Hpr].
  unfold run_passes.
  rewrite !(u64_small (K D + 1)) by lia. rewrite u64_small by nia.
  destruct (fill_spec 0 (Z.to_nat ((K D + 1) * (K D + 1))) 0 (confusion_matrix D))
    as (cm & Hfill & Hcmlen & Hcml); [unfold size in Hcm; lia|].
  change (Z.of_nat 0) with 0 in Hfill. rewrite Z2Nat.id in Hfill by nia.
  rewrite Hfill. cbn [mbind outcome_bind].
  unfold reset_pred. cbn [pred K N set_confusion_matrix].
  rewrite u64_small by lia.
  destruct (fill_spec (K D + 1) (Z.to_nat (N D)) 0 (pred D))
    as (pr & Hreset & Hprlen & Hprl); [unfold size in Hpsz; lia|].
  change (Z.of_nat 0) with 0 in Hreset. rewrite Z2Nat.id in Hreset by lia.
  rewrite Hreset. cbn [mbind outcome_bind].
  assert (pr = replicate (Z.to_nat (N D)) (K D + 1)) as ->.
  { apply list_eq. intros j. rewrite Hprl. case_decide as Hj.
    - symmetry. apply lookup_replicate. split; [done|lia].
    - rewrite !lookup_ge_None_2; [done|rewrite length_replicate; lia|unfold size in Hpsz; lia]. }
  exists cm. split.
  { apply list_eq. intros j. rewrite Hcml. case_decide as Hj.
    - symmetry. apply lookup_replicate. split; [done|lia].
    - rewrite !lookup_ge_None_2; [done|rewrite length_replicate; lia|unfold size in Hcm; lia]. }
  cbn zeta. split; [|done].
  destruct Hok. constructor; simpl; try done. split.
  - unfold size. rewrite length_replicate. lia.
  - apply Forall_replicate. lia.
Qed.
End RunEffect.

(** ** The episode after the passes *)

Lemma run_ok_augment nn all D ec (n : nat) :
  run_ok nn all D ec → Z.of_nat n < N D →
  ∃ ids, adj D !! n = Some ids ∧
    Forall (λ id, 0 ≤ id ∧ Z.to_nat id ≠ n ∧
                  ∃ edge fs, ec !! Z.to_nat id = Some edge ∧
                    histogram_ok D (Z.of_nat n) edge ∧
                    active_features edge = Done fs ∧ Forall (aligned D) fs) ids.
Proof.
  intros Hok Hn.
  destruct (lookup_lt_is_Some_2 (adj D) n) as [ids Hids].
  { pose proof (ok_adj _ _ _ _ Hok) as Ha. unfold size in Ha. lia. }
  exists ids. split; [done|].
  pose proof (ok_edges _ _ _ _ Hok) as He. rewrite Forall_lookup in He.
  destruct (He _ _ Hids) as [_ He']. eapply Forall_impl; [apply He'|].
  intros id (Hid & edge & fs & Hedge & Hcs & Hfs & Hal). simpl.
  pose proof (ok_N _ _ _ _ Hok). split; [lia|]. split; [lia|].
  exists edge, fs. split; [done|]. split; [by eapply run_ok_histogram|done].
Qed.

(** In exact arithmetic the passes of [run] return the episode itself
    when no configured pair names the neighbor namespace and every node
    starts with that namespace empty. *)
Lemma run_passes_episode_exact (nn : Z) (host : Type) (predictNeedsExample : host → bool)
    (predict : host → request → Z * host) (all : vw)
    (D : task_data) (ec : list example) (h : host) :
  run_ok nn all D ec → host_ok predict (K D) →
  size (confusion_matrix D) = (K D + 1) * (K D + 1) →
  no_pair_with nn all → Forall (clean_node nn) (take (Z.to_nat (N D)) ec) →
  ∃ D' h' trace,
    run_passes nn host predictNeedsExample predict all D ec h = Done (D', ec, h', trace).
Proof.
  intros Hok Hhost Hcm Hno Hclean.
  destruct (run_passes_spec nn host predictNeedsExample predict all D ec h Hok Hhost Hcm)
    as (_ & _ & _ & D' & ec' & h' & trace & Hrun & _).
  destruct (run_passes_start nn host predictNeedsExample predict all D ec h Hok Hcm)
    as (cm & _ & Hok0 & Hfold).
  rewrite Hfold in Hrun. exists D', h', trace. rewrite Hfold.
  set (D0 := set_pred _ (set_confusion_matrix cm D)) in *.
  enough (Heq : (D', ec', h', trace).1.1.2 = ec ∧ N (D', ec', h', trace).1.1.1 = N D).
  { simpl in Heq. destruct Heq as [<- _]. done. }
  apply (passes_invariant nn host predictNeedsExample predict all
           (λ st, st.1.1.2 = ec ∧ N st.1.1.1 = N D)) with (5 := Hrun); try done.
  clear D' ec' h' trace Hrun.
  intros loop D1 ec1 h1 tr n_id st' Hok1 Hhost1 Hi [Hec HN1] Hp. simpl in Hec, HN1. subst ec1.
  destruct (predict_node_effect nn host predictNeedsExample predict all loop D1 ec h1 tr n_id
              Hok1 Hhost1 Hi)
    as (n & node & node1 & np & c & conds & Hbfs & Hn & Hnode & Haug & Hsh & Hconds & Hdel
        & Hsh2 & _ & Hpn).
  rewrite Hpn in Hp. injection Hp as <-. simpl. split; [|done].
  destruct (predictNeedsExample h1).
  - destruct (run_ok_node nn all D1 ec n Hok1 Hn) as (node' & Hnode' & Hnok & _).
    assert (node' = node) as -> by congruence.
    destruct (run_ok_augment nn all D1 ec n Hok1 Hn) as (ids & Hids & Hall).
    assert (Hcl : clean_node nn node).
    { rewrite Forall_lookup in Hclean. apply (Hclean n).
      rewrite lookup_take_lt by lia. done. }
    destruct Hcl as (Hempty & Hzero & Hnf).
    destruct (augment_revert_without_pairs nn all D1 ec n node ids) as (D2 & ec2 & Hadd & Hrev);
      try done; try apply Hok1.
    rewrite Haug in Hadd. injection Hadd as _ <-.
    rewrite Hdel in Hrev. by injection Hrev.
  - injection Haug as _ Heq. by rewrite <- Heq.
Qed.

(** X5.  When no configured pair names the neighbor namespace and every
    node starts with that namespace empty, the passes of [run] return every
    record of the episode as they found it in its label, its features, its
    per-namespace sums of squares, its feature count and its active
    namespaces: every augmentation is reverted before the next node is
    visited, and none survives the run.  The total sum of squares is left
    out: the reversal takes the added sum back by a subtraction, which
    rounds. *)
Theorem run_passes_keeps_episode (nn : Z) (host : Type) (predictNeedsExample : host → bool)
    (predict : host → request → Z * host) (all : vw)
    (D : task_data) (ec : list example) (h : host) :
  run_ok nn all D ec → host_ok predict (K D) →
  size (confusion_matrix D) = (K D + 1) * (K D + 1) →
  no_pair_with nn all → Forall (clean_node nn) (take (Z.to_nat (N D)) ec) →
  ∃ D' ec' h' trace,
    run_passes nn host predictNeedsExample predict all D ec h = Done (D', ec', h', trace) ∧
    Forall2 same_but_total ec ec'.
Proof.
  intros Hok Hhost Hcm Hno Hclean.
  destruct (run_passes_episode_exact nn host predictNeedsExample predict all D ec h
              Hok Hhost Hcm Hno Hclean) as (D' & h' & trace & Hrun).
  exists D', ec, h', trace. split; [exact Hrun|].
  apply Forall_Forall2_diag, Forall_forall. intros e _. by repeat split.
Qed.

Lemma pair_episode_clean : Forall (clean_node 131) (take (Z.to_nat (N pair_task)) pair_episode).
Proof. evaluated. Defined.

Lemma run_passes_keeps_episode_witness :
  ∃ D' ec' h' trace,
    run_passes 131 unit (λ _, true) const_predict
      {| weight_mask := 2 ^ 18 - 1; vw_wpp := 1; stride_shift := 2; pairs := [(110, 101)] |}
      pair_task pair_episode () = Done (D', ec', h', trace) ∧
    Forall2 same_but_total pair_episode ec'.
Proof.
  apply run_passes_keeps_episode.
  - constructor; evaluated.
  - exact const_predict_ok.
  - reflexivity.
  - evaluated.
  - exact pair_episode_clean.
Defined.

(** ** The predictions after the passes *)

Lemma first_pass_tags D (n : nat) :
  bfs D ≡ₚ seqZ 0 (N D) → 1 ≤ num_loops D → Z.of_nat n < N D →
  Z.of_nat n + 1 ∈
    flat_map (λ loop, (λ n, n + 1) <$> pass_order D loop) (seqZ 0 (num_loops D)).
Proof.
  intros Hperm Hl Hn.
  replace (num_loops D) with (Z.succ (num_loops D - 1)) by lia.
  rewrite seqZ_cons by lia. cbn [flat_map]. apply elem_of_app. left.
  unfold pass_order. change (0 mod 2 =? 1) with false. cbn iota.
  apply list_elem_of_fmap. exists (Z.of_nat n). split; [done|].
  rewrite Hperm. apply elem_of_seqZ. lia.
Qed.

(** After at least one pass every entry of [pred] is an answer of the
    framework. *)
Lemma run_passes_pred_range (nn : Z) (host : Type)
    (predictNeedsExample : host → bool) (predict : host → request → Z * host) (all : vw)
    (D : task_data) (ec : list example) (h : host) :
  run_ok nn all D ec → host_ok predict (K D) →
  size (confusion_matrix D) = (K D + 1) * (K D + 1) → 1 ≤ num_loops D →
  ∃ D' ec' h' trace,
    run_passes nn host predictNeedsExample predict all D ec h = Done (D', ec', h', trace) ∧
    size (pred D') = N D ∧ Forall (λ p, 1 ≤ p ≤ K D) (pred D').
Proof.
  intros Hok Hhost Hcm Hloops.
  destruct (run_passes_spec nn host predictNeedsExample predict all D ec h Hok Hhost Hcm)
    as (_ & _ & _ & D' & ec' & h' & trace & Hrun & _ & _ & Htags & _).
  destruct (run_passes_start nn host predictNeedsExample predict all D ec h Hok Hcm)
    as (cm & _ & Hok0 & Hfold).
  exists D', ec', h', trace. split; [done|]. rewrite Hfold in Hrun.
  set (D0 := set_pred _ (set_confusion_matrix cm D)) in *.
  set (Inv := λ st : run_state host,
    size (pred st.1.1.1) = N D ∧ N st.1.1.1 = N D ∧ K st.1.1.1 = K D ∧
    ∀ n : nat, Z.of_nat n + 1 ∈ my_tag <$> st.2 →
               ∃ p, pred st.1.1.1 !! n = Some p ∧ 1 ≤ p ≤ K D).
  assert (HI : Inv (D', ec', h', trace)).
  { apply (passes_invariant nn host predictNeedsExample predict all Inv) with (5 := Hrun);
      try done.
    - clear D' ec' h' trace Hrun Htags.
      intros loop D1 ec1 h1 tr n_id st' Hok1 Hhost1 Hi (Hsz & HN1 & HK1 & Hpr) Hp.
      simpl in Hsz, HN1, HK1, Hpr.
      destruct (predict_node_effect nn host predictNeedsExample predict all loop D1 ec1 h1 tr
                  n_id Hok1 Hhost1 Hi)
        as (n & node & node1 & np & c & conds & Hbfs & Hn & Hnode & _ & _ & _ & _ & _ & Hp1 & Hpn).
      rewrite Hpn in Hp. injection Hp as <-. unfold Inv. simpl.
      split; [unfold size in *; by rewrite length_insert|]. split; [done|]. split; [done|].
      intros m Hm. rewrite fmap_app in Hm. simpl in Hm.
      destruct (decide (m = n)) as [->|Hne].
      + eexists. split; [apply list_lookup_insert_eq; unfold size in Hsz; lia|].
        rewrite <- HK1. exact Hp1.
      + rewrite list_lookup_insert_ne by done. apply Hpr.
        apply elem_of_app in Hm as [Hm|Hm%list_elem_of_singleton]; [done|lia].
    - unfold Inv. simpl. split; [unfold size; rewrite length_replicate|].
      { pose proof (ok_N _ _ _ _ Hok). lia. }
      split; [done|]. split; [done|]. intros n Hn. by apply elem_of_nil in Hn. }
  destruct HI as (Hsz & _ & _ & Hpr). simpl in Hsz, Hpr. split; [done|].
  apply Forall_lookup. intros n p Hn.
  destruct (Hpr n) as (p' & Hp' & Hr).
  { rewrite Htags. apply first_pass_tags; [apply Hok|done|].
    apply lookup_lt_Some in Hn. unfold size in Hsz. lia. }
  congruence.
Qed.

(** X6.  When at least one pass is made, the passes of [run] leave every
    node with a prediction the framework returned: [pred] keeps its [N]
    entries and every one of them is a label in [1 .. K], none is the
    sentinel [K+1]. *)
Theorem run_passes_predicts_every_node (nn : Z) (host : Type)
    (predictNeedsExample : host → bool) (predict : host → request → Z * host) (all : vw)
    (D : task_data) (ec : list example) (h : host) :
  run_ok nn all D ec → host_ok predict (K D) →
  size (confusion_matrix D) = (K D + 1) * (K D + 1) → 1 ≤ num_loops D →
  ∃ D' ec' h' trace,
    run_passes nn host predictNeedsExample predict all D ec h = Done (D', ec', h', trace) ∧
    size (pred D') = N D ∧ Forall (λ p, 1 ≤ p ≤ K D) (pred D').
Proof. apply run_passes_pred_range. Qed.

Lemma run_passes_predicts_every_node_witness :
  ∃ D' ec' h' trace,
    run_passes 131 unit (λ _, true) const_predict pair_vw pair_task pair_episode ()
    = Done (D', ec', h', trace) ∧
    size (pred D') = N pair_task ∧ Forall (λ p, 1 ≤ p ≤ K pair_task) (pred D').
Proof.
  apply run_passes_predicts_every_node.
  - exact pair_task_run_ok.
  - exact const_predict_ok.
  - reflexivity.
  - evaluated.
Defined.

(** ** The requests of a run *)

Lemma add_conditions_of_others n e :
  0 ≤ n →
  Forall (λ tc : Z * ascii, tc.1 ≠ n + 1 ∧ 0 ≤ tc.1 < 2 ^ 32 ∧ tc.2 = "e"%char)
    (add_conditions_of n e).
Proof.
  intros Hn. unfold add_conditions_of. apply Forall_flat_map, Forall_forall. intros c _.
  set (m := u32 (class_index c - 1)).
  assert (Hm : 0 ≤ m < 2 ^ 32) by (apply Z.mod_pos_bound; lia).
  destruct (m =? n) eqn:Hmn; [constructor|].
  apply Z.eqb_neq in Hmn. constructor; [|constructor]. simpl.
  split; [|split; [apply Z.mod_pos_bound; lia|done]].
  unfold u32. destruct (decide (m = 2 ^ 32 - 1)) as [->|Hne].
  - replace (2 ^ 32 - 1 + 1) with (2 ^ 32) by lia. rewrite Z_mod_same_full. lia.
  - rewrite Z.mod_small by lia. lia.
Qed.

Lemma add_conditioning_others D n ec conds :
  0 ≤ n → add_conditioning D n ec = Done conds →
  Forall (λ tc : Z * ascii, tc.1 ≠ n + 1 ∧ 0 ≤ tc.1 < 2 ^ 32 ∧ tc.2 = "e"%char) conds.
Proof.
  intros Hn H. unfold add_conditioning in H. apply bind_Done in H as (ids & _ & H).
  revert H. generalize (seqZ 0 (size ids)).
  assert (Hnil : Forall (λ tc : Z * ascii, tc.1 ≠ n + 1 ∧ 0 ≤ tc.1 < 2 ^ 32 ∧ tc.2 = "e"%char) [])
    by constructor.
  revert Hnil. generalize (@nil (Z * ascii)).
  intros acc Hacc l. revert acc Hacc. induction l as [|i l IH]; intros acc Hacc H; simpl in H.
  - by injection H as <-.
  - apply bind_Done in H as (acc' & Hstep & H). apply bind_Done in Hstep as (e & _ & Hstep).
    injection Hstep as <-. eapply IH; [|exact H].
    apply Forall_app. split; [done|]. by apply add_conditions_of_others.
Qed.

Section Requests.
Variable nn : Z.
Variable host : Type.
Variable predictNeedsExample : host → bool.
Variable predict : host → request → Z * host.
Variable all : vw.

Lemma requests_invariant (Q : list example → request → Prop) D ec h :
  (∀ loop D1 ec1 (n : nat) node node1 np c conds,
     run_ok nn all D1 ec1 → N D1 = N D → Z.of_nat n < N D1 → ec1 !! n = Some node →
     same_shape node node1 →
     add_conditioning (set_neighbor_predictions np (set_cur_node c D1)) (Z.of_nat n)
       (<[n := node1]> ec1) = Done conds →
     Q ec1 {| my_tag := Z.of_nat n + 1; input := node1; learner_id := pass_learner D1 loop;
              oracle := oracle_of node; condition_on := conds |}) →
  (∀ ec1 (n : nat) node node2 P, ec1 !! n = Some node → same_shape node node2 →
     Q ec1 P → Q (<[n := node2]> ec1) P) →
  run_ok nn all D ec → host_ok predict (K D) →
  size (confusion_matrix D) = (K D + 1) * (K D + 1) →
  ∃ D' ec' h' trace,
    run_passes nn host predictNeedsExample predict all D ec h = Done (D', ec', h', trace) ∧
    Forall (Q ec') trace.
Proof.
  intros Hreq Hmono Hok Hhost Hcm.
  destruct (run_passes_spec nn host predictNeedsExample predict all D ec h Hok Hhost Hcm)
    as (_ & _ & _ & D' & ec' & h' & trace & Hrun & _).
  destruct (run_passes_start nn host predictNeedsExample predict all D ec h Hok Hcm)
    as (cm & _ & Hok0 & Hfold).
  exists D', ec', h', trace. split; [done|]. rewrite Hfold in Hrun.
  enough (HI : N (D', ec', h', trace).1.1.1 = N D
               ∧ Forall (Q (D', ec', h', trace).1.1.2) (D', ec', h', trace).2) by apply HI.
  apply (passes_invariant nn host predictNeedsExample predict all
           (λ st, N st.1.1.1 = N D ∧ Forall (Q st.1.1.2) st.2)) with (5 := Hrun); try done.
  clear D' ec' h' trace Hrun.
  intros loop D1 ec1 h1 tr n_id st' Hok1 Hhost1 Hi [HN1 HQ] Hp. simpl in HN1, HQ.
  destruct (predict_node_effect nn host predictNeedsExample predict all loop D1 ec1 h1 tr n_id
              Hok1 Hhost1 Hi)
    as (n & node & node1 & np & c & conds & Hbfs & Hn & Hnode & _ & Hsh & Hconds & _ & Hsh2
        & _ & Hpn).
  rewrite Hpn in Hp. injection Hp as <-. simpl. split; [done|].
  apply Forall_app. split.
  - eapply Forall_impl; [exact HQ|]. intros P HP. by eapply Hmono.
  - constructor; [|constructor]. eapply Hmono; [done..|].
    by eapply Hreq.
Qed.
End Requests.

Lemma oracle_of_costs a b : costs b = costs a → oracle_of b = oracle_of a.
Proof. unfold oracle_of, label_or_0. by intros ->. Qed.

Lemma request_for_insert Nn ec (n : nat) node node2 P :
  ec !! n = Some node → same_shape node node2 →
  request_for Nn ec P → request_for Nn (<[n := node2]> ec) P.
Proof.
  intros Hn (Hc & _) (m & nodem & Hlt & Hm & Htag & Hor & Hin).
  destruct (decide (m = n)) as [->|Hne].
  - exists n, node2. assert (nodem = node) as -> by congruence.
    split; [done|]. split; [apply list_lookup_insert_eq; by eapply lookup_lt_Some|].
    split; [done|]. split; [by rewrite (oracle_of_costs node node2)|congruence].
  - exists m, nodem. by rewrite list_lookup_insert_ne.
Qed.

Lemma request_for_costs Nn ec ec' P :
  costs <$> ec' = costs <$> ec → request_for Nn ec' P → request_for Nn ec P.
Proof.
  intros Heq (m & nodem & Hlt & Hm & Htag & Hor & Hin).
  assert (Hl : (costs <$> ec) !! m = Some (costs nodem)).
  { rewrite <- Heq, list_lookup_fmap, Hm. done. }
  rewrite list_lookup_fmap in Hl. destruct (ec !! m) as [node|] eqn:Hnode; [|done].
  injection Hl as Hl. exists m, node. split; [done|]. split; [done|]. split; [done|].
  split; [by rewrite Hor; apply oracle_of_costs|congruence].
Qed.

(** The passes of [run] leave the labels of the records alone. *)
Lemma run_passes_costs (nn : Z) (host : Type) (predictNeedsExample : host → bool)
    (predict : host → request → Z * host) (all : vw)
    (D : task_data) (ec : list example) (h : host) :
  run_ok nn all D ec → host_ok predict (K D) →
  size (confusion_matrix D) = (K D + 1) * (K D + 1) →
  ∃ D' ec' h' trace,
    run_passes nn host predictNeedsExample predict all D ec h = Done (D', ec', h', trace) ∧
    costs <$> ec' = costs <$> ec.
Proof.
  intros Hok Hhost Hcm.
  destruct (run_passes_spec nn host predictNeedsExample predict all D ec h Hok Hhost Hcm)
    as (_ & _ & _ & D' & ec' & h' & trace & Hrun & _).
  exists D', ec', h', trace. split; [done|].
  destruct (run_passes_start nn host predictNeedsExample predict all D ec h Hok Hcm)
    as (cm & _ & Hok0 & Hfold).
  rewrite Hfold in Hrun.
  apply (passes_invariant nn host predictNeedsExample predict all
           (λ st, costs <$> st.1.1.2 = costs <$> ec)) with (5 := Hrun); try done.
  intros loop D1 ec1 h1 tr n_id st' Hok1 Hhost1 Hi HI Hp. simpl in HI.
  destruct (predict_node_effect nn host predictNeedsExample predict all loop D1 ec1 h1 tr
              n_id Hok1 Hhost1 Hi)
    as (n & node & node1 & np & c & conds & _ & _ & Hnode & _ & _ & _ & _ & (Hc & _) & _ & Hpn).
  rewrite Hpn in Hp. injection Hp as <-. simpl.
  rewrite list_fmap_insert, Hc, <- HI. apply list_insert_id.
  by rewrite list_lookup_fmap, Hnode.
Qed.

(** X7.  Every request the passes of [run] make is for a node of the
    episode, one of its first [N] records: its tag is the node's id
    (position plus one, so a value of [1 .. N]), its oracle is the node's
    label, absent for a node without one, and its input carries the node's
    label; the labels of the records are the same after the passes as
    before. *)
Theorem run_passes_requests (nn : Z) (host : Type) (predictNeedsExample : host → bool)
    (predict : host → request → Z * host) (all : vw)
    (D : task_data) (ec : list example) (h : host) :
  run_ok nn all D ec → host_ok predict (K D) →
  size (confusion_matrix D) = (K D + 1) * (K D + 1) →
  ∃ D' ec' h' trace,
    run_passes nn host predictNeedsExample predict all D ec h = Done (D', ec', h', trace) ∧
    costs <$> ec' = costs <$> ec ∧ Forall (request_for (N D) ec) trace.
Proof.
  intros Hok Hhost Hcm.
  destruct (requests_invariant nn host predictNeedsExample predict all (request_for (N D)) D ec h)
    as (D' & ec' & h' & trace & Hrun & Hreq); try done.
  { intros loop D1 ec1 n node node1 np c conds _ HN1 Hn Hnode (Hc & _) _.
    exists n, node. rewrite <- HN1. done. }
  { apply request_for_insert. }
  exists D', ec', h', trace. split; [done|].
  destruct (run_passes_costs nn host predictNeedsExample predict all D ec h Hok Hhost Hcm)
    as (D2 & ec2 & h2 & trace2 & Hrun2 & Hcosts).
  rewrite Hrun in Hrun2. injection Hrun2 as <- <- <- <-.
  split; [done|]. eapply Forall_impl; [exact Hreq|]. intros P. by apply request_for_costs.
Qed.

Lemma run_passes_requests_witness :
  ∃ D' ec' h' trace,
    run_passes 131 unit (λ _, true) const_predict pair_vw pair_task pair_episode ()
    = Done (D', ec', h', trace) ∧
    costs <$> ec' = costs <$> pair_episode ∧
    Forall (request_for (N pair_task) pair_episode) trace.
Proof.
  apply run_passes_requests.
  - exact pair_task_run_ok.
  - exact const_predict_ok.
  - reflexivity.
Defined.

(** X8.  No request of [run] conditions on the node it is for: every
    conditioning reference names a tag other than the request's own, a
    32-bit value, with the tag character ['e']. *)
Theorem run_passes_conditions_on_others (nn : Z) (host : Type)
    (predictNeedsExample : host → bool) (predict : host → request → Z * host) (all : vw)
    (D : task_data) (ec : list example) (h : host) :
  run_ok nn all D ec → host_ok predict (K D) →
  size (confusion_matrix D) = (K D + 1) * (K D + 1) →
  ∃ D' ec' h' trace,
    run_passes nn host predictNeedsExample predict all D ec h = Done (D', ec', h', trace) ∧
    Forall conditions_on_others trace.
Proof.
  intros Hok Hhost Hcm.
  apply (requests_invariant nn host predictNeedsExample predict all
           (λ _, conditions_on_others)); try done.
  intros loop D1 ec1 n node node1 np c conds _ _ _ _ _ Hconds.
  unfold conditions_on_others. simpl.
  exact (add_conditioning_others _ (Z.of_nat n) _ _ (Nat2Z.is_nonneg n) Hconds).
Qed.

Lemma run_passes_conditions_on_others_witness :
  ∃ D' ec' h' trace,
    run_passes 131 unit (λ _, true) const_predict pair_vw pair_task pair_episode ()
    = Done (D', ec', h', trace) ∧
    Forall conditions_on_others trace.
Proof.
  apply run_passes_conditions_on_others.
  - exact pair_task_run_ok.
  - exact const_predict_ok.
  - reflexivity.
Defined.

(** ** Learners *)

Lemma initialize_learners vm num_actions :
  let D := (initialize vm num_actions).1 in
  let v := default 2 (search_graph_num_loops vm) in
  num_loops D = Z.max 1 v ∧
  separate_learners D = search_graph_separate_learners vm && (1 <? v) ∧
  (initialize vm num_actions).2 = (if separate_learners D then Some (num_loops D) else None).
Proof.
  unfold initialize. destruct (search_graph_num_loops vm) as [v|]; simpl.
  - destruct (v <=? 1) eqn:Hv; simpl.
    + rewrite (proj2 (Z.ltb_ge 1 v)) by lia. rewrite andb_false_r. split; [lia|done].
    + rewrite (proj2 (Z.ltb_lt 1 v)) by lia. rewrite andb_true_r.
      split; [lia|]. by destruct (search_graph_separate_learners vm).
  - split; [done|]. by destruct (search_graph_separate_learners vm).
Qed.

(** X9.  [initialize] registers per-pass learners exactly when the option
    is given and more than one pass is configured, and then as many as
    there are passes.  In a run on the state [setup] returns, pass [i]
    routes every request to learner [i] when learners were registered and
    selects none otherwise, so no request names a learner that was not
    registered. *)
Theorem run_selects_registered_learners (nn : Z) (host : Type)
    (predictNeedsExample : host → bool) (predict : host → request → Z * host) (all : vw)
    (vm : options) (num_actions : Z) (ec : list example) (D : task_data) (h : host) :
  setup all (initialize vm num_actions).1 ec = Done D →
  run_ok nn all D ec → host_ok predict (K D) →
  let separate :=
    search_graph_separate_learners vm && (1 <? default 2 (search_graph_num_loops vm)) in
  let passes := Z.max 1 (default 2 (search_graph_num_loops vm)) in
  (initialize vm num_actions).2 = (if separate then Some passes else None) ∧
  ∃ D' ec' h' trace,
    run_passes nn host predictNeedsExample predict all D ec h = Done (D', ec', h', trace) ∧
    learner_id <$> trace
    = flat_map (λ i, replicate (Z.to_nat (N D)) (if separate then Some i else None))
        (seqZ 0 passes) ∧
    Forall (λ r, match learner_id r with
                 | Some i => separate = true ∧ 0 ≤ i < passes
                 | None => separate = false
                 end) trace.
Proof.
  intros Hsetup Hok Hhost separate passes.
  destruct (initialize_learners vm num_actions) as (Hnl & Hsl & Hreg). cbn zeta in *.
  fold separate in Hsl. fold passes in Hnl.
  destruct (setup_frame _ _ _ _ Hsetup) as (Hsl' & Hnl' & HK' & Hcm').
  pose proof (ok_K _ _ _ _ Hok) as [HK HK32].
  assert (Hcm : size (confusion_matrix D) = (K D + 1) * (K D + 1)).
  { destruct (initialize_buffers vm num_actions) as (HKi & Hcmi & _).
    rewrite Hcm', Hcmi. rewrite HKi in HK'. rewrite <- HK'.
    unfold calloc, size. rewrite length_replicate.
    rewrite !(u64_small (K D + 1)) by lia. rewrite u64_small by nia. nia. }
  split. { rewrite Hreg, Hsl, Hnl. done. }
  destruct (run_passes_spec nn host predictNeedsExample predict all D ec h Hok Hhost Hcm)
    as (cm & _ & _ & D' & ec' & h' & trace & Hrun & _ & _ & _ & Hlids).
  exists D', ec', h', trace. split; [exact Hrun|].
  assert (Hlen : length (bfs D) = Z.to_nat (N D)).
  { rewrite (ok_bfs _ _ _ _ Hok), length_seqZ. done. }
  assert (Hlids' : learner_id <$> trace
    = flat_map (λ i, replicate (Z.to_nat (N D)) (if separate then Some i else None))
        (seqZ 0 passes)).
  { rewrite Hlids, Hlen, Hnl', Hnl. apply flat_map_ext_elem. intros i _.
    unfold pass_learner. by rewrite Hsl', Hsl. }
  split; [exact Hlids'|].
  apply Forall_forall. intros r Hr.
  assert (Hin : learner_id r ∈ learner_id <$> trace).
  { apply list_elem_of_fmap. by exists r. }
  rewrite Hlids' in Hin. apply list_elem_of_In, in_flat_map in Hin as (i & Hi & Hin).
  apply list_elem_of_In, elem_of_replicate in Hin as [-> _].
  apply list_elem_of_In, elem_of_seqZ in Hi.
  destruct separate; [split; [done|lia]|done].
Qed.

Lemma run_selects_registered_learners_witness :
  ∃ D' ec' h' trace,
    run_passes 131 unit (λ _, true) const_predict pair_vw separate_task pair_episode ()
    = Done (D', ec', h', trace) ∧
    learner_id <$> trace = [Some 0; Some 0; Some 1; Some 1].
Proof.
  assert (HD : setup pair_vw
                 (initialize {| search_graph_num_loops := None;
                                search_graph_no_structure := false;
                                search_graph_separate_learners := true |} 2).1 pair_episode
               = Done separate_task) by (vm_compute; reflexivity).
  assert (Hok : run_ok 131 pair_vw separate_task pair_episode) by (constructor; evaluated).
  destruct (run_selects_registered_learners 131 unit (λ _, true) const_predict pair_vw
              {| search_graph_num_loops := None; search_graph_no_structure := false;
                 search_graph_separate_learners := true |} 2 pair_episode separate_task ()
              HD Hok const_predict_ok)
    as (_ & D' & ec' & h' & trace & Hrun & Hl & _).
  exists D', ec', h', trace. split; [exact Hrun|exact Hl].
Defined.

(** ** The metric loop *)

(** Labels and predictions up to [K] index distinct cells inside the
    matrix. *)
Lemma IDX_in_range D i j :
  0 ≤ K D → (K D + 1) * (K D + 1) < 2 ^ 64 → 0 ≤ i ≤ K D → 0 ≤ j ≤ K D →
  IDX D i j = i * (K D + 1) + j ∧ 0 ≤ IDX D i j < (K D + 1) * (K D + 1).
Proof.
  intros HK H64 Hi Hj. unfold IDX.
  assert (K D + 1 ≤ (K D + 1) * (K D + 1)) by nia.
  assert (0 ≤ i * (K D + 1) ≤ K D * (K D + 1)).
  { split; [apply Z.mul_nonneg_nonneg; lia|apply Z.mul_le_mono_nonneg_r; lia]. }
  assert (K D * (K D + 1) + K D < (K D + 1) * (K D + 1)) by lia.
  rewrite (u64_small (K D + 1)) by lia. rewrite (u64_small (i * _)) by lia.
  rewrite u64_small by lia. lia.
Qed.

Lemma IDX_inj D i j i' j' :
  0 ≤ K D → 0 ≤ i ≤ K D → 0 ≤ j ≤ K D → 0 ≤ i' ≤ K D → 0 ≤ j' ≤ K D →
  i * (K D + 1) + j = i' * (K D + 1) + j' → i = i' ∧ j = j'.
Proof.
  intros HK Hi Hj Hi' Hj' Heq.
  assert (i = i'); [|subst; lia].
  destruct (Z.lt_trichotomy i i') as [Hlt|[?|Hlt]]; [|done|].
  - assert ((i + 1) * (K D + 1) ≤ i' * (K D + 1)) by (apply Z.mul_le_mono_nonneg_r; lia). lia.
  - assert ((i' + 1) * (K D + 1) ≤ i * (K D + 1)) by (apply Z.mul_le_mono_nonneg_r; lia). lia.
Qed.

Lemma set_confusion_matrix_twice cm cm' D :
  set_confusion_matrix cm (set_confusion_matrix cm' D) = set_confusion_matrix cm D.
Proof. done. Qed.

(** One step of the metric loop on a labeled node. *)
Lemma count_node_spec D ec cm n e p v :
  0 ≤ K D → (K D + 1) * (K D + 1) < 2 ^ 64 →
  0 ≤ n → ec !! Z.to_nat n = Some e → costs e ≠ [] → 0 ≤ label_or_0 e ≤ K D →
  pred D !! Z.to_nat n = Some p → 0 ≤ p ≤ K D →
  size cm = (K D + 1) * (K D + 1) →
  cm !! Z.to_nat (label_or_0 e * (K D + 1) + p) = Some v →
  count_node ec (set_confusion_matrix cm D) n
  = Done (set_confusion_matrix
            (<[Z.to_nat (label_or_0 e * (K D + 1) + p) := u32 (v + 1)]> cm) D).
Proof.
  intros HK H64 Hn He Hne Hlr Hp Hpr Hcm Hv. unfold count_node.
  assert (load ec n = Done e) as -> by (apply load_Done; split; [lia|done]).
  cbn [mbind outcome_bind].
  unfold label_or_0 in *. destruct (costs e) as [|c cs] eqn:Hcs; [done|].
  assert (load (c :: cs) 0 = Done c) as -> by done.
  cbn [mbind outcome_bind]. cbn [pred set_confusion_matrix].
  assert (load (pred D) n = Done p) as -> by (apply load_Done; split; [lia|done]).
  cbn [mbind outcome_bind].
  destruct (IDX_in_range D (class_index c) p HK H64 Hlr Hpr) as [Hidx Hir].
  assert (HIDX : IDX (set_confusion_matrix cm D) (class_index c) p
                 = class_index c * (K D + 1) + p) by exact Hidx.
  rewrite HIDX. rewrite Hidx in Hir. set (idx := class_index c * (K D + 1) + p) in *.
  cbn [confusion_matrix set_confusion_matrix].
  assert (load cm idx = Done v) as -> by (apply load_Done; split; [lia|done]).
  cbn [mbind outcome_bind].
  rewrite store_in_range by (rewrite Hcm; lia). cbn [mbind outcome_bind]. done.
Qed.

Lemma count_nodes_spec D ec l : ∀ cm,
  0 ≤ K D → (K D + 1) * (K D + 1) < 2 ^ 64 →
  labeled_nodes 0 (K D) (N D) ec → size (pred D) = N D →
  Forall (λ p, 0 ≤ p ≤ K D) (pred D) →
  Forall (λ n, 0 ≤ n < N D) l →
  size cm = (K D + 1) * (K D + 1) →
  Forall (λ v, 0 ≤ v ∧ v + size l < 2 ^ 32) cm →
  ∃ cm', fold_outcome (count_node ec) (set_confusion_matrix cm D) l
         = Done (set_confusion_matrix cm' D) ∧
    size cm' = size cm ∧ Forall (λ v, 0 ≤ v) cm' ∧
    ∀ i j, 0 ≤ i ≤ K D → 0 ≤ j ≤ K D →
      default 0 (cm' !! Z.to_nat (i * (K D + 1) + j))
      = default 0 (cm !! Z.to_nat (i * (K D + 1) + j))
        + size (filter (λ n, label_or_0 <$> ec !! Z.to_nat n = Some i
                             ∧ pred D !! Z.to_nat n = Some j) l).
Proof.
  intros cm HK H64 [Hsz Hlab] Hpsz Hpr. revert cm.
  induction l as [|n l IH]; intros cm Hl Hcm Hv.
  - exists cm. split; [done|]. split; [done|]. split.
    { eapply Forall_impl; [exact Hv|]. by intros v [? _]. }
    intros i j _ _. unfold size. simpl. lia.
  - inversion Hl as [|? ? Hn Hl']; subst. cbn [fold_outcome].
    destruct (lookup_lt_is_Some_2 ec (Z.to_nat n)) as [e He]; [unfold size in Hsz; lia|].
    assert (Hle : costs e ≠ [] ∧ 0 ≤ label_or_0 e ≤ K D).
    { rewrite Forall_lookup in Hlab. apply (Hlab (Z.to_nat n)).
      rewrite lookup_take_lt by lia. done. }
    destruct Hle as [Hne Hlr].
    destruct (lookup_lt_is_Some_2 (pred D) (Z.to_nat n)) as [p Hp]; [unfold size in Hpsz; lia|].
    assert (Hpr' : 0 ≤ p ≤ K D) by (rewrite Forall_lookup in Hpr; by apply (Hpr _ _ Hp)).
    set (idx := label_or_0 e * (K D + 1) + p).
    assert (Hir : 0 ≤ idx < (K D + 1) * (K D + 1)).
    { destruct (IDX_in_range D (label_or_0 e) p HK H64 Hlr Hpr') as [Hidx Hir].
      by rewrite Hidx in Hir. }
    destruct (lookup_lt_is_Some_2 cm (Z.to_nat idx)) as [v Hvl]; [unfold size in Hcm; lia|].
    rewrite (count_node_spec D ec cm n e p v) by (done || lia).
    cbn [mbind outcome_bind]. fold idx.
    assert (Hvr : 0 ≤ v ∧ v + size (n :: l) < 2 ^ 32).
    { rewrite Forall_lookup in Hv. by apply (Hv _ _ Hvl). }
    unfold size in Hvr. simpl length in Hvr.
    rewrite u32_small by lia.
    destruct (IH (<[Z.to_nat idx := v + 1]> cm)) as (cm' & Hf & Hsz' & Hpos & Hcells); [done|..].
    { unfold size. rewrite length_insert. exact Hcm. }
    { apply Forall_insert.
      - eapply Forall_impl; [exact Hv|]. intros w [? Hw]. unfold size in *. simpl length in Hw.
        split; [done|lia].
      - unfold size. lia. }
    exists cm'. split; [done|]. split.
    { rewrite Hsz'. unfold size. by rewrite length_insert. }
    split; [done|]. intros i j Hi Hj. rewrite (Hcells i j Hi Hj). rewrite filter_cons.
    assert (Hlabel : label_or_0 <$> ec !! Z.to_nat n = Some (label_or_0 e)) by (by rewrite He).
    destruct (decide (i * (K D + 1) + j = idx)) as [Heq|Hneq].
    + destruct (IDX_inj D i j (label_or_0 e) p) as [-> ->]; try done.
      fold idx. rewrite list_lookup_insert_eq by (unfold size in Hcm; lia). rewrite Hvl. simpl.
      rewrite decide_True by done. unfold size. simpl length. lia.
    + rewrite list_lookup_insert_ne by lia.
      rewrite decide_False; [done|]. intros [Hli Hpj].
      rewrite Hlabel in Hli. rewrite Hp in Hpj. apply Hneq. unfold idx. congruence.
Qed.

(** The metric loop on an episode of labeled nodes. *)
Lemma update_confusion_spec (D : task_data) (ec : list example) :
  matrix_ok D → 0 ≤ N D → labeled_nodes 0 (K D) (N D) ec →
  size (pred D) = N D → Forall (λ p, 0 ≤ p ≤ K D) (pred D) →
  Forall (λ v, 0 ≤ v ∧ v + N D < 2 ^ 32) (confusion_matrix D) →
  ∃ cm', update_confusion D ec = Done (set_confusion_matrix cm' D) ∧
    size cm' = size (confusion_matrix D) ∧ Forall (λ v, 0 ≤ v) cm' ∧
    ∀ i j, 0 ≤ i ≤ K D → 0 ≤ j ≤ K D →
      cell (set_confusion_matrix cm' D) i j = cell D i j + hits D ec i j.
Proof.
  intros (HK & H64 & Hcm) HN Hlab Hpsz Hpr Hv. unfold update_confusion.
  destruct (count_nodes_spec D ec (seqZ 0 (N D)) (confusion_matrix D))
    as (cm' & Hf & Hsz & Hpos & Hc); try done.
  - apply Forall_forall. intros n Hn%elem_of_seqZ. lia.
  - eapply Forall_impl; [exact Hv|]. intros v [? ?]. unfold size. rewrite length_seqZ. lia.
  - exists cm'. split; [|done].
    assert (set_confusion_matrix (confusion_matrix D) D = D) as Heq by (by destruct D).
    rewrite Heq in Hf. done.
Qed.

(** X10.  On an episode whose [N] nodes all carry a label in [0 .. K],
    with predictions in [0 .. K] and no counter about to overflow, the
    metric loop of [run] returns and changes nothing but the confusion
    matrix: the cell of label [i] and prediction [j] grows by the number of
    nodes with that label and that prediction, one increment per node. *)
Theorem update_confusion_counts (D : task_data) (ec : list example) :
  matrix_ok D → 0 ≤ N D → labeled_nodes 0 (K D) (N D) ec →
  size (pred D) = N D → Forall (λ p, 0 ≤ p ≤ K D) (pred D) →
  Forall (λ v, 0 ≤ v ∧ v + N D < 2 ^ 32) (confusion_matrix D) →
  ∃ cm', update_confusion D ec = Done (set_confusion_matrix cm' D) ∧
    size cm' = size (confusion_matrix D) ∧
    ∀ i j, 0 ≤ i ≤ K D → 0 ≤ j ≤ K D →
      cell (set_confusion_matrix cm' D) i j = cell D i j + hits D ec i j.
Proof.
  intros Hok HN Hlab Hpsz Hpr Hv.
  destruct (update_confusion_spec D ec Hok HN Hlab Hpsz Hpr Hv) as (cm' & Hu & Hsz & _ & Hc).
  by exists cm'.
Qed.

Lemma update_confusion_counts_witness :
  ∃ cm', update_confusion (set_pred [1; 1] pair_task) pair_episode
         = Done (set_confusion_matrix cm' (set_pred [1; 1] pair_task)) ∧
    cell (set_confusion_matrix cm' (set_pred [1; 1] pair_task)) 2 1
    = cell (set_pred [1; 1] pair_task) 2 1 + hits (set_pred [1; 1] pair_task) pair_episode 2 1.
Proof.
  destruct (update_confusion_counts (set_pred [1; 1] pair_task) pair_episode)
    as (cm' & Hu & _ & Hc); [evaluated..|].
  exists cm'. split; [exact Hu|]. apply Hc; evaluated.
Defined.

(** ** The range of [macro_f] *)

Lemma Qc_of_Z_le a b : a ≤ b → (Qc_of_Z a <= Qc_of_Z b)%Qc.
Proof. intros H. unfold Qcle. rewrite !Qc_of_Z_this. by rewrite <- Zle_Qle. Qed.

Lemma Qc_of_Z_lt a b : a < b → (Qc_of_Z a < Qc_of_Z b)%Qc.
Proof. intros H. unfold Qclt. rewrite !Qc_of_Z_this. by rewrite <- Zlt_Qlt. Qed.

Lemma Qc_div_mul (s n : Qc) : n ≠ Q2Qc 0 → (s / n * n)%Qc = s.
Proof. intros Hn. rewrite Qcmult_comm. by apply Qcmult_div_r. Qed.

(** A quotient of a part by a positive whole lies in the unit interval. *)
Lemma Qc_div_unit (s n : Qc) :
  (0 <= s)%Qc → (s <= n)%Qc → (0 < n)%Qc → (0 <= s / n)%Qc ∧ (s / n <= 1)%Qc.
Proof.
  intros Hs Hsn Hn. assert (Hne : n ≠ Q2Qc 0) by (symmetry; by apply Qclt_not_eq).
  split; apply (Qcmult_lt_0_le_reg_r _ _ n Hn); rewrite Qc_div_mul by done.
  - by rewrite Qcmult_0_l.
  - by rewrite Qcmult_1_l.
Qed.

Lemma Qc_div_pos (s n : Qc) : (0 < s)%Qc → (0 < n)%Qc → (0 < s / n)%Qc.
Proof.
  intros Hs Hn. assert (Hne : n ≠ Q2Qc 0) by (symmetry; by apply Qclt_not_eq).
  destruct (Qclt_le_dec (Q2Qc 0) (s / n)) as [|Hle]; [done|]. exfalso.
  apply (Qcmult_le_compat_r _ _ n) in Hle; [|by apply Qclt_le_weak].
  rewrite Qc_div_mul, Qcmult_0_l in Hle by done.
  by apply (Qcle_not_lt _ _ Hle).
Qed.

Lemma Qc_mul_le_l (a b : Qc) : (0 <= a)%Qc → (b <= 1)%Qc → (a * b <= a)%Qc.
Proof.
  intros Ha Hb. rewrite Qcmult_comm.
  replace a with (1 * a)%Qc at 2 by apply Qcmult_1_l. by apply Qcmult_le_compat_r.
Qed.

Lemma Qc_add_pos (a b : Qc) : (0 < a)%Qc → (0 < b)%Qc → (0 < a + b)%Qc.
Proof.
  intros Ha Hb. apply Qclt_le_trans with a; [done|].
  replace a with (a + 0)%Qc at 1 by apply Qcplus_0_r.
  apply Qcplus_le_compat; [apply Qcle_refl|by apply Qclt_le_weak].
Qed.

(** The harmonic mean of a precision and a recall lies in the unit interval. *)
Lemma harmonic_unit (c p t : Z) :
  0 < c → c ≤ p → c ≤ t →
  let pre := (Qc_of_Z c / Qc_of_Z p)%Qc in
  let rec := (Qc_of_Z c / Qc_of_Z t)%Qc in
  (0 <= Qc_of_Z 2 * pre * rec / (pre + rec))%Qc ∧
  (Qc_of_Z 2 * pre * rec / (pre + rec) <= 1)%Qc.
Proof.
  intros Hc Hp Ht pre rec.
  assert (H0c : (0 < Qc_of_Z c)%Qc) by (by apply (Qc_of_Z_lt 0 c)).
  assert (H0p : (0 < Qc_of_Z p)%Qc) by (apply (Qc_of_Z_lt 0 p); lia).
  assert (H0t : (0 < Qc_of_Z t)%Qc) by (apply (Qc_of_Z_lt 0 t); lia).
  assert (Hpre : (0 < pre)%Qc) by (by apply Qc_div_pos).
  assert (Hrec : (0 < rec)%Qc) by (by apply Qc_div_pos).
  destruct (Qc_div_unit (Qc_of_Z c) (Qc_of_Z p)) as [_ Hpre1];
    [by apply Qclt_le_weak|by apply Qc_of_Z_le|done|].
  destruct (Qc_div_unit (Qc_of_Z c) (Qc_of_Z t)) as [_ Hrec1];
    [by apply Qclt_le_weak|by apply Qc_of_Z_le|done|].
  fold pre in Hpre1. fold rec in Hrec1.
  assert (Hpr : (0 <= pre * rec)%Qc).
  { rewrite <- (Qcmult_0_l rec). apply Qcmult_le_compat_r; by apply Qclt_le_weak. }
  apply Qc_div_unit.
  - replace (Qc_of_Z 2 * pre * rec)%Qc with (pre * rec + pre * rec)%Qc.
    + rewrite <- (Qcplus_0_l 0). by apply Qcplus_le_compat.
    + change (Qc_of_Z 2) with (1 + 1)%Qc. ring.
  - replace (Qc_of_Z 2 * pre * rec)%Qc with (pre * rec + pre * rec)%Qc.
    + apply Qcplus_le_compat.
      * apply Qc_mul_le_l; [by apply Qclt_le_weak|done].
      * rewrite Qcmult_comm. apply Qc_mul_le_l; [by apply Qclt_le_weak|done].
    + change (Qc_of_Z 2) with (1 + 1)%Qc. ring.
  - by apply Qc_add_pos.
Qed.

Lemma Z_sum_nonneg l : Forall (λ x, 0 ≤ x) l → 0 ≤ Z_sum l.
Proof. induction 1; simpl; lia. Qed.

Lemma Z_sum_member l x : Forall (λ x, 0 ≤ x) l → x ∈ l → x ≤ Z_sum l.
Proof.
  induction 1 as [|y l Hy Hl IH]; intros Hx; [by apply elem_of_nil in Hx|].
  pose proof (Z_sum_nonneg l Hl). simpl.
  apply elem_of_cons in Hx as [->|Hx]; [lia|]. specialize (IH Hx). lia.
Qed.

Lemma cell_nonneg D i j : Forall (λ v, 0 ≤ v) (confusion_matrix D) → 0 ≤ cell D i j.
Proof.
  intros Hv. unfold cell. destruct (_ !! _) as [v|] eqn:Hl; [|done].
  rewrite Forall_lookup in Hv. by apply (Hv _ _ Hl).
Qed.

Lemma f1_unit D k :
  Forall (λ v, 0 ≤ v) (confusion_matrix D) → 1 ≤ k ≤ K D →
  (0 <= f1 D k)%Qc ∧ (f1 D k <= 1)%Qc.
Proof.
  intros Hv Hk. unfold f1. destruct (0 <? cell D k k) eqn:Hc; [|done].
  apply Z.ltb_lt in Hc. apply harmonic_unit; [done|..].
  - unfold predC. apply Z_sum_member.
    + apply Forall_fmap, Forall_forall. intros j _. by apply cell_nonneg.
    + apply list_elem_of_fmap. exists k. split; [done|]. apply elem_of_seqZ. lia.
  - unfold trueC. apply Z_sum_member.
    + apply Forall_fmap, Forall_forall. intros j _. by apply cell_nonneg.
    + apply list_elem_of_fmap. exists k. split; [done|]. apply elem_of_seqZ. lia.
Qed.

Lemma Qc_sum_unit l :
  Forall (λ x, (0 <= x)%Qc ∧ (x <= 1)%Qc) l →
  (0 <= Qc_sum l)%Qc ∧ (Qc_sum l <= Qc_of_Z (size l))%Qc.
Proof.
  induction 1 as [|x l [Hx0 Hx1] _ [IH0 IH1]]; [done|]. simpl. split.
  - rewrite <- (Qcplus_0_l 0). by apply Qcplus_le_compat.
  - unfold size. simpl length. rewrite Nat2Z.inj_succ, <- Z.add_1_l, Qc_of_Z_add.
    by apply Qcplus_le_compat.
Qed.

(** The result of [macro_f] on a matrix of non-negative cells. *)
Lemma macro_f_range (D : task_data) :
  matrix_ok D → Forall (λ v, 0 ≤ v) (confusion_matrix D) →
  ∃ r, macro_f D = Done r ∧
    (r = None ↔ ∀ k, 1 ≤ k ≤ K D → trueC D k = 0) ∧
    ∀ v, r = Some v →
      ((0 <= v)%Qc ∧ (v <= 1)%Qc) ∧
      ∃ l, loss_of r = Some l ∧ (0 <= l)%Qc ∧ (l <= 1)%Qc.
Proof.
  intros Hok Hv. exists (macro_f_spec D). split; [by apply macro_f_refines|].
  unfold macro_f_spec, counted_labels.
  set (ks := filter (λ k, trueC D k ≠ 0) (seqZ 1 (K D))).
  assert (Hks : ∀ k, k ∈ ks ↔ trueC D k ≠ 0 ∧ 1 ≤ k ≤ K D).
  { intros k. unfold ks. rewrite list_elem_of_filter, elem_of_seqZ. split; intros [? ?]; split; (done || lia). }
  split.
  - destruct ks as [|k ks'] eqn:Hksv.
    + split; [|done]. intros _ k Hk.
      destruct (decide (trueC D k = 0)) as [|Hne]; [done|].
      assert (Hin : k ∈ @nil Z) by (by apply Hks). by apply elem_of_nil in Hin.
    + split; [done|]. intros Hall. assert (Hin : k ∈ k :: ks') by (left).
      apply Hks in Hin as [Hne Hk]. by destruct Hne; apply Hall.
  - intros v Hr.
    assert (Hne : ks ≠ []) by (by destruct ks).
    assert (Hval : v = (Qc_sum (f1 D <$> ks) / Qc_of_Z (size ks))%Qc).
    { destruct ks; [done|]. by injection Hr as <-. }
    assert (Hunit : (0 <= v)%Qc ∧ (v <= 1)%Qc).
    { rewrite Hval.
      destruct (Qc_sum_unit (f1 D <$> ks)) as [H0 H1].
      { apply Forall_fmap, Forall_forall. intros k [_ Hk]%Hks. by apply f1_unit. }
      unfold size in H1. rewrite length_fmap in H1.
      apply Qc_div_unit; [done|done|].
      apply (Qc_of_Z_lt 0). destruct ks; [done|]. unfold size. simpl. lia. }
    split; [done|]. destruct Hunit as [H0 H1].
    exists (1 - v)%Qc. split.
    { unfold loss_of. destruct ks; [done|]. by injection Hr as <-. }
    split.
    + apply Qcle_minus_iff in H1. exact H1.
    + apply Qcle_minus_iff. replace (1 + - (1 - v))%Qc with v by ring. done.
Qed.

(** X11.  On a confusion matrix of [(K+1)²] non-negative cells [macro_f]
    returns; its result is not a number exactly when no label of [1 .. K]
    has a node, and otherwise it is a value between 0 and 1, so that the
    loss [run] reports lies between 0 and 1 as well. *)
Theorem macro_f_unit_interval (D : task_data) :
  matrix_ok D → Forall (λ v, 0 ≤ v) (confusion_matrix D) →
  ∃ r, macro_f D = Done r ∧
    (r = None ↔ ∀ k, 1 ≤ k ≤ K D → trueC D k = 0) ∧
    ∀ v, r = Some v →
      ((0 <= v)%Qc ∧ (v <= 1)%Qc) ∧
      ∃ l, loss_of r = Some l ∧ (0 <= l)%Qc ∧ (l <= 1)%Qc.
Proof. apply macro_f_range. Qed.

Lemma macro_f_unit_interval_witness :
  ∃ r, macro_f f1_example_task = Done r ∧
    ∀ v, r = Some v → (0 <= v)%Qc ∧ (v <= 1)%Qc.
Proof.
  destruct (macro_f_unit_interval f1_example_task) as (r & Hr & _ & Hv); [evaluated..|].
  exists r. split; [exact Hr|]. intros v Hrv. exact (proj1 (Hv v Hrv)).
Defined.

(** ** [run] from start to end *)

Lemma labeled_nodes_costs lo Kk Nn ec ec' :
  costs <$> ec' = costs <$> ec → labeled_nodes lo Kk Nn ec → labeled_nodes lo Kk Nn ec'.
Proof.
  intros Hc [Hsz Hlab]. assert (Hlen : length ec' = length ec).
  { rewrite <- (length_fmap costs ec'), Hc. apply length_fmap. }
  split; [unfold size in *; lia|].
  apply Forall_lookup. intros n e' He'.
  apply lookup_take_Some in He' as [He' Hn].
  assert (Hl : (costs <$> ec) !! n = Some (costs e')).
  { rewrite <- Hc, list_lookup_fmap, He'. done. }
  rewrite list_lookup_fmap in Hl. destruct (ec !! n) as [e|] eqn:He; [|done].
  injection Hl as Hl. rewrite Forall_lookup in Hlab.
  destruct (Hlab n e) as [Hne Hr]; [by rewrite lookup_take_lt|].
  unfold label_or_0 in *. rewrite <- Hl. done.
Qed.

Lemma hits_positive D ec (n : nat) e p :
  Z.of_nat n < N D → ec !! n = Some e → pred D !! n = Some p →
  1 ≤ hits D ec (label_or_0 e) p.
Proof.
  intros Hn He Hp. unfold hits.
  assert (Hin : Z.of_nat n ∈ filter (λ m, label_or_0 <$> ec !! Z.to_nat m = Some (label_or_0 e)
                                          ∧ pred D !! Z.to_nat m = Some p) (seqZ 0 (N D))).
  { apply list_elem_of_filter. rewrite Nat2Z.id, He, Hp. split; [done|].
    apply elem_of_seqZ. lia. }
  destruct (filter _ _) as [|x l]; [by apply elem_of_nil in Hin|]. unfold size. simpl. lia.
Qed.

(** [run] on a well-formed episode whose nodes all carry a label. *)
Lemma run_spec (nn : Z) (host : Type) (predictNeedsExample : host → bool)
    (predict : host → request → Z * host) (all : vw)
    (D : task_data) (ec : list example) (h : host) :
  run_ok nn all D ec → host_ok predict (K D) → matrix_ok D →
  1 ≤ num_loops D → 1 ≤ N D → labeled_nodes 1 (K D) (N D) ec →
  ∃ D' ec' h' trace l,
    run nn host predictNeedsExample predict all D ec h = Done ((D', ec', h', trace), Some l) ∧
    ((0 <= l)%Qc ∧ (l <= 1)%Qc) ∧
    size (pred D') = N D ∧ Forall (λ p, 1 ≤ p ≤ K D) (pred D') ∧
    (∀ i j, 0 ≤ i ≤ K D → 0 ≤ j ≤ K D → cell D' i j = hits D' ec i j) ∧
    K D' = K D ∧ num_loops D' = num_loops D ∧ true_counts D' = true_counts D ∧
    size (neighbor_predictions D') = K D + 1 ∧
    size (confusion_matrix D') = (K D + 1) * (K D + 1).
Proof.
  intros Hok Hhost (HK & H64 & Hcm) Hloops HN1 Hlab.
  pose proof (ok_N _ _ _ _ Hok) as HN.
  destruct (run_passes_pred_range nn host predictNeedsExample predict all D ec h
              Hok Hhost Hcm Hloops) as (D1 & ec1 & h1 & trace & Hrun & Hpsz & Hpr).
  destruct (run_passes_costs nn host predictNeedsExample predict all D ec h Hok Hhost Hcm)
    as (D1' & ec1' & h1' & trace' & Hrun' & Hcosts).
  rewrite Hrun in Hrun'. injection Hrun' as <- <- <- <-.
  destruct (run_passes_start nn host predictNeedsExample predict all D ec h Hok Hcm)
    as (cm & Hzero & Hok0 & Hfold).
  set (D0 := set_pred _ (set_confusion_matrix cm D)) in *.
  assert (Hhost0 : host_ok predict (K D0)) by exact Hhost.
  destruct (passes_fold_spec nn host predictNeedsExample predict all (seqZ 0 (num_loops D))
              D0 ec h [] Hok0 Hhost0) as (D2 & ec2 & h2 & Ps & HP & Hok1 & Hfr & _).
  rewrite <- Hfold, Hrun in HP. injection HP as <- <- <- _.
  pose proof (frame_fields D0 D1 Hfr) as (_ & HN1' & HK1 & _ & _ & Hnl1 & _ & _ & _ & Htc1 & Hcm1).
  simpl in HN1', HK1, Hcm1, Hnl1, Htc1.
  unfold run. rewrite Hrun. cbn [mbind outcome_bind].
  assert (Hmat : matrix_ok D1).
  { unfold matrix_ok. rewrite HK1, Hcm1, Hzero. unfold size. rewrite length_replicate.
    split; [done|]. split; [done|]. nia. }
  destruct (update_confusion_spec D1 ec1) as (cm' & Hu & Hsz' & Hpos & Hcells); try done.
  - lia.
  - rewrite HK1, HN1'. apply (labeled_nodes_costs 0 (K D) (N D) ec ec1 Hcosts).
    destruct Hlab as [? Hl]. split; [done|]. eapply Forall_impl; [exact Hl|].
    intros e [? ?]. split; [done|lia].
  - lia.
  - rewrite HK1. eapply Forall_impl; [exact Hpr|]. simpl. lia.
  - rewrite Hcm1, Hzero. apply Forall_replicate. lia.
  - rewrite Hu. cbn [mbind outcome_bind].
    set (D3 := set_confusion_matrix cm' D1) in *.
    assert (Hcell : ∀ i j, 0 ≤ i ≤ K D → 0 ≤ j ≤ K D → cell D3 i j = hits D1 ec1 i j).
    { intros i j Hi Hj. rewrite Hcells by (rewrite HK1; lia).
      unfold cell. rewrite Hcm1, Hzero, HK1.
      destruct (replicate _ 0 !! _) as [z|] eqn:Hz; [|done].
      by apply lookup_replicate in Hz as [-> _]. }
    destruct (macro_f_range D3) as (r & Hr & Hnone & Hsome).
    { unfold matrix_ok, D3. simpl. rewrite HK1, Hsz', Hcm1, Hzero. unfold size.
      rewrite length_replicate. split; [done|]. split; [done|]. nia. }
    { exact Hpos. }
    rewrite Hr. cbn [mbind outcome_bind].
    destruct r as [v|].
    + destruct (Hsome v eq_refl) as (_ & l & Hl & Hl0 & Hl1).
      exists D3, ec1, h1, trace, l. rewrite Hl. split; [done|]. split; [done|].
      split; [exact Hpsz|]. split; [exact Hpr|].
      split; [|split; [exact HK1|split; [exact Hnl1|split; [exact Htc1|split]]]].
      2:{ simpl. rewrite <- HK1. apply (ok_np _ _ _ _ Hok1). }
      2:{ simpl. rewrite Hsz', Hcm1, Hzero. unfold size. rewrite length_replicate. nia. }
      intros i j Hi Hj. rewrite (Hcell i j Hi Hj). unfold hits, D3. simpl.
      rewrite HN1'. f_equal. apply list_filter_iff. intros n.
      assert (Hlk : label_or_0 <$> ec1 !! Z.to_nat n = label_or_0 <$> ec !! Z.to_nat n).
      { assert (Hc : (costs <$> ec1) !! Z.to_nat n = (costs <$> ec) !! Z.to_nat n)
          by (by rewrite Hcosts).
        rewrite !list_lookup_fmap in Hc.
        destruct (ec1 !! _) as [e1|], (ec !! _) as [e|]; simpl in *; try done.
        injection Hc as Hc. unfold label_or_0. by rewrite Hc. }
      by rewrite Hlk.
    + exfalso.
      assert (Hlab1 : labeled_nodes 1 (K D) (N D) ec1) by (by eapply labeled_nodes_costs).
      destruct Hlab1 as [Hsz1 Hl1].
      destruct (lookup_lt_is_Some_2 ec1 0) as [e0 He0]; [unfold size in Hsz1; lia|].
      destruct (lookup_lt_is_Some_2 (pred D1) 0) as [p0 Hp0]; [unfold size in Hpsz; lia|].
      assert (Hk0 : costs e0 ≠ [] ∧ 1 ≤ label_or_0 e0 ≤ K D).
      { rewrite Forall_lookup in Hl1. apply (Hl1 0%nat). rewrite lookup_take_lt by lia. done. }
      assert (Hp0r : 1 ≤ p0 ≤ K D).
      { rewrite Forall_lookup in Hpr. by apply (Hpr _ _ Hp0). }
      pose proof (hits_positive D1 ec1 0 e0 p0 ltac:(lia) He0 Hp0) as Hhit.
      rewrite <- Hcell in Hhit by lia.
      assert (Htrue : cell D3 (label_or_0 e0) p0 ≤ trueC D3 (label_or_0 e0)).
      { unfold trueC. apply Z_sum_member.
        - apply Forall_fmap, Forall_forall. intros j _. by apply cell_nonneg.
        - apply list_elem_of_fmap. exists p0. split; [done|].
          apply elem_of_seqZ. unfold D3. simpl. rewrite HK1. lia. }
      assert (Hz : trueC D3 (label_or_0 e0) = 0).
      { apply (proj1 Hnone eq_refl). unfold D3. simpl. rewrite HK1. lia. }
      lia.
Qed.

(** X12.  On a well-formed episode with at least one node, all of whose
    nodes carry a label in [1 .. K], and with at least one pass, [run]
    returns: it reports a loss between 0 and 1, leaves every node with a
    prediction in [1 .. K], and the confusion matrix it leaves counts, for
    every label and prediction, the nodes with that label and that final
    prediction. *)
Theorem run_returns_loss (nn : Z) (host : Type) (predictNeedsExample : host → bool)
    (predict : host → request → Z * host) (all : vw)
    (D : task_data) (ec : list example) (h : host) :
  run_ok nn all D ec → host_ok predict (K D) → matrix_ok D →
  1 ≤ num_loops D → 1 ≤ N D → labeled_nodes 1 (K D) (N D) ec →
  ∃ D' ec' h' trace l,
    run nn host predictNeedsExample predict all D ec h = Done ((D', ec', h', trace), Some l) ∧
    ((0 <= l)%Qc ∧ (l <= 1)%Qc) ∧
    size (pred D') = N D ∧ Forall (λ p, 1 ≤ p ≤ K D) (pred D') ∧
    ∀ i j, 0 ≤ i ≤ K D → 0 ≤ j ≤ K D → cell D' i j = hits D' ec i j.
Proof.
  intros Hok Hhost Hmat Hloops HN Hlab.
  destruct (run_spec nn host predictNeedsExample predict all D ec h Hok Hhost Hmat Hloops HN Hlab)
    as (D' & ec' & h' & trace & l & Hrun & Hl & Hsz & Hpr & Hcells & _).
  by exists D', ec', h', trace, l.
Qed.

Lemma run_returns_loss_witness :
  ∃ D' ec' h' trace l,
    run 131 unit (λ _, true) const_predict pair_vw pair_task pair_episode ()
    = Done ((D', ec', h', trace), Some l) ∧ (0 <= l)%Qc ∧ (l <= 1)%Qc.
Proof.
  destruct (run_returns_loss 131 unit (λ _, true) const_predict pair_vw pair_task pair_episode ())
    as (D' & ec' & h' & trace & l & Hrun & Hl & _).
  - exact pair_task_run_ok.
  - exact const_predict_ok.
  - evaluated.
  - evaluated.
  - evaluated.
  - evaluated.
  - exists D', ec', h', trace, l. split; [exact Hrun|exact Hl].
Defined.

(** ** The order on connected and on edgeless graphs *)

Lemma closed_reachable adj0 ec l u w :
  closed adj0 ec l → u ∈ l → reachable adj0 ec u w → w ∈ l.
Proof. intros Hcl Hu. induction 1 as [|v w _ IH Hn]; [done|]. by eapply Hcl. Qed.

Lemma order_split (o : list Z) (p : nat) v :
  NoDup o → o !! p = Some v → v ∉ take p o.
Proof.
  intros Hnd Hp Hin. rewrite <- (take_drop p o) in Hnd.
  apply NoDup_app in Hnd as (_ & Hdis & _). apply (Hdis v Hin).
  apply list_elem_of_lookup. exists 0%nat. by rewrite lookup_drop, Nat.add_0_r.
Qed.

(** On a graph in which every node can be reached from node 0 the
    traversal never reseeds. *)
Lemma run_bfs_connected D ec :
  wf_graph (N D) (adj D) ec → 1 ≤ N D < 2 ^ 32 →
  (∀ w, 0 ≤ w < N D → reachable (adj D) ec 0 w) →
  ∃ o, run_bfs D ec = Done (set_bfs o D) ∧ o ≡ₚ seqZ 0 (N D) ∧ o !! 0%nat = Some 0 ∧
    ∀ (p : nat) v, o !! p = Some v → (0 < p)%nat →
      ∃ u, u ∈ take p o ∧ neighbor (adj D) ec u v.
Proof.
  intros Hwf HN Hconn.
  destruct (run_bfs_spec D ec Hwf HN) as (o & Hrun & Hperm & H0 & Hexp & _).
  exists o. split; [done|]. split; [done|]. split; [done|].
  intros p v Hp Hp0. destruct (Hexp p v Hp Hp0) as [Hpar|[Hcl _]]; [done|]. exfalso.
  assert (Hnd : NoDup o) by (rewrite Hperm; apply NoDup_seqZ).
  apply (order_split o p v Hnd Hp).
  apply (closed_reachable (adj D) ec (take p o) 0 v Hcl).
  - apply list_elem_of_lookup. exists 0%nat. rewrite lookup_take_lt by lia. done.
  - apply Hconn. assert (Hin : v ∈ seqZ 0 (N D)).
    { rewrite <- Hperm. by eapply list_elem_of_lookup_2. }
    apply elem_of_seqZ in Hin. lia.
Qed.

(** Without edges the traversal is the identity order. *)
Lemma run_bfs_no_edges D ec :
  1 ≤ N D < 2 ^ 32 → adj D = replicate (Z.to_nat (N D)) [] →
  run_bfs D ec = Done (set_bfs (seqZ 0 (N D)) D).
Proof.
  intros HN Hadj.
  assert (Hnone : ∀ u v, ¬ neighbor (adj D) ec u v).
  { intros u v (_ & ids & id & e & _ & Hids & Hid & _).
    rewrite Hadj in Hids. apply lookup_replicate in Hids as [-> _]. by apply elem_of_nil in Hid. }
  destruct (run_bfs_spec D ec) as (o & Hrun & Hperm & H0 & Hexp & _); [|done|].
  { split; [rewrite Hadj; unfold size; rewrite length_replicate; lia|].
    rewrite Hadj. apply Forall_replicate. constructor. }
  rewrite Hrun. do 2 f_equal.
  assert (Hnd : NoDup o) by (rewrite Hperm; apply NoDup_seqZ).
  assert (Hlen : length o = Z.to_nat (N D)) by (by rewrite Hperm, length_seqZ).
  assert (Hpre : ∀ p : nat, (p ≤ length o)%nat → take p o = seqZ 0 (Z.of_nat p)).
  { induction p as [|p IH]; intros Hple; [done|].
    destruct (lookup_lt_is_Some_2 o p) as [v Hv]; [lia|].
    rewrite (take_S_r _ _ _ Hv), IH by lia.
    replace (Z.of_nat (S p)) with (Z.of_nat p + 1) by lia.
    rewrite seqZ_app by lia. f_equal.
    enough (v = Z.of_nat p) as -> by reflexivity.
    assert (Hvr : 0 ≤ v < N D).
    { assert (Hin : v ∈ seqZ 0 (N D)) by (rewrite <- Hperm; by eapply list_elem_of_lookup_2).
      apply elem_of_seqZ in Hin. lia. }
    pose proof (order_split o p v Hnd Hv) as Hnot. rewrite IH in Hnot by lia.
    rewrite elem_of_seqZ in Hnot.
    destruct p as [|p']; [rewrite H0 in Hv; by injection Hv as <-|].
    destruct (Hexp (S p') v Hv (Nat.lt_0_succ p')) as [(u & _ & Hn)|[_ Hlow]];
      [by apply Hnone in Hn|].
    destruct (decide (v ≤ Z.of_nat (S p'))) as [|Hgt]; [lia|].
    assert (Hlt : 0 ≤ Z.of_nat (S p') < v) by lia.
    specialize (Hlow (Z.of_nat (S p')) Hlt). rewrite IH in Hlow by lia.
    apply elem_of_seqZ in Hlow. lia. }
  rewrite <- (firstn_all o), (Hpre (length o)) by done. f_equal. lia.
Qed.

(** ** What augmentation writes *)

Lemma land_le_r a b : 0 ≤ b → Z.land a b ≤ b.
Proof.
  intros Hb.
  assert (H : Z.land (Z.ldiff b a) (Z.land b a) = 0).
  { apply Z.bits_inj'. intros n Hn.
    rewrite Z.bits_0, !Z.land_spec, Z.ldiff_spec.
    by destruct (Z.testbit b n), (Z.testbit a n). }
  pose proof (Z.lor_ldiff_and b a) as Hor.
  rewrite <- Z.lxor_lor, <- Z.add_nocarry_lxor in Hor by exact H.
  assert (0 ≤ Z.ldiff b a) by (apply Z.ldiff_nonneg; by left).
  rewrite (Z.land_comm a b). lia.
Qed.

Lemma neighbor_bucket_in_mask D fx2 k :
  0 ≤ neighbor_bucket D fx2 k ≤ u32 (mask D).
Proof.
  unfold neighbor_bucket. pose proof (u32_nonneg (mask D)). split.
  - apply Z.land_nonneg. by right.
  - by apply land_le_r.
Qed.

Lemma injected_in_mask D l fs :
  Forall (λ f, 0 ≤ weight_index f ≤ u32 (mask D)) (injected D l fs).
Proof.
  unfold injected. destruct l as [|k [|k' l']]; [constructor| |].
  - apply Forall_forall. intros f Hf. apply list_elem_of_In, in_map_iff in Hf as (g & <- & _).
    apply neighbor_bucket_in_mask.
  - apply Forall_flat_map, Forall_forall. intros f _. unfold group_rule.
    apply Forall_flat_map, Forall_forall. intros k0 _.
    destruct (_ =? 0); constructor; [apply neighbor_bucket_in_mask|constructor].
Qed.

Lemma edge_injection_in_mask D n ec id :
  Forall (λ f, 0 ≤ weight_index f ≤ u32 (mask D)) (edge_injection D n ec id).
Proof.
  unfold edge_injection. destruct (ec !! _); [|constructor].
  destruct (active_features _); try constructor. apply injected_in_mask.
Qed.

(** X13.  [add_edge_features] writes to the node being augmented and to
    nothing else in the episode, and in the node to nothing but the
    neighbor namespace, the list of active namespaces and the two running
    counters: the features of the other namespaces and the label are kept,
    the neighbor namespace receives what the incident edges inject, in the
    order of [adj[n]], and it is appended to the active namespaces.  Every
    injected index lies within the weight mask. *)
Theorem add_edge_features_writes (nn : Z) (all : vw) (D : task_data) (ec : list example)
    (n : nat) (node : example) (ids : list Z) :
  ec !! n = Some node → node_ok nn node → pairs_ok nn all node → multiplier D ≠ 0 →
  size (neighbor_predictions D) = K D + 1 →
  adj D !! n = Some ids →
  Forall (λ id, 0 ≤ id ∧ Z.to_nat id ≠ n ∧
                ∃ edge fs, ec !! Z.to_nat id = Some edge ∧
                  histogram_ok D (Z.of_nat n) edge ∧
                  active_features edge = Done fs ∧ Forall (aligned D) fs) ids →
  let inj := flat_map (edge_injection D (Z.of_nat n) ec) ids in
  ∃ np node',
    add_edge_features nn all D (Z.of_nat n) ec
    = Done (set_neighbor_predictions np (set_cur_node (Z.of_nat n) D), <[n := node']> ec) ∧
    costs node' = costs node ∧ indices node' = indices node ++ [nn] ∧
    atomics node' = alter (λ a, a ++ inj) (Z.to_nat nn) (atomics node) ∧
    sum_feat_sq node'
    = alter (λ s, foldl (λ s g, s + x g * x g)%Qc s inj) (Z.to_nat nn) (sum_feat_sq node) ∧
    Forall (λ f, 0 ≤ weight_index f ≤ u32 (mask D)) inj.
Proof.
  intros Hn Hok Hps Hm Hnp Hadj Hids inj.
  destruct (add_edge_features_spec nn all D ec n node ids) as (np & _ & Hadd); try done.
  fold inj in Hadd.
  pose proof (with_features_shape nn inj node) as (Hc1 & Hi1 & Ha1 & Hs1 & _).
  destruct (register_namespace_spec nn all (with_features nn inj node))
    as (node2 & Hreg & Hc2 & Hi2 & Ha2 & Hs2 & _).
  { by apply node_ok_with_features. }
  { unfold pairs_ok. by rewrite Ha1, Hs1. }
  rewrite Hreg in Hadd. exists np, node2. split; [exact Hadd|].
  split; [congruence|]. split; [congruence|]. split; [by rewrite Ha2|]. split; [by rewrite Hs2|].
  apply Forall_flat_map, Forall_forall. intros id _. apply edge_injection_in_mask.
Qed.

Lemma add_edge_features_writes_witness :
  ∃ np node',
    add_edge_features 131 pair_vw pair_task 0 pair_episode
    = Done (set_neighbor_predictions np (set_cur_node 0 pair_task), <[0%nat := node']> pair_episode) ∧
    indices node' = [110; 131] ∧
    Forall (λ f, 0 ≤ weight_index f ≤ u32 (mask pair_task))
      (flat_map (edge_injection pair_task 0 pair_episode) [2]).
Proof.
  destruct (add_edge_features_writes 131 pair_vw pair_task pair_episode 0
              (make_example [1] 110 [unit_feature 4]) [2])
    as (np & node' & Hadd & _ & Hind & _ & _ & Hmask); [evaluated..|].
  exists np, node'. split; [exact Hadd|]. split; [exact Hind|exact Hmask].
Defined.

(** X14.  Where [char] is signed, a character of a [-q] pair converts to
    an [int] of at most 127, so that no pair names a neighbor namespace
    above 127 (it is 131): the loop over [all.pairs] adds nothing, and
    whatever pairs are configured [add_edge_features] followed by
    [del_edge_features] gives the node back, up to the rounding of the
    total sum of squares. *)
Theorem augment_then_revert_signed_char (nn : Z) (pairs : list string)
    (D : Binary32.task_data) (ec : list Binary32.example) (n : nat)
    (node : Binary32.example) (ids : list Z) :
  127 < nn → Forall (λ p, p ≠ EmptyString) pairs →
  ec !! n = Some node → Binary32.node_ok nn node → Binary32.multiplier D ≠ 0 →
  Binary32.adj D !! n = Some ids →
  Forall (λ id, 0 ≤ id ∧ Z.to_nat id ≠ n ∧
                ∃ edge fs, ec !! Z.to_nat id = Some edge ∧
                  Binary32.histogram_ok D (Z.of_nat n) edge ∧
                  Binary32.active_features edge = Done fs ∧
                  Forall (Binary32.aligned D) fs) ids →
  Binary32.clean_node nn node →
  (∀ node0, fold_outcome (Binary32.add_pair nn true) node0 pairs = Done node0) ∧
  ∃ np ec' node' s,
    Binary32.add_edge_features nn true pairs D (Z.of_nat n) ec
    = Done (Binary32.set_neighbor_predictions np (Binary32.set_cur_node (Z.of_nat n) D), ec') ∧
    ec' !! n = Some node' ∧ Binary32.sum_feat_sq node' !! Z.to_nat nn = Some s ∧
    Binary32.del_edge_features nn (Z.of_nat n) ec'
    = Done (<[n := Binary32.set_total_sum_feat_sq
                     (SFsub 24 128 (SFadd 24 128 (Binary32.total_sum_feat_sq node) s) s)
                     node]> ec).
Proof.
  intros Hnn Hp Hn Hok Hm Hids Hall Hclean.
  pose proof (Binary32Facts.signed_char_no_pair_names nn pairs Hnn Hp) as Hno.
  split; [intros node0; by apply Binary32Facts.add_pairs32_none|].
  by apply (Binary32Facts.augment_revert32 nn true pairs D ec n node ids).
Qed.

Lemma augment_then_revert_signed_char_witness :
  ∃ np ec' ec'',
    Binary32.add_edge_features 131 true [String (ascii_of_nat 131) "n"] Binary32.rounding_task 0
      Binary32.rounding_episode
    = Done (Binary32.set_neighbor_predictions np
              (Binary32.set_cur_node 0 Binary32.rounding_task), ec') ∧
    Binary32.del_edge_features 131 0 ec' = Done ec'' ∧
    Binary32.num_features <$> ec'' !! 0%nat
    = Binary32.num_features <$> Binary32.rounding_episode !! 0%nat.
Proof.
  destruct (augment_then_revert_signed_char 131 [String (ascii_of_nat 131) "n"]
           Binary32.rounding_task Binary32.rounding_episode 0
           (Binary32.make_example [1] 110
              [{| Binary32.x := binary32_of_Z 4096; Binary32.weight_index := 4 |}]) [2])
    as (_ & np & ec' & node' & s & Hadd & Hn & Hs & Hdel); [evaluated..|].
  exists np, ec'. eexists. split; [exact Hadd|]. split; [exact Hdel|]. reflexivity.
Defined.

(** ** Misaligned features *)

Lemma first_misaligned D fs :
  ¬ Forall (aligned D) fs →
  ∃ fs1 f fs2, fs = fs1 ++ f :: fs2 ∧ Forall (aligned D) fs1 ∧ ¬ aligned D f.
Proof.
  induction fs as [|g fs IH]; intros Hn; [by destruct Hn|].
  destruct (decide (weight_index g / multiplier D * multiplier D = weight_index g)) as [Hg|Hg].
  - destruct IH as (fs1 & f & fs2 & -> & Hal & Hf).
    { intros Hall. apply Hn. by constructor. }
    exists (g :: fs1), f, fs2. split; [done|]. split; [by constructor|done].
  - exists [], g, fs. split; [done|]. split; [constructor|done].
Qed.

Section Misaligned.
Variable nn : Z.

Lemma single_fn_eek D ec (n : nat) node f :
  cur_node D = Z.of_nat n → ec !! n = Some node → multiplier D ≠ 0 → ¬ aligned D f →
  add_edge_features_single_fn nn D ec (x f) (weight_index f) = Fatal "eek".
Proof.
  intros Hcur Hn Hm Hal. unfold add_edge_features_single_fn.
  assert (load ec (cur_node D) = Done node) as ->.
  { apply load_Done. rewrite Hcur, Nat2Z.id. split; [lia|done]. }
  cbn [mbind outcome_bind]. rewrite (proj2 (Z.eqb_neq _ _)) by done.
  unfold aligned in Hal. by rewrite (proj2 (Z.eqb_neq _ _)) by done.
Qed.

Lemma group_fn_eek D ec (n : nat) node f :
  cur_node D = Z.of_nat n → ec !! n = Some node → multiplier D ≠ 0 → ¬ aligned D f →
  add_edge_features_group_fn nn D ec (x f) (weight_index f) = Fatal "eek".
Proof.
  intros Hcur Hn Hm Hal. unfold add_edge_features_group_fn.
  assert (load ec (cur_node D) = Done node) as ->.
  { apply load_Done. rewrite Hcur, Nat2Z.id. split; [lia|done]. }
  cbn [mbind outcome_bind]. rewrite (proj2 (Z.eqb_neq _ _)) by done.
  unfold aligned in Hal. by rewrite (proj2 (Z.eqb_neq _ _)) by done.
Qed.

(** [foreach_feature] stops at the first feature the callback rejects. *)
Lemma foreach_feature_eek (T : list example → Qc → Z → outcome (list example))
    (g : feature → list feature) D edge fs ec (n : nat) node :
  active_features edge = Done fs →
  (∀ ec node f, aligned D f → ec !! n = Some node → node_ok nn node →
     T ec (x f) (weight_index f) = Done (<[n := with_features nn (g f) node]> ec)) →
  (∀ ec node f, ¬ aligned D f → ec !! n = Some node →
     T ec (x f) (weight_index f) = Fatal "eek") →
  ec !! n = Some node → node_ok nn node → ¬ Forall (aligned D) fs →
  foreach_feature T edge ec = Fatal "eek".
Proof.
  intros Hfs Hgood Hbad Hn Hok Hnot. unfold foreach_feature. rewrite Hfs.
  cbn [mbind outcome_bind].
  destruct (first_misaligned D fs Hnot) as (fs1 & f & fs2 & -> & Hal & Hf).
  rewrite fold_outcome_app.
  rewrite (fold_push_store nn g (λ s f, T s (x f) (weight_index f)) fs1 n) with (node := node);
    try done.
  - cbn [mbind outcome_bind fold_outcome].
    rewrite (Hbad _ (with_features nn (flat_map g fs1) node)); [done|done|].
    apply list_lookup_insert_eq. by eapply lookup_lt_Some.
  - intros ec' node' f' Hf' Hn' Hok'. apply Hgood; try done.
    rewrite Forall_forall in Hal. by apply Hal.
Qed.

(** An edge with a contributing neighbor and a feature whose index is not
    a multiple of the stride makes [add_edge] stop with the error [eek]. *)
Lemma add_edge_eek D ec (n : nat) node i edge fs :
  cur_node D = Z.of_nat n → ec !! n = Some node → node_ok nn node →
  load ec i = Done edge → histogram_ok D (Z.of_nat n) edge →
  active_features edge = Done fs → multiplier D ≠ 0 →
  contributions D (Z.of_nat n) edge ≠ [] → ¬ Forall (aligned D) fs →
  add_edge nn (Z.of_nat n) (D, ec) i = Fatal "eek".
Proof.
  intros Hcur Hn Hnode Hedge Hok Hfs Hm Hne Hnot.
  pose proof (contributions_range D _ edge Hok) as Hrange.
  pose proof Hok as (Hsz & HK & HK32 & _).
  unfold add_edge. rewrite Hedge. cbn [mbind outcome_bind].
  rewrite edge_histogram_spec by done. cbn [mbind outcome_bind].
  set (l := contributions D (Z.of_nat n) edge) in *.
  set (np := foldl bump _ l).
  assert (Hnp : size np = K D + 1).
  { unfold size, np. rewrite foldl_bump_length, length_replicate. lia. }
  rewrite Qc_is_zero_of_Z.
  change (Q2Qc 1) with (Qc_of_Z 1). rewrite Qc_leb_of_Z.
  destruct l as [|b [|b' l']] eqn:Hl; [done| |].
  - inversion Hrange as [|? ? Hb _]; subst.
    change (size [b] =? 0) with false. change (size [b] <=? 1) with true.
    cbv iota. simpl last. cbv iota.
    rewrite store_in_range by lia. cbn [mbind outcome_bind].
    set (np' := <[_ := _]> np).
    erewrite (foreach_feature_eek (add_edge_features_single_fn nn (set_neighbor_predictions np' D))
               (λ f, [single_rule D b f]) D); try done.
    + intros ec' node' f Hf Hn' Hok'.
      rewrite (single_fn_spec nn _ ec' n node' f (Qc_of_Z (u32 b))); try done.
      * rewrite Qc_to_size_t_of_Z. rewrite u32_small, u64_small by lia. done.
      * simpl. unfold np'. change (Z.to_nat 0) with 0%nat.
        apply list_lookup_insert_eq. unfold size in Hnp. lia.
    + intros ec' node' f Hf Hn'. by apply (single_fn_eek _ ec' n node').
  - assert (2 ≤ size (b :: b' :: l')) by (unfold size; simpl; lia).
    rewrite (proj2 (Z.eqb_neq _ _)) by lia. rewrite (proj2 (Z.leb_gt _ _)) by lia.
    erewrite (foreach_feature_eek (add_edge_features_group_fn nn (set_neighbor_predictions np D))
               (group_rule D (b :: b' :: l')) D); try done.
    + intros ec' node' f Hf Hn' Hok'.
      rewrite (group_fn_spec nn _ ec' n node' f); try done.
      change (neighbor_predictions (set_neighbor_predictions np D)) with np.
      change (group_of_np (set_neighbor_predictions np D) np f) with (group_of_np D np f).
      unfold np. rewrite group_of_np_histogram; [done|].
      eapply Forall_impl; [apply Hrange|]. simpl. lia.
    + intros ec' node' f Hf Hn'. by apply (group_fn_eek _ ec' n node').
Qed.
End Misaligned.

(** X15.  While a node is augmented, an incident edge none of whose other
    endpoints contributes is skipped without a look at its features; an
    edge with a contribution and a feature whose index is not a multiple
    of the stride stops the augmentation with the error [eek]. *)
Theorem add_edge_rejects_misaligned (nn : Z) (D : task_data) (ec : list example) (n : nat)
    (node : example) (i : Z) (edge : example) (fs : list feature) :
  cur_node D = Z.of_nat n → ec !! n = Some node → node_ok nn node →
  load ec i = Done edge → histogram_ok D (Z.of_nat n) edge →
  active_features edge = Done fs → multiplier D ≠ 0 →
  (contributions D (Z.of_nat n) edge ≠ [] → ¬ Forall (aligned D) fs →
   add_edge nn (Z.of_nat n) (D, ec) i = Fatal "eek") ∧
  (contributions D (Z.of_nat n) edge = [] →
   ∃ np, add_edge nn (Z.of_nat n) (D, ec) i = Done (set_neighbor_predictions np D, ec)).
Proof.
  intros Hcur Hn Hnode Hedge Hok Hfs Hm. split.
  - intros Hne Hnot. by apply (add_edge_eek nn D ec n node i edge fs).
  - intros Hnil. unfold add_edge. rewrite Hedge. cbn [mbind outcome_bind].
    rewrite edge_histogram_spec by done. cbn [mbind outcome_bind].
    rewrite Hnil. eexists. reflexivity.
Qed.

Lemma add_edge_rejects_misaligned_witness :
  add_edge 131 0 (pair_task, misaligned_episode) 2 = Fatal "eek".
Proof.
  destruct (add_edge_rejects_misaligned 131 pair_task misaligned_episode 0
              (make_example [1] 110 [unit_feature 4]) 2
              (make_example [1; 2] 101 [unit_feature 12; unit_feature 13])
              [unit_feature 12; unit_feature 13]) as [Heek _]; [evaluated..|].
  apply Heek; [evaluated|].
  intros Hall. inversion Hall as [|? ? _ Hall']; subst.
  inversion Hall' as [|? ? H13 _]; subst. vm_compute in H13. discriminate H13.
Defined.

(** ** Episodes in sequence *)

(** The scan does not read the fields [takedown] clears. *)
Lemma count_records_takedown ec : ∀ D,
  count_records ec (takedown D) = (D' ← count_records ec D; Done (takedown D')).
Proof.
  induction ec as [|e ec IH]; intros D; [done|]. cbn [count_records].
  destruct (example_is_edge e).
  - change (set_E (u32 (E (takedown D) + 1)) (takedown D))
      with (takedown (set_E (u32 (E D + 1)) D)). apply IH.
  - change (E (takedown D)) with (E D). destruct (0 <? E D); [done|].
    change (set_N (u32 (N (takedown D) + 1)) (takedown D))
      with (takedown (set_N (u32 (N D + 1)) D)).
    destruct (costs e) as [|c cs]; [apply IH|].
    change (true_counts (takedown (set_N (u32 (N D + 1)) D)))
      with (true_counts (set_N (u32 (N D + 1)) D)).
    destruct (load _ (class_index c)) as [t| | |]; cbn [mbind outcome_bind]; try done.
    destruct (store _ (class_index c) _) as [tc| | |]; cbn [mbind outcome_bind]; try done.
    apply (IH (set_true_counts_total _ (set_true_counts tc (set_N (u32 (N D + 1)) D)))).
Qed.

(** [setup] after [takedown]. *)
Lemma setup_takedown all D ec : setup all (takedown D) ec = setup all D ec.
Proof.
  unfold setup.
  change (set_E 0 (set_N 0 (set_multiplier _ (set_ss _ (set_wpp _ (set_mask _ (takedown D)))))))
    with (takedown (set_E 0 (set_N 0 (host_fields all D)))).
  fold (host_fields all D).
  rewrite count_records_takedown.
  destruct (count_records ec _) as [D2| | |]; cbn [mbind outcome_bind]; try done.
  change (N (takedown D2)) with (N D2). change (E (takedown D2)) with (E D2).
  destruct (_ && _); [done|]. cbn zeta.
  change (adj (set_adj (replicate (Z.to_nat (N D2)) []) (takedown D2)))
    with (adj (set_adj (replicate (Z.to_nat (N D2)) []) D2)).
  destruct (link_edges _ _ _ _) as [adj1| | |]; cbn [mbind outcome_bind]; try done.
  unfold run_bfs. cbn [N adj set_adj takedown set_pred set_bfs].
  destruct (store _ 0 true) as [t| | |]; cbn [mbind outcome_bind]; try done.
  destruct (bfs_loop _ _ _ _ _ _) as [st| | |]; cbn [mbind outcome_bind]; done.
Qed.

(** X16.  [takedown] clears the adjacency, the order and the predictions
    and nothing else, and [setup] reads none of the three: a [setup] that
    follows a [takedown] gives what it gives without it, so nothing of an
    episode but the label priors reaches the next one. *)
Theorem takedown_then_setup (all : vw) (D : task_data) (ec : list example) :
  setup all (takedown D) ec = setup all D ec ∧
  adj (takedown D) = [] ∧ bfs (takedown D) = [] ∧ pred (takedown D) = [] ∧
  takedown D = set_adj [] (set_pred [] (set_bfs [] D)).
Proof. split; [apply setup_takedown|done]. Qed.

(** X17.  When every node of the episode can be reached from node 0 along
    edges, the order [setup] computes never reseeds: every node after the
    first is another endpoint of an edge incident to a node placed before
    it. *)
Theorem setup_order_connected (all : vw) (D0 : task_data) (ec : list example)
    (D : task_data) :
  setup all D0 ec = Done D → size ec < 2 ^ 32 →
  Forall (λ e, Forall (λ c, 0 ≤ class_index c) (costs e)) (edges_of ec) →
  (∀ w, 0 ≤ w < N D → reachable (adj D) ec 0 w) →
  bfs D ≡ₚ seqZ 0 (N D) ∧ bfs D !! 0%nat = Some 0 ∧
  ∀ (p : nat) v, bfs D !! p = Some v → (0 < p)%nat →
    ∃ u, u ∈ take p (bfs D) ∧ neighbor (adj D) ec u v.
Proof.
  intros H Hsz Hty Hconn.
  destruct (setup_graph all D0 ec D H Hsz Hty) as (_ & HN & Hwf & _).
  destruct (setup_inv all D0 ec D H Hsz) as (D2 & adj1 & o & _ & _ & _ & _ & _ & Hb & ->).
  simpl in *.
  destruct (run_bfs_connected (set_adj adj1 D2) ec Hwf HN Hconn) as (o' & Ho' & Hrest).
  rewrite Hb in Ho'. injection Ho' as <-. exact Hrest.
Qed.

Lemma setup_order_connected_witness :
  bfs pair_task ≡ₚ seqZ 0 (N pair_task) ∧
  ∃ u, u ∈ take 1 (bfs pair_task) ∧ neighbor (adj pair_task) pair_episode u 1.
Proof.
  assert (Hreach : ∀ w, 0 ≤ w < N pair_task → reachable (adj pair_task) pair_episode 0 w).
  { intros w Hw. assert (w = 0 ∨ w = 1) as [-> | ->] by (change (N pair_task) with 2 in Hw; lia).
    - apply reach_here.
    - apply (reach_step _ _ _ 0 1); [apply reach_here|].
      split; [done|]. exists [2], 2, (make_example [1; 2] 101 [unit_feature 12]).
      evaluated. apply list_elem_of_here. apply list_elem_of_further, list_elem_of_here. }
  destruct (setup_order_connected pair_vw (graph_task 2) pair_episode pair_task
              pair_task_setup ltac:(evaluated) ltac:(evaluated) Hreach) as (Hperm & _ & Hpar).
  split; [exact Hperm|]. exact (Hpar 1%nat 1 eq_refl (Nat.lt_0_succ 0)).
Defined.

(** X18.  For an episode without edge records the order [setup] computes
    is the order of the records: [0, 1, ..., N-1]. *)
Theorem setup_order_without_edges (all : vw) (D0 : task_data) (ec : list example)
    (D : task_data) :
  setup all D0 ec = Done D → size ec < 2 ^ 32 → edges_of ec = [] →
  bfs D = seqZ 0 (N D) ∧ N D = size ec ∧ adj D = replicate (Z.to_nat (N D)) [].
Proof.
  intros H Hsz Hnone.
  destruct (setup_graph all D0 ec D H Hsz) as (_ & HN & _); [by rewrite Hnone|].
  destruct (setup_inv all D0 ec D H Hsz) as (D2 & adj1 & o & _ & Hlay & HN2 & _ & Hl & Hb & ->).
  rewrite Hnone in Hl, Hlay. simpl in Hl. injection Hl as <-. simpl in *.
  rewrite (run_bfs_no_edges (set_adj _ D2) ec HN eq_refl) in Hb. injection Hb as <-.
  split; [done|]. split; [|done]. rewrite app_nil_r in Hlay. rewrite HN2. by rewrite <- Hlay.
Qed.

Lemma setup_order_without_edges_witness :
  ∃ D, setup pair_vw (graph_task 2) (take 2 pair_episode) = Done D ∧ bfs D = seqZ 0 (N D).
Proof.
  assert (H : ∃ D, setup pair_vw (graph_task 2) (take 2 pair_episode) = Done D)
    by (eexists; vm_compute; reflexivity).
  destruct H as [D HD]. exists D. split; [exact HD|].
  assert (Hsz : size (take 2 pair_episode) < 2 ^ 32) by evaluated.
  exact (proj1 (setup_order_without_edges pair_vw (graph_task 2) (take 2 pair_episode) D
                  HD Hsz eq_refl)).
Defined.

(** ** From the episode to the loss *)

Lemma count_records_priors_size ec : ∀ D D',
  count_records ec D = Done D' → size (true_counts D') = size (true_counts D).
Proof.
  induction ec as [|e ec IH]; intros D D' H; simpl in H.
  - by injection H as <-.
  - destruct (example_is_edge e); [by rewrite (IH _ _ H)|].
    destruct (0 <? E D); [discriminate|].
    destruct (costs e) as [|c cs]; [by rewrite (IH _ _ H)|].
    apply bind_Done in H as (t & _ & H). apply bind_Done in H as (tc & Hst & H).
    apply store_Done in Hst as [_ ->]. rewrite (IH _ _ H). simpl.
    unfold size. by rewrite length_insert.
Qed.

Lemma increasing_lower l a : increasing l → Forall (λ x, a ≤ x) l →
  ∀ (k : nat) x, l !! k = Some x → a + Z.of_nat k ≤ x.
Proof.
  intros Hinc Hl. induction k as [|k IH]; intros x Hx.
  - rewrite Forall_lookup in Hl. specialize (Hl _ _ Hx). simpl in Hl. lia.
  - destruct (lookup_lt_is_Some_2 l k) as [y Hy]; [apply lookup_lt_Some in Hx; lia|].
    specialize (IH y Hy). pose proof (Hinc k (S k) y x Hy Hx ltac:(lia)). lia.
Qed.

Lemma increasing_length l a b :
  increasing l → Forall (λ x, a ≤ x < b) l → a ≤ b → size l ≤ b - a.
Proof.
  intros Hinc Hl Hab. destruct (decide (l = [])) as [->|Hne]; [unfold size; simpl; lia|].
  destruct (lookup_lt_is_Some_2 l (length l - 1)) as [x Hx].
  { destruct l; [done|]. simpl. lia. }
  pose proof (increasing_lower l a Hinc) as Hlow.
  specialize (Hlow ltac:(eapply Forall_impl; [exact Hl|]; simpl; lia) _ _ Hx).
  rewrite Forall_lookup in Hl. specialize (Hl _ _ Hx). simpl in Hl.
  unfold size. destruct l; [done|]. simpl length in *. lia.
Qed.

Lemma initialize_buffers_ok vm num_actions :
  0 ≤ num_actions → num_actions + 1 < 2 ^ 32 → buffers_ok (initialize vm num_actions).1.
Proof.
  intros H0 H32.
  destruct (initialize_learners vm num_actions) as (Hnl & _). cbn zeta in Hnl.
  destruct (initialize_buffers vm num_actions) as (HK & Hcm & Hnp).
  unfold buffers_ok. rewrite HK, Hcm, Hnp, Hnl.
  assert (Htc : true_counts (initialize vm num_actions).1
                = replicate (Z.to_nat (u64 (num_actions + 1))) (Q2Qc 1)).
  { unfold initialize. destruct (search_graph_num_loops vm); by destruct (_ <=? 1). }
  rewrite Htc. unfold calloc, size. rewrite !length_replicate.
  rewrite !(u64_small (num_actions + 1)) by lia. rewrite u64_small by nia.
  split; [done|]. split; [done|]. split; [lia|]. split; [nia|]. split; lia.
Qed.

(** On an episode that is well-formed for the host and the task, [setup]
    returns a state on which [run] stays inside its arrays. *)
Lemma setup_run_ok nn all D0 ec :
  buffers_ok D0 → episode_ok nn all (K D0) ec →
  ∃ D, setup all D0 ec = Done D ∧ run_ok nn all D ec ∧ buffers_ok D ∧
       N D = size (nodes_of ec).
Proof.
  intros (HK & HK32 & Hnp & Hcm & Htc & Hloops) (Hsz & Hnae & Hnodes & Hm & Hns & Hes).
  cbn zeta in Hm, Hes.
  destruct (records_layout ec) as [|Hlay]; [done|].
  pose proof (size_nonneg (nodes_of ec)). pose proof (size_nonneg (edges_of ec)).
  assert (Hsplit : size ec = size (nodes_of ec) + size (edges_of ec)).
  { rewrite <- size_app. by rewrite <- Hlay. }
  destruct (setup_total all D0 ec) as [D HD]; try done; [lia| | |].
  { eapply Forall_impl; [exact Hns|]. intros e (_ & _ & Hl).
    eapply Forall_impl; [exact Hl|]. simpl. lia. }
  { eapply Forall_impl; [exact Hes|]. by intros e [? _]. }
  exists D. split; [done|].
  destruct (setup_graph all D0 ec D HD) as (HN & HN1 & Hwf & Hperm & _ & _ & _ & Hpred); [lia| |].
  { eapply Forall_impl; [exact Hes|]. intros e [Hc _].
    eapply Forall_impl; [exact Hc|]. simpl. lia. }
  destruct (setup_incidence all D0 ec D HD ltac:(lia)) as [Hadj Hinc].
  destruct (setup_frame _ _ _ _ HD) as (_ & Hnl & HKD & HcmD).
  destruct (setup_inv all D0 ec D HD ltac:(lia))
    as (D2 & adj1 & o & Hc & _ & _ & _ & _ & _ & HDeq).
  pose proof (count_records_frame _ _ _ Hc) as (_ & _ & Hmult & _ & _ & _ & _ & Hnp2 & _).
  pose proof (count_records_priors_size _ _ _ Hc) as Htc2.
  assert (HmD : multiplier D = u64 (Z.shiftl (vw_wpp all) (stride_shift all))).
  { rewrite HDeq. simpl. rewrite Hmult. done. }
  assert (HnpD : neighbor_predictions D = neighbor_predictions D0).
  { rewrite HDeq. simpl. rewrite Hnp2. done. }
  assert (HtcD : size (true_counts D) = size (true_counts D0)).
  { rewrite HDeq. simpl. rewrite Htc2. done. }
  assert (Htake : take (Z.to_nat (N D)) ec = nodes_of ec).
  { rewrite HN. unfold size. rewrite Nat2Z.id.
    transitivity (take (length (nodes_of ec)) (nodes_of ec ++ edges_of ec));
      [by rewrite <- Hlay|by rewrite take_app_length]. }
  assert (Hedge : ∀ id e, N D ≤ id → ec !! Z.to_nat id = Some e → e ∈ edges_of ec).
  { intros id e Hid He. rewrite Hlay in He. rewrite lookup_app_r in He.
    - by eapply list_elem_of_lookup_2.
    - unfold size in HN. lia. }
  split; [|split; [|done]].
  - constructor.
    + lia.
    + rewrite HKD. lia.
    + lia.
    + done.
    + done.
    + apply Forall_lookup. intros n ids Hids. destruct (Hinc n ids Hids) as [Hsorted Hmem].
      split.
      * assert (size ids ≤ size ec - N D); [|lia].
        apply increasing_length; [done| |lia].
        apply Forall_forall. intros id Hid. apply Hmem in Hid. lia.
      * apply Forall_forall. intros id Hid. apply Hmem in Hid as (Hr & e & He & _).
        split; [lia|]. pose proof (Hedge id e ltac:(lia) He) as Hin.
        rewrite Forall_forall in Hes. destruct (Hes e Hin) as (Hcs & fs & Hfs & Hal).
        exists e, fs. split; [done|]. split; [by rewrite HN|]. split; [done|].
        unfold aligned. by rewrite HmD.
    + rewrite Hpred. split; [unfold size; rewrite length_replicate; lia|].
      apply Forall_replicate. rewrite u64_small by lia. lia.
    + by rewrite HnpD, HKD.
    + rewrite HtcD, HKD. lia.
    + by rewrite HmD.
    + rewrite Htake. eapply Forall_impl; [exact Hns|]. intros e (Hno & Hps & Hl).
      split; [done|]. split; [done|]. eapply Forall_impl; [exact Hl|]. simpl.
      rewrite HtcD. lia.
  - unfold buffers_ok. rewrite HKD, HnpD, HcmD, HtcD, Hnl. done.
Qed.

(** X19.  [initialize] allocates the buffers of the task for [K] labels
    ([K+1] histogram cells and priors, [(K+1)²] confusion cells) whenever
    [K+1] fits 32 bits, and [setup] and [takedown] keep them.  On an
    episode that is well-formed for the host and the task, [setup] returns
    a state on which the passes of [run] stay inside every array. *)
Theorem setup_prepares_run (nn : Z) (all : vw) (vm : options) (num_actions : Z)
    (D0 : task_data) (ec : list example) :
  buffers_ok D0 → episode_ok nn all (K D0) ec →
  (0 ≤ num_actions → num_actions + 1 < 2 ^ 32 → buffers_ok (initialize vm num_actions).1) ∧
  ∃ D, setup all D0 ec = Done D ∧ run_ok nn all D ec ∧
       buffers_ok D ∧ buffers_ok (takedown D) ∧ N D = size (nodes_of ec).
Proof.
  intros Hbuf Hep. split; [apply initialize_buffers_ok|].
  destruct (setup_run_ok nn all D0 ec Hbuf Hep) as (D & HD & Hok & HbufD & HN).
  exists D. done.
Qed.

Lemma pair_episode_ok : episode_ok 131 pair_vw (K (graph_task 2)) pair_episode.
Proof.
  assert (Hnae : ¬ node_after_edge pair_episode).
  { change pair_episode with (take 2 pair_episode ++ drop 2 pair_episode).
    apply layout_not_node_after_edge; evaluated. }
  split; [evaluated|]. split; [exact Hnae|]. evaluated.
Defined.

Lemma graph_task_buffers_ok : buffers_ok (graph_task 2).
Proof. evaluated. Defined.

Lemma setup_prepares_run_witness :
  ∃ D, setup pair_vw (graph_task 2) pair_episode = Done D ∧ run_ok 131 pair_vw D pair_episode.
Proof.
  destruct (setup_prepares_run 131 pair_vw
              {| search_graph_num_loops := None; search_graph_no_structure := false;
                 search_graph_separate_learners := false |} 2
              (graph_task 2) pair_episode graph_task_buffers_ok pair_episode_ok)
    as (_ & D & HD & Hok & _).
  exists D. split; [exact HD|exact Hok].
Defined.

(** X20.  An episode from end to end: on a task with its buffers, an
    episode that is well-formed for the host and the task and whose nodes
    all carry a label in [1 .. K], and a framework that answers labels in
    [1 .. K], [setup] returns and [run] on its state returns as well, with
    a loss between 0 and 1 and a prediction in [1 .. K] for every node; the
    buffers are intact after [takedown], ready for the next episode. *)
Theorem episode_returns_loss (nn : Z) (host : Type) (predictNeedsExample : host → bool)
    (predict : host → request → Z * host) (all : vw)
    (D0 : task_data) (ec : list example) (h : host) :
  buffers_ok D0 → episode_ok nn all (K D0) ec →
  labeled_nodes 1 (K D0) (size (nodes_of ec)) ec → host_ok predict (K D0) →
  ∃ D D' ec' h' trace l,
    setup all D0 ec = Done D ∧
    run nn host predictNeedsExample predict all D ec h = Done ((D', ec', h', trace), Some l) ∧
    ((0 <= l)%Qc ∧ (l <= 1)%Qc) ∧
    size (pred D') = size (nodes_of ec) ∧ Forall (λ p, 1 ≤ p ≤ K D0) (pred D') ∧
    buffers_ok (takedown D').
Proof.
  intros Hbuf Hep Hlab Hhost.
  destruct (setup_run_ok nn all D0 ec Hbuf Hep) as (D & HD & Hok & HbufD & HN).
  destruct (setup_frame _ _ _ _ HD) as (_ & _ & HK & _).
  destruct HbufD as (HK0 & HK32 & Hnp & Hcm & Htc & Hloops).
  destruct Hep as (_ & _ & Hnodes & _).
  destruct (run_spec nn host predictNeedsExample predict all D ec h)
    as (D' & ec' & h' & trace & l & Hrun & Hl & Hsz & Hpr & _ & HK' & Hnl' & Htc' & Hnp' & Hcm');
    try done.
  - by rewrite HK.
  - split; [done|]. split; [nia|done].
  - rewrite HN. destruct (nodes_of ec); [done|]. unfold size. simpl. lia.
  - by rewrite HK, HN.
  - exists D, D', ec', h', trace, l. split; [done|]. split; [done|]. split; [done|].
    split; [by rewrite Hsz|]. split; [by rewrite <- HK|].
    unfold buffers_ok. simpl. rewrite HK', Hnl', Htc', Hnp', Hcm'. done.
Qed.

Lemma episode_returns_loss_witness :
  ∃ D D' ec' h' trace l,
    setup pair_vw (graph_task 2) pair_episode = Done D ∧
    run 131 unit (λ _, true) const_predict pair_vw D pair_episode ()
    = Done ((D', ec', h', trace), Some l) ∧ (0 <= l)%Qc ∧ (l <= 1)%Qc.
Proof.
  destruct (episode_returns_loss 131 unit (λ _, true) const_predict pair_vw
              (graph_task 2) pair_episode () graph_task_buffers_ok pair_episode_ok)
    as (D & D' & ec' & h' & trace & l & HD & Hrun & Hl & _).
  - evaluated.
  - exact const_predict_ok.
  - exists D, D', ec', h', trace, l. split; [exact HD|]. split; [exact Hrun|exact Hl].
Defined.

End GraphTask.
